(** * FossFLOW MCP: diagram model, format converter and ASCII renderer

    A shallow embedding of
    - [packages/fossflow-mcp/src/types.ts] (the data model),
    - [packages/fossflow-mcp/src/utils/formatConverter.ts],
    - [packages/fossflow-mcp/src/state/DiagramState.ts],
    - [packages/fossflow-mcp/src/utils/asciiRenderer.ts] (grid drawing),
    followed by the properties of the specification that concern them.
    The mutation methods of [DiagramState.ts] are embedded twice: over
    models as values, and over the objects of a heap ([Module Heap]), where
    a model is a graph of objects that the recipes assign to.

    Conventions.  A JavaScript [number] that the code uses as a tile
    coordinate or as an array index is an integer [Z]; a [string] is a
    [string]; an optional field [f?: T] is an [option T] ([None] is
    [undefined]).  Identifiers produced by [uuidv4()] are drawn from a
    source carried by the [World]; a thrown [TypeError] is the [None]
    outcome of a computation. *)

From stdpp Require Import gmap strings list fin_maps pretty.
From Stdlib Require Import ZArith.
From iris.proofmode Require proofmode.
From iris.base_logic.lib Require gen_heap.

Local Open Scope Z_scope.

(** ** JavaScript primitives used by the sources *)

Module JS.

(** [!!s] for a string: only the empty string is falsy. *)
Definition truthy (s : string) : bool := negb (String.eqb s EmptyString).

(** [s.slice(0, n)] *)
Definition slice0 (n : nat) (s : string) : string := String.substring 0 n s.

(** [s || undefined] *)
Definition or_undefined (s : string) : option string :=
  if truthy s then Some s else None.

(** [o || d] for an optional string [o] *)
Definition or_string (o : option string) (d : string) : string :=
  match o with
  | Some s => if truthy s then s else d
  | None => d
  end.

(** [o || d] and [o ?? d] for an optional value none of whose values is
    falsy (enumeration strings) or where only [undefined] counts ([??]). *)
Definition or_else {A} (o : option A) (d : A) : A := default d o.

(** A string literal wrapped in double quotes, as it appears inside a
    message. *)
Definition quoted (s : string) : string :=
  String (Ascii.ascii_of_nat 34) (s +:+ String (Ascii.ascii_of_nat 34) EmptyString).

(** [`${prefix}${n}`] for an integer [n] *)
Definition template (prefix : string) (n : Z) : string := prefix +:+ pretty n.

End JS.

(** ** Data model ([types.ts])

    Record fields carry a short prefix naming their interface, since the
    interfaces share field names ([id], [items], ...).  Presentation fields
    that none of the embedded functions reads or writes ([View.description],
    [View.lastUpdated], [Connector.startLabel], [Connector.labels],
    [Connector.width], [customColor], ...) are left out. *)

Record Coords := { co_x : Z; co_y : Z }.

Record Icon := { icon_id : string; icon_name : string; icon_url : string }.

Record Color := { color_id : string; color_value : string }.

Record ModelItem := {
  mi_id : string;
  mi_name : string;
  mi_description : option string;
  mi_icon : option string
}.

Record ViewItem := {
  vi_id : string;
  vi_tile : Coords;
  vi_labelHeight : option Z
}.

Record AnchorRef := {
  ref_item : option string;
  ref_anchor : option string;
  ref_tile : option Coords
}.

Record ConnectorAnchor := { an_id : string; an_ref : AnchorRef }.

Inductive ConnectorStyle := SOLID | DOTTED | DASHED.
Inductive ConnectorLineType := SINGLE | DOUBLE | DOUBLE_WITH_CIRCLE.

Record Connector := {
  cn_id : string;
  cn_description : option string;
  cn_color : option string;
  cn_style : option ConnectorStyle;
  cn_lineType : option ConnectorLineType;
  cn_showArrow : option bool;
  cn_anchors : list ConnectorAnchor
}.

Record Rectangle := {
  rect_id : string;
  rect_color : option string;
  rect_from : Coords;
  rect_to : Coords
}.

Inductive TextBoxOrientation := OrientX | OrientY.

Record TextBox := {
  tb_id : string;
  tb_tile : Coords;
  tb_content : string;
  tb_fontSize : option Z;
  tb_orientation : option TextBoxOrientation
}.

Record View := {
  view_id : string;
  view_name : string;
  view_items : list ViewItem;
  view_connectors : option (list Connector);
  view_rectangles : option (list Rectangle);
  view_textBoxes : option (list TextBox)
}.

Record Model := {
  m_version : option string;
  m_title : string;
  m_description : option string;
  m_items : list ModelItem;
  m_views : list View;
  m_icons : list Icon;
  m_colors : list Color
}.

(** The compact format: [t], [i], [v] and the metadata [_] = [{f, v}]. *)
Record CompactMeta := { meta_f : string; meta_v : string }.

Record CompactDiagram := {
  c_t : string;
  c_i : list (string * string * string);
  c_v : list (list (Z * Z * Z) * list (Z * Z));
  c_meta : CompactMeta
}.

(** [Model | CompactDiagram] *)
Inductive Diagram :=
| FullD (m : Model)
| CompactD (c : CompactDiagram).

Record ConnectorPath := {
  path_tiles : list Coords;
  path_rectangle : Coords * Coords
}.

Record Scene := {
  scene_connectors : gmap string ConnectorPath;
  scene_textBoxes : gmap string (Z * Z)
}.

Definition DEFAULT_COLOR : Color :=
  {| color_id := "__DEFAULT__"; color_value := "#6366f1" |}.

Definition DEFAULT_LABEL_HEIGHT : Z := 80.

Definition INITIAL_MODEL : Model :=
  {| m_version := Some "1.0"; m_title := "Untitled"; m_description := None;
     m_items := []; m_views := []; m_icons := []; m_colors := [DEFAULT_COLOR] |}.

Definition INITIAL_SCENE : Scene :=
  {| scene_connectors := ∅; scene_textBoxes := ∅ |}.

(** Field assignments [draft.f = e] on the records that the code updates. *)

Definition set_m_title (t : string) (m : Model) : Model :=
  {| m_version := m_version m; m_title := t; m_description := m_description m;
     m_items := m_items m; m_views := m_views m; m_icons := m_icons m;
     m_colors := m_colors m |}.

Definition set_m_description (d : option string) (m : Model) : Model :=
  {| m_version := m_version m; m_title := m_title m; m_description := d;
     m_items := m_items m; m_views := m_views m; m_icons := m_icons m;
     m_colors := m_colors m |}.

Definition set_m_items (its : list ModelItem) (m : Model) : Model :=
  {| m_version := m_version m; m_title := m_title m;
     m_description := m_description m; m_items := its; m_views := m_views m;
     m_icons := m_icons m; m_colors := m_colors m |}.

Definition set_m_views (vs : list View) (m : Model) : Model :=
  {| m_version := m_version m; m_title := m_title m;
     m_description := m_description m; m_items := m_items m; m_views := vs;
     m_icons := m_icons m; m_colors := m_colors m |}.

Definition set_view_items (its : list ViewItem) (v : View) : View :=
  {| view_id := view_id v; view_name := view_name v; view_items := its;
     view_connectors := view_connectors v;
     view_rectangles := view_rectangles v;
     view_textBoxes := view_textBoxes v |}.

Definition set_view_connectors (cs : option (list Connector)) (v : View) : View :=
  {| view_id := view_id v; view_name := view_name v;
     view_items := view_items v; view_connectors := cs;
     view_rectangles := view_rectangles v;
     view_textBoxes := view_textBoxes v |}.

Definition set_view_rectangles (rs : option (list Rectangle)) (v : View) : View :=
  {| view_id := view_id v; view_name := view_name v;
     view_items := view_items v; view_connectors := view_connectors v;
     view_rectangles := rs; view_textBoxes := view_textBoxes v |}.

Definition set_view_textBoxes (ts : option (list TextBox)) (v : View) : View :=
  {| view_id := view_id v; view_name := view_name v;
     view_items := view_items v; view_connectors := view_connectors v;
     view_rectangles := view_rectangles v; view_textBoxes := ts |}.

(** ** Effects: identifier generation, object allocation, exceptions

    [uuidv4()] is random in the source.  Here the identifiers it returns
    are the successive values of a source [uuid_source] carried by the
    world, so that every statement below holds whatever identifiers are
    generated.  A [DiagramState] instance is an object: the world keeps the
    instances that have been constructed, and a reference to one is its
    position in that list. *)

Record DiagramState := { model : Model; scene : Scene }.

Record World := {
  uuid_source : nat → string;
  uuid_next : nat;
  objects : list DiagramState
}.

Definition M (A : Type) : Type := World → option (A * World).

Definition ret {A} (a : A) : M A := λ w, Some (a, w).

Definition bind {A B} (c : M A) (k : A → M B) : M B :=
  λ w, match c w with
       | Some (a, w') => k a w'
       | None => None
       end.

(** A thrown exception. *)
Definition throw {A} : M A := λ _, None.

(** Lifting of a computation that can only throw. *)
Definition lift {A} (o : option A) : M A :=
  λ w, match o with Some a => Some (a, w) | None => None end.

Declare Scope js_scope.
Delimit Scope js_scope with js.
Notation "'let*' x ':=' c 'in' k" := (bind c (λ x, k))
  (at level 10, x pattern, c at level 100, k at level 200) : js_scope.
Local Open Scope js_scope.

Definition uuidv4 : M string :=
  λ w, Some (uuid_source w (uuid_next w),
             {| uuid_source := uuid_source w; uuid_next := S (uuid_next w);
                objects := objects w |}).

(** [new C(...)] stores the finished instance and returns its reference. *)
Definition alloc (o : DiagramState) : M nat :=
  λ w, Some (length (objects w),
             {| uuid_source := uuid_source w; uuid_next := uuid_next w;
                objects := objects w ++ [o] |}).

(** Reading the fields of [this]. *)
Definition deref (this : nat) : M DiagramState :=
  λ w, match objects w !! this with
       | Some o => Some (o, w)
       | None => None
       end.

(** [l.map((a, index) => f(a, index))] for an effectful callback, in the
    order in which [map] calls it. *)
Fixpoint imapM {A B} (f : nat → A → M B) (index : nat) (l : list A) : M (list B) :=
  match l with
  | [] => ret []
  | a :: l' =>
      let* b := f index a in
      let* bs := imapM f (S index) l' in
      ret (b :: bs)
  end.

(** ** Format converter ([utils/formatConverter.ts]) *)

Module FormatConverter.

Inductive Format := compact | full | unknown.

(** [detectFormat] on a payload that has one of the two declared types:
    a [CompactDiagram] has the fields [t], [i] and [v] with [i] and [v]
    arrays, a [Model] has none of [_], [t], [i], [v] and has [title],
    [items] and [views]; a null or undefined payload is [unknown]. *)
Definition detectFormat (diagram : option Diagram) : Format :=
  match diagram with
  | None => unknown
  | Some (CompactD _) => compact
  | Some (FullD _) => full
  end.

Definition toFull_item (index : nat) (item : string * string * string) : ModelItem :=
  let '(name, icon, description) := item in
  {| mi_id := JS.template "item-" (Z.of_nat index);
     mi_name := name;
     mi_icon := JS.or_undefined icon;
     mi_description := JS.or_undefined description |}.

Definition toFull_viewItem (pos : Z * Z * Z) : ViewItem :=
  let '(itemIndex, x, y) := pos in
  {| vi_id := JS.template "item-" itemIndex;
     vi_tile := {| co_x := x; co_y := y |};
     vi_labelHeight := Some DEFAULT_LABEL_HEIGHT |}.

Definition center_anchor (id itemId : string) : ConnectorAnchor :=
  {| an_id := id;
     an_ref := {| ref_item := Some itemId; ref_anchor := Some "center";
                  ref_tile := None |} |}.

Definition toFull_connector (viewIndex connIndex : nat) (conn : Z * Z) : M Connector :=
  let '(fromIndex, toIndex) := conn in
  let fromItemId := JS.template "item-" fromIndex in
  let toItemId := JS.template "item-" toIndex in
  let* id1 := uuidv4 in
  let* id2 := uuidv4 in
  let anchors := [center_anchor id1 fromItemId; center_anchor id2 toItemId] in
  ret {| cn_id := JS.template "connector-" (Z.of_nat viewIndex) +:+
                  JS.template "-" (Z.of_nat connIndex);
         cn_anchors := anchors;
         cn_style := Some SOLID;
         cn_lineType := Some SINGLE;
         cn_showArrow := Some true;
         cn_color := None;
         cn_description := None |}.

Definition toFull_view (viewIndex : nat)
    (viewData : list (Z * Z * Z) * list (Z * Z)) : M View :=
  let '(positions, connections) := viewData in
  let viewItems := map toFull_viewItem positions in
  let* connectors := imapM (toFull_connector viewIndex) 0 connections in
  ret {| view_id := JS.template "view-" (Z.of_nat viewIndex);
         view_name := if (viewIndex =? 0)%nat then "Main View"
                      else JS.template "View " (Z.of_nat viewIndex + 1);
         view_items := viewItems;
         view_connectors := Some connectors;
         view_rectangles := Some [];
         view_textBoxes := Some [] |}.

Definition toFull (compact : CompactDiagram) : M Model :=
  let items := imap toFull_item (c_i compact) in
  let* views := imapM toFull_view 0 (c_v compact) in
  ret {| m_title := c_t compact;
         m_version := Some (meta_v (c_meta compact));
         m_description := None;
         m_items := items;
         m_views := views;
         m_icons := [];
         m_colors := [DEFAULT_COLOR] |}.

(** [items.forEach((item, index) => itemIndexMap.set(item.id, index))]:
    a later item with the same id replaces the earlier entry. *)
Fixpoint set_indices (items : list ModelItem) (index : nat)
    (itemIndexMap : gmap string nat) : gmap string nat :=
  match items with
  | [] => itemIndexMap
  | item :: rest => set_indices rest (S index) (<[mi_id item := index]> itemIndexMap)
  end.

Definition toCompact_item (item : ModelItem) : string * string * string :=
  (JS.slice0 30 (mi_name item),
   JS.or_string (mi_icon item) EmptyString,
   JS.slice0 100 (JS.or_string (mi_description item) EmptyString)).

Definition toCompact_position (itemIndexMap : gmap string nat)
    (viewItem : ViewItem) : Z * Z * Z :=
  let itemIndex := JS.or_else (itemIndexMap !! vi_id viewItem) 0%nat in
  (Z.of_nat itemIndex, co_x (vi_tile viewItem), co_y (vi_tile viewItem)).

(** The callback of [connectors.map]: the outer [None] is a [TypeError]
    (reading [.ref] of [undefined]), [Some None] is the [null] that the
    following [filter] removes. *)
Definition toCompact_connection (itemIndexMap : gmap string nat)
    (connector : Connector) : option (option (Z * Z)) :=
  let anchors := cn_anchors connector in
  if (length anchors <? 2)%nat then Some None else
  fromAnchor ← anchors !! 0%nat;
  toAnchor ← anchors !! (length anchors - 1)%nat;
  let fromItemId := ref_item (an_ref fromAnchor) in
  let toItemId := ref_item (an_ref toAnchor) in
  match fromItemId, toItemId with
  | Some fromItemId, Some toItemId =>
      if negb (JS.truthy fromItemId) || negb (JS.truthy toItemId) then Some None
      else
        match itemIndexMap !! fromItemId, itemIndexMap !! toItemId with
        | Some fromIndex, Some toIndex =>
            Some (Some (Z.of_nat fromIndex, Z.of_nat toIndex))
        | _, _ => Some None
        end
  | _, _ => Some None
  end.

Definition toCompact_view (itemIndexMap : gmap string nat) (view : View)
    : option (list (Z * Z * Z) * list (Z * Z)) :=
  let positions := map (toCompact_position itemIndexMap) (view_items view) in
  mapped ← mapM (toCompact_connection itemIndexMap)
                (JS.or_else (view_connectors view) []);
  let connections := omap id mapped in
  Some (positions, connections).

Definition toCompact (full : Model) : option CompactDiagram :=
  let itemIndexMap := set_indices (m_items full) 0 ∅ in
  let items := map toCompact_item (m_items full) in
  views ← mapM (toCompact_view itemIndexMap) (m_views full);
  let views := if (length views =? 0)%nat then [([], [])] else views in
  Some {| c_t := JS.slice0 40 (m_title full);
          c_i := items;
          c_v := views;
          c_meta := {| meta_f := "compact"; meta_v := "1.0" |} |}.

(** [normalize]: [detectFormat] answers [compact] exactly for the
    payloads of type [CompactDiagram]. *)
Definition normalize (diagram : Diagram) : M Model :=
  match diagram with
  | CompactD c => toFull c
  | FullD m => ret m
  end.

Inductive OutputFormat := OutFull | OutCompact.

Definition convertToFormat (diagram : Model) (format : OutputFormat) : option Diagram :=
  match format with
  | OutCompact => CompactD <$> toCompact diagram
  | OutFull => Some (FullD diagram)
  end.

(** [validateCompact] on a value of type [CompactDiagram]: the [typeof]
    and [Array.isArray] tests hold by typing, and the tests that remain
    are the length limits and the format tag. *)
Definition validateCompact_title (t : string) : list string :=
  if (40 <? String.length t)%nat then ["Title (t) exceeds 40 characters"] else [].

Definition validateCompact_item (index : nat) (item : string * string * string) : list string :=
  let '(name, icon, description) := item in
  (if (30 <? String.length name)%nat
   then [JS.template "Item " (Z.of_nat index) +:+ " name exceeds 30 characters"]
   else []) ++
  (if (100 <? String.length description)%nat
   then [JS.template "Item " (Z.of_nat index) +:+ " description exceeds 100 characters"]
   else []).

Definition validateCompact_meta (meta : CompactMeta) : list string :=
  if String.eqb (meta_f meta) "compact" then []
  else ["Metadata format (_.f) must be " +:+ JS.quoted "compact"].

Definition validateCompact (diagram : CompactDiagram) : bool * list string :=
  let errors :=
    validateCompact_title (c_t diagram) ++
    concat (imap validateCompact_item (c_i diagram)) ++
    validateCompact_meta (c_meta diagram) in
  (bool_decide (length errors = 0%nat), errors).

End FormatConverter.

(** ** The state manager ([state/DiagramState.ts])

    [produce(base, recipe)] is immer's: the recipe's assignments go to a
    draft of [base], [base] itself is not written, and the finished draft
    is the result.  A recipe is therefore a computation from the model to
    the model that its assignments lead to; the recipes that generate no
    identifier are given as functions and run with [pure].  A method body
    takes the instance [self] it is called on; [call this body] is the
    method call on a reference. *)

Definition produce {A} (base : A) (recipe : A → M A) : M A := recipe base.

Definition pure {A} (f : A → A) : A → M A := λ a, ret (f a).

Definition call {A} (this : nat) (body : DiagramState → M A) : M A :=
  let* self := deref this in body self.

(** Parameter objects of the methods. *)

Record AddNodeParams := {
  addNode_name : string;
  addNode_icon : option string;
  addNode_description : option string;
  addNode_x : Z;
  addNode_y : Z;
  addNode_labelHeight : option Z;
  addNode_viewId : option string
}.

Record UpdateNodeParams := {
  updNode_nodeId : string;
  updNode_name : option string;
  updNode_icon : option string;
  updNode_description : option string;
  updNode_x : option Z;
  updNode_y : option Z;
  updNode_labelHeight : option Z;
  updNode_viewId : option string
}.

Record AddConnectorParams := {
  addConn_fromNodeId : string;
  addConn_toNodeId : string;
  addConn_style : option ConnectorStyle;
  addConn_lineType : option ConnectorLineType;
  addConn_color : option string;
  addConn_showArrow : option bool;
  addConn_label : option string;
  addConn_viewId : option string
}.

Record UpdateConnectorParams := {
  updConn_connectorId : string;
  updConn_style : option ConnectorStyle;
  updConn_lineType : option ConnectorLineType;
  updConn_color : option string;
  updConn_showArrow : option bool;
  updConn_label : option string;
  updConn_viewId : option string
}.

Record AddRectangleParams := {
  addRect_fromX : Z;
  addRect_fromY : Z;
  addRect_toX : Z;
  addRect_toY : Z;
  addRect_color : option string;
  addRect_viewId : option string
}.

Record AddTextBoxParams := {
  addText_x : Z;
  addText_y : Z;
  addText_content : string;
  addText_orientation : option TextBoxOrientation;
  addText_fontSize : option Z;
  addText_viewId : option string
}.

(** Results of the listing methods and of [getInfo]. *)

Record NodeInfo := {
  node_id : string;
  node_name : string;
  node_icon : option string;
  node_description : option string;
  node_position : option Coords
}.

Record ConnectorInfo := {
  conn_id : string;
  conn_from : string;
  conn_to : string;
  conn_style : option ConnectorStyle;
  conn_label : option string
}.

Record DiagramInfo := {
  info_title : string;
  info_description : option string;
  info_nodeCount : nat;
  info_connectorCount : nat;
  info_rectangleCount : nat;
  info_textBoxCount : nat;
  info_viewCount : nat
}.

Module DiagramState.

Import FormatConverter.

Definition createDefaultView : M View :=
  let* id := uuidv4 in
  ret {| view_id := id; view_name := "Main View"; view_items := [];
         view_connectors := Some []; view_rectangles := Some [];
         view_textBoxes := Some [] |}.

(** The constructor; [None] is a missing (or null) argument. *)
Definition new (diagram : option Diagram) : M nat :=
  match diagram with
  | None =>
      let* view := createDefaultView in
      alloc {| model := set_m_views [view] INITIAL_MODEL;
               scene := INITIAL_SCENE |}
  | Some diagram =>
      let* m := normalize diagram in
      let* m := if (length (m_views m) =? 0)%nat
                then let* view := createDefaultView in ret (set_m_views [view] m)
                else ret m in
      alloc {| model := m; scene := INITIAL_SCENE |}
  end.

(** [get primaryView]: [this.model.views[0]], undefined without views. *)
Definition primaryView (self : DiagramState) : option View :=
  m_views (model self) !! 0%nat.

Definition getView (viewId : option string) (self : DiagramState) : option View :=
  match viewId with
  | None => primaryView self
  | Some viewId =>
      if negb (JS.truthy viewId) then primaryView self
      else match list_find (λ v, view_id v = viewId) (m_views (model self)) with
           | Some (_, view) => Some view
           | None => primaryView self
           end
  end.

(** [viewId || this.primaryView.id]; reading [.id] of an undefined
    primary view throws. *)
Definition viewId_or_primary (viewId : option string) (self : DiagramState) : M string :=
  match viewId with
  | Some viewId =>
      if JS.truthy viewId then ret viewId
      else lift (view_id <$> primaryView self)
  | None => lift (view_id <$> primaryView self)
  end.

(** [const view = draft.views.find((v) => v.id === viewId); if (view) ...]:
    the assignments made to [view] are assignments to that element of
    [draft.views]. *)
Definition with_view (viewId : string) (body : View → View) (draft : Model) : Model :=
  match list_find (λ v, view_id v = viewId) (m_views draft) with
  | Some (k, view) => set_m_views (<[k := body view]> (m_views draft)) draft
  | None => draft
  end.

(** [const k = l.findIndex(p); if (k !== -1) l.splice(k, 1)] *)
Definition splice_first {A} (P : A → Prop) `{!∀ a, Decision (P a)} (l : list A) : list A :=
  match list_find P l with
  | Some (k, _) => delete k l
  | None => l
  end.

(** *** Nodes *)

Definition addNode_recipe (nodeId viewId : string) (params : AddNodeParams)
    (draft : Model) : Model :=
  let modelItem := {| mi_id := nodeId; mi_name := addNode_name params;
                      mi_icon := addNode_icon params;
                      mi_description := addNode_description params |} in
  let draft := set_m_items (m_items draft ++ [modelItem]) draft in
  with_view viewId (λ view,
    let viewItem := {| vi_id := nodeId;
                       vi_tile := {| co_x := addNode_x params;
                                     co_y := addNode_y params |};
                       vi_labelHeight :=
                         Some (JS.or_else (addNode_labelHeight params)
                                          DEFAULT_LABEL_HEIGHT) |} in
    set_view_items (view_items view ++ [viewItem]) view) draft.

Definition addNode (params : AddNodeParams) (self : DiagramState) : M nat :=
  let* nodeId := uuidv4 in
  let* viewId := viewId_or_primary (addNode_viewId params) self in
  let* newModel := produce (model self) (pure (addNode_recipe nodeId viewId params)) in
  new (Some (FullD newModel)).

Definition updateNode_item (params : UpdateNodeParams) (modelItem : ModelItem) : ModelItem :=
  {| mi_id := mi_id modelItem;
     mi_name := JS.or_else (updNode_name params) (mi_name modelItem);
     mi_icon := match updNode_icon params with
                | Some icon => Some icon
                | None => mi_icon modelItem
                end;
     mi_description := match updNode_description params with
                       | Some d => Some d
                       | None => mi_description modelItem
                       end |}.

Definition updateNode_viewItem (params : UpdateNodeParams) (viewItem : ViewItem) : ViewItem :=
  {| vi_id := vi_id viewItem;
     vi_tile := {| co_x := JS.or_else (updNode_x params) (co_x (vi_tile viewItem));
                   co_y := JS.or_else (updNode_y params) (co_y (vi_tile viewItem)) |};
     vi_labelHeight := match updNode_labelHeight params with
                       | Some h => Some h
                       | None => vi_labelHeight viewItem
                       end |}.

Definition updateNode_recipe (viewId : string) (params : UpdateNodeParams)
    (draft : Model) : Model :=
  let draft :=
    match list_find (λ i, mi_id i = updNode_nodeId params) (m_items draft) with
    | Some (k, modelItem) =>
        set_m_items (<[k := updateNode_item params modelItem]> (m_items draft)) draft
    | None => draft
    end in
  with_view viewId (λ view,
    match list_find (λ i, vi_id i = updNode_nodeId params) (view_items view) with
    | Some (k, viewItem) =>
        set_view_items (<[k := updateNode_viewItem params viewItem]> (view_items view)) view
    | None => view
    end) draft.

Definition updateNode (params : UpdateNodeParams) (self : DiagramState) : M nat :=
  let* viewId := viewId_or_primary (updNode_viewId params) self in
  let* newModel := produce (model self) (pure (updateNode_recipe viewId params)) in
  new (Some (FullD newModel)).

(** [connector.anchors.some((anchor) => anchor.ref.item === nodeId)] *)
Definition references (nodeId : string) (connector : Connector) : Prop :=
  Exists (λ anchor, ref_item (an_ref anchor) = Some nodeId) (cn_anchors connector).

Global Instance references_dec nodeId connector : Decision (references nodeId connector).
Proof. unfold references. apply _. Defined.

(** The assignments that [removeNode] makes to the view it found. *)
Definition removeNode_view (nodeId : string) (view : View) : View :=
  let view := set_view_items
                (splice_first (λ i, vi_id i = nodeId) (view_items view)) view in
  match view_connectors view with
  | Some connectors =>
      set_view_connectors
        (Some (filter (λ connector, ¬ references nodeId connector) connectors)) view
  | None => view
  end.

Definition removeNode_recipe (nodeId targetViewId : string) (draft : Model) : Model :=
  let draft := set_m_items (splice_first (λ i, mi_id i = nodeId) (m_items draft)) draft in
  with_view targetViewId (removeNode_view nodeId) draft.

Definition removeNode (nodeId : string) (viewId : option string)
    (self : DiagramState) : M nat :=
  let* targetViewId := viewId_or_primary viewId self in
  let* newModel := produce (model self) (pure (removeNode_recipe nodeId targetViewId)) in
  new (Some (FullD newModel)).

Definition listNodes (viewId : option string) (self : DiagramState) : M (list NodeInfo) :=
  let* view := lift (getView viewId self) in
  ret (map (λ item,
         let viewItem := snd <$> list_find (λ vi, vi_id vi = mi_id item) (view_items view) in
         {| node_id := mi_id item; node_name := mi_name item;
            node_icon := mi_icon item; node_description := mi_description item;
            node_position :=
              (λ vi, {| co_x := co_x (vi_tile vi); co_y := co_y (vi_tile vi) |})
                <$> viewItem |})
       (m_items (model self))).

(** *** Connectors *)

(** [view.items.some((i) => i.id === nodeId)] *)
Definition placed (nodeId : string) (view : View) : Prop :=
  Exists (λ i, vi_id i = nodeId) (view_items view).

Global Instance placed_dec nodeId view : Decision (placed nodeId view).
Proof. unfold placed. apply _. Defined.

(** The connector object that [addConnector] builds. *)
Definition addConnector_connector (connectorId anchorId1 anchorId2 : string)
    (params : AddConnectorParams) : Connector :=
  let anchors := [center_anchor anchorId1 (addConn_fromNodeId params);
                  center_anchor anchorId2 (addConn_toNodeId params)] in
  {| cn_id := connectorId;
     cn_anchors := anchors;
     cn_style := Some (JS.or_else (addConn_style params) SOLID);
     cn_lineType := Some (JS.or_else (addConn_lineType params) SINGLE);
     cn_color := addConn_color params;
     cn_showArrow := Some (JS.or_else (addConn_showArrow params) true);
     cn_description := addConn_label params |}.

Definition addConnector_recipe (connectorId viewId : string)
    (params : AddConnectorParams) (draft : Model) : M Model :=
  match list_find (λ v, view_id v = viewId) (m_views draft) with
  | None => ret draft
  | Some (k, view) =>
      let fromExists := bool_decide (placed (addConn_fromNodeId params) view) in
      let toExists := bool_decide (placed (addConn_toNodeId params) view) in
      if negb fromExists || negb toExists then ret draft
      else
        let* anchorId1 := uuidv4 in
        let* anchorId2 := uuidv4 in
        let connector :=
          addConnector_connector connectorId anchorId1 anchorId2 params in
        let view := set_view_connectors
                      (Some (JS.or_else (view_connectors view) [] ++ [connector])) view in
        ret (set_m_views (<[k := view]> (m_views draft)) draft)
  end.

Definition addConnector (params : AddConnectorParams) (self : DiagramState) : M nat :=
  let* connectorId := uuidv4 in
  let* viewId := viewId_or_primary (addConn_viewId params) self in
  let* newModel := produce (model self) (addConnector_recipe connectorId viewId params) in
  new (Some (FullD newModel)).

Definition updateConnector_connector (params : UpdateConnectorParams)
    (connector : Connector) : Connector :=
  {| cn_id := cn_id connector;
     cn_anchors := cn_anchors connector;
     cn_style := match updConn_style params with
                 | Some s => Some s | None => cn_style connector end;
     cn_lineType := match updConn_lineType params with
                    | Some l => Some l | None => cn_lineType connector end;
     cn_color := match updConn_color params with
                 | Some c => Some c | None => cn_color connector end;
     cn_showArrow := match updConn_showArrow params with
                     | Some b => Some b | None => cn_showArrow connector end;
     cn_description := match updConn_label params with
                       | Some l => Some l | None => cn_description connector end |}.

Definition updateConnector_recipe (viewId : string) (params : UpdateConnectorParams)
    (draft : Model) : Model :=
  with_view viewId (λ view,
    match view_connectors view with
    | None => view
    | Some connectors =>
        match list_find (λ c, cn_id c = updConn_connectorId params) connectors with
        | None => view
        | Some (k, connector) =>
            set_view_connectors
              (Some (<[k := updateConnector_connector params connector]> connectors)) view
        end
    end) draft.

Definition updateConnector (params : UpdateConnectorParams) (self : DiagramState) : M nat :=
  let* viewId := viewId_or_primary (updConn_viewId params) self in
  let* newModel := produce (model self) (pure (updateConnector_recipe viewId params)) in
  new (Some (FullD newModel)).

Definition removeConnector_recipe (connectorId targetViewId : string)
    (draft : Model) : Model :=
  with_view targetViewId (λ view,
    match view_connectors view with
    | None => view
    | Some connectors =>
        set_view_connectors
          (Some (splice_first (λ c, cn_id c = connectorId) connectors)) view
    end) draft.

Definition removeConnector (connectorId : string) (viewId : option string)
    (self : DiagramState) : M nat :=
  let* targetViewId := viewId_or_primary viewId self in
  let* newModel := produce (model self) (pure (removeConnector_recipe connectorId targetViewId)) in
  new (Some (FullD newModel)).

Definition listConnectors (viewId : option string) (self : DiagramState)
    : M (list ConnectorInfo) :=
  let* view := lift (getView viewId self) in
  let connectors := JS.or_else (view_connectors view) [] in
  ret (map (λ c,
         {| conn_id := cn_id c;
            conn_from := JS.or_string (a ← cn_anchors c !! 0%nat; ref_item (an_ref a))
                                      EmptyString;
            conn_to := JS.or_string (a ← last (cn_anchors c); ref_item (an_ref a))
                                    EmptyString;
            conn_style := cn_style c;
            conn_label := cn_description c |})
       connectors).

(** *** Rectangles *)

Definition addRectangle_recipe (rectId viewId : string) (params : AddRectangleParams)
    (draft : Model) : Model :=
  with_view viewId (λ view,
    let rectangle :=
      {| rect_id := rectId;
         rect_from := {| co_x := addRect_fromX params; co_y := addRect_fromY params |};
         rect_to := {| co_x := addRect_toX params; co_y := addRect_toY params |};
         rect_color := addRect_color params |} in
    set_view_rectangles
      (Some (JS.or_else (view_rectangles view) [] ++ [rectangle])) view) draft.

Definition addRectangle (params : AddRectangleParams) (self : DiagramState) : M nat :=
  let* rectId := uuidv4 in
  let* viewId := viewId_or_primary (addRect_viewId params) self in
  let* newModel := produce (model self) (pure (addRectangle_recipe rectId viewId params)) in
  new (Some (FullD newModel)).

Definition removeRectangle_recipe (rectangleId targetViewId : string)
    (draft : Model) : Model :=
  with_view targetViewId (λ view,
    match view_rectangles view with
    | None => view
    | Some rectangles =>
        set_view_rectangles
          (Some (splice_first (λ r, rect_id r = rectangleId) rectangles)) view
    end) draft.

Definition removeRectangle (rectangleId : string) (viewId : option string)
    (self : DiagramState) : M nat :=
  let* targetViewId := viewId_or_primary viewId self in
  let* newModel := produce (model self) (pure (removeRectangle_recipe rectangleId targetViewId)) in
  new (Some (FullD newModel)).

(** *** Text boxes *)

Definition addTextBox_recipe (textBoxId viewId : string) (params : AddTextBoxParams)
    (draft : Model) : Model :=
  with_view viewId (λ view,
    let textBox :=
      {| tb_id := textBoxId;
         tb_tile := {| co_x := addText_x params; co_y := addText_y params |};
         tb_content := addText_content params;
         tb_orientation := Some (JS.or_else (addText_orientation params) OrientX);
         tb_fontSize := addText_fontSize params |} in
    set_view_textBoxes
      (Some (JS.or_else (view_textBoxes view) [] ++ [textBox])) view) draft.

Definition addTextBox (params : AddTextBoxParams) (self : DiagramState) : M nat :=
  let* textBoxId := uuidv4 in
  let* viewId := viewId_or_primary (addText_viewId params) self in
  let* newModel := produce (model self) (pure (addTextBox_recipe textBoxId viewId params)) in
  new (Some (FullD newModel)).

Definition removeTextBox_recipe (textBoxId targetViewId : string)
    (draft : Model) : Model :=
  with_view targetViewId (λ view,
    match view_textBoxes view with
    | None => view
    | Some textBoxes =>
        set_view_textBoxes
          (Some (splice_first (λ t, tb_id t = textBoxId) textBoxes)) view
    end) draft.

Definition removeTextBox (textBoxId : string) (viewId : option string)
    (self : DiagramState) : M nat :=
  let* targetViewId := viewId_or_primary viewId self in
  let* newModel := produce (model self) (pure (removeTextBox_recipe textBoxId targetViewId)) in
  new (Some (FullD newModel)).

(** *** Diagram *)

Definition setTitle (title : string) (self : DiagramState) : M nat :=
  let* newModel := produce (model self) (pure (set_m_title title)) in
  new (Some (FullD newModel)).

Definition setDescription (description : string) (self : DiagramState) : M nat :=
  let* newModel := produce (model self) (pure (set_m_description (Some description))) in
  new (Some (FullD newModel)).

Definition toJSON (format : OutputFormat) (self : DiagramState) : M Diagram :=
  lift (convertToFormat (model self) format).

Definition getInfo (self : DiagramState) : M DiagramInfo :=
  let* view := lift (primaryView self) in
  ret {| info_title := m_title (model self);
         info_description := m_description (model self);
         info_nodeCount := length (m_items (model self));
         info_connectorCount := length (JS.or_else (view_connectors view) []);
         info_rectangleCount := length (JS.or_else (view_rectangles view) []);
         info_textBoxCount := length (JS.or_else (view_textBoxes view) []);
         info_viewCount := length (m_views (model self)) |}.

(** [createEmptyDiagram(title?)] *)
Definition createEmptyDiagram (title : option string) : M nat :=
  let* state := new None in
  match title with
  | Some title => if JS.truthy title then call state (setTitle title) else ret state
  | None => ret state
  end.

Definition loadDiagram (diagram : Diagram) : M nat := new (Some diagram).

(** The mutation operations, as one type. *)
Inductive Mutation :=
| AddNode (params : AddNodeParams)
| UpdateNode (params : UpdateNodeParams)
| RemoveNode (nodeId : string) (viewId : option string)
| AddConnector (params : AddConnectorParams)
| UpdateConnector (params : UpdateConnectorParams)
| RemoveConnector (connectorId : string) (viewId : option string)
| AddRectangle (params : AddRectangleParams)
| RemoveRectangle (rectangleId : string) (viewId : option string)
| AddTextBox (params : AddTextBoxParams)
| RemoveTextBox (textBoxId : string) (viewId : option string)
| SetTitle (title : string)
| SetDescription (description : string).

Definition mutate (op : Mutation) : DiagramState → M nat :=
  match op with
  | AddNode params => addNode params
  | UpdateNode params => updateNode params
  | RemoveNode nodeId viewId => removeNode nodeId viewId
  | AddConnector params => addConnector params
  | UpdateConnector params => updateConnector params
  | RemoveConnector connectorId viewId => removeConnector connectorId viewId
  | AddRectangle params => addRectangle params
  | RemoveRectangle rectangleId viewId => removeRectangle rectangleId viewId
  | AddTextBox params => addTextBox params
  | RemoveTextBox textBoxId viewId => removeTextBox textBoxId viewId
  | SetTitle title => setTitle title
  | SetDescription description => setDescription description
  end.

End DiagramState.

(** ** The state manager on the object heap ([state/DiagramState.ts])

    The embedding above takes a model as a value.  In the source a model
    is a graph of objects: [this.model] is a reference,
    [new DiagramState(newModel)] stores the reference it is given, and a
    recipe assigns to fields and calls [push] and [splice] on arrays.
    This second embedding of the mutation methods keeps the objects, their
    references and the assignments, so that it can be asked which objects
    a method writes.

    An object is a cell of the heap, and a reference is the position of
    its cell.  An object holds by value the nested parts that no method
    assigns to (the anchors of a connector, the corners of a rectangle,
    the tile of a text box, the icons and colors of a model); every array
    and every object that a recipe writes is a cell of its own.  An
    instance holds the reference [model]; its [scene] is never written and
    is left out. *)

Abbreviation loc := nat.

Inductive Object :=
| CoordsObject (tile : Coords)
| ModelItemObject (item : ModelItem)
| ViewItemObject (id : string) (tile : loc) (labelHeight : option Z)
| ConnectorObject (connector : Connector)
| RectangleObject (rectangle : Rectangle)
| TextBoxObject (textBox : TextBox)
| ViewObject (id name : string) (items : loc)
             (connectors rectangles textBoxes : option loc)
| ModelObject (version : option string) (title : string)
              (description : option string) (items views : loc)
              (icons : list Icon) (colors : list Color)
| ArrayObject (elements : list loc)
| StateObject (model : loc).

Record Store := {
  st_uuid_source : nat → string;
  st_uuid_next : nat;
  heap : list Object
}.

Module Heap.

(** Computations on the store; [None] is a thrown exception. *)
Definition H (A : Type) : Type := Store → option (A * Store).

Definition ret {A} (a : A) : H A := λ s, Some (a, s).

Definition bind {A B} (c : H A) (k : A → H B) : H B :=
  λ s, match c s with
       | Some (a, s') => k a s'
       | None => None
       end.

Definition throw {A} : H A := λ _, None.

Definition lift {A} (o : option A) : H A :=
  λ s, match o with Some a => Some (a, s) | None => None end.

Declare Scope heap_scope.
Delimit Scope heap_scope with heap.
Notation "'let*' x ':=' c 'in' k" := (bind c (λ x, k))
  (at level 10, x pattern, c at level 100, k at level 200) : heap_scope.
Local Open Scope heap_scope.

Definition uuidv4 : H string :=
  λ s, Some (st_uuid_source s (st_uuid_next s),
             {| st_uuid_source := st_uuid_source s;
                st_uuid_next := S (st_uuid_next s);
                heap := heap s |}).

(** An object literal, an array literal or [new]: a new cell. *)
Definition alloc (o : Object) : H loc :=
  λ s, Some (length (heap s),
             {| st_uuid_source := st_uuid_source s;
                st_uuid_next := st_uuid_next s;
                heap := heap s ++ [o] |}).

Definition read (l : loc) : H Object := λ s, lift (heap s !! l) s.

Definition write (l : loc) (o : Object) : H unit :=
  λ s, if decide (l < length (heap s))%nat
       then Some (tt, {| st_uuid_source := st_uuid_source s;
                         st_uuid_next := st_uuid_next s;
                         heap := <[l := o]> (heap s) |})
       else None.

(** [l.f]: the field [f] of the object at [l].  The objects that the
    methods meet have the class that their TypeScript type states; a field
    read from an object of another class, which that typing excludes, is
    given as an exception. *)
Definition field {A} (f : Object → option A) (l : loc) : H A :=
  let* o := read l in lift (f o).

(** [l.f = v] *)
Definition assign (f : Object → option Object) (l : loc) : H unit :=
  let* o := read l in
  let* o := lift (f o) in
  write l o.

(** [for each e of l]: the callback applied to the elements in order. *)
Fixpoint traverse {A B} (f : A → H B) (l : list A) : H (list B) :=
  match l with
  | [] => ret []
  | a :: l' =>
      let* b := f a in
      let* bs := traverse f l' in
      ret (b :: bs)
  end.

(** *** Fields *)

Definition id_of (o : Object) : option string :=
  match o with
  | ModelItemObject item => Some (mi_id item)
  | ViewItemObject id _ _ => Some id
  | ConnectorObject connector => Some (cn_id connector)
  | RectangleObject rectangle => Some (rect_id rectangle)
  | TextBoxObject textBox => Some (tb_id textBox)
  | ViewObject id _ _ _ _ _ => Some id
  | _ => None
  end.

Definition items_of (o : Object) : option loc :=
  match o with
  | ViewObject _ _ items _ _ _ => Some items
  | ModelObject _ _ _ items _ _ _ => Some items
  | _ => None
  end.

Definition views_of (o : Object) : option loc :=
  match o with
  | ModelObject _ _ _ _ views _ _ => Some views
  | _ => None
  end.

Definition connectors_of (o : Object) : option (option loc) :=
  match o with
  | ViewObject _ _ _ connectors _ _ => Some connectors
  | _ => None
  end.

Definition rectangles_of (o : Object) : option (option loc) :=
  match o with
  | ViewObject _ _ _ _ rectangles _ => Some rectangles
  | _ => None
  end.

Definition textBoxes_of (o : Object) : option (option loc) :=
  match o with
  | ViewObject _ _ _ _ _ textBoxes => Some textBoxes
  | _ => None
  end.

Definition tile_of (o : Object) : option loc :=
  match o with
  | ViewItemObject _ tile _ => Some tile
  | _ => None
  end.

Definition model_of (o : Object) : option loc :=
  match o with
  | StateObject model => Some model
  | _ => None
  end.

Definition elements_of (o : Object) : option (list loc) :=
  match o with
  | ArrayObject elements => Some elements
  | _ => None
  end.

(** *** Field assignments *)

Definition set_elements (elements : list loc) (o : Object) : option Object :=
  match o with
  | ArrayObject _ => Some (ArrayObject elements)
  | _ => None
  end.

Definition set_title (title : string) (o : Object) : option Object :=
  match o with
  | ModelObject version _ description items views icons colors =>
      Some (ModelObject version title description items views icons colors)
  | _ => None
  end.

Definition set_views (views : loc) (o : Object) : option Object :=
  match o with
  | ModelObject version title description items _ icons colors =>
      Some (ModelObject version title description items views icons colors)
  | _ => None
  end.

(** [description] is a field of a model, of a model item and of a
    connector. *)
Definition set_description (description : option string) (o : Object) : option Object :=
  match o with
  | ModelObject version title _ items views icons colors =>
      Some (ModelObject version title description items views icons colors)
  | ModelItemObject item =>
      Some (ModelItemObject {| mi_id := mi_id item; mi_name := mi_name item;
                               mi_description := description;
                               mi_icon := mi_icon item |})
  | ConnectorObject connector =>
      Some (ConnectorObject {| cn_id := cn_id connector;
                               cn_description := description;
                               cn_color := cn_color connector;
                               cn_style := cn_style connector;
                               cn_lineType := cn_lineType connector;
                               cn_showArrow := cn_showArrow connector;
                               cn_anchors := cn_anchors connector |})
  | _ => None
  end.

Definition set_name (name : string) (o : Object) : option Object :=
  match o with
  | ModelItemObject item =>
      Some (ModelItemObject {| mi_id := mi_id item; mi_name := name;
                               mi_description := mi_description item;
                               mi_icon := mi_icon item |})
  | _ => None
  end.

Definition set_icon (icon : option string) (o : Object) : option Object :=
  match o with
  | ModelItemObject item =>
      Some (ModelItemObject {| mi_id := mi_id item; mi_name := mi_name item;
                               mi_description := mi_description item;
                               mi_icon := icon |})
  | _ => None
  end.

Definition set_x (x : Z) (o : Object) : option Object :=
  match o with
  | CoordsObject tile => Some (CoordsObject {| co_x := x; co_y := co_y tile |})
  | _ => None
  end.

Definition set_y (y : Z) (o : Object) : option Object :=
  match o with
  | CoordsObject tile => Some (CoordsObject {| co_x := co_x tile; co_y := y |})
  | _ => None
  end.

Definition set_labelHeight (labelHeight : option Z) (o : Object) : option Object :=
  match o with
  | ViewItemObject id tile _ => Some (ViewItemObject id tile labelHeight)
  | _ => None
  end.

Definition set_style (style : option ConnectorStyle) (o : Object) : option Object :=
  match o with
  | ConnectorObject connector =>
      Some (ConnectorObject {| cn_id := cn_id connector;
                               cn_description := cn_description connector;
                               cn_color := cn_color connector;
                               cn_style := style;
                               cn_lineType := cn_lineType connector;
                               cn_showArrow := cn_showArrow connector;
                               cn_anchors := cn_anchors connector |})
  | _ => None
  end.

Definition set_lineType (lineType : option ConnectorLineType) (o : Object) : option Object :=
  match o with
  | ConnectorObject connector =>
      Some (ConnectorObject {| cn_id := cn_id connector;
                               cn_description := cn_description connector;
                               cn_color := cn_color connector;
                               cn_style := cn_style connector;
                               cn_lineType := lineType;
                               cn_showArrow := cn_showArrow connector;
                               cn_anchors := cn_anchors connector |})
  | _ => None
  end.

Definition set_color (color : option string) (o : Object) : option Object :=
  match o with
  | ConnectorObject connector =>
      Some (ConnectorObject {| cn_id := cn_id connector;
                               cn_description := cn_description connector;
                               cn_color := color;
                               cn_style := cn_style connector;
                               cn_lineType := cn_lineType connector;
                               cn_showArrow := cn_showArrow connector;
                               cn_anchors := cn_anchors connector |})
  | _ => None
  end.

Definition set_showArrow (showArrow : option bool) (o : Object) : option Object :=
  match o with
  | ConnectorObject connector =>
      Some (ConnectorObject {| cn_id := cn_id connector;
                               cn_description := cn_description connector;
                               cn_color := cn_color connector;
                               cn_style := cn_style connector;
                               cn_lineType := cn_lineType connector;
                               cn_showArrow := showArrow;
                               cn_anchors := cn_anchors connector |})
  | _ => None
  end.

Definition set_connectors (connectors : option loc) (o : Object) : option Object :=
  match o with
  | ViewObject id name items _ rectangles textBoxes =>
      Some (ViewObject id name items connectors rectangles textBoxes)
  | _ => None
  end.

Definition set_rectangles (rectangles : option loc) (o : Object) : option Object :=
  match o with
  | ViewObject id name items connectors _ textBoxes =>
      Some (ViewObject id name items connectors rectangles textBoxes)
  | _ => None
  end.

Definition set_textBoxes (textBoxes : option loc) (o : Object) : option Object :=
  match o with
  | ViewObject id name items connectors rectangles _ =>
      Some (ViewObject id name items connectors rectangles textBoxes)
  | _ => None
  end.

(** [if (v !== undefined) l.f = v] *)
Definition assign_defined {A} (v : option A) (f : A → Object → option Object)
    (l : loc) : H unit :=
  match v with
  | Some v => assign (f v) l
  | None => ret tt
  end.

(** *** Array methods

    The callbacks of the source test the [id] of an element, or the
    anchors of a connector: they are predicates on the element object. *)

(** [(x) => x.id === id] *)
Definition has_id (id : string) (o : Object) : Prop := id_of o = Some id.

Global Instance has_id_dec id o : Decision (has_id id o).
Proof. unfold has_id. apply _. Defined.

(** [(connector) => connector.anchors.some((anchor) => anchor.ref.item === nodeId)] *)
Definition anchored (nodeId : string) (o : Object) : Prop :=
  match o with
  | ConnectorObject connector => DiagramState.references nodeId connector
  | _ => False
  end.

Global Instance anchored_dec nodeId o : Decision (anchored nodeId o).
Proof. destruct o; simpl; apply _. Defined.

Definition array_push (array element : loc) : H unit :=
  let* elements := field elements_of array in
  assign (set_elements (elements ++ [element])) array.

(** [array.splice(index, 1)] *)
Definition array_splice (array : loc) (index : nat) : H unit :=
  let* elements := field elements_of array in
  assign (set_elements (delete index elements)) array.

(** [array.findIndex(p)]; [None] is [-1]. *)
Definition array_findIndex (P : Object → Prop) `{!∀ o, Decision (P o)}
    (array : loc) : H (option nat) :=
  let* elements := field elements_of array in
  let* objects := traverse read elements in
  ret (fst <$> list_find P objects).

(** [array.find(p)]; [None] is [undefined]. *)
Definition array_find (P : Object → Prop) `{!∀ o, Decision (P o)}
    (array : loc) : H (option loc) :=
  let* elements := field elements_of array in
  let* index := array_findIndex P array in
  ret (index ≫= λ index, elements !! index).

(** [array.some(p)] *)
Definition array_some (P : Object → Prop) `{!∀ o, Decision (P o)}
    (array : loc) : H bool :=
  let* elements := field elements_of array in
  let* objects := traverse read elements in
  ret (bool_decide (Exists P objects)).

(** The elements that [array.filter(p)] keeps. *)
Fixpoint select (P : Object → Prop) `{!∀ o, Decision (P o)}
    (elements : list loc) : H (list loc) :=
  match elements with
  | [] => ret []
  | element :: elements =>
      let* o := read element in
      let* kept := select P elements in
      ret (if decide (P o) then element :: kept else kept)
  end.

(** [array.filter(p)]: a new array. *)
Definition array_filter (P : Object → Prop) `{!∀ o, Decision (P o)}
    (array : loc) : H loc :=
  let* elements := field elements_of array in
  let* kept := select P elements in
  alloc (ArrayObject kept).

(** [const k = array.findIndex(p); if (k !== -1) array.splice(k, 1)] *)
Definition splice_first (P : Object → Prop) `{!∀ o, Decision (P o)}
    (array : loc) : H unit :=
  let* index := array_findIndex P array in
  match index with
  | Some index => array_splice array index
  | None => ret tt
  end.

(** *** immer *)

(** The draft that [produce], below, hands to the recipe: the copy of an
    object that holds no reference to an object that is written, of an
    array, of a view item, of a view and of a model. *)
Definition copy_object (l : loc) : H loc :=
  let* o := read l in alloc o.

Definition copy_array (copy_element : loc → H loc) (array : loc) : H loc :=
  let* elements := field elements_of array in
  let* elements := traverse copy_element elements in
  alloc (ArrayObject elements).

Definition copy_optional (copy : loc → H loc) (l : option loc) : H (option loc) :=
  match l with
  | Some l => let* l := copy l in ret (Some l)
  | None => ret None
  end.

Definition copy_viewItem (l : loc) : H loc :=
  let* o := read l in
  match o with
  | ViewItemObject id tile labelHeight =>
      let* tile := copy_object tile in
      alloc (ViewItemObject id tile labelHeight)
  | _ => throw
  end.

Definition copy_view (l : loc) : H loc :=
  let* o := read l in
  match o with
  | ViewObject id name items connectors rectangles textBoxes =>
      let* items := copy_array copy_viewItem items in
      let* connectors := copy_optional (copy_array copy_object) connectors in
      let* rectangles := copy_optional (copy_array copy_object) rectangles in
      let* textBoxes := copy_optional (copy_array copy_object) textBoxes in
      alloc (ViewObject id name items connectors rectangles textBoxes)
  | _ => throw
  end.

Definition copy_model (l : loc) : H loc :=
  let* o := read l in
  match o with
  | ModelObject version title description items views icons colors =>
      let* items := copy_array copy_object items in
      let* views := copy_array copy_view views in
      alloc (ModelObject version title description items views icons colors)
  | _ => throw
  end.

(** Modelled from the spec: immer's [produce], a dependency whose code is
    not among the sources.  [produce(base, recipe)] calls the recipe on a
    draft of [base] and returns the finished draft; what the recipe
    assigns to the draft, and to what it reaches from the draft, does not
    reach [base].  The draft is given here as a copy of the object graph
    of [base], made of new objects: the specification names the deep copy
    at each mutation boundary as a mechanism with the behavior of the
    draft.  (immer makes its copies when the recipe writes and returns the
    unwritten parts of [base] as they are; the specification leaves that
    sharing free, and it is not modelled.)  The recipe itself is a
    computation on the whole store: nothing in [produce] keeps it from
    writing to an object that is not part of the draft. *)
Definition produce (base : loc) (recipe : loc → H unit) : H loc :=
  let* draft := copy_model base in
  let* _ := recipe draft in
  ret draft.

(** *** The class *)

Definition createDefaultView : H loc :=
  let* id := uuidv4 in
  let* items := alloc (ArrayObject []) in
  let* connectors := alloc (ArrayObject []) in
  let* rectangles := alloc (ArrayObject []) in
  let* textBoxes := alloc (ArrayObject []) in
  alloc (ViewObject id "Main View" items (Some connectors) (Some rectangles)
           (Some textBoxes)).

(** The constructor on a model object, [new DiagramState(newModel)], as
    the mutation methods call it: [normalize] returns a model as it is,
    so that [this.model] is the object given and not a copy of it.  With no
    view, [this.model] is the new object [{...this.model, views: [...]}],
    which has the other fields of the object given. *)
Definition new (diagram : loc) : H loc :=
  let* views := field views_of diagram in
  let* elements := field elements_of views in
  let* model :=
    if (length elements =? 0)%nat
    then let* view := createDefaultView in
         let* views := alloc (ArrayObject [view]) in
         let* o := read diagram in
         let* o := lift (set_views views o) in
         alloc o
    else ret diagram in
  alloc (StateObject model).

(** [get primaryView]: [this.model.views[0]] *)
Definition primaryView (this : loc) : H (option loc) :=
  let* model := field model_of this in
  let* views := field views_of model in
  let* elements := field elements_of views in
  ret (elements !! 0%nat).

(** [viewId || this.primaryView.id] *)
Definition viewId_or_primary (viewId : option string) (this : loc) : H string :=
  let primaryView_id :=
    let* view := primaryView this in
    match view with
    | Some view => field id_of view
    | None => throw
    end in
  match viewId with
  | Some viewId => if JS.truthy viewId then ret viewId else primaryView_id
  | None => primaryView_id
  end.

(** [const view = draft.views.find((v) => v.id === viewId); if (view) ...] *)
Definition with_view (viewId : string) (body : loc → H unit) (draft : loc) : H unit :=
  let* views := field views_of draft in
  let* view := array_find (has_id viewId) views in
  match view with
  | Some view => body view
  | None => ret tt
  end.

(** *** Nodes *)

(** The assignments that [addNode] makes to the view it found. *)
Definition addNode_view (nodeId : string) (params : AddNodeParams) (view : loc) : H unit :=
  let* tile := alloc (CoordsObject {| co_x := addNode_x params;
                                      co_y := addNode_y params |}) in
  let* viewItem :=
    alloc (ViewItemObject nodeId tile
             (Some (JS.or_else (addNode_labelHeight params)
                               DEFAULT_LABEL_HEIGHT))) in
  let* items := field items_of view in
  array_push items viewItem.

Definition addNode_recipe (nodeId viewId : string) (params : AddNodeParams)
    (draft : loc) : H unit :=
  let* modelItem :=
    alloc (ModelItemObject {| mi_id := nodeId; mi_name := addNode_name params;
                              mi_icon := addNode_icon params;
                              mi_description := addNode_description params |}) in
  let* items := field items_of draft in
  let* _ := array_push items modelItem in
  with_view viewId (addNode_view nodeId params) draft.

Definition addNode (params : AddNodeParams) (this : loc) : H loc :=
  let* nodeId := uuidv4 in
  let* viewId := viewId_or_primary (addNode_viewId params) this in
  let* model := field model_of this in
  let* newModel := produce model (addNode_recipe nodeId viewId params) in
  new newModel.

(** The assignments that [updateNode] makes to the model item, to the
    view item and to the view that it found. *)
Definition updateNode_item (params : UpdateNodeParams) (modelItem : loc) : H unit :=
  let* _ := assign_defined (updNode_name params) set_name modelItem in
  let* _ := assign_defined (updNode_icon params)
              (λ icon, set_icon (Some icon)) modelItem in
  assign_defined (updNode_description params)
    (λ description, set_description (Some description)) modelItem.

Definition updateNode_viewItem (params : UpdateNodeParams) (viewItem : loc) : H unit :=
  let* _ :=
    match updNode_x params with
    | Some x => let* tile := field tile_of viewItem in assign (set_x x) tile
    | None => ret tt
    end in
  let* _ :=
    match updNode_y params with
    | Some y => let* tile := field tile_of viewItem in assign (set_y y) tile
    | None => ret tt
    end in
  assign_defined (updNode_labelHeight params)
    (λ labelHeight, set_labelHeight (Some labelHeight)) viewItem.

Definition updateNode_view (params : UpdateNodeParams) (view : loc) : H unit :=
  let* items := field items_of view in
  let* viewItem := array_find (has_id (updNode_nodeId params)) items in
  match viewItem with
  | Some viewItem => updateNode_viewItem params viewItem
  | None => ret tt
  end.

Definition updateNode_recipe (viewId : string) (params : UpdateNodeParams)
    (draft : loc) : H unit :=
  let* items := field items_of draft in
  let* modelItem := array_find (has_id (updNode_nodeId params)) items in
  let* _ :=
    match modelItem with
    | Some modelItem => updateNode_item params modelItem
    | None => ret tt
    end in
  with_view viewId (updateNode_view params) draft.

Definition updateNode (params : UpdateNodeParams) (this : loc) : H loc :=
  let* viewId := viewId_or_primary (updNode_viewId params) this in
  let* model := field model_of this in
  let* newModel := produce model (updateNode_recipe viewId params) in
  new newModel.

(** The assignments that [removeNode] makes to the view it found. *)
Definition removeNode_view (nodeId : string) (view : loc) : H unit :=
  let* items := field items_of view in
  let* _ := splice_first (has_id nodeId) items in
  let* connectors := field connectors_of view in
  match connectors with
  | Some connectors =>
      let* kept := array_filter (λ connector, ¬ anchored nodeId connector)
                     connectors in
      assign (set_connectors (Some kept)) view
  | None => ret tt
  end.

Definition removeNode_recipe (nodeId targetViewId : string) (draft : loc) : H unit :=
  let* items := field items_of draft in
  let* _ := splice_first (has_id nodeId) items in
  with_view targetViewId (removeNode_view nodeId) draft.

Definition removeNode (nodeId : string) (viewId : option string) (this : loc) : H loc :=
  let* targetViewId := viewId_or_primary viewId this in
  let* model := field model_of this in
  let* newModel := produce model (removeNode_recipe nodeId targetViewId) in
  new newModel.

(** *** Connectors *)

(** [if (!view.f) view.f = []; view.f.push(element)] *)
Definition push_optional (f : Object → option (option loc))
    (set_f : option loc → Object → option Object) (view element : loc) : H unit :=
  let* array := field f view in
  let* array :=
    match array with
    | Some array => ret array
    | None =>
        let* array := alloc (ArrayObject []) in
        let* _ := assign (set_f (Some array)) view in
        ret array
    end in
  array_push array element.

(** What [addConnector] does with the view it found. *)
Definition addConnector_view (connectorId : string) (params : AddConnectorParams)
    (view : loc) : H unit :=
  let* items := field items_of view in
  let* fromExists := array_some (has_id (addConn_fromNodeId params)) items in
  let* toExists := array_some (has_id (addConn_toNodeId params)) items in
  if negb fromExists || negb toExists then ret tt
  else
    let* anchorId1 := uuidv4 in
    let* anchorId2 := uuidv4 in
    let* connector :=
      alloc (ConnectorObject
               (DiagramState.addConnector_connector connectorId anchorId1
                  anchorId2 params)) in
    push_optional connectors_of set_connectors view connector.

Definition addConnector_recipe (connectorId viewId : string)
    (params : AddConnectorParams) (draft : loc) : H unit :=
  with_view viewId (addConnector_view connectorId params) draft.

Definition addConnector (params : AddConnectorParams) (this : loc) : H loc :=
  let* connectorId := uuidv4 in
  let* viewId := viewId_or_primary (addConn_viewId params) this in
  let* model := field model_of this in
  let* newModel := produce model (addConnector_recipe connectorId viewId params) in
  new newModel.

(** The assignments that [updateConnector] makes to the connector and to
    the view that it found. *)
Definition updateConnector_connector (params : UpdateConnectorParams)
    (connector : loc) : H unit :=
  let* _ := assign_defined (updConn_style params)
              (λ style, set_style (Some style)) connector in
  let* _ := assign_defined (updConn_lineType params)
              (λ lineType, set_lineType (Some lineType)) connector in
  let* _ := assign_defined (updConn_color params)
              (λ color, set_color (Some color)) connector in
  let* _ := assign_defined (updConn_showArrow params)
              (λ showArrow, set_showArrow (Some showArrow)) connector in
  assign_defined (updConn_label params)
    (λ label, set_description (Some label)) connector.

Definition updateConnector_view (params : UpdateConnectorParams) (view : loc) : H unit :=
  let* connectors := field connectors_of view in
  match connectors with
  | None => ret tt
  | Some connectors =>
      let* connector :=
        array_find (has_id (updConn_connectorId params)) connectors in
      match connector with
      | None => ret tt
      | Some connector => updateConnector_connector params connector
      end
  end.

Definition updateConnector_recipe (viewId : string) (params : UpdateConnectorParams)
    (draft : loc) : H unit :=
  with_view viewId (updateConnector_view params) draft.

Definition updateConnector (params : UpdateConnectorParams) (this : loc) : H loc :=
  let* viewId := viewId_or_primary (updConn_viewId params) this in
  let* model := field model_of this in
  let* newModel := produce model (updateConnector_recipe viewId params) in
  new newModel.

(** [if (!view?.f) return; const index = view.f.findIndex(...); ...] *)
Definition splice_optional (f : Object → option (option loc)) (id : string)
    (view : loc) : H unit :=
  let* array := field f view in
  match array with
  | Some array => splice_first (has_id id) array
  | None => ret tt
  end.

Definition removeConnector_recipe (connectorId targetViewId : string)
    (draft : loc) : H unit :=
  with_view targetViewId (splice_optional connectors_of connectorId) draft.

Definition removeConnector (connectorId : string) (viewId : option string)
    (this : loc) : H loc :=
  let* targetViewId := viewId_or_primary viewId this in
  let* model := field model_of this in
  let* newModel := produce model (removeConnector_recipe connectorId targetViewId) in
  new newModel.

(** *** Rectangles *)

Definition addRectangle_recipe (rectId viewId : string) (params : AddRectangleParams)
    (draft : loc) : H unit :=
  with_view viewId (λ view,
    let* rectangle :=
      alloc (RectangleObject
               {| rect_id := rectId;
                  rect_from := {| co_x := addRect_fromX params;
                                  co_y := addRect_fromY params |};
                  rect_to := {| co_x := addRect_toX params;
                                co_y := addRect_toY params |};
                  rect_color := addRect_color params |}) in
    push_optional rectangles_of set_rectangles view rectangle) draft.

Definition addRectangle (params : AddRectangleParams) (this : loc) : H loc :=
  let* rectId := uuidv4 in
  let* viewId := viewId_or_primary (addRect_viewId params) this in
  let* model := field model_of this in
  let* newModel := produce model (addRectangle_recipe rectId viewId params) in
  new newModel.

Definition removeRectangle_recipe (rectangleId targetViewId : string)
    (draft : loc) : H unit :=
  with_view targetViewId (splice_optional rectangles_of rectangleId) draft.

Definition removeRectangle (rectangleId : string) (viewId : option string)
    (this : loc) : H loc :=
  let* targetViewId := viewId_or_primary viewId this in
  let* model := field model_of this in
  let* newModel := produce model (removeRectangle_recipe rectangleId targetViewId) in
  new newModel.

(** *** Text boxes *)

Definition addTextBox_recipe (textBoxId viewId : string) (params : AddTextBoxParams)
    (draft : loc) : H unit :=
  with_view viewId (λ view,
    let* textBox :=
      alloc (TextBoxObject
               {| tb_id := textBoxId;
                  tb_tile := {| co_x := addText_x params; co_y := addText_y params |};
                  tb_content := addText_content params;
                  tb_orientation :=
                    Some (JS.or_else (addText_orientation params) OrientX);
                  tb_fontSize := addText_fontSize params |}) in
    push_optional textBoxes_of set_textBoxes view textBox) draft.

Definition addTextBox (params : AddTextBoxParams) (this : loc) : H loc :=
  let* textBoxId := uuidv4 in
  let* viewId := viewId_or_primary (addText_viewId params) this in
  let* model := field model_of this in
  let* newModel := produce model (addTextBox_recipe textBoxId viewId params) in
  new newModel.

Definition removeTextBox_recipe (textBoxId targetViewId : string)
    (draft : loc) : H unit :=
  with_view targetViewId (splice_optional textBoxes_of textBoxId) draft.

Definition removeTextBox (textBoxId : string) (viewId : option string)
    (this : loc) : H loc :=
  let* targetViewId := viewId_or_primary viewId this in
  let* model := field model_of this in
  let* newModel := produce model (removeTextBox_recipe textBoxId targetViewId) in
  new newModel.

(** *** Diagram *)

Definition setTitle (title : string) (this : loc) : H loc :=
  let* model := field model_of this in
  let* newModel := produce model (assign (set_title title)) in
  new newModel.

Definition setDescription (description : string) (this : loc) : H loc :=
  let* model := field model_of this in
  let* newModel := produce model (assign (set_description (Some description))) in
  new newModel.

Definition mutate (op : DiagramState.Mutation) : loc → H loc :=
  match op with
  | DiagramState.AddNode params => addNode params
  | DiagramState.UpdateNode params => updateNode params
  | DiagramState.RemoveNode nodeId viewId => removeNode nodeId viewId
  | DiagramState.AddConnector params => addConnector params
  | DiagramState.UpdateConnector params => updateConnector params
  | DiagramState.RemoveConnector connectorId viewId =>
      removeConnector connectorId viewId
  | DiagramState.AddRectangle params => addRectangle params
  | DiagramState.RemoveRectangle rectangleId viewId =>
      removeRectangle rectangleId viewId
  | DiagramState.AddTextBox params => addTextBox params
  | DiagramState.RemoveTextBox textBoxId viewId => removeTextBox textBoxId viewId
  | DiagramState.SetTitle title => setTitle title
  | DiagramState.SetDescription description => setDescription description
  end.

End Heap.

(** ** The ASCII renderer ([utils/asciiRenderer.ts]), grid drawing

    A grid cell holds one UTF-16 code unit.  The functions below are
    [safeWrite], [drawLine], [drawNodeBox] and the part of [renderAscii]
    that fills the grid (the two drawing loops); the framing of the grid
    into the output text is not needed for the properties and is left
    out. *)

Abbreviation char := N (only parsing).
Abbreviation Grid := (list (list N)) (only parsing).

Module AsciiRenderer.

Definition SPACE : char := 32%N.        (* ' ' *)
Definition HLINE : char := 9472%N.      (* U+2500, horizontal line *)
Definition VLINE : char := 9474%N.      (* U+2502, vertical line *)
Definition CORNER_DR : char := 9484%N.  (* U+250C, down and right *)
Definition CORNER_DL : char := 9488%N.  (* U+2510, down and left *)
Definition CORNER_UR : char := 9492%N.  (* U+2514, up and right *)
Definition CORNER_UL : char := 9496%N.  (* U+2518, up and left *)
Definition ARROW_RIGHT : char := 9654%N. (* U+25B6 *)
Definition ARROW_LEFT : char := 9664%N.  (* U+25C0 *)
Definition ARROW_DOWN : char := 9660%N.  (* U+25BC *)
Definition ARROW_UP : char := 9650%N.    (* U+25B2 *)

(** The code units of a string of the model. *)
Definition code_units (s : string) : list char :=
  map Ascii.N_of_ascii (String.list_ascii_of_string s).

(** [grid[y]] and [grid[y][x]], for indices within bounds. *)
Definition row (grid : Grid) (y : Z) : list char :=
  default [] (grid !! Z.to_nat y).

Definition cell (grid : Grid) (y x : Z) : char :=
  default SPACE (row grid y !! Z.to_nat x).

Definition safeWrite (grid : Grid) (y x : Z) (c : char) : Grid :=
  if (0 <=? y) && (y <? Z.of_nat (length grid)) && (0 <=? x)
     && (x <? Z.of_nat (length (row grid y)))
  then
    let current := cell grid y x in
    if (current =? SPACE)%N || (current =? HLINE)%N || (current =? VLINE)%N
    then <[Z.to_nat y := <[Z.to_nat x := c]> (row grid y)]> grid
    else grid
  else grid.

(** [for (let k = lo; k < hi; k++) body(k)] *)
Definition for_range (lo hi : Z) (body : Z → Grid → Grid) (grid : Grid) : Grid :=
  foldl (λ g k, body k g) grid (seqZ lo (hi - lo)).

(** [s.padStart(n)] and [s.padEnd(n)] with the default padding, a space. *)
Definition padStart (n : Z) (s : list char) : list char :=
  replicate (Z.to_nat (n - Z.of_nat (length s))) SPACE ++ s.

Definition padEnd (n : Z) (s : list char) : list char :=
  s ++ replicate (Z.to_nat (n - Z.of_nat (length s))) SPACE.

Definition drawNodeBox (grid : Grid) (cx cy : Z) (name icon : list char) : Grid :=
  let width := Z.max (Z.of_nat (length name)) (Z.of_nat (length icon)) + 4 in
  let halfWidth := width / 2 in
  let startX := Z.max 0 (cx - halfWidth) in
  let startY := Z.max 0 (cy - 1) in
  if (Z.of_nat (length grid) <=? startY)
     || (Z.of_nat (length (row grid 0)) <=? startX)
  then grid
  else
    (* top border *)
    let grid := safeWrite grid startY startX CORNER_DR in
    let grid := for_range 1 (width - 1)
                  (λ i g, safeWrite g startY (startX + i) HLINE) grid in
    let grid := safeWrite grid startY (startX + width - 1) CORNER_DL in
    (* middle (name) *)
    let grid := safeWrite grid (startY + 1) startX VLINE in
    let paddedName :=
      padEnd (width - 2)
        (padStart ((width - 2 + Z.of_nat (length name)) / 2) name) in
    let grid := for_range 0 (Z.of_nat (length paddedName))
                  (λ i g, safeWrite g (startY + 1) (startX + 1 + i)
                            (default SPACE (paddedName !! Z.to_nat i))) grid in
    let grid := safeWrite grid (startY + 1) (startX + width - 1) VLINE in
    (* bottom border *)
    let grid := safeWrite grid (startY + 2) startX CORNER_UR in
    let grid := for_range 1 (width - 1)
                  (λ i g, safeWrite g (startY + 2) (startX + i) HLINE) grid in
    safeWrite grid (startY + 2) (startX + width - 1) CORNER_UL.

Definition drawLine (grid : Grid) (x1 y1 x2 y2 : Z) (showArrow : bool) : Grid :=
  let dx := x2 - x1 in
  let dy := y2 - y1 in
  let midX := x1 + dx / 2 in
  let grid := for_range (Z.min x1 midX + 1) (Z.max x1 midX)
                (λ x g, safeWrite g y1 x HLINE) grid in
  let grid := for_range (Z.min y1 y2 + 1) (Z.max y1 y2)
                (λ y g, safeWrite g y midX VLINE) grid in
  let grid := for_range (Z.min midX x2 + 1) (Z.max midX x2)
                (λ x g, safeWrite g y2 x HLINE) grid in
  let grid :=
    if negb (dx =? 0) && negb (dy =? 0) then
      let corner1 := if 0 <? dy then (if 0 <? dx then CORNER_DL else CORNER_DR)
                     else if 0 <? dx then CORNER_UL else CORNER_UR in
      let grid := safeWrite grid y1 midX corner1 in
      let corner2 := if 0 <? dy then (if 0 <? dx then CORNER_UR else CORNER_UL)
                     else if 0 <? dx then CORNER_DR else CORNER_DL in
      safeWrite grid y2 midX corner2
    else grid in
  if showArrow then
    let arrowChar := if 0 <? dx then ARROW_RIGHT
                     else if dx <? 0 then ARROW_LEFT
                     else if 0 <? dy then ARROW_DOWN else ARROW_UP in
    let arrowX := x2 + (if 0 <? dx then -2 else if dx <? 0 then 2 else 0) in
    let arrowY := y2 + (if 0 <? dy then -1 else if dy <? 0 then 1 else 0) in
    if negb (dx =? 0) then safeWrite grid y2 arrowX arrowChar
    else if negb (dy =? 0) then safeWrite grid arrowY x2 arrowChar
    else grid
  else grid.

(** [Math.min(...l)] and [Math.max(...l)] for a non-empty [l]. *)
Definition list_min (l : list Z) : Z := foldr Z.min (default 0 (head l)) l.
Definition list_max (l : list Z) : Z := foldr Z.max (default 0 (head l)) l.

Definition cellWidth : Z := 16.
Definition cellHeight : Z := 3.
Definition padding : Z := 2.

(** [toCharCoords(tile)], as the pair [(cx, cy)] *)
Definition toCharCoords (gridMinX gridMinY : Z) (tile : Coords) : Z * Z :=
  ((co_x tile - gridMinX) * cellWidth + cellWidth / 2,
   (co_y tile - gridMinY) * cellHeight + cellHeight / 2).

(** The body of the loop over the connectors. *)
Definition drawConnector (view : View) (gridMinX gridMinY : Z)
    (grid : Grid) (connector : Connector) : Grid :=
  let anchors := cn_anchors connector in
  if (length anchors <? 2)%nat then grid else
  match anchors !! 0%nat, last anchors with
  | Some startAnchor, Some endAnchor =>
      let find_item (ref : option string) :=
        snd <$> list_find (λ vi, Some (vi_id vi) = ref) (view_items view) in
      match find_item (ref_item (an_ref startAnchor)),
            find_item (ref_item (an_ref endAnchor)) with
      | Some startItem, Some endItem =>
          let '(sx, sy) := toCharCoords gridMinX gridMinY (vi_tile startItem) in
          let '(ex, ey) := toCharCoords gridMinX gridMinY (vi_tile endItem) in
          drawLine grid sx sy ex ey
            (negb (bool_decide (cn_showArrow connector = Some false)))
      | _, _ => grid
      end
  | _, _ => grid
  end.

(** The body of the loop over the view items. *)
Definition drawNode (itemLookup : gmap string ModelItem) (gridMinX gridMinY : Z)
    (grid : Grid) (viewItem : ViewItem) : Grid :=
  match itemLookup !! vi_id viewItem with
  | None => grid
  | Some modelItem =>
      let '(cx, cy) := toCharCoords gridMinX gridMinY (vi_tile viewItem) in
      let name := JS.slice0 12 (mi_name modelItem) in
      let icon := match mi_icon modelItem with
                  | Some icon => if JS.truthy icon then JS.slice0 10 icon
                                 else EmptyString
                  | None => EmptyString
                  end in
      drawNodeBox grid cx cy (code_units name) (code_units icon)
  end.

(** The grid that [renderAscii] builds for a model: [None] when the
    first view is missing or has no item (the fixed empty-diagram box is
    returned instead). *)
Definition renderAscii_grid (model : Model) : option Grid :=
  match m_views model !! 0%nat with
  | None => None
  | Some view =>
      if (length (view_items view) =? 0)%nat then None else
      let itemLookup :=
        foldl (λ lookup item, <[mi_id item := item]> lookup) ∅ (m_items model) in
      let positions := map vi_tile (view_items view) in
      let minX := list_min (map co_x positions) in
      let maxX := list_max (map co_x positions) in
      let minY := list_min (map co_y positions) in
      let maxY := list_max (map co_y positions) in
      let gridMinX := minX - padding in
      let gridMaxX := maxX + padding in
      let gridMinY := minY - padding in
      let gridMaxY := maxY + padding in
      let gridWidth := (gridMaxX - gridMinX + 1) * cellWidth in
      let gridHeight := (gridMaxY - gridMinY + 1) * cellHeight in
      let grid : Grid :=
        replicate (Z.to_nat gridHeight) (replicate (Z.to_nat gridWidth) SPACE) in
      (* connections first (so nodes appear on top) *)
      let connectors := JS.or_else (view_connectors view) [] in
      let grid := foldl (drawConnector view gridMinX gridMinY) grid connectors in
      let grid := foldl (drawNode itemLookup gridMinX gridMinY) grid (view_items view) in
      Some grid
  end.

End AsciiRenderer.

(** ** Format detection and validation of untyped payloads
    ([utils/formatConverter.ts])

    [detectFormat], [validateCompact], [validateFull] and [validate] take a
    value of type [unknown].  A value is [undefined], [null], a boolean, a
    number, a string, an array or an object with string keys; an object may
    hold [undefined] under a key (the key is then [in] the object).  The
    validators read only the keys named below, none of which an array
    has. *)

Local Set Warnings "-register-all".

Inductive Value :=
| VUndefined
| VNull
| VBool (b : bool)
| VNum (n : Z)
| VStr (s : string)
| VArr (elems : list Value)
| VObj (fields : gmap string Value).

Module Payload.

Import FormatConverter.

(** [v && typeof v === 'object']: objects and arrays. *)
Definition is_object (v : Value) : bool :=
  match v with
  | VObj _ | VArr _ => true
  | _ => false
  end.

(** [Array.isArray(v)] *)
Definition isArray (v : Value) : bool :=
  match v with
  | VArr _ => true
  | _ => false
  end.

(** [obj.key], for the keys that the validators read *)
Definition get (key : string) (obj : Value) : Value :=
  match obj with
  | VObj fields => default VUndefined (fields !! key)
  | _ => VUndefined
  end.

(** ['key' in obj] *)
Definition has (key : string) (obj : Value) : bool :=
  match obj with
  | VObj fields => bool_decide (is_Some (fields !! key))
  | _ => false
  end.

(** [v === s] for a string literal [s] *)
Definition is_str (s : string) (v : Value) : bool :=
  match v with
  | VStr s' => bool_decide (s' = s)
  | _ => false
  end.

Definition detectFormat (diagram : Value) : Format :=
  if negb (is_object diagram) then unknown else
  let obj := diagram in
  if is_object (get "_" obj)
     && is_str "compact" (get "f" (get "_" obj))
  then compact
  else if has "t" obj && has "i" obj && has "v" obj
          && isArray (get "i" obj) && isArray (get "v" obj)
  then compact
  else if has "title" obj && has "items" obj && has "views" obj
  then full
  else unknown.

Definition validateCompact_item (index : nat) (item : Value) : list string :=
  match item with
  | VArr [name; icon; description] =>
      (match name with
       | VStr name =>
           if (30 <? String.length name)%nat
           then [JS.template "Item " (Z.of_nat index) +:+ " name exceeds 30 characters"]
           else []
       | _ => [JS.template "Item " (Z.of_nat index) +:+ " name must be a string"]
       end) ++
      (match icon with
       | VStr _ => []
       | _ => [JS.template "Item " (Z.of_nat index) +:+ " icon must be a string"]
       end) ++
      (match description with
       | VStr description =>
           if (100 <? String.length description)%nat
           then [JS.template "Item " (Z.of_nat index)
                 +:+ " description exceeds 100 characters"]
           else []
       | _ => [JS.template "Item " (Z.of_nat index) +:+ " description must be a string"]
       end)
  | _ => [JS.template "Item " (Z.of_nat index)
          +:+ " must be an array of 3 elements [name, icon, description]"]
  end.

Definition validateCompact_view (viewIndex : nat) (view : Value) : list string :=
  match view with
  | VArr [positions; connections] =>
      (if isArray positions then []
       else [JS.template "View " (Z.of_nat viewIndex) +:+ " positions must be an array"])
      ++
      (if isArray connections then []
       else [JS.template "View " (Z.of_nat viewIndex)
             +:+ " connections must be an array"])
  | _ => [JS.template "View " (Z.of_nat viewIndex)
          +:+ " must be an array of 2 elements [positions, connections]"]
  end.

Definition validateCompact (diagram : Value) : bool * list string :=
  if negb (is_object diagram) then (false, ["Diagram must be an object"]) else
  let obj := diagram in
  let errors :=
    (match get "t" obj with
     | VStr t => if (40 <? String.length t)%nat
                 then ["Title (t) exceeds 40 characters"] else []
     | _ => ["Missing or invalid title (t)"]
     end) ++
    (match get "i" obj with
     | VArr items => concat (imap validateCompact_item items)
     | _ => ["Missing or invalid items array (i)"]
     end) ++
    (match get "v" obj with
     | VArr views => concat (imap validateCompact_view views)
     | _ => ["Missing or invalid views array (v)"]
     end) ++
    (if negb (is_object (get "_" obj)) then ["Missing metadata (_)"]
     else
       let meta := get "_" obj in
       (if is_str "compact" (get "f" meta) then []
        else ["Metadata format (_.f) must be " +:+ JS.quoted "compact"]) ++
       (match get "v" meta with
        | VStr _ => []
        | _ => ["Metadata version (_.v) must be a string"]
        end)) in
  (bool_decide (length errors = 0%nat), errors).

Definition validateFull (diagram : Value) : bool * list string :=
  if negb (is_object diagram) then (false, ["Diagram must be an object"]) else
  let obj := diagram in
  let errors :=
    (match get "title" obj with
     | VStr _ => []
     | _ => ["Missing or invalid title"]
     end) ++
    (if isArray (get "items" obj) then [] else ["Missing or invalid items array"]) ++
    (if isArray (get "views" obj) then [] else ["Missing or invalid views array"]) ++
    (if isArray (get "icons" obj) then [] else ["Missing or invalid icons array"]) ++
    (if isArray (get "colors" obj) then [] else ["Missing or invalid colors array"]) in
  (bool_decide (length errors = 0%nat), errors).

(** The result [{valid, format, errors}] as a triple. *)
Definition validate (diagram : Value) : bool * string * list string :=
  match detectFormat diagram with
  | unknown =>
      (false, "unknown",
       ["Unable to detect diagram format. Must be either compact or full format."])
  | compact =>
      let result := validateCompact diagram in (result.1, "compact", result.2)
  | full =>
      let result := validateFull diagram in (result.1, "full", result.2)
  end.

(** The values of the declared types ([types.ts]) as payloads: a field
    declared optional is absent when it is undefined. *)

Definition set_opt (key : string) (o : option Value) (fields : gmap string Value)
    : gmap string Value :=
  match o with
  | Some v => <[key := v]> fields
  | None => fields
  end.

Definition of_coords (c : Coords) : Value :=
  VObj (<["x" := VNum (co_x c)]> (<["y" := VNum (co_y c)]> ∅)).

Definition of_compact (c : CompactDiagram) : Value :=
  VObj (<["t" := VStr (c_t c)]>
        (<["i" := VArr ((λ '(name, icon, description),
                           VArr [VStr name; VStr icon; VStr description])
                        <$> c_i c)]>
        (<["v" := VArr ((λ '(positions, connections),
                           VArr [VArr ((λ '(itemIndex, x, y),
                                          VArr [VNum itemIndex; VNum x; VNum y])
                                       <$> positions);
                                 VArr ((λ '(fromIndex, toIndex),
                                          VArr [VNum fromIndex; VNum toIndex])
                                       <$> connections)])
                        <$> c_v c)]>
        (<["_" := VObj (<["f" := VStr (meta_f (c_meta c))]>
                        (<["v" := VStr (meta_v (c_meta c))]> ∅))]> ∅)))).

Definition of_item (item : ModelItem) : Value :=
  VObj (<["id" := VStr (mi_id item)]>
        (<["name" := VStr (mi_name item)]>
        (set_opt "description" (VStr <$> mi_description item)
        (set_opt "icon" (VStr <$> mi_icon item) ∅)))).

Definition of_viewItem (viewItem : ViewItem) : Value :=
  VObj (<["id" := VStr (vi_id viewItem)]>
        (<["tile" := of_coords (vi_tile viewItem)]>
        (set_opt "labelHeight" (VNum <$> vi_labelHeight viewItem) ∅))).

Definition of_anchor (anchor : ConnectorAnchor) : Value :=
  VObj (<["id" := VStr (an_id anchor)]>
        (<["ref" := VObj (set_opt "item" (VStr <$> ref_item (an_ref anchor))
                         (set_opt "anchor" (VStr <$> ref_anchor (an_ref anchor))
                         (set_opt "tile" (of_coords <$> ref_tile (an_ref anchor)) ∅)))]>
         ∅)).

Definition of_style (style : ConnectorStyle) : Value :=
  VStr match style with SOLID => "SOLID" | DOTTED => "DOTTED" | DASHED => "DASHED" end.

Definition of_lineType (lineType : ConnectorLineType) : Value :=
  VStr match lineType with
       | SINGLE => "SINGLE" | DOUBLE => "DOUBLE"
       | DOUBLE_WITH_CIRCLE => "DOUBLE_WITH_CIRCLE"
       end.

Definition of_connector (connector : Connector) : Value :=
  VObj (<["id" := VStr (cn_id connector)]>
        (<["anchors" := VArr (of_anchor <$> cn_anchors connector)]>
        (set_opt "description" (VStr <$> cn_description connector)
        (set_opt "color" (VStr <$> cn_color connector)
        (set_opt "style" (of_style <$> cn_style connector)
        (set_opt "lineType" (of_lineType <$> cn_lineType connector)
        (set_opt "showArrow" (VBool <$> cn_showArrow connector) ∅))))))).

Definition of_rectangle (rectangle : Rectangle) : Value :=
  VObj (<["id" := VStr (rect_id rectangle)]>
        (<["from" := of_coords (rect_from rectangle)]>
        (<["to" := of_coords (rect_to rectangle)]>
        (set_opt "color" (VStr <$> rect_color rectangle) ∅)))).

Definition of_textBox (textBox : TextBox) : Value :=
  VObj (<["id" := VStr (tb_id textBox)]>
        (<["tile" := of_coords (tb_tile textBox)]>
        (<["content" := VStr (tb_content textBox)]>
        (set_opt "fontSize" (VNum <$> tb_fontSize textBox)
        (set_opt "orientation"
           ((λ o, VStr match o with OrientX => "X" | OrientY => "Y" end)
              <$> tb_orientation textBox) ∅))))).

Definition of_view (view : View) : Value :=
  VObj (<["id" := VStr (view_id view)]>
        (<["name" := VStr (view_name view)]>
        (<["items" := VArr (of_viewItem <$> view_items view)]>
        (set_opt "connectors" ((λ cs, VArr (of_connector <$> cs)) <$> view_connectors view)
        (set_opt "rectangles" ((λ rs, VArr (of_rectangle <$> rs)) <$> view_rectangles view)
        (set_opt "textBoxes" ((λ ts, VArr (of_textBox <$> ts)) <$> view_textBoxes view)
           ∅)))))).

Definition of_icon (icon : Icon) : Value :=
  VObj (<["id" := VStr (icon_id icon)]>
        (<["name" := VStr (icon_name icon)]>
        (<["url" := VStr (icon_url icon)]> ∅))).

Definition of_color (color : Color) : Value :=
  VObj (<["id" := VStr (color_id color)]>
        (<["value" := VStr (color_value color)]> ∅)).

Definition of_model (m : Model) : Value :=
  VObj (<["title" := VStr (m_title m)]>
        (<["items" := VArr (of_item <$> m_items m)]>
        (<["views" := VArr (of_view <$> m_views m)]>
        (<["icons" := VArr (of_icon <$> m_icons m)]>
        (<["colors" := VArr (of_color <$> m_colors m)]>
        (set_opt "version" (VStr <$> m_version m)
        (set_opt "description" (VStr <$> m_description m) ∅))))))).

Definition of_diagram (diagram : Diagram) : Value :=
  match diagram with
  | FullD m => of_model m
  | CompactD c => of_compact c
  end.

End Payload.

(** ** The node and connector tools ([tools/nodes.ts],
    [tools/connectors.ts])

    The tools are given here on diagrams of the declared types, for which
    [detectFormat] answers compact or full, so that their early return on
    an unknown format is not taken.  The body of a tool runs in a [try]
    block: an exception thrown inside it is [None] here, which stands for
    the result that the [catch] branch builds from the exception.  The
    result objects of the tools are one record; a field that a tool does
    not set is [None]. *)

Record ToolResult := {
  res_success : bool;
  res_diagram : option Diagram;
  res_id : option string;
  res_message : string;
  res_error : option string;
  res_removedConnectors : option nat
}.

Module Tools.

Import FormatConverter.

(** [(params.outputFormat || format) as OutputFormat] *)
Definition output_format (outputFormat : option OutputFormat) (diagram : Diagram)
    : OutputFormat :=
  match outputFormat with
  | Some format => format
  | None => match detectFormat (Some diagram) with
            | compact => OutCompact
            | _ => OutFull
            end
  end.

Definition failure (message error : string) : ToolResult :=
  {| res_success := false; res_diagram := None; res_id := None;
     res_message := message; res_error := Some error;
     res_removedConnectors := None |}.

Definition addNode (diagram : Diagram) (params : AddNodeParams)
    (outputFormat : option OutputFormat) : M ToolResult :=
  let* state := DiagramState.loadDiagram diagram in
  let* newState :=
    call state (DiagramState.addNode
                  {| addNode_name := addNode_name params;
                     addNode_icon := addNode_icon params;
                     addNode_description := addNode_description params;
                     addNode_x := addNode_x params;
                     addNode_y := addNode_y params;
                     addNode_labelHeight := addNode_labelHeight params;
                     addNode_viewId := None |}) in
  let* newSelf := deref newState in
  let newNodeId := mi_id <$> last (m_items (model newSelf)) in
  let outputFormat := output_format outputFormat diagram in
  let* json := call newState (DiagramState.toJSON outputFormat) in
  ret {| res_success := true; res_diagram := Some json; res_id := newNodeId;
         res_message :=
           "Added node " +:+ JS.quoted (addNode_name params)
           +:+ JS.template " at position (" (addNode_x params)
           +:+ JS.template ", " (addNode_y params) +:+ ")";
         res_error := None; res_removedConnectors := None |}.

(** [updates.join(', ') || 'no changes'] *)
Definition updates_text (params : UpdateNodeParams) : string :=
  let updates :=
    (match updNode_name params with
     | Some name => if JS.truthy name then ["name=" +:+ JS.quoted name] else []
     | None => []
     end) ++
    (match updNode_icon params with
     | Some icon => if JS.truthy icon then ["icon=" +:+ JS.quoted icon] else []
     | None => []
     end) ++
    (match updNode_x params, updNode_y params with
     | None, None => []
     | x, y =>
         ["position=(" +:+ from_option pretty "?" x +:+ ", "
          +:+ from_option pretty "?" y +:+ ")"]
     end) in
  let joined := String.concat ", " updates in
  if JS.truthy joined then joined else "no changes".

Definition updateNode (diagram : Diagram) (params : UpdateNodeParams)
    (outputFormat : option OutputFormat) : M ToolResult :=
  let* state := DiagramState.loadDiagram diagram in
  let* self := deref state in
  match list_find (λ i, mi_id i = updNode_nodeId params) (m_items (model self)) with
  | None =>
      ret (failure "Failed to update node"
             ("Node with ID " +:+ JS.quoted (updNode_nodeId params) +:+ " not found"))
  | Some (_, existingNode) =>
      let* newState :=
        call state (DiagramState.updateNode
                      {| updNode_nodeId := updNode_nodeId params;
                         updNode_name := updNode_name params;
                         updNode_icon := updNode_icon params;
                         updNode_description := updNode_description params;
                         updNode_x := updNode_x params;
                         updNode_y := updNode_y params;
                         updNode_labelHeight := updNode_labelHeight params;
                         updNode_viewId := None |}) in
      let outputFormat := output_format outputFormat diagram in
      let* json := call newState (DiagramState.toJSON outputFormat) in
      ret {| res_success := true; res_diagram := Some json; res_id := None;
             res_message :=
               "Updated node " +:+ JS.quoted (mi_name existingNode) +:+ ": "
               +:+ updates_text params;
             res_error := None; res_removedConnectors := None |}
  end.

Definition removeNode (diagram : Diagram) (nodeId : string)
    (outputFormat : option OutputFormat) : M ToolResult :=
  let* state := DiagramState.loadDiagram diagram in
  let* self := deref state in
  match list_find (λ i, mi_id i = nodeId) (m_items (model self)) with
  | None =>
      ret (failure "Failed to remove node"
             ("Node with ID " +:+ JS.quoted nodeId +:+ " not found"))
  | Some (_, existingNode) =>
      let* view := lift (DiagramState.primaryView self) in
      let affectedConnectors :=
        filter (DiagramState.references nodeId)
               (JS.or_else (view_connectors view) []) in
      let* newState := call state (DiagramState.removeNode nodeId None) in
      let outputFormat := output_format outputFormat diagram in
      let* json := call newState (DiagramState.toJSON outputFormat) in
      ret {| res_success := true; res_diagram := Some json; res_id := None;
             res_message := "Removed node " +:+ JS.quoted (mi_name existingNode);
             res_error := None;
             res_removedConnectors := Some (length affectedConnectors) |}
  end.

Definition addConnector (diagram : Diagram) (params : AddConnectorParams)
    (outputFormat : option OutputFormat) : M ToolResult :=
  let* state := DiagramState.loadDiagram diagram in
  let* self := deref state in
  let fromNode :=
    list_find (λ i, mi_id i = addConn_fromNodeId params) (m_items (model self)) in
  let toNode :=
    list_find (λ i, mi_id i = addConn_toNodeId params) (m_items (model self)) in
  match fromNode, toNode with
  | None, _ =>
      ret (failure "Failed to add connector"
             ("Source node " +:+ JS.quoted (addConn_fromNodeId params)
              +:+ " not found"))
  | Some _, None =>
      ret (failure "Failed to add connector"
             ("Target node " +:+ JS.quoted (addConn_toNodeId params)
              +:+ " not found"))
  | Some (_, fromNode), Some (_, toNode) =>
      let* newState :=
        call state (DiagramState.addConnector
                      {| addConn_fromNodeId := addConn_fromNodeId params;
                         addConn_toNodeId := addConn_toNodeId params;
                         addConn_style := addConn_style params;
                         addConn_lineType := addConn_lineType params;
                         addConn_color := addConn_color params;
                         addConn_showArrow := addConn_showArrow params;
                         addConn_label := addConn_label params;
                         addConn_viewId := None |}) in
      let* newSelf := deref newState in
      let* newView := lift (DiagramState.primaryView newSelf) in
      let connectors := JS.or_else (view_connectors newView) [] in
      let newConnectorId := cn_id <$> last connectors in
      let outputFormat := output_format outputFormat diagram in
      let* json := call newState (DiagramState.toJSON outputFormat) in
      ret {| res_success := true; res_diagram := Some json;
             res_id := newConnectorId;
             res_message :=
               "Added connector from " +:+ JS.quoted (mi_name fromNode)
               +:+ " to " +:+ JS.quoted (mi_name toNode);
             res_error := None; res_removedConnectors := None |}
  end.

End Tools.

(** * Vocabulary of the statements *)

(** What [toFull] builds from one connection pair and from one view
    tuple, whatever anchor identifiers are generated. *)
Definition connector_of (conn : Z * Z) (c : Connector) : Prop :=
  ∃ id1 id2,
    cn_anchors c = [FormatConverter.center_anchor id1 (JS.template "item-" conn.1);
                    FormatConverter.center_anchor id2 (JS.template "item-" conn.2)].

Definition view_of (viewData : list (Z * Z * Z) * list (Z * Z)) (view : View) : Prop :=
  view_items view = map FormatConverter.toFull_viewItem viewData.1 ∧
  (∃ cs, view_connectors view = Some cs ∧ Forall2 connector_of viewData.2 cs) ∧
  view_rectangles view = Some [] ∧
  view_textBoxes view = Some [].

(** Both indices of a connection pair refer to one of [n] items. *)
Definition in_range (n : nat) (conn : Z * Z) : Prop :=
  (0 ≤ conn.1 < Z.of_nat n) ∧ (0 ≤ conn.2 < Z.of_nat n).

Global Instance in_range_dec n conn : Decision (in_range n conn).
Proof. unfold in_range. apply _. Defined.

(** A world in which no instance has been constructed yet; the identifier
    source is arbitrary and fixed here for the examples. *)
Definition example_world : World :=
  {| uuid_source := λ n, JS.template "uuid-" (Z.of_nat n);
     uuid_next := 0;
     objects := [] |}.

(** The compact diagram of the converter's tests, and a variant whose
    second connection names an item position that does not exist. *)
Definition validCompact : CompactDiagram :=
  {| c_t := "Test Diagram";
     c_i := [("Frontend", "web", "React app");
             ("Backend", "api", "Node.js server");
             ("Database", "storage", "PostgreSQL")];
     c_v := [([(0, -6, 0); (1, 0, 0); (2, 6, 0)], [(0, 1); (1, 2)])];
     c_meta := {| meta_f := "compact"; meta_v := "1.0" |} |}.

Definition danglingCompact : CompactDiagram :=
  {| c_t := "T";
     c_i := [("A", "server", EmptyString); ("B", "api", EmptyString)];
     c_v := [([(0, 0, 0); (1, 5, 0)], [(0, 1); (1, 2)])];
     c_meta := {| meta_f := "compact"; meta_v := "1.0" |} |}.

(** An identifier is mapped when it is the id of an entry of
    [model.items]. *)
Definition mapped (full : Model) (id : string) : Prop :=
  Exists (λ item, mi_id item = id) (m_items full).

(** The connector has an endpoint (its first or its last anchor) whose
    [ref.item] is an identifier that is not mapped. *)
Definition unmapped_endpoint (full : Model) (c : Connector) : Prop :=
  ∃ anchor id,
    (cn_anchors c !! 0%nat = Some anchor ∨ last (cn_anchors c) = Some anchor) ∧
    ref_item (an_ref anchor) = Some id ∧
    ¬ mapped full id.

(** The pair holds positions, in [model.items], of items that carry the
    ids of the connector's first and last anchor. *)
Definition encodes (full : Model) (c : Connector) (pair : Z * Z) : Prop :=
  ∃ a1 a2 i1 i2 item1 item2,
    cn_anchors c !! 0%nat = Some a1 ∧ last (cn_anchors c) = Some a2 ∧
    m_items full !! i1 = Some item1 ∧ ref_item (an_ref a1) = Some (mi_id item1) ∧
    m_items full !! i2 = Some item2 ∧ ref_item (an_ref a2) = Some (mi_id item2) ∧
    pair = (Z.of_nat i1, Z.of_nat i2).

(** A model whose view places an absent item [ghost] and connects the
    item [a] to it. *)
Definition ghostView : View :=
  {| view_id := "v"; view_name := "Main";
     view_items := [{| vi_id := "ghost"; vi_tile := {| co_x := 4; co_y := 7 |};
                       vi_labelHeight := None |}];
     view_connectors :=
       Some [{| cn_id := "c"; cn_description := None; cn_color := None;
                cn_style := None; cn_lineType := None; cn_showArrow := None;
                cn_anchors := [FormatConverter.center_anchor "a1" "a";
                               FormatConverter.center_anchor "a2" "ghost"] |}];
     view_rectangles := None; view_textBoxes := None |}.

Definition ghostModel : Model :=
  {| m_version := None; m_title := "T"; m_description := None;
     m_items := [{| mi_id := "a"; mi_name := "A"; mi_description := None;
                    mi_icon := None |}];
     m_views := [ghostView]; m_icons := []; m_colors := [] |}.

(** The view identifier that a mutation resolves,
    [viewId || this.primaryView.id], and the view that it then looks up in
    the draft, [draft.views.find((v) => v.id === viewId)]. *)
Definition resolved_viewId (viewId : option string) (self : DiagramState) : string :=
  JS.or_string viewId (default EmptyString (view_id <$> DiagramState.primaryView self)).

Definition resolved_view (viewId : option string) (self : DiagramState)
    : option (nat * View) :=
  list_find (λ v, view_id v = resolved_viewId viewId self) (m_views (model self)).

(** The world after one more identifier has been generated, and after one
    more instance, holding the model [m], has been constructed. *)
Definition tick (w : World) : World :=
  {| uuid_source := uuid_source w; uuid_next := S (uuid_next w);
     objects := objects w |}.

Definition constructed (m : Model) (w : World) : World :=
  {| uuid_source := uuid_source w; uuid_next := uuid_next w;
     objects := objects w ++ [{| model := m; scene := INITIAL_SCENE |}] |}.

(** The identifier that the next call of [uuidv4] returns. *)
Definition next_uuid (w : World) : string := uuid_source w (uuid_next w).

(** The class invariant: every constructed instance has at least one
    view. *)
Definition World_ok (w : World) : Prop :=
  Forall (λ self, m_views (model self) ≠ []) (objects w).

(** [after] is [before] without its first element that satisfies [P], or
    [before] itself when no element does. *)
Definition removes_first {A} (P : A → Prop) (before after : list A) : Prop :=
  (Forall (λ a, ¬ P a) before ∧ after = before) ∨
  (∃ l1 a l2, before = l1 ++ a :: l2 ∧ Forall (λ a, ¬ P a) l1 ∧ P a ∧
              after = l1 ++ l2).

(** A state with two views, each placing the two nodes, and one connector
    between them in each view; and a world that holds it as instance 0. *)
Definition example_item (id name : string) : ModelItem :=
  {| mi_id := id; mi_name := name; mi_description := None; mi_icon := None |}.

Definition example_viewItem (id : string) (x y : Z) : ViewItem :=
  {| vi_id := id; vi_tile := {| co_x := x; co_y := y |};
     vi_labelHeight := Some DEFAULT_LABEL_HEIGHT |}.

Definition example_connector (id from to : string) : Connector :=
  {| cn_id := id; cn_description := None; cn_color := None;
     cn_style := Some SOLID; cn_lineType := Some SINGLE; cn_showArrow := Some true;
     cn_anchors := [FormatConverter.center_anchor (id +:+ "-from") from;
                    FormatConverter.center_anchor (id +:+ "-to") to] |}.

Definition example_model : Model :=
  {| m_version := Some "1.0"; m_title := "Test"; m_description := None;
     m_items := [example_item "node-1" "Node 1"; example_item "node-2" "Node 2"];
     m_views :=
       [{| view_id := "view-1"; view_name := "Main View";
           view_items := [example_viewItem "node-1" 0 0; example_viewItem "node-2" 5 0];
           view_connectors := Some [example_connector "conn-1" "node-1" "node-2"];
           view_rectangles := Some []; view_textBoxes := Some [] |};
        {| view_id := "view-2"; view_name := "View 2";
           view_items := [example_viewItem "node-1" 1 1; example_viewItem "node-2" 2 2];
           view_connectors := Some [example_connector "conn-2" "node-2" "node-1"];
           view_rectangles := Some []; view_textBoxes := Some [] |}];
     m_icons := []; m_colors := [DEFAULT_COLOR] |}.

Definition example_state : DiagramState :=
  {| model := example_model; scene := INITIAL_SCENE |}.

Definition example_state_world : World :=
  {| uuid_source := uuid_source example_world; uuid_next := 0;
     objects := [example_state] |}.

(** A connector request whose target is placed nowhere. *)
Definition connector_to_nowhere : AddConnectorParams :=
  {| addConn_fromNodeId := "node-1"; addConn_toNodeId := "nowhere";
     addConn_style := None; addConn_lineType := None; addConn_color := None;
     addConn_showArrow := None; addConn_label := None; addConn_viewId := None |}.

(** The example state after a further connector from [node-1] to
    [node-2] has been added in its primary view: the world that the call
    leaves, and the instance it returns. *)
Definition connector_between_nodes : AddConnectorParams :=
  {| addConn_fromNodeId := "node-1"; addConn_toNodeId := "node-2";
     addConn_style := None; addConn_lineType := None; addConn_color := None;
     addConn_showArrow := None; addConn_label := None; addConn_viewId := None |}.

Definition connected_world : World :=
  default example_state_world
    (snd <$> call 0%nat (DiagramState.addConnector connector_between_nodes)
                  example_state_world).

Definition connected_state : DiagramState :=
  Eval vm_compute in default example_state (objects connected_world !! 1%nat).

(** A compact diagram that places its only item twice in its view. *)
Definition twicePlacedCompact : CompactDiagram :=
  {| c_t := "T";
     c_i := [("A", EmptyString, EmptyString)];
     c_v := [([(0, 0, 0); (0, 1, 1)], [])];
     c_meta := {| meta_f := "compact"; meta_v := "1.0" |} |}.

(** Requests to add a node named [Cache] at (3, 4): in a view that does
    not exist, and with the empty string as view identifier. *)
Definition node_in_view (viewId : option string) : AddNodeParams :=
  {| addNode_name := "Cache"; addNode_icon := Some "cache";
     addNode_description := None; addNode_x := 3; addNode_y := 4;
     addNode_labelHeight := None; addNode_viewId := viewId |}.

(** The entry of [listNodes] for an item, given the view that is listed. *)
Definition node_entry (view : View) (item : ModelItem) : NodeInfo :=
  {| node_id := mi_id item; node_name := mi_name item; node_icon := mi_icon item;
     node_description := mi_description item;
     node_position :=
       (λ vi, {| co_x := co_x (vi_tile vi); co_y := co_y (vi_tile vi) |})
         <$> (snd <$> list_find (λ vi, vi_id vi = mi_id item) (view_items view)) |}.

(** The entry of [listConnectors] for a connector. *)
Definition connector_entry (c : Connector) : ConnectorInfo :=
  {| conn_id := cn_id c;
     conn_from := JS.or_string (a ← cn_anchors c !! 0%nat; ref_item (an_ref a))
                               EmptyString;
     conn_to := JS.or_string (a ← last (cn_anchors c); ref_item (an_ref a))
                             EmptyString;
     conn_style := cn_style c;
     conn_label := cn_description c |}.

(** Vocabulary for the renderer: the content of a cell of the grid, the
    characters that [safeWrite] replaces, and the writes that the renderer
    makes to the grid. *)
Definition cell_at (grid : Grid) (r c : nat) : option char :=
  grid !! r ≫= (λ row, row !! c).

Definition overwritable (ch : char) : Prop :=
  ch = AsciiRenderer.SPACE ∨ ch = AsciiRenderer.HLINE ∨ ch = AsciiRenderer.VLINE.



(** Three nodes: [A] at (0,0) is connected to [B] at (2,1), and the node
    [abcd] sits at (1,0), where the connector turns; and the same diagram
    without the connector. *)
Definition cornerView (connectors : list Connector) : View :=
  {| view_id := "v"; view_name := "Main";
     view_items := [example_viewItem "A" 0 0; example_viewItem "B" 2 1;
                    example_viewItem "C" 1 0];
     view_connectors := Some connectors;
     view_rectangles := Some []; view_textBoxes := Some [] |}.

Definition cornerModel (connectors : list Connector) : Model :=
  {| m_version := None; m_title := "T"; m_description := None;
     m_items := [example_item "A" "A"; example_item "B" "B"; example_item "C" "abcd"];
     m_views := [cornerView connectors]; m_icons := []; m_colors := [] |}.

Definition cornerConnector : Connector :=
  {| cn_id := "c"; cn_description := None; cn_color := None; cn_style := None;
     cn_lineType := None; cn_showArrow := Some false;
     cn_anchors := [FormatConverter.center_anchor "a1" "A";
                    FormatConverter.center_anchor "a2" "B"] |}.

(** The grid that [renderAscii] builds for the connected diagram. *)
Definition cornerGrid : Grid :=
  default [] (AsciiRenderer.renderAscii_grid (cornerModel [cornerConnector])).

(** What the round trip makes of a position triple over [n] items: an
    item index that is no position of the item list becomes 0. *)
Definition clamp_position (n : nat) (pos : Z * Z * Z) : Z * Z * Z :=
  let '(itemIndex, x, y) := pos in
  (if decide (0 ≤ itemIndex < Z.of_nat n) then itemIndex else 0, x, y).

(** The item index of a position triple refers to one of [n] items. *)
Definition position_in_range (n : nat) (pos : Z * Z * Z) : Prop :=
  0 ≤ pos.1.1 < Z.of_nat n.

(** The view tuples after the round trip, over [n] items. *)
Definition roundtrip_views (n : nat)
    (views : list (list (Z * Z * Z) * list (Z * Z)))
    : list (list (Z * Z * Z) * list (Z * Z)) :=
  if (length views =? 0)%nat then [([], [])]
  else map (λ viewData, (map (clamp_position n) viewData.1,
                         filter (in_range n) viewData.2)) views.

(** The payloads that [validateCompact] and [validateFull] accept. *)
Definition item_shape (item : Value) : Prop :=
  ∃ name icon description,
    item = VArr [VStr name; VStr icon; VStr description]
    ∧ (String.length name ≤ 30)%nat ∧ (String.length description ≤ 100)%nat.

Definition view_shape (view : Value) : Prop :=
  ∃ positions connections, view = VArr [VArr positions; VArr connections].

Definition compact_shape (v : Value) : Prop :=
  ∃ fields t items views meta version,
    v = VObj fields
    ∧ fields !! "t" = Some (VStr t) ∧ (String.length t ≤ 40)%nat
    ∧ fields !! "i" = Some (VArr items) ∧ Forall item_shape items
    ∧ fields !! "v" = Some (VArr views) ∧ Forall view_shape views
    ∧ fields !! "_" = Some (VObj meta)
    ∧ meta !! "f" = Some (VStr "compact") ∧ meta !! "v" = Some (VStr version).

Definition full_shape (v : Value) : Prop :=
  ∃ fields title items views icons colors,
    v = VObj fields
    ∧ fields !! "title" = Some (VStr title)
    ∧ fields !! "items" = Some (VArr items)
    ∧ fields !! "views" = Some (VArr views)
    ∧ fields !! "icons" = Some (VArr icons)
    ∧ fields !! "colors" = Some (VArr colors).

(** A full payload that carries the compact marker. *)
Definition markedMeta : gmap string Value := <["f" := VStr "compact"]> ∅.

Definition markedFields : gmap string Value :=
  <["_" := VObj markedMeta]>
    (<["title" := VStr "Test"]>
    (<["items" := VArr []]>
    (<["views" := VArr []]>
    (<["icons" := VArr []]>
    (<["colors" := VArr []]> ∅))))).

(** The name of a format in a validation result. *)
Definition format_name (format : FormatConverter.OutputFormat) : string :=
  match format with
  | FormatConverter.OutFull => "full"
  | FormatConverter.OutCompact => "compact"
  end.

(** The state held by the instance that a method call returns. *)
Definition returned (method : M nat) (w : World) : option DiagramState :=
  '(r, w') ← method w; objects w' !! r.

(** The view that a mutation names, if it names one, and the mutations
    that write to [model.items]. *)
Definition mutation_viewId (op : DiagramState.Mutation) : option string :=
  match op with
  | DiagramState.AddNode params => addNode_viewId params
  | DiagramState.UpdateNode params => updNode_viewId params
  | DiagramState.RemoveNode _ viewId => viewId
  | DiagramState.AddConnector params => addConn_viewId params
  | DiagramState.UpdateConnector params => updConn_viewId params
  | DiagramState.RemoveConnector _ viewId => viewId
  | DiagramState.AddRectangle params => addRect_viewId params
  | DiagramState.RemoveRectangle _ viewId => viewId
  | DiagramState.AddTextBox params => addText_viewId params
  | DiagramState.RemoveTextBox _ viewId => viewId
  | DiagramState.SetTitle _ | DiagramState.SetDescription _ => None
  end.

Definition node_operation (op : DiagramState.Mutation) : Prop :=
  match op with
  | DiagramState.AddNode _ | DiagramState.UpdateNode _
  | DiagramState.RemoveNode _ _ => True
  | _ => False
  end.

(** A mutation of the example state: a rectangle in the second view. *)
Definition rectangle_in_view2 : AddRectangleParams :=
  {| addRect_fromX := 0; addRect_fromY := 0; addRect_toX := 2; addRect_toY := 2;
     addRect_color := None; addRect_viewId := Some "view-2" |}.

(** A mutation whose identifier names nothing in the state: no item and
    no entry of the resolved view has the identifier, and for [removeNode]
    no connector of that view has an anchor on it. *)
Definition targets_nothing (op : DiagramState.Mutation) (self : DiagramState) : Prop :=
  match op with
  | DiagramState.UpdateNode params =>
      Forall (λ i, mi_id i ≠ updNode_nodeId params) (m_items (model self))
      ∧ ∀ k view, resolved_view (updNode_viewId params) self = Some (k, view) →
          Forall (λ i, vi_id i ≠ updNode_nodeId params) (view_items view)
  | DiagramState.RemoveNode nodeId viewId =>
      Forall (λ i, mi_id i ≠ nodeId) (m_items (model self))
      ∧ ∀ k view, resolved_view viewId self = Some (k, view) →
          Forall (λ i, vi_id i ≠ nodeId) (view_items view)
          ∧ Forall (λ c, ¬ DiagramState.references nodeId c)
                   (default [] (view_connectors view))
  | DiagramState.UpdateConnector params =>
      ∀ k view, resolved_view (updConn_viewId params) self = Some (k, view) →
        Forall (λ c, cn_id c ≠ updConn_connectorId params)
               (default [] (view_connectors view))
  | DiagramState.RemoveConnector connectorId viewId =>
      ∀ k view, resolved_view viewId self = Some (k, view) →
        Forall (λ c, cn_id c ≠ connectorId) (default [] (view_connectors view))
  | DiagramState.RemoveRectangle rectangleId viewId =>
      ∀ k view, resolved_view viewId self = Some (k, view) →
        Forall (λ r, rect_id r ≠ rectangleId) (default [] (view_rectangles view))
  | DiagramState.RemoveTextBox textBoxId viewId =>
      ∀ k view, resolved_view viewId self = Some (k, view) →
        Forall (λ t, tb_id t ≠ textBoxId) (default [] (view_textBoxes view))
  | _ => False
  end.

(** An identifier that nothing in the state carries and that no connector
    is anchored on. *)
Definition unused_id (id : string) (self : DiagramState) : Prop :=
  Forall (λ i, mi_id i ≠ id) (m_items (model self))
  ∧ Forall (λ view,
       Forall (λ i, vi_id i ≠ id) (view_items view)
       ∧ Forall (λ c, cn_id c ≠ id ∧ ¬ DiagramState.references id c)
                (default [] (view_connectors view))
       ∧ Forall (λ r, rect_id r ≠ id) (default [] (view_rectangles view))
       ∧ Forall (λ t, tb_id t ≠ id) (default [] (view_textBoxes view)))
     (m_views (model self)).

(** Client code that adds an element and removes it again, taking the
    identifier from the end of the list that the addition appended to, as
    the tools and the tests do. *)
Definition addNode_then_removeNode (params : AddNodeParams) (this : nat) : M nat :=
  let* s1 := call this (DiagramState.addNode params) in
  let* self1 := deref s1 in
  let* nodeId := lift (mi_id <$> last (m_items (model self1))) in
  call s1 (DiagramState.removeNode nodeId (addNode_viewId params)).

Definition addConnector_then_removeConnector (params : AddConnectorParams)
    (this : nat) : M nat :=
  let* s1 := call this (DiagramState.addConnector params) in
  let* connectors := call s1 (DiagramState.listConnectors (addConn_viewId params)) in
  let* connectorId := lift (conn_id <$> last connectors) in
  call s1 (DiagramState.removeConnector connectorId (addConn_viewId params)).

Definition addRectangle_then_removeRectangle (params : AddRectangleParams)
    (this : nat) : M nat :=
  let* s1 := call this (DiagramState.addRectangle params) in
  let* self1 := deref s1 in
  let* view := lift (DiagramState.getView (addRect_viewId params) self1) in
  let* rectangleId := lift (rect_id <$> last (JS.or_else (view_rectangles view) [])) in
  call s1 (DiagramState.removeRectangle rectangleId (addRect_viewId params)).

Definition addTextBox_then_removeTextBox (params : AddTextBoxParams)
    (this : nat) : M nat :=
  let* s1 := call this (DiagramState.addTextBox params) in
  let* self1 := deref s1 in
  let* view := lift (DiagramState.getView (addText_viewId params) self1) in
  let* textBoxId := lift (tb_id <$> last (JS.or_else (view_textBoxes view) [])) in
  call s1 (DiagramState.removeTextBox textBoxId (addText_viewId params)).

(** A text box for the second view of the example state. *)
Definition textBox_in_view2 : AddTextBoxParams :=
  {| addText_x := 1; addText_y := 1; addText_content := "Note";
     addText_orientation := None; addText_fontSize := None;
     addText_viewId := Some "view-2" |}.

(** The two views of the example state. *)
Definition example_view1 : View :=
  default ghostView (m_views example_model !! 0%nat).

Definition example_view2 : View :=
  default ghostView (m_views example_model !! 1%nat).

(** Client code that loads a diagram and exports the state at once, as
    every tool does around its operation. *)
Definition load_then_export (diagram : Diagram) (format : FormatConverter.OutputFormat)
    : M Diagram :=
  let* state := DiagramState.loadDiagram diagram in
  call state (DiagramState.toJSON format).

(** The view that the constructor creates for a model without views, given
    its identifier. *)
Definition default_view (id : string) : View :=
  {| view_id := id; view_name := "Main View"; view_items := [];
     view_connectors := Some []; view_rectangles := Some [];
     view_textBoxes := Some [] |}.

(** Client code that repeats an update, and an update that sets no
    field. *)
Definition updateNode_twice (params : UpdateNodeParams) (this : nat) : M nat :=
  let* s1 := call this (DiagramState.updateNode params) in
  call s1 (DiagramState.updateNode params).

Definition empty_update (nodeId : string) (viewId : option string) : UpdateNodeParams :=
  {| updNode_nodeId := nodeId; updNode_name := None; updNode_icon := None;
     updNode_description := None; updNode_x := None; updNode_y := None;
     updNode_labelHeight := None; updNode_viewId := viewId |}.

(** An update of the example state: [node-2] is renamed and moved in the
    second view. *)
Definition rename_and_move : UpdateNodeParams :=
  {| updNode_nodeId := "node-2"; updNode_name := Some "Gateway";
     updNode_icon := None; updNode_description := None;
     updNode_x := Some 9; updNode_y := None; updNode_labelHeight := None;
     updNode_viewId := Some "view-2" |}.

(** Client code that lists the nodes, or the connectors, of the view to
    which one was just added. *)
Definition addNode_then_listNodes (params : AddNodeParams) (this : nat)
    : M (list NodeInfo) :=
  let* s1 := call this (DiagramState.addNode params) in
  call s1 (DiagramState.listNodes (addNode_viewId params)).

Definition addConnector_then_listConnectors (params : AddConnectorParams) (this : nat)
    : M (list ConnectorInfo) :=
  let* s1 := call this (DiagramState.addConnector params) in
  call s1 (DiagramState.listConnectors (addConn_viewId params)).

(** The tile coordinates of the items of a view, and the lengths of the
    rows of a grid. *)
Definition tile_xs (view : View) : list Z := map co_x (map vi_tile (view_items view)).
Definition tile_ys (view : View) : list Z := map co_y (map vi_tile (view_items view)).

Definition row_lengths (grid : Grid) : list nat := length <$> grid.

(** A grid of blank cells. *)
Definition blankGrid (rows cols : nat) : Grid :=
  replicate rows (replicate cols AsciiRenderer.SPACE).

(** The width of the box of a node, and the text of its middle row
    between the two sides: the name, centred, with the odd blank on the
    right. *)
Definition box_width (name icon : list char) : nat :=
  (length name `max` length icon + 4)%nat.

Definition box_text (name icon : list char) : list char :=
  let inner := (box_width name icon - 2)%nat in
  let before := ((inner - length name) / 2)%nat in
  replicate before AsciiRenderer.SPACE ++ name
  ++ replicate (inner - length name - before) AsciiRenderer.SPACE.

(** Computations that leave the identifier source as it is. *)
Definition keeps_source {A} (c : M A) : Prop :=
  ∀ w a w', c w = Some (a, w') → uuid_source w' = uuid_source w.

(** A model whose second item is placed in no view, and a connector
    request between its two items. *)
Definition unplacedModel : Model :=
  {| m_version := None; m_title := "T"; m_description := None;
     m_items := [example_item "node-1" "Node 1"; example_item "node-2" "Node 2"];
     m_views :=
       [{| view_id := "view-1"; view_name := "Main View";
           view_items := [example_viewItem "node-1" 0 0];
           view_connectors := Some [example_connector "conn-0" "node-1" "node-1"];
           view_rectangles := Some []; view_textBoxes := Some [] |}];
     m_icons := []; m_colors := [] |}.

Definition unplacedView : View := default ghostView (m_views unplacedModel !! 0%nat).

(** The model that an object graph holds: the value of the object at a
    reference, read field by field through the references it contains.
    It is undefined when a reference leads to no object, or to an object of
    another class than the field requires. *)
Definition snapshot_coords (h : list Object) (l : loc) : option Coords :=
  match h !! l with
  | Some (CoordsObject tile) => Some tile
  | _ => None
  end.

Definition snapshot_item (h : list Object) (l : loc) : option ModelItem :=
  match h !! l with
  | Some (ModelItemObject item) => Some item
  | _ => None
  end.

Definition snapshot_connector (h : list Object) (l : loc) : option Connector :=
  match h !! l with
  | Some (ConnectorObject connector) => Some connector
  | _ => None
  end.

Definition snapshot_rectangle (h : list Object) (l : loc) : option Rectangle :=
  match h !! l with
  | Some (RectangleObject rectangle) => Some rectangle
  | _ => None
  end.

Definition snapshot_textBox (h : list Object) (l : loc) : option TextBox :=
  match h !! l with
  | Some (TextBoxObject textBox) => Some textBox
  | _ => None
  end.

Definition snapshot_viewItem (h : list Object) (l : loc) : option ViewItem :=
  match h !! l with
  | Some (ViewItemObject id tile labelHeight) =>
      tile ← snapshot_coords h tile;
      Some {| vi_id := id; vi_tile := tile; vi_labelHeight := labelHeight |}
  | _ => None
  end.

Definition snapshot_array {A} (element : loc → option A) (h : list Object) (l : loc)
    : option (list A) :=
  match h !! l with
  | Some (ArrayObject elements) => mapM element elements
  | _ => None
  end.

Definition snapshot_optional {A} (f : loc → option A) (l : option loc)
    : option (option A) :=
  match l with
  | Some l => Some <$> f l
  | None => Some None
  end.

Definition snapshot_view (h : list Object) (l : loc) : option View :=
  match h !! l with
  | Some (ViewObject id name items connectors rectangles textBoxes) =>
      items ← snapshot_array (snapshot_viewItem h) h items;
      connectors ← snapshot_optional (snapshot_array (snapshot_connector h) h)
                     connectors;
      rectangles ← snapshot_optional (snapshot_array (snapshot_rectangle h) h)
                     rectangles;
      textBoxes ← snapshot_optional (snapshot_array (snapshot_textBox h) h)
                    textBoxes;
      Some {| view_id := id; view_name := name; view_items := items;
              view_connectors := connectors; view_rectangles := rectangles;
              view_textBoxes := textBoxes |}
  | _ => None
  end.

Definition snapshot (h : list Object) (l : loc) : option Model :=
  match h !! l with
  | Some (ModelObject version title description items views icons colors) =>
      items ← snapshot_array (snapshot_item h) h items;
      views ← snapshot_array (snapshot_view h) h views;
      Some {| m_version := version; m_title := title;
              m_description := description; m_items := items; m_views := views;
              m_icons := icons; m_colors := colors |}
  | _ => None
  end.

(** The world of the embedding over values that generates the
    identifiers of a store. *)
Definition world_of (s : Store) : World :=
  {| uuid_source := st_uuid_source s; uuid_next := st_uuid_next s; objects := [] |}.

(** The objects of a model given as a value, built one by one, and an
    instance that holds them; the store in which the example state has
    been built that way, and the references of that instance and of its
    model. *)
Definition store_array {A} (store_element : A → Heap.H loc) (l : list A) : Heap.H loc :=
  Heap.bind (Heap.traverse store_element l) (λ elements,
  Heap.alloc (ArrayObject elements)).

Definition store_optional {A} (store : A → Heap.H loc) (a : option A)
    : Heap.H (option loc) :=
  match a with
  | Some a => Heap.bind (store a) (λ l, Heap.ret (Some l))
  | None => Heap.ret None
  end.

Definition store_viewItem (viewItem : ViewItem) : Heap.H loc :=
  Heap.bind (Heap.alloc (CoordsObject (vi_tile viewItem))) (λ tile,
  Heap.alloc (ViewItemObject (vi_id viewItem) tile (vi_labelHeight viewItem))).

Definition store_view (view : View) : Heap.H loc :=
  Heap.bind (store_array store_viewItem (view_items view)) (λ items,
  Heap.bind (store_optional (store_array (λ c, Heap.alloc (ConnectorObject c)))
               (view_connectors view)) (λ connectors,
  Heap.bind (store_optional (store_array (λ r, Heap.alloc (RectangleObject r)))
               (view_rectangles view)) (λ rectangles,
  Heap.bind (store_optional (store_array (λ t, Heap.alloc (TextBoxObject t)))
               (view_textBoxes view)) (λ textBoxes,
  Heap.alloc (ViewObject (view_id view) (view_name view) items connectors
                rectangles textBoxes))))).

Definition store_model (m : Model) : Heap.H loc :=
  Heap.bind (store_array (λ i, Heap.alloc (ModelItemObject i)) (m_items m)) (λ items,
  Heap.bind (store_array store_view (m_views m)) (λ views,
  Heap.alloc (ModelObject (m_version m) (m_title m) (m_description m) items views
                (m_icons m) (m_colors m)))).

Definition store_state (m : Model) : Heap.H loc :=
  Heap.bind (store_model m) (λ model, Heap.alloc (StateObject model)).

Definition empty_store : Store :=
  {| st_uuid_source := uuid_source example_world; st_uuid_next := 0; heap := [] |}.

Definition example_store : Store :=
  default empty_store (snd <$> store_state example_model empty_store).

Definition example_instance : loc := Eval vm_compute in (length (heap example_store) - 1)%nat.

Definition example_instance_model : loc :=
  Eval vm_compute in (length (heap example_store) - 2)%nat.

(** What [addConnector] leaves of a view and of a model, for the
    identifiers that it generates. *)
Definition addConnector_view_result (connectorId anchorId1 anchorId2 : string)
    (params : AddConnectorParams) (view : View) : View :=
  if bool_decide (DiagramState.placed (addConn_fromNodeId params) view)
     && bool_decide (DiagramState.placed (addConn_toNodeId params) view)
  then set_view_connectors
         (Some (JS.or_else (view_connectors view) [] ++
                [DiagramState.addConnector_connector connectorId anchorId1
                   anchorId2 params])) view
  else view.

Definition addConnector_result (connectorId anchorId1 anchorId2 viewId : string)
    (params : AddConnectorParams) (m : Model) : Model :=
  match list_find (λ v, view_id v = viewId) (m_views m) with
  | Some (k, view) =>
      set_m_views
        (<[k := addConnector_view_result connectorId anchorId1 anchorId2 params
                  view]> (m_views m)) m
  | None => m
  end.

(** Assertions about the object heap.  The properties of the methods over
    the object heap are proved in a separation logic: a cell [l ↦ o] is
    the right to write the object at [l], a cell [l ↦□ o] is the
    knowledge that the object at [l] is [o] and will stay so.
    [is_model dq l m] describes the object graph of the model [m] at [l],
    with cells of the kind [dq]; [frozen h] knows the objects of the heap
    [h]; and [wp_from src c n Q] says that the computation [c], in a store
    whose identifiers come from [src] and whose next identifier is the
    [n]-th, returns, with [Q] holding of its result and of the number of
    the next identifier.  A callback [P] on objects reflects a predicate
    [Pv] on values when it holds of an object exactly when [Pv] holds of
    the value of that object. *)
Section heap_assertions.

Import iris.bi.bi iris.proofmode.proofmode iris.base_logic.lib.gen_heap.

Context `{!gen_heapGS loc Object Σ}.

Local Notation "l ↦{ dq } o" := (pointsto l dq o)
  (at level 20, format "l  ↦{ dq }  o") : bi_scope.
Local Notation "l ↦ o" := (pointsto l (DfracOwn 1) o) (at level 20) : bi_scope.
Local Notation "l ↦□ o" := (pointsto l DfracDiscarded o) (at level 20) : bi_scope.

Definition store_interp (s : Store) : iProp Σ :=
  gen_heap_interp (map_seq 0 (heap s)).

Definition wp_from (src : nat → string) {A} (c : Heap.H A) (n : nat)
    (Q : A → nat → iProp Σ) : iProp Σ :=
  ∀ s, ⌜st_uuid_source s = src⌝ -∗ ⌜st_uuid_next s = n⌝ -∗ store_interp s ==∗
       ∃ a s', ⌜c s = Some (a, s')⌝ ∗ ⌜st_uuid_source s' = src⌝ ∗
               store_interp s' ∗ Q a (st_uuid_next s').

Definition is_coords dq l (tile : Coords) : iProp Σ := l ↦{dq} CoordsObject tile.
Definition is_item dq l (item : ModelItem) : iProp Σ := l ↦{dq} ModelItemObject item.
Definition is_connector dq l (connector : Connector) : iProp Σ :=
  l ↦{dq} ConnectorObject connector.
Definition is_rectangle dq l (rectangle : Rectangle) : iProp Σ :=
  l ↦{dq} RectangleObject rectangle.
Definition is_textBox dq l (textBox : TextBox) : iProp Σ :=
  l ↦{dq} TextBoxObject textBox.

Definition is_viewItem dq l (viewItem : ViewItem) : iProp Σ :=
  ∃ tile, l ↦{dq} ViewItemObject (vi_id viewItem) tile (vi_labelHeight viewItem) ∗
          is_coords dq tile (vi_tile viewItem).

Definition is_array {A} (R : loc → A → iProp Σ) dq l (xs : list A) : iProp Σ :=
  ∃ elements, l ↦{dq} ArrayObject elements ∗ [∗ list] e;x ∈ elements;xs, R e x.

Definition is_optional {A} (R : loc → A → iProp Σ) (l : option loc) (x : option A)
    : iProp Σ :=
  match l, x with
  | Some l, Some x => R l x
  | None, None => True
  | _, _ => False
  end.

Definition is_view dq l (view : View) : iProp Σ :=
  ∃ items connectors rectangles textBoxes,
    l ↦{dq} ViewObject (view_id view) (view_name view) items connectors rectangles
              textBoxes ∗
    is_array (is_viewItem dq) dq items (view_items view) ∗
    is_optional (is_array (is_connector dq) dq) connectors (view_connectors view) ∗
    is_optional (is_array (is_rectangle dq) dq) rectangles (view_rectangles view) ∗
    is_optional (is_array (is_textBox dq) dq) textBoxes (view_textBoxes view).

Definition is_model dq l (m : Model) : iProp Σ :=
  ∃ items views,
    l ↦{dq} ModelObject (m_version m) (m_title m) (m_description m) items views
              (m_icons m) (m_colors m) ∗
    is_array (is_item dq) dq items (m_items m) ∗
    is_array (is_view dq) dq views (m_views m).

Definition frozen (h : list Object) : iProp Σ :=
  [∗ map] l ↦ o ∈ map_seq 0 h, l ↦□ o.

Definition reflects {A} (R : loc → A → iProp Σ) (P : Object → Prop) (Pv : A → Prop)
    : Prop :=
  ∀ e x, R e x -∗ ∃ o, e ↦ o ∗ ⌜P o ↔ Pv x⌝ ∗ (e ↦ o -∗ R e x).

End heap_assertions.

(** * Properties *)

(** ** Facts about the primitives *)

Lemma truthy_true s : JS.truthy s = true ↔ s ≠ EmptyString.
Proof.
  unfold JS.truthy. rewrite negb_true_iff, <- not_true_iff_false, String.eqb_eq.
  done.
Qed.

Lemma truthy_false s : JS.truthy s = false ↔ s = EmptyString.
Proof.
  unfold JS.truthy. rewrite negb_false_iff, String.eqb_eq. done.
Qed.

Lemma slice0_short n s : (String.length s ≤ n)%nat → JS.slice0 n s = s.
Proof.
  unfold JS.slice0. revert n. induction s as [|a s IH]; intros [|n] Hn;
    simpl in *; try done; try lia.
  f_equal. apply IH. lia.
Qed.

Lemma template_inj prefix a b : JS.template prefix a = JS.template prefix b → a = b.
Proof.
  unfold JS.template. intros Hab.
  apply (inj (String.app prefix)) in Hab. by apply (inj pretty) in Hab.
Qed.

Lemma or_string_or_undefined s : JS.or_string (JS.or_undefined s) EmptyString = s.
Proof.
  unfold JS.or_string, JS.or_undefined.
  destruct (JS.truthy s) eqn:Hs; [by rewrite Hs|].
  by apply truthy_false in Hs.
Qed.

Lemma set_m_items_id m : set_m_items (m_items m) m = m.
Proof. by destruct m. Qed.

Lemma set_m_views_id m : set_m_views (m_views m) m = m.
Proof. by destruct m. Qed.

Lemma set_view_items_id v : set_view_items (view_items v) v = v.
Proof. by destruct v. Qed.

Lemma set_view_connectors_id v : set_view_connectors (view_connectors v) v = v.
Proof. by destruct v. Qed.

(** ** The format converter *)

Section converter_facts.

Import FormatConverter.

(** The index map built by [toCompact]. *)

Lemma set_indices_fresh items index map key :
  Forall (λ item, mi_id item ≠ key) items →
  set_indices items index map !! key = map !! key.
Proof.
  revert index map. induction items as [|item items IH]; intros index map Hall.
  - done.
  - inversion Hall as [|? ? Hne Hall']; subst. simpl.
    rewrite IH by done. by rewrite lookup_insert_ne.
Qed.

Lemma set_indices_nodup items index map j item :
  NoDup (mi_id <$> items) →
  items !! j = Some item →
  set_indices items index map !! mi_id item = Some (index + j)%nat.
Proof.
  revert index map j.
  induction items as [|item0 items IH]; intros index map j Hnd Hj; [done|].
  apply NoDup_cons in Hnd as [Hnotin Hnd]. destruct j as [|j]; simpl in *.
  - injection Hj as ->. rewrite set_indices_fresh.
    + rewrite lookup_insert_eq. f_equal. lia.
    + apply Forall_forall. intros it Hit Heq. apply Hnotin.
      rewrite <- Heq. by apply list_elem_of_fmap_2.
  - rewrite (IH _ _ j) by done. f_equal. lia.
Qed.

Lemma set_indices_is_Some items index map key :
  is_Some (set_indices items index map !! key) ↔
  is_Some (map !! key) ∨ Exists (λ item, mi_id item = key) items.
Proof.
  revert index map. induction items as [|item items IH]; intros index map; simpl.
  - rewrite Exists_nil. tauto.
  - rewrite IH, Exists_cons, lookup_insert.
    case_decide as Hid.
    + split; [|intros _; left; eauto]. intros _. right. by left.
    + tauto.
Qed.

(** [toCompact] never throws. *)

Lemma toCompact_connection_total map connector :
  is_Some (toCompact_connection map connector).
Proof.
  unfold toCompact_connection.
  destruct (cn_anchors connector) as [|a1 [|a2 rest]] eqn:Hanchors; simpl;
    [by eexists | by eexists |].
  assert (is_Some ((a1 :: a2 :: rest) !! (length rest - 0 + 1)%nat)) as [ta Hta].
  { apply lookup_lt_is_Some. simpl. lia. }
  replace (S (length rest - 0)) with (length rest - 0 + 1)%nat by lia.
  simpl in Hta. replace (length rest - 0 + 1)%nat with (S (length rest)) in * by lia.
  simpl in *. rewrite Hta. simpl.
  destruct (ref_item (an_ref a1)) as [f|], (ref_item (an_ref ta)) as [t|];
    try by eexists.
  destruct (negb (JS.truthy f) || negb (JS.truthy t)); [by eexists|].
  destruct (map !! f), (map !! t); by eexists.
Qed.

Lemma mapM_total {A B} (f : A → option B) (l : list A) :
  (∀ a, is_Some (f a)) → is_Some (mapM f l).
Proof.
  intros Hf. apply mapM_is_Some. apply Forall_forall. intros a _. apply Hf.
Qed.

Lemma toCompact_view_total map view : is_Some (toCompact_view map view).
Proof.
  unfold toCompact_view.
  destruct (mapM_total (toCompact_connection map)
              (JS.or_else (view_connectors view) [])
              (toCompact_connection_total map)) as [cs ->].
  by eexists.
Qed.

Lemma toCompact_total full : is_Some (toCompact full).
Proof.
  unfold toCompact.
  destruct (mapM_total (toCompact_view (set_indices (m_items full) 0 ∅))
              (m_views full) (toCompact_view_total _)) as [vs ->].
  by eexists.
Qed.

Lemma toCompact_Some full c :
  toCompact full = Some c →
  c_t c = JS.slice0 40 (m_title full) ∧
  c_i c = map toCompact_item (m_items full) ∧
  ∃ views, mapM (toCompact_view (set_indices (m_items full) 0 ∅)) (m_views full)
           = Some views ∧
           c_v c = if (length views =? 0)%nat then [([], [])] else views.
Proof.
  unfold toCompact. intros H.
  destruct (mapM _ (m_views full)) as [vs|] eqn:Hvs; [|done].
  simpl in H. injection H as <-. simpl. eauto.
Qed.

(** The view tuple at position [k] of the result is the encoding of the
    view at position [k]. *)
Lemma toCompact_view_at full c k view :
  toCompact full = Some c →
  m_views full !! k = Some view →
  ∃ tuple, toCompact_view (set_indices (m_items full) 0 ∅) view = Some tuple ∧
           c_v c !! k = Some tuple.
Proof.
  intros Hc Hk. apply toCompact_Some in Hc as (_ & _ & vs & Hvs & Hcv).
  rewrite mapM_Some in Hvs.
  destruct (Forall2_lookup_l _ _ _ _ _ Hvs Hk) as (tuple & Htuple & Hview).
  exists tuple. split; [done|]. rewrite Hcv.
  destruct vs; [done|]. done.
Qed.

End converter_facts.

Section toFull_facts.

Import FormatConverter.

Lemma bind_Some {A B} (c : M A) (k : A → M B) w a w' :
  c w = Some (a, w') → bind c k w = k a w'.
Proof. unfold bind. by intros ->. Qed.

Lemma toFull_connector_run viewIndex connIndex conn w :
  ∃ c w', toFull_connector viewIndex connIndex conn w = Some (c, w') ∧
          objects w' = objects w ∧ connector_of conn c.
Proof.
  destruct conn as [fromIndex toIndex].
  unfold toFull_connector, bind, uuidv4, ret. cbn.
  eexists _, _. split; [reflexivity|]. split; [done|]. by eexists _, _.
Qed.

Lemma imapM_toFull_connector viewIndex conns index w :
  ∃ cs w', imapM (toFull_connector viewIndex) index conns w = Some (cs, w') ∧
           objects w' = objects w ∧
           Forall2 connector_of conns cs.
Proof.
  revert index w. induction conns as [|conn conns IH]; intros index w.
  - exists [], w. by repeat split.
  - destruct (toFull_connector_run viewIndex index conn w)
      as (c & w1 & Hc & Hobj1 & Hconn).
    destruct (IH (S index) w1) as (cs & w' & Hcs & Hobj & Hall).
    exists (c :: cs), w'. split; [|split; [congruence|by constructor]].
    cbn [imapM]. rewrite (bind_Some _ _ _ _ _ Hc), (bind_Some _ _ _ _ _ Hcs).
    done.
Qed.

Lemma toFull_view_run viewIndex viewData w :
  ∃ view w', toFull_view viewIndex viewData w = Some (view, w') ∧
             objects w' = objects w ∧ view_of viewData view.
Proof.
  destruct viewData as [positions connections]. unfold toFull_view.
  destruct (imapM_toFull_connector viewIndex connections 0 w)
    as (cs & w' & Hcs & Hobj & Hall).
  rewrite (bind_Some _ _ _ _ _ Hcs).
  eexists _, w'. split; [done|]. split; [done|].
  repeat split; simpl; eauto.
Qed.

Lemma imapM_toFull_view views index w :
  ∃ vs w', imapM toFull_view index views w = Some (vs, w') ∧
           objects w' = objects w ∧ Forall2 view_of views vs.
Proof.
  revert index w. induction views as [|viewData views IH]; intros index w.
  - exists [], w. by repeat split.
  - destruct (toFull_view_run index viewData w) as (view & w1 & Hv & Hobj1 & Hview).
    destruct (IH (S index) w1) as (vs & w' & Hvs & Hobj & Hall).
    exists (view :: vs), w'. split; [|split; [congruence|by constructor]].
    cbn [imapM]. rewrite (bind_Some _ _ _ _ _ Hv), (bind_Some _ _ _ _ _ Hvs).
    done.
Qed.

(** [toFull] always returns, leaves the constructed instances alone, and
    its result has the following shape. *)
Lemma toFull_run compact w :
  ∃ m w', toFull compact w = Some (m, w') ∧
          objects w' = objects w ∧
          m_title m = c_t compact ∧
          m_items m = imap toFull_item (c_i compact) ∧
          Forall2 view_of (c_v compact) (m_views m).
Proof.
  unfold toFull.
  destruct (imapM_toFull_view (c_v compact) 0 w) as (vs & w' & Hvs & Hobj & Hall).
  rewrite (bind_Some _ _ _ _ _ Hvs).
  eexists _, w'. by repeat split.
Qed.

(** The index map of the items that [toFull] creates sends [item-z] to
    [z] for the positions [z] of the item list, and nothing else. *)
Lemma toFull_items_lookup (items : list (string * string * string)) j item :
  imap toFull_item items !! j = Some item →
  mi_id item = JS.template "item-" (Z.of_nat j).
Proof.
  rewrite list_lookup_imap. destruct (items !! j) as [[[name icon] descr]|]; [|done].
  simpl. by intros [= <-].
Qed.

Lemma toFull_items_NoDup (items : list (string * string * string)) :
  NoDup (mi_id <$> imap toFull_item items).
Proof.
  apply NoDup_alt. intros i j id Hi Hj.
  rewrite list_lookup_fmap in Hi, Hj.
  destruct (imap toFull_item items !! i) as [a|] eqn:Ha; [|done].
  destruct (imap toFull_item items !! j) as [b|] eqn:Hb; [|done].
  apply toFull_items_lookup in Ha, Hb. simpl in Hi, Hj.
  assert (JS.template "item-" (Z.of_nat i) = JS.template "item-" (Z.of_nat j))
    as Heq by congruence.
  apply template_inj in Heq. lia.
Qed.

Lemma toFull_index_lookup (items : list (string * string * string)) z :
  set_indices (imap toFull_item items) 0 ∅ !! JS.template "item-" z =
  if decide (0 ≤ z < Z.of_nat (length items)) then Some (Z.to_nat z) else None.
Proof.
  case_decide as Hz.
  - assert (is_Some (imap toFull_item items !! Z.to_nat z)) as [item Hitem].
    { apply lookup_lt_is_Some. rewrite length_imap. lia. }
    pose proof (toFull_items_lookup _ _ _ Hitem) as Hid.
    rewrite Z2Nat.id in Hid by lia. rewrite <- Hid.
    by rewrite (set_indices_nodup _ _ _ _ _ (toFull_items_NoDup items) Hitem).
  - rewrite set_indices_fresh; [done|].
    apply Forall_lookup. intros j item Hitem Heq.
    pose proof (toFull_items_lookup _ _ _ Hitem) as Hid.
    rewrite Hid in Heq. apply template_inj in Heq.
    apply lookup_lt_Some in Hitem. rewrite length_imap in Hitem. lia.
Qed.

Lemma truthy_item z : JS.truthy (JS.template "item-" z) = true.
Proof. done. Qed.

(** A connector created by [toFull] is encoded back as its pair when
    both indices are positions of the item list, and dropped otherwise. *)
Lemma toCompact_connection_of (items : list (string * string * string)) conn c :
  connector_of conn c →
  toCompact_connection (set_indices (imap toFull_item items) 0 ∅) c =
  Some (if decide (in_range (length items) conn) then Some conn else None).
Proof.
  destruct conn as [fromIndex toIndex]. intros (id1 & id2 & Hanchors).
  unfold toCompact_connection. rewrite Hanchors. simpl.
  rewrite !toFull_index_lookup. unfold in_range. simpl.
  repeat case_decide; try tauto; try done.
  by rewrite !Z2Nat.id by lia.
Qed.

Lemma toCompact_connections_of (items : list (string * string * string)) conns cs :
  Forall2 connector_of conns cs →
  ∃ mapped,
    mapM (toCompact_connection (set_indices (imap toFull_item items) 0 ∅)) cs
      = Some mapped ∧
    omap id mapped = filter (in_range (length items)) conns.
Proof.
  induction 1 as [|conn c conns cs Hc _ (mapped & Hmapped & Hfilter)].
  - by exists [].
  - eexists (_ :: mapped). simpl.
    rewrite (toCompact_connection_of _ _ _ Hc), Hmapped. simpl.
    split; [done|]. rewrite filter_cons, <- Hfilter.
    by destruct (decide (in_range (length items) conn)).
Qed.

Lemma toCompact_view_of (items : list (string * string * string)) viewData view :
  view_of viewData view →
  ∃ positions,
    toCompact_view (set_indices (imap toFull_item items) 0 ∅) view =
    Some (positions, filter (in_range (length items)) viewData.2).
Proof.
  intros (_ & (cs & Hcs & Hall) & _). unfold toCompact_view. rewrite Hcs. simpl.
  destruct (toCompact_connections_of items _ _ Hall) as (mapped & Hmapped & <-).
  unfold JS.or_else. simpl. rewrite Hmapped. simpl. eauto.
Qed.

Lemma toCompact_toFull_item index name icon descr :
  (String.length name ≤ 30)%nat →
  (String.length descr ≤ 100)%nat →
  toCompact_item (toFull_item index (name, icon, descr)) = (name, icon, descr).
Proof.
  intros Hname Hdescr. unfold toCompact_item, toFull_item. simpl.
  rewrite !or_string_or_undefined.
  by rewrite (slice0_short 30), (slice0_short 100).
Qed.

Lemma concat_imap_nil {A B} (f : nat → A → list B) (l : list A) :
  concat (imap f l) = [] → ∀ index a, l !! index = Some a → f index a = [].
Proof.
  revert f. induction l as [|a0 l IH]; intros f Hnil index a Ha; [done|].
  simpl in Hnil. apply app_eq_nil in Hnil as [Hhead Hrest].
  destruct index as [|index]; simpl in Ha.
  - by injection Ha as <-.
  - apply (IH (f ∘ S) Hrest index a Ha).
Qed.

(** What a successful [validateCompact] establishes. *)
Lemma validateCompact_valid compact :
  (validateCompact compact).1 = true →
  (String.length (c_t compact) ≤ 40)%nat ∧
  Forall (λ '(name, icon, descr),
            (String.length name ≤ 30)%nat ∧ (String.length descr ≤ 100)%nat)
         (c_i compact) ∧
  meta_f (c_meta compact) = "compact".
Proof.
  unfold validateCompact. simpl. rewrite bool_decide_eq_true.
  rewrite !length_app. intros Hlen.
  assert (validateCompact_title (c_t compact) = []) as Ht
    by (apply nil_length_inv; lia).
  assert (concat (imap validateCompact_item (c_i compact)) = []) as Hi
    by (apply nil_length_inv; lia).
  assert (validateCompact_meta (c_meta compact) = []) as Hm
    by (apply nil_length_inv; lia).
  split; [|split].
  - unfold validateCompact_title in Ht.
    destruct (40 <? String.length (c_t compact))%nat eqn:E; [done|].
    apply Nat.ltb_ge in E. done.
  - apply Forall_lookup. intros index [[name icon] descr] Hitem.
    pose proof (concat_imap_nil _ _ Hi _ _ Hitem) as Hnil.
    unfold validateCompact_item in Hnil.
    apply app_eq_nil in Hnil as [Hn Hd].
    destruct (30 <? String.length name)%nat eqn:En; [done|].
    destruct (100 <? String.length descr)%nat eqn:Ed; [done|].
    apply Nat.ltb_ge in En, Ed. done.
  - unfold validateCompact_meta in Hm.
    destruct (String.eqb (meta_f (c_meta compact)) "compact") eqn:E; [|done].
    by apply String.eqb_eq in E.
Qed.

End toFull_facts.

(** ** Round trips of the converter *)

Lemma filter_all {A} (P : A → Prop) `{!∀ a, Decision (P a)} (l : list A) :
  Forall P l → filter P l = l.
Proof.
  induction 1 as [|a l Ha _ IH]; [done|].
  rewrite filter_cons, decide_True by done. by rewrite IH.
Qed.

(** C1, as amended: for every compact diagram [c] that [validateCompact]
    accepts, [toCompact(toFull(c))] returns a compact diagram whose [t] is
    [c.t.slice(0,40)], whose [i] has the length of [c.i] and equals it
    element for element, and whose connections list, in each view of [c], is
    the list of [c] without the pairs that have an index outside the
    positions of [c.i]; it is the very list of [c] when all its indices are
    positions of [c.i]. *)
Theorem compact_roundtrip (c : CompactDiagram) (w : World) :
  (FormatConverter.validateCompact c).1 = true →
  ∃ m w' r,
    FormatConverter.toFull c w = Some (m, w') ∧
    FormatConverter.toCompact m = Some r ∧
    c_t r = JS.slice0 40 (c_t c) ∧
    length (c_i r) = length (c_i c) ∧
    c_i r = c_i c ∧
    ∀ k positions connections,
      c_v c !! k = Some (positions, connections) →
      ∃ positions',
        c_v r !! k =
          Some (positions', filter (in_range (length (c_i c))) connections) ∧
        (Forall (in_range (length (c_i c))) connections →
         c_v r !! k = Some (positions', connections)).
Proof.
  intros Hvalid. apply validateCompact_valid in Hvalid as (Ht & Hitems & _).
  destruct (toFull_run c w) as (m & w' & Hm & _ & Htitle & Hi & Hviews).
  destruct (toCompact_total m) as [r Hr].
  exists m, w', r. split; [done|]. split; [done|].
  pose proof (toCompact_Some _ _ Hr) as (Hrt & Hri & _).
  assert (c_i r = c_i c) as Heq.
  { rewrite Hri, Hi. clear -Hitems. apply list_eq. intros j.
    rewrite list_lookup_fmap, list_lookup_imap.
    destruct (c_i c !! j) as [[[name icon] descr]|] eqn:Hj; [|done].
    rewrite Forall_lookup in Hitems. destruct (Hitems _ _ Hj) as [Hn Hd].
    change (Some (FormatConverter.toCompact_item
                    (FormatConverter.toFull_item j (name, icon, descr)))
            = Some (name, icon, descr)).
    by rewrite toCompact_toFull_item. }
  split; [by rewrite Hrt, Htitle|]. split; [by rewrite Heq|]. split; [done|].
  intros k positions connections Hk.
  destruct (Forall2_lookup_l _ _ _ _ _ Hviews Hk) as (view & Hview & Hof).
  destruct (toCompact_view_at _ _ _ _ Hr Hview) as (tuple & Htuple & Hrk).
  rewrite Hi in Htuple.
  destruct (toCompact_view_of (c_i c) _ _ Hof) as (positions' & Hpos).
  rewrite Hpos in Htuple. injection Htuple as <-. simpl in Hrk.
  exists positions'. split; [done|]. intros Hall. by rewrite filter_all in Hrk.
Qed.

Lemma compact_roundtrip_witness :
  (FormatConverter.validateCompact validCompact).1 = true ∧
  ∃ m w' r,
    FormatConverter.toFull validCompact example_world = Some (m, w') ∧
    FormatConverter.toCompact m = Some r ∧
    c_t r = JS.slice0 40 (c_t validCompact) ∧
    length (c_i r) = length (c_i validCompact) ∧
    c_i r = c_i validCompact ∧
    ∀ k positions connections,
      c_v validCompact !! k = Some (positions, connections) →
      ∃ positions',
        c_v r !! k =
          Some (positions',
                filter (in_range (length (c_i validCompact))) connections) ∧
        (Forall (in_range (length (c_i validCompact))) connections →
         c_v r !! k = Some (positions', connections)).
Proof.
  split; [reflexivity|].
  apply (compact_roundtrip validCompact example_world). reflexivity.
Defined.

(** C1 as stated fails: [danglingCompact] passes [validateCompact], its
    view has the connections [[0,1],[1,2]], and the round trip returns
    [[0,1]] only, since position 2 is not a position of its two items. *)
Lemma compact_roundtrip_drops_dangling_connection :
  (FormatConverter.validateCompact danglingCompact).1 = true ∧
  ∃ m w' r positions,
    FormatConverter.toFull danglingCompact example_world = Some (m, w') ∧
    FormatConverter.toCompact m = Some r ∧
    c_v danglingCompact !! 0%nat = Some (positions, [(0, 1); (1, 2)]) ∧
    c_v r !! 0%nat = Some (positions, [(0, 1)]).
Proof.
  split; [reflexivity|].
  eexists _, _, _, _. split; [vm_compute; reflexivity|].
  split; [vm_compute; reflexivity|]. split; reflexivity.
Qed.

(** C5: for every full model [m], [toFull(toCompact(m))] returns (neither
    conversion throws), the result has as many items as [m], and in each of
    its views [rectangles] and [textBoxes] are empty arrays. *)
Theorem full_roundtrip_shape (m : Model) (w : World) :
  ∃ c m' w',
    FormatConverter.toCompact m = Some c ∧
    FormatConverter.toFull c w = Some (m', w') ∧
    length (m_items m') = length (m_items m) ∧
    Forall (λ view, view_rectangles view = Some [] ∧ view_textBoxes view = Some [])
           (m_views m').
Proof.
  destruct (toCompact_total m) as [c Hc].
  destruct (toFull_run c w) as (m' & w' & Hm' & _ & _ & Hi & Hviews).
  exists c, m', w'. split; [done|]. split; [done|].
  apply toCompact_Some in Hc as (_ & Hci & _). split.
  - by rewrite Hi, length_imap, Hci, length_map.
  - clear -Hviews. induction Hviews as [|vd view vds views Hof _ IH]; constructor;
      [|done].
    by destruct Hof as (_ & _ & Hr & Ht).
Qed.

(** ** [toCompact] on references to items that do not exist *)

Section dangling_facts.

Import FormatConverter.

Lemma set_indices_Some items index map key i :
  set_indices items index map !! key = Some i →
  map !! key = Some i ∨
  ∃ j item, items !! j = Some item ∧ mi_id item = key ∧ i = (index + j)%nat.
Proof.
  revert index map. induction items as [|item0 items IH]; intros index map Hi.
  - by left.
  - simpl in Hi. apply IH in Hi as [Hi|(j & item & Hj & Hid & ->)].
    + rewrite lookup_insert in Hi. case_decide as Hkey.
      * injection Hi as <-. right. exists 0%nat, item0.
        split; [done|]. split; [done|]. lia.
      * by left.
    + right. exists (S j), item. split; [done|]. split; [done|]. lia.
Qed.

Lemma toCompact_index_Some full key i :
  set_indices (m_items full) 0 ∅ !! key = Some i →
  ∃ item, m_items full !! i = Some item ∧ mi_id item = key.
Proof.
  intros Hi. apply set_indices_Some in Hi as [Hi|(j & item & Hj & Hid & ->)].
  - by rewrite lookup_empty in Hi.
  - by exists item.
Qed.

Lemma toCompact_index_unmapped full key :
  ¬ mapped full key → set_indices (m_items full) 0 ∅ !! key = None.
Proof.
  intros Hnot. apply eq_None_not_Some. rewrite set_indices_is_Some.
  intros [Hempty|Hex]; [|done].
  rewrite lookup_empty in Hempty. by destruct Hempty.
Qed.

Lemma last_lookup_pred {A} (l : list A) : l !! (length l - 1)%nat = last l ∨ l = [].
Proof.
  destruct l as [|a l]; [by right|left].
  rewrite last_lookup. simpl. by rewrite Nat.sub_0_r.
Qed.

Lemma toCompact_connection_encodes full c pair :
  toCompact_connection (set_indices (m_items full) 0 ∅) c = Some (Some pair) →
  encodes full c pair.
Proof.
  unfold toCompact_connection.
  destruct (length (cn_anchors c) <? 2)%nat eqn:Hlen; [done|].
  destruct (cn_anchors c !! 0%nat) as [a1|] eqn:Ha1; [|done]. simpl.
  destruct (last_lookup_pred (cn_anchors c)) as [Hlast|Hnil];
    [|by rewrite Hnil in Ha1].
  rewrite Hlast. destruct (last (cn_anchors c)) as [a2|] eqn:Ha2; [|done]. simpl.
  destruct (ref_item (an_ref a1)) as [id1|] eqn:Hid1; [|done].
  destruct (ref_item (an_ref a2)) as [id2|] eqn:Hid2; [|done].
  destruct (negb (JS.truthy id1) || negb (JS.truthy id2)); [done|].
  destruct (set_indices _ _ _ !! id1) as [i1|] eqn:Hi1; [|done].
  destruct (set_indices _ _ _ !! id2) as [i2|] eqn:Hi2; [|done].
  intros [= <-].
  apply toCompact_index_Some in Hi1 as (item1 & Hitem1 & <-).
  apply toCompact_index_Some in Hi2 as (item2 & Hitem2 & <-).
  by exists a1, a2, i1, i2, item1, item2.
Qed.

Lemma encodes_mapped full c pair :
  encodes full c pair → ¬ unmapped_endpoint full c.
Proof.
  intros (a1 & a2 & i1 & i2 & item1 & item2 & Ha1 & Ha2 & Hi1 & Hr1 & Hi2 & Hr2 & _)
         (anchor & id & Hanchor & Hid & Hnot).
  apply Hnot. unfold mapped. apply Exists_exists.
  destruct Hanchor as [Hfirst|Hlast].
  - exists item1. split; [by eapply list_elem_of_lookup_2|]. congruence.
  - exists item2. split; [by eapply list_elem_of_lookup_2|]. congruence.
Qed.

(** The pairs that remain after the [filter] stem, in order, from
    connectors of the list. *)
Lemma toCompact_connections_kept full cs mapped_cs :
  mapM (toCompact_connection (set_indices (m_items full) 0 ∅)) cs = Some mapped_cs →
  ∃ kept, sublist kept cs ∧ Forall2 (encodes full) kept (omap id mapped_cs).
Proof.
  revert mapped_cs. induction cs as [|c cs IH]; intros mapped_cs Hm.
  - injection Hm as <-. exists []. split; constructor.
  - simpl in Hm.
    destruct (toCompact_connection _ c) as [o|] eqn:Hc; [|done]. simpl in Hm.
    destruct (mapM _ cs) as [rest|] eqn:Hrest; [|done]. simpl in Hm.
    injection Hm as <-. destruct (IH rest eq_refl) as (kept & Hsub & Hall).
    destruct o as [pair|].
    + exists (c :: kept). split; [by constructor|].
      constructor; [|done]. by apply toCompact_connection_encodes.
    + exists kept. split; [by constructor|done].
Qed.

End dangling_facts.

(** C9: in [toCompact(full)], the tuple of a view has one position triple
    per ViewItem, and the triple of a ViewItem whose id is not the id of any
    item carries the item index 0; its connections are, in order, the pairs
    of those connectors that they encode, and no connector with an unmapped
    endpoint id is among them. *)
Theorem toCompact_dangling_references (full : Model) (k : nat) (view : View) :
  m_views full !! k = Some view →
  ∃ c positions connections kept,
    FormatConverter.toCompact full = Some c ∧
    c_v c !! k = Some (positions, connections) ∧
    length positions = length (view_items view) ∧
    (∀ j viewItem,
       view_items view !! j = Some viewItem →
       ¬ mapped full (vi_id viewItem) →
       positions !! j =
         Some (0, co_x (vi_tile viewItem), co_y (vi_tile viewItem))) ∧
    sublist kept (default [] (view_connectors view)) ∧
    Forall2 (encodes full) kept connections ∧
    (∀ connector, unmapped_endpoint full connector → connector ∉ kept).
Proof.
  intros Hview.
  destruct (toCompact_total full) as [c Hc].
  destruct (toCompact_view_at _ _ _ _ Hc Hview) as ([positions connections] & Htuple & Hk).
  unfold FormatConverter.toCompact_view in Htuple.
  destruct (mapM _ (JS.or_else (view_connectors view) [])) as [mapped_cs|] eqn:Hm;
    [|done].
  simpl in Htuple. injection Htuple as <- <-.
  destruct (toCompact_connections_kept _ _ _ Hm) as (kept & Hsub & Hall).
  eexists c, _, _, kept. split; [done|]. split; [done|].
  split; [by rewrite length_map|]. split; [|split; [done|split; [done|]]].
  - intros j viewItem Hj Hnot. rewrite list_lookup_fmap, Hj. simpl.
    unfold FormatConverter.toCompact_position.
    by rewrite (toCompact_index_unmapped _ _ Hnot).
  - intros connector Hun Hin.
    apply list_elem_of_lookup in Hin as [i Hi].
    destruct (Forall2_lookup_l _ _ _ _ _ Hall Hi) as (pair & _ & Henc).
    by apply (encodes_mapped _ _ _ Henc).
Qed.

Lemma toCompact_dangling_references_witness :
  m_views ghostModel !! 0%nat = Some ghostView ∧
  ∃ c positions connections kept,
    FormatConverter.toCompact ghostModel = Some c ∧
    c_v c !! 0%nat = Some (positions, connections) ∧
    length positions = length (view_items ghostView) ∧
    (∀ j viewItem,
       view_items ghostView !! j = Some viewItem →
       ¬ mapped ghostModel (vi_id viewItem) →
       positions !! j =
         Some (0, co_x (vi_tile viewItem), co_y (vi_tile viewItem))) ∧
    sublist kept (default [] (view_connectors ghostView)) ∧
    Forall2 (encodes ghostModel) kept connections ∧
    (∀ connector, unmapped_endpoint ghostModel connector → connector ∉ kept).
Proof.
  split; [reflexivity|].
  apply (toCompact_dangling_references ghostModel 0%nat ghostView). reflexivity.
Defined.

(** ** The state manager: how the methods run *)

Section state_facts.

Import DiagramState.

Lemma call_run {A} (body : DiagramState → M A) this self w :
  objects w !! this = Some self → call this body w = body self w.
Proof. unfold call, bind, deref. by intros ->. Qed.

Lemma uuidv4_run w : uuidv4 w = Some (next_uuid w, tick w).
Proof. done. Qed.

(** The constructor keeps a model that has a view as it is. *)
Lemma new_full m w :
  m_views m ≠ [] →
  new (Some (FullD m)) w = Some (length (objects w), constructed m w).
Proof.
  intros Hviews. unfold new, FormatConverter.normalize, bind, ret, alloc.
  destruct (m_views m) eqn:Hm; [done|]. simpl. unfold constructed.
  by destruct w.
Qed.

(** The constructor establishes the class invariant. *)
Lemma new_invariant diagram w r w' :
  World_ok w → new diagram w = Some (r, w') → World_ok w'.
Proof.
  intros Hok. unfold World_ok, new.
  destruct diagram as [diagram|].
  - unfold bind. destruct (FormatConverter.normalize diagram w) as [[m w1]|] eqn:Hn;
      [|done].
    assert (objects w1 = objects w) as Hobj.
    { destruct diagram as [m0|c]; simpl in Hn.
      - by injection Hn as <- <-.
      - destruct (toFull_run c w) as (m1 & w2 & Hrun & Hobj & _). congruence. }
    destruct (length (m_views m) =? 0)%nat eqn:Hlen.
    + unfold createDefaultView, bind, uuidv4, ret, alloc. simpl.
      intros [= <- <-]. simpl. rewrite Hobj.
      apply Forall_app. split; [done|]. by repeat constructor.
    + unfold ret, alloc. intros [= <- <-]. simpl. rewrite Hobj.
      apply Forall_app. split; [done|]. repeat constructor. simpl.
      apply Nat.eqb_neq in Hlen. by destruct (m_views m).
  - unfold createDefaultView, bind, uuidv4, ret, alloc. simpl.
    intros [= <- <-]. simpl. apply Forall_app. split; [done|].
    by repeat constructor.
Qed.

Lemma primaryView_Some self :
  m_views (model self) ≠ [] → ∃ view, primaryView self = Some view.
Proof. unfold primaryView. destruct (m_views (model self)); [done|]. eauto. Qed.

Lemma viewId_or_primary_run viewId self w :
  m_views (model self) ≠ [] →
  viewId_or_primary viewId self w = Some (resolved_viewId viewId self, w).
Proof.
  intros Hviews. destruct (primaryView_Some self Hviews) as [view Hview].
  unfold viewId_or_primary, resolved_viewId, JS.or_string, lift, ret.
  rewrite Hview. simpl. destruct viewId as [viewId|]; [|done].
  by destruct (JS.truthy viewId).
Qed.

(** Recipes keep the number of views. *)
Lemma with_view_length viewId body draft :
  length (m_views (with_view viewId body draft)) = length (m_views draft).
Proof.
  unfold with_view. destruct (list_find _ _) as [[k view]|]; [|done].
  simpl. by rewrite length_insert.
Qed.

Lemma with_view_items viewId body draft :
  m_items (with_view viewId body draft) = m_items draft.
Proof. unfold with_view. by destruct (list_find _ _) as [[k view]|]. Qed.

Lemma with_view_nonempty viewId body draft :
  m_views draft ≠ [] → m_views (with_view viewId body draft) ≠ [].
Proof.
  intros Hne Hnil. apply (f_equal length) in Hnil.
  rewrite with_view_length in Hnil. by destruct (m_views draft).
Qed.

(** A method that ends with [new DiagramState(produce(this.model, recipe))],
    for a recipe that generates no identifier. *)
Lemma produce_new_run (recipe : Model → Model) m w :
  m_views (recipe m) ≠ [] →
  bind (produce m (pure recipe)) (λ newModel, new (Some (FullD newModel))) w =
  Some (length (objects w), constructed (recipe m) w).
Proof. intros Hne. unfold bind, produce, pure, ret. by apply new_full. Qed.

Lemma addNode_run params self w :
  m_views (model self) ≠ [] →
  addNode params self w =
  Some (length (objects w),
        constructed (addNode_recipe (next_uuid w)
                       (resolved_viewId (addNode_viewId params) self) params
                       (model self)) (tick w)).
Proof.
  intros Hne. unfold addNode.
  rewrite (bind_Some uuidv4 _ w _ _ (uuidv4_run w)).
  rewrite (bind_Some (viewId_or_primary _ _) _ (tick w) _ _
             (viewId_or_primary_run _ _ (tick w) Hne)).
  apply (produce_new_run (addNode_recipe _ _ _) _ (tick w)).
  unfold addNode_recipe. by apply with_view_nonempty.
Qed.

Lemma updateNode_run params self w :
  m_views (model self) ≠ [] →
  updateNode params self w =
  Some (length (objects w),
        constructed (updateNode_recipe
                       (resolved_viewId (updNode_viewId params) self) params
                       (model self)) w).
Proof.
  intros Hne. unfold updateNode.
  rewrite (bind_Some (viewId_or_primary _ _) _ w _ _
             (viewId_or_primary_run _ _ w Hne)).
  apply (produce_new_run (updateNode_recipe _ _)).
  unfold updateNode_recipe. apply with_view_nonempty.
  by destruct (list_find _ (m_items (model self))) as [[k item]|].
Qed.

Lemma removeNode_run nodeId viewId self w :
  m_views (model self) ≠ [] →
  removeNode nodeId viewId self w =
  Some (length (objects w),
        constructed (removeNode_recipe nodeId (resolved_viewId viewId self)
                       (model self)) w).
Proof.
  intros Hne. unfold removeNode.
  rewrite (bind_Some (viewId_or_primary _ _) _ w _ _
             (viewId_or_primary_run _ _ w Hne)).
  apply (produce_new_run (removeNode_recipe _ _)).
  unfold removeNode_recipe. by apply with_view_nonempty.
Qed.

Lemma updateConnector_run params self w :
  m_views (model self) ≠ [] →
  updateConnector params self w =
  Some (length (objects w),
        constructed (updateConnector_recipe
                       (resolved_viewId (updConn_viewId params) self) params
                       (model self)) w).
Proof.
  intros Hne. unfold updateConnector.
  rewrite (bind_Some (viewId_or_primary _ _) _ w _ _
             (viewId_or_primary_run _ _ w Hne)).
  apply (produce_new_run (updateConnector_recipe _ _)).
  by apply with_view_nonempty.
Qed.

Lemma removeConnector_run connectorId viewId self w :
  m_views (model self) ≠ [] →
  removeConnector connectorId viewId self w =
  Some (length (objects w),
        constructed (removeConnector_recipe connectorId
                       (resolved_viewId viewId self) (model self)) w).
Proof.
  intros Hne. unfold removeConnector.
  rewrite (bind_Some (viewId_or_primary _ _) _ w _ _
             (viewId_or_primary_run _ _ w Hne)).
  apply (produce_new_run (removeConnector_recipe _ _)).
  by apply with_view_nonempty.
Qed.

Lemma addRectangle_run params self w :
  m_views (model self) ≠ [] →
  addRectangle params self w =
  Some (length (objects w),
        constructed (addRectangle_recipe (next_uuid w)
                       (resolved_viewId (addRect_viewId params) self) params
                       (model self)) (tick w)).
Proof.
  intros Hne. unfold addRectangle.
  rewrite (bind_Some uuidv4 _ w _ _ (uuidv4_run w)).
  rewrite (bind_Some (viewId_or_primary _ _) _ (tick w) _ _
             (viewId_or_primary_run _ _ (tick w) Hne)).
  apply (produce_new_run (addRectangle_recipe _ _ _) _ (tick w)).
  by apply with_view_nonempty.
Qed.

Lemma removeRectangle_run rectangleId viewId self w :
  m_views (model self) ≠ [] →
  removeRectangle rectangleId viewId self w =
  Some (length (objects w),
        constructed (removeRectangle_recipe rectangleId
                       (resolved_viewId viewId self) (model self)) w).
Proof.
  intros Hne. unfold removeRectangle.
  rewrite (bind_Some (viewId_or_primary _ _) _ w _ _
             (viewId_or_primary_run _ _ w Hne)).
  apply (produce_new_run (removeRectangle_recipe _ _)).
  by apply with_view_nonempty.
Qed.

Lemma addTextBox_run params self w :
  m_views (model self) ≠ [] →
  addTextBox params self w =
  Some (length (objects w),
        constructed (addTextBox_recipe (next_uuid w)
                       (resolved_viewId (addText_viewId params) self) params
                       (model self)) (tick w)).
Proof.
  intros Hne. unfold addTextBox.
  rewrite (bind_Some uuidv4 _ w _ _ (uuidv4_run w)).
  rewrite (bind_Some (viewId_or_primary _ _) _ (tick w) _ _
             (viewId_or_primary_run _ _ (tick w) Hne)).
  apply (produce_new_run (addTextBox_recipe _ _ _) _ (tick w)).
  by apply with_view_nonempty.
Qed.

Lemma removeTextBox_run textBoxId viewId self w :
  m_views (model self) ≠ [] →
  removeTextBox textBoxId viewId self w =
  Some (length (objects w),
        constructed (removeTextBox_recipe textBoxId
                       (resolved_viewId viewId self) (model self)) w).
Proof.
  intros Hne. unfold removeTextBox.
  rewrite (bind_Some (viewId_or_primary _ _) _ w _ _
             (viewId_or_primary_run _ _ w Hne)).
  apply (produce_new_run (removeTextBox_recipe _ _)).
  by apply with_view_nonempty.
Qed.

Lemma setTitle_run title self w :
  m_views (model self) ≠ [] →
  setTitle title self w =
  Some (length (objects w), constructed (set_m_title title (model self)) w).
Proof. intros Hne. unfold setTitle. by apply (produce_new_run (set_m_title _)). Qed.

Lemma setDescription_run description self w :
  m_views (model self) ≠ [] →
  setDescription description self w =
  Some (length (objects w),
        constructed (set_m_description (Some description) (model self)) w).
Proof.
  intros Hne. unfold setDescription.
  by apply (produce_new_run (set_m_description _)).
Qed.

End state_facts.

Section connector_facts.

Import DiagramState.

(** [addConnector] when the resolved view is missing or lacks an
    endpoint: the recipe returns at once, and the new instance holds the
    model of [self]. *)
Lemma addConnector_noop params self w :
  m_views (model self) ≠ [] →
  (∀ k view, resolved_view (addConn_viewId params) self = Some (k, view) →
             ¬ placed (addConn_fromNodeId params) view ∨
             ¬ placed (addConn_toNodeId params) view) →
  addConnector params self w =
  Some (length (objects w), constructed (model self) (tick w)).
Proof.
  intros Hne Hmissing. unfold addConnector.
  rewrite (bind_Some uuidv4 _ w _ _ (uuidv4_run w)).
  rewrite (bind_Some (viewId_or_primary _ _) _ (tick w) _ _
             (viewId_or_primary_run _ _ (tick w) Hne)).
  unfold produce, addConnector_recipe. unfold resolved_view in Hmissing.
  destruct (list_find _ (m_views (model self))) as [[k view]|].
  - destruct (Hmissing k view eq_refl) as [Hfrom|Hto].
    + rewrite (bool_decide_eq_false_2 _ Hfrom). simpl.
      unfold bind, ret. by apply (new_full _ (tick w)).
    + rewrite (bool_decide_eq_false_2 _ Hto), orb_true_r.
      unfold bind, ret. by apply (new_full _ (tick w)).
  - unfold bind, ret. by apply (new_full _ (tick w)).
Qed.

(** [addConnector] when both endpoints are placed in the resolved view:
    the connector is appended to the connectors of that view. *)
Lemma addConnector_success params self w k view :
  resolved_view (addConn_viewId params) self = Some (k, view) →
  placed (addConn_fromNodeId params) view →
  placed (addConn_toNodeId params) view →
  addConnector params self w =
  Some (length (objects w),
        constructed
          (set_m_views
             (<[k := set_view_connectors
                       (Some (default [] (view_connectors view) ++
                              [addConnector_connector (next_uuid w)
                                 (next_uuid (tick w)) (next_uuid (tick (tick w)))
                                 params])) view]>
                (m_views (model self)))
             (model self))
          (tick (tick (tick w)))).
Proof.
  intros Hview Hfrom Hto.
  assert (m_views (model self) ≠ []) as Hne.
  { unfold resolved_view in Hview. intros Hnil. by rewrite Hnil in Hview. }
  unfold addConnector.
  rewrite (bind_Some uuidv4 _ w _ _ (uuidv4_run w)).
  rewrite (bind_Some (viewId_or_primary _ _) _ (tick w) _ _
             (viewId_or_primary_run _ _ (tick w) Hne)).
  unfold produce, addConnector_recipe. unfold resolved_view in Hview.
  rewrite Hview.
  rewrite (bool_decide_eq_true_2 _ Hfrom), (bool_decide_eq_true_2 _ Hto). simpl.
  unfold bind at 1.
  rewrite (bind_Some uuidv4 _ (tick w) _ _ (uuidv4_run (tick w))).
  rewrite (bind_Some uuidv4 _ (tick (tick w)) _ _ (uuidv4_run (tick (tick w)))).
  unfold ret. apply (new_full _ (tick (tick (tick w)))).
  simpl. intros Hnil. apply (f_equal length) in Hnil.
  rewrite length_insert in Hnil. by destruct (m_views (model self)).
Qed.

(** Every mutation returns, and constructs one instance whose model has
    a view. *)
Lemma mutate_run op self w :
  m_views (model self) ≠ [] →
  ∃ m' w1, mutate op self w = Some (length (objects w), constructed m' w1) ∧
           objects w1 = objects w ∧ m_views m' ≠ [].
Proof.
  intros Hne. destruct op; simpl.
  - eexists _, _. split; [by apply addNode_run|]. split; [done|].
    unfold addNode_recipe. by apply with_view_nonempty.
  - eexists _, _. split; [by apply updateNode_run|]. split; [done|].
    unfold updateNode_recipe. apply with_view_nonempty.
    by destruct (list_find _ (m_items (model self))) as [[k item]|].
  - eexists _, _. split; [by apply removeNode_run|]. split; [done|].
    unfold removeNode_recipe. by apply with_view_nonempty.
  - destruct (resolved_view (addConn_viewId params) self) as [[k view]|] eqn:Hview.
    + destruct (decide (placed (addConn_fromNodeId params) view)) as [Hfrom|Hfrom];
        [destruct (decide (placed (addConn_toNodeId params) view)) as [Hto|Hto]|].
      * eexists _, _. split; [by apply (addConnector_success _ _ _ k view)|].
        split; [done|]. simpl. intros Hnil. apply (f_equal length) in Hnil.
        rewrite length_insert in Hnil. by destruct (m_views (model self)).
      * eexists _, _. split.
        { apply addConnector_noop; [done|].
          intros k' view' Hsome. rewrite Hview in Hsome.
          injection Hsome as <- <-. by right. }
        done.
      * eexists _, _. split.
        { apply addConnector_noop; [done|].
          intros k' view' Hsome. rewrite Hview in Hsome.
          injection Hsome as <- <-. by left. }
        done.
    + eexists _, _. split.
      { apply addConnector_noop; [done|].
        intros k' view' Hsome. congruence. }
      done.
  - eexists _, _. split; [by apply updateConnector_run|]. split; [done|].
    by apply with_view_nonempty.
  - eexists _, _. split; [by apply removeConnector_run|]. split; [done|].
    by apply with_view_nonempty.
  - eexists _, _. split; [by apply addRectangle_run|]. split; [done|].
    by apply with_view_nonempty.
  - eexists _, _. split; [by apply removeRectangle_run|]. split; [done|].
    by apply with_view_nonempty.
  - eexists _, _. split; [by apply addTextBox_run|]. split; [done|].
    by apply with_view_nonempty.
  - eexists _, _. split; [by apply removeTextBox_run|]. split; [done|].
    by apply with_view_nonempty.
  - eexists _, _. split; [by apply setTitle_run|]. done.
  - eexists _, _. split; [by apply setDescription_run|]. done.
Qed.

Lemma World_ok_lookup w this self :
  World_ok w → objects w !! this = Some self → m_views (model self) ≠ [].
Proof. unfold World_ok. rewrite Forall_lookup. intros Hok Hthis. by apply (Hok this). Qed.

Lemma World_ok_constructed w w1 m :
  World_ok w → objects w1 = objects w → m_views m ≠ [] →
  World_ok (constructed m w1).
Proof.
  unfold World_ok. intros Hok Hobj Hne. simpl. rewrite Hobj.
  apply Forall_app. split; [done|]. by repeat constructor.
Qed.

End connector_facts.

Lemma example_state_world_ok : World_ok example_state_world.
Proof. repeat constructor. done. Qed.

(** ** [addConnector] without a placed endpoint *)

(** C4: when the view that [addConnector] resolves does not exist, or has
    no ViewItem for the from-endpoint or none for the to-endpoint, the call
    returns (it does not throw) a state whose model equals the model of the
    state it was called on. *)
Theorem addConnector_missing_endpoint
    (params : AddConnectorParams) (w : World) (this : nat) (self : DiagramState) :
  World_ok w →
  objects w !! this = Some self →
  (∀ k view,
     resolved_view (addConn_viewId params) self = Some (k, view) →
     ¬ DiagramState.placed (addConn_fromNodeId params) view ∨
     ¬ DiagramState.placed (addConn_toNodeId params) view) →
  ∃ r w' self',
    call this (DiagramState.addConnector params) w = Some (r, w') ∧
    objects w' !! r = Some self' ∧
    model self' = model self.
Proof.
  intros Hok Hthis Hmissing. pose proof (World_ok_lookup _ _ _ Hok Hthis) as Hne.
  exists (length (objects w)), (constructed (model self) (tick w)),
         {| model := model self; scene := INITIAL_SCENE |}.
  split; [|split; [|done]].
  - rewrite (call_run (DiagramState.addConnector params) this self w Hthis).
    by apply addConnector_noop.
  - simpl. by rewrite lookup_app_r, Nat.sub_diag.
Qed.

Lemma addConnector_missing_endpoint_witness :
  ∃ r w' self',
    call 0%nat (DiagramState.addConnector connector_to_nowhere) example_state_world
      = Some (r, w') ∧
    objects w' !! r = Some self' ∧
    model self' = model example_state.
Proof.
  apply (addConnector_missing_endpoint connector_to_nowhere example_state_world
           0%nat example_state).
  - apply example_state_world_ok.
  - reflexivity.
  - intros k view Hview. vm_compute in Hview. injection Hview as <- <-.
    right. by apply (bool_decide_eq_false_1 _).
Defined.

(** ** [removeNode] *)

Section removeNode_facts.

Import DiagramState.

Context {A : Type} (P : A → Prop) `{!∀ a, Decision (P a)}.

Lemma splice_first_cons (a : A) (l : list A) :
  splice_first P (a :: l) = if decide (P a) then l else a :: splice_first P l.
Proof.
  unfold splice_first. cbn [list_find]. case_decide; [done|].
  by destruct (list_find P l) as [[k b]|].
Qed.

Lemma splice_first_spec (l : list A) : removes_first P l (splice_first P l).
Proof.
  induction l as [|a l IH].
  - left. by split.
  - rewrite splice_first_cons. case_decide as Ha.
    + right. exists [], a, l. by repeat split.
    + destruct IH as [[Hall ->]|(l1 & b & l2 & -> & Hall & Hb & ->)].
      * left. split; [by constructor|done].
      * right. exists (a :: l1), b, l2. repeat split; [by constructor|done].
Qed.

Lemma splice_first_none (l : list A) :
  Forall (λ a, ¬ P a) l → splice_first P l = l.
Proof.
  intros Hall. unfold splice_first. by rewrite (proj2 (list_find_None P l) Hall).
Qed.

Lemma filter_nil_Forall (l : list A) : filter P l = [] → Forall (λ a, ¬ P a) l.
Proof.
  intros Hnil. apply Forall_forall. intros a Ha HP.
  by apply (filter_nil_not_elem_of P l a).
Qed.

Lemma splice_first_at_most_one (l : list A) :
  (length (filter P l) ≤ 1)%nat → Forall (λ a, ¬ P a) (splice_first P l).
Proof.
  induction l as [|a l IH]; intros Hlen.
  - constructor.
  - rewrite splice_first_cons. rewrite filter_cons in Hlen. case_decide as Ha.
    + apply filter_nil_Forall. simpl in Hlen. apply nil_length_inv. lia.
    + constructor; [done|]. by apply IH.
Qed.

Lemma list_find_insert_same (l : list A) k a b :
  list_find P l = Some (k, a) → P b → list_find P (<[k := b]> l) = Some (k, b).
Proof.
  rewrite !list_find_Some. intros (Hk & Ha & Hbefore) Hb.
  split; [|split; [done|]].
  - apply list_lookup_insert_eq. by eapply lookup_lt_Some.
  - intros j c Hj Hlt. rewrite list_lookup_insert_ne in Hj by lia. eauto.
Qed.

End removeNode_facts.

Section removeNode_recipe_facts.

Import DiagramState.

Lemma removeNode_recipe_items nodeId viewId m :
  m_items (removeNode_recipe nodeId viewId m) =
  splice_first (λ i, mi_id i = nodeId) (m_items m).
Proof. unfold removeNode_recipe. by rewrite with_view_items. Qed.

Lemma removeNode_recipe_views nodeId viewId m :
  m_views (removeNode_recipe nodeId viewId m) =
  match list_find (λ v, view_id v = viewId) (m_views m) with
  | Some (k, view) => <[k := removeNode_view nodeId view]> (m_views m)
  | None => m_views m
  end.
Proof.
  unfold removeNode_recipe, with_view. simpl.
  by destruct (list_find _ (m_views m)) as [[k view]|].
Qed.

Lemma removeNode_view_id nodeId view :
  view_id (removeNode_view nodeId view) = view_id view.
Proof. unfold removeNode_view. simpl. by destruct (view_connectors view). Qed.

Lemma removeNode_view_items nodeId view :
  view_items (removeNode_view nodeId view) =
  splice_first (λ i, vi_id i = nodeId) (view_items view).
Proof. unfold removeNode_view. simpl. by destruct (view_connectors view). Qed.

Lemma removeNode_view_connectors nodeId view :
  view_connectors (removeNode_view nodeId view) =
  filter (λ c, ¬ references nodeId c) <$> view_connectors view.
Proof.
  unfold removeNode_view. simpl.
  destruct (view_connectors view) eqn:Hcs; simpl; by rewrite ?Hcs.
Qed.

(** The identifiers of the views, position by position, are those of
    the model before. *)
Lemma removeNode_recipe_view_ids nodeId viewId m j :
  view_id <$> m_views (removeNode_recipe nodeId viewId m) !! j =
  view_id <$> m_views m !! j.
Proof.
  rewrite removeNode_recipe_views.
  destruct (list_find _ (m_views m)) as [[k view]|] eqn:Hfind; [|done].
  apply list_find_Some in Hfind as (Hk & _ & _).
  destruct (decide (k = j)) as [->|Hne].
  - rewrite list_lookup_insert_eq by (by eapply lookup_lt_Some).
    rewrite Hk. simpl. by rewrite removeNode_view_id.
  - by rewrite list_lookup_insert_ne.
Qed.

Lemma removeNode_resolved_viewId nodeId targetViewId viewId self :
  resolved_viewId viewId
    {| model := removeNode_recipe nodeId targetViewId (model self);
       scene := INITIAL_SCENE |} =
  resolved_viewId viewId self.
Proof.
  unfold resolved_viewId, primaryView. simpl.
  by rewrite removeNode_recipe_view_ids.
Qed.

(** A second run of the recipe changes nothing once its first run has
    left no item and no ViewItem of the view with that id. *)
Lemma removeNode_view_again nodeId view :
  Forall (λ i, vi_id i ≠ nodeId) (view_items (removeNode_view nodeId view)) →
  removeNode_view nodeId (removeNode_view nodeId view) = removeNode_view nodeId view.
Proof.
  intros Hall. unfold removeNode_view at 1. rewrite splice_first_none by done.
  rewrite set_view_items_id.
  destruct (view_connectors (removeNode_view nodeId view)) as [cs1|] eqn:Hcs1;
    [|done].
  assert (filter (λ c, ¬ references nodeId c) cs1 = cs1) as ->.
  { rewrite removeNode_view_connectors in Hcs1.
    destruct (view_connectors view) as [cs|]; [|done].
    injection Hcs1 as <-. apply filter_all. apply Forall_forall.
    intros c Hc. by apply list_elem_of_filter in Hc as [Hc _]. }
  rewrite <- Hcs1. apply set_view_connectors_id.
Qed.

End removeNode_recipe_facts.

(** C3: [removeNode(nodeId, viewId?)] returns a state in which the first
    ModelItem with that id, if there is one, is removed from [items]; when
    the view it resolves exists, the first ViewItem with that id, if there is
    one, is removed from that view, the connectors of that view are those
    that had no anchor with [ref.item] equal to [nodeId], in their order, so
    that no connector of the view references the node any more, and every
    other view is as before; when it does not exist, all views are as
    before. *)
Theorem removeNode_prunes
    (nodeId : string) (viewId : option string) (w : World) (this : nat)
    (self : DiagramState) :
  World_ok w →
  objects w !! this = Some self →
  ∃ r w' self',
    call this (DiagramState.removeNode nodeId viewId) w = Some (r, w') ∧
    objects w' !! r = Some self' ∧
    removes_first (λ i, mi_id i = nodeId)
      (m_items (model self)) (m_items (model self')) ∧
    match resolved_view viewId self with
    | None => m_views (model self') = m_views (model self)
    | Some (k, view) =>
        ∃ view',
          m_views (model self') !! k = Some view' ∧
          view_id view' = view_id view ∧
          removes_first (λ i, vi_id i = nodeId) (view_items view) (view_items view') ∧
          view_connectors view' =
            filter (λ c, ¬ DiagramState.references nodeId c) <$> view_connectors view ∧
          (∀ c, c ∈ default [] (view_connectors view') →
                ¬ DiagramState.references nodeId c) ∧
          (∀ j, j ≠ k → m_views (model self') !! j = m_views (model self) !! j)
    end.
Proof.
  intros Hok Hthis. pose proof (World_ok_lookup _ _ _ Hok Hthis) as Hne.
  exists (length (objects w)),
         (constructed (DiagramState.removeNode_recipe nodeId
                         (resolved_viewId viewId self) (model self)) w),
         {| model := DiagramState.removeNode_recipe nodeId
                       (resolved_viewId viewId self) (model self);
            scene := INITIAL_SCENE |}.
  split; [|split; [|split]].
  - rewrite (call_run (DiagramState.removeNode nodeId viewId) this self w Hthis).
    by apply removeNode_run.
  - simpl. by rewrite lookup_app_r, Nat.sub_diag.
  - simpl. rewrite removeNode_recipe_items. apply splice_first_spec.
  - simpl. rewrite removeNode_recipe_views. unfold resolved_view.
    destruct (list_find _ (m_views (model self))) as [[k view]|] eqn:Hfind; [|done].
    apply list_find_Some in Hfind as (Hk & _ & _).
    exists (DiagramState.removeNode_view nodeId view).
    split; [apply list_lookup_insert_eq; by eapply lookup_lt_Some|].
    split; [apply removeNode_view_id|].
    split; [rewrite removeNode_view_items; apply splice_first_spec|].
    split; [apply removeNode_view_connectors|].
    split; [|intros j Hj; by apply list_lookup_insert_ne].
    intros c. rewrite removeNode_view_connectors.
    destruct (view_connectors view) as [cs|]; simpl.
    + intros Hc. by apply list_elem_of_filter in Hc as [Hc _].
    + by intros Hc%elem_of_nil.
Qed.

Lemma connected_world_ok : World_ok connected_world.
Proof. repeat constructor; done. Qed.

Lemma removeNode_prunes_witness :
  World_ok connected_world ∧
  objects connected_world !! 1%nat = Some connected_state ∧
  ∃ r w' self',
    call 1%nat (DiagramState.removeNode "node-1" None) connected_world
      = Some (r, w') ∧
    objects w' !! r = Some self' ∧
    removes_first (λ i, mi_id i = "node-1")
      (m_items (model connected_state)) (m_items (model self')) ∧
    match resolved_view None connected_state with
    | None => m_views (model self') = m_views (model connected_state)
    | Some (k, view) =>
        ∃ view',
          m_views (model self') !! k = Some view' ∧
          view_id view' = view_id view ∧
          removes_first (λ i, vi_id i = "node-1") (view_items view) (view_items view') ∧
          view_connectors view' =
            filter (λ c, ¬ DiagramState.references "node-1" c)
              <$> view_connectors view ∧
          (∀ c, c ∈ default [] (view_connectors view') →
                ¬ DiagramState.references "node-1" c) ∧
          (∀ j, j ≠ k →
                m_views (model self') !! j = m_views (model connected_state) !! j)
    end.
Proof.
  split; [apply connected_world_ok|]. split; [reflexivity|].
  apply (removeNode_prunes "node-1" None connected_world 1%nat connected_state);
    [apply connected_world_ok | reflexivity].
Defined.

(** The scenario of the test: after the connector has been added between
    the two placed nodes, removing either endpoint leaves no connector in the
    primary view, and the connector of the other view stays. *)
Example removeNode_after_addConnector :
  (view_connectors <$> m_views (model connected_state))
    = [Some [example_connector "conn-1" "node-1" "node-2";
             DiagramState.addConnector_connector "uuid-0" "uuid-1" "uuid-2"
               connector_between_nodes];
       Some [example_connector "conn-2" "node-2" "node-1"]] ∧
  ∀ nodeId, nodeId = "node-1" ∨ nodeId = "node-2" →
    ∃ r w' self',
      call 1%nat (DiagramState.removeNode nodeId None) connected_world
        = Some (r, w') ∧
      objects w' !! r = Some self' ∧
      (view_connectors <$> m_views (model self'))
        = [Some []; Some [example_connector "conn-2" "node-2" "node-1"]].
Proof.
  split; [reflexivity|].
  intros nodeId [-> | ->]; eexists _, _, _;
    (split; [vm_compute; reflexivity|]); split; reflexivity.
Qed.

(** C6, as amended: on a state in which at most one ModelItem and, in the
    view that the call resolves, at most one ViewItem carry the id [nodeId],
    a second [removeNode(nodeId)] returns (it does not throw) a state whose
    model equals the model after the first. *)
Theorem removeNode_idempotent
    (nodeId : string) (viewId : option string) (w : World) (this : nat)
    (self : DiagramState) :
  World_ok w →
  objects w !! this = Some self →
  (length (filter (λ i, mi_id i = nodeId) (m_items (model self))) ≤ 1)%nat →
  (∀ k view, resolved_view viewId self = Some (k, view) →
     (length (filter (λ i, vi_id i = nodeId) (view_items view)) ≤ 1)%nat) →
  ∃ r1 w1 self1 r2 w2 self2,
    call this (DiagramState.removeNode nodeId viewId) w = Some (r1, w1) ∧
    objects w1 !! r1 = Some self1 ∧
    call r1 (DiagramState.removeNode nodeId viewId) w1 = Some (r2, w2) ∧
    objects w2 !! r2 = Some self2 ∧
    model self2 = model self1.
Proof.
  intros Hok Hthis Hitems Hview.
  pose proof (World_ok_lookup _ _ _ Hok Hthis) as Hne.
  set (vid := resolved_viewId viewId self).
  set (m1 := DiagramState.removeNode_recipe nodeId vid (model self)).
  set (self1 := {| model := m1; scene := INITIAL_SCENE |}).
  set (w1 := constructed m1 w).
  assert (m_views m1 ≠ []) as Hne1.
  { unfold m1, DiagramState.removeNode_recipe. by apply with_view_nonempty. }
  assert (objects w1 !! length (objects w) = Some self1) as Hself1.
  { unfold w1. simpl. by rewrite lookup_app_r, Nat.sub_diag. }
  assert (DiagramState.removeNode_recipe nodeId vid m1 = m1) as Hagain.
  { unfold DiagramState.removeNode_recipe at 1.
    rewrite splice_first_none, set_m_items_id.
    2:{ unfold m1. rewrite removeNode_recipe_items.
        by apply (splice_first_at_most_one (λ i, mi_id i = nodeId)). }
    unfold DiagramState.with_view, m1. rewrite removeNode_recipe_views.
    fold m1. unfold resolved_view in Hview. fold vid in Hview.
    destruct (list_find _ (m_views (model self))) as [[k view]|] eqn:Hfind.
    - rewrite (list_find_insert_same _ _ k view
                 (DiagramState.removeNode_view nodeId view) Hfind)
        by (rewrite removeNode_view_id; by apply list_find_Some in Hfind as (_ & ? & _)).
      rewrite removeNode_view_again.
      2:{ rewrite removeNode_view_items.
          apply (splice_first_at_most_one (λ i, vi_id i = nodeId)). by eapply Hview. }
      rewrite list_insert_insert_eq.
      rewrite <- (set_m_views_id m1) at 2. f_equal.
      unfold m1. rewrite removeNode_recipe_views. by rewrite Hfind.
    - rewrite Hfind.
      assert (m_views m1 = m_views (model self)) as Hsame.
      { unfold m1. rewrite removeNode_recipe_views. by rewrite Hfind. }
      done. }
  exists (length (objects w)), w1, self1, (length (objects w1)), (constructed m1 w1),
         {| model := m1; scene := INITIAL_SCENE |}.
  split; [|split; [done|split; [|split; [|done]]]].
  - rewrite (call_run (DiagramState.removeNode nodeId viewId) this self w Hthis).
    by apply removeNode_run.
  - rewrite (call_run (DiagramState.removeNode nodeId viewId) _ self1 w1 Hself1).
    rewrite (removeNode_run nodeId viewId self1 w1 Hne1).
    replace (resolved_viewId viewId self1) with vid
      by (symmetry; apply removeNode_resolved_viewId).
    simpl model. by rewrite Hagain.
  - simpl. by rewrite lookup_app_r, Nat.sub_diag.
Qed.

Lemma removeNode_idempotent_witness :
  ∃ r1 w1 self1 r2 w2 self2,
    call 0%nat (DiagramState.removeNode "node-1" None) example_state_world
      = Some (r1, w1) ∧
    objects w1 !! r1 = Some self1 ∧
    call r1 (DiagramState.removeNode "node-1" None) w1 = Some (r2, w2) ∧
    objects w2 !! r2 = Some self2 ∧
    model self2 = model self1.
Proof.
  apply (removeNode_idempotent "node-1" None example_state_world 0%nat example_state).
  - apply example_state_world_ok.
  - reflexivity.
  - vm_compute. lia.
  - intros k view Hview. vm_compute in Hview. injection Hview as <- <-.
    vm_compute. lia.
Defined.

(** C6 as stated fails: [twicePlacedCompact] passes [validateCompact] and
    loads into a state whose view places [item-0] twice; the first
    [removeNode] removes the item and the first placement, the second one
    removes the second placement, so the two models differ. *)
Lemma removeNode_twice_differs :
  (FormatConverter.validateCompact twicePlacedCompact).1 = true ∧
  ∃ r0 w0 r1 w1 self1 r2 w2 self2,
    DiagramState.loadDiagram (CompactD twicePlacedCompact) example_world
      = Some (r0, w0) ∧
    call r0 (DiagramState.removeNode "item-0" None) w0 = Some (r1, w1) ∧
    objects w1 !! r1 = Some self1 ∧
    call r1 (DiagramState.removeNode "item-0" None) w1 = Some (r2, w2) ∧
    objects w2 !! r2 = Some self2 ∧
    model self2 ≠ model self1.
Proof.
  split; [reflexivity|].
  eexists _, _, _, _, _, _, _, _.
  split; [vm_compute; reflexivity|]. split; [vm_compute; reflexivity|].
  split; [vm_compute; reflexivity|]. split; [vm_compute; reflexivity|].
  split; [vm_compute; reflexivity|]. intros Heq. discriminate Heq.
Qed.

(** ** View identifiers that match no view *)

Section unknown_view_facts.

Import DiagramState.

Lemma listNodes_run viewId self view w :
  getView viewId self = Some view →
  listNodes viewId self w = Some (map (node_entry view) (m_items (model self)), w).
Proof. intros Hview. unfold listNodes, bind, lift. by rewrite Hview. Qed.

Lemma listConnectors_run viewId self view w :
  getView viewId self = Some view →
  listConnectors viewId self w =
  Some (map connector_entry (default [] (view_connectors view)), w).
Proof. intros Hview. unfold listConnectors, bind, lift. by rewrite Hview. Qed.

(** [getView] returns a view of the model when there is one. *)
Lemma getView_elem_of viewId self :
  m_views (model self) ≠ [] →
  ∃ view, getView viewId self = Some view ∧ view ∈ m_views (model self).
Proof.
  intros Hne. destruct (primaryView_Some self Hne) as [primary Hprimary].
  assert (primary ∈ m_views (model self)) as Hin
    by (by eapply list_elem_of_lookup_2).
  unfold getView. destruct viewId as [viewId|]; [|eauto].
  destruct (negb (JS.truthy viewId)); [eauto|].
  destruct (list_find _ _) as [[k view]|] eqn:Hfind; [|eauto].
  apply list_find_Some in Hfind as (Hk & _ & _).
  exists view. split; [done|]. by eapply list_elem_of_lookup_2.
Qed.

Lemma getView_unknown viewId self :
  Forall (λ view, view_id view ≠ viewId) (m_views (model self)) →
  getView (Some viewId) self = primaryView self.
Proof.
  intros Hall. unfold getView. destruct (negb (JS.truthy viewId)); [done|].
  by rewrite (proj2 (list_find_None _ _) Hall).
Qed.

End unknown_view_facts.

(** C8, as amended: when [addNode] is given a non-empty [viewId] that is
    the id of no view, it returns a state in which the new ModelItem is
    appended to [items] and all views are as before (no ViewItem is added, in
    the primary view or elsewhere); and, the generated identifier not being
    the id of any ViewItem of the model, the last entry of [listNodes], for
    whatever view is listed, is the new node with an undefined position. *)
Theorem addNode_unknown_view
    (params : AddNodeParams) (viewId : string) (w : World) (this : nat)
    (self : DiagramState) :
  World_ok w →
  objects w !! this = Some self →
  addNode_viewId params = Some viewId →
  viewId ≠ EmptyString →
  Forall (λ view, view_id view ≠ viewId) (m_views (model self)) →
  Forall (λ view, Forall (λ vi, vi_id vi ≠ next_uuid w) (view_items view))
         (m_views (model self)) →
  ∃ r w' self',
    call this (DiagramState.addNode params) w = Some (r, w') ∧
    objects w' !! r = Some self' ∧
    m_items (model self') =
      m_items (model self) ++
      [{| mi_id := next_uuid w; mi_name := addNode_name params;
          mi_description := addNode_description params;
          mi_icon := addNode_icon params |}] ∧
    m_views (model self') = m_views (model self) ∧
    ∀ listed, ∃ nodes,
      call r (DiagramState.listNodes listed) w' = Some (nodes, w') ∧
      last nodes =
        Some {| node_id := next_uuid w; node_name := addNode_name params;
                node_icon := addNode_icon params;
                node_description := addNode_description params;
                node_position := None |}.
Proof.
  intros Hok Hthis Hparam Htruthy Hunknown Hfresh.
  pose proof (World_ok_lookup _ _ _ Hok Hthis) as Hne.
  set (newItem := {| mi_id := next_uuid w; mi_name := addNode_name params;
                     mi_description := addNode_description params;
                     mi_icon := addNode_icon params |}).
  set (m' := set_m_items (m_items (model self) ++ [newItem]) (model self)).
  assert (DiagramState.addNode_recipe (next_uuid w)
            (resolved_viewId (addNode_viewId params) self) params (model self) = m')
    as Hrecipe.
  { rewrite Hparam. unfold resolved_viewId, JS.or_string.
    rewrite (proj2 (truthy_true viewId) Htruthy).
    unfold DiagramState.addNode_recipe, DiagramState.with_view. simpl.
    by rewrite (proj2 (list_find_None _ _) Hunknown). }
  set (self' := {| model := m'; scene := INITIAL_SCENE |}).
  exists (length (objects w)), (constructed m' (tick w)), self'.
  assert (objects (constructed m' (tick w)) !! length (objects w) = Some self')
    as Hself' by (simpl; by rewrite lookup_app_r, Nat.sub_diag).
  split; [|split; [done|split; [done|split; [done|]]]].
  - rewrite (call_run (DiagramState.addNode params) this self w Hthis).
    rewrite <- Hrecipe. by apply addNode_run.
  - intros listed.
    destruct (getView_elem_of listed self' Hne) as (view & Hview & Hin).
    exists (map (node_entry view) (m_items m')). split.
    + rewrite (call_run (DiagramState.listNodes listed) _ self' _ Hself').
      by apply listNodes_run.
    + change (m_items m') with (m_items (model self) ++ [newItem]).
      rewrite map_app. cbn [map]. rewrite last_snoc. f_equal.
      unfold node_entry. simpl.
      rewrite Forall_forall in Hfresh. specialize (Hfresh view Hin).
      by rewrite (proj2 (list_find_None _ _) Hfresh).
Qed.

Lemma addNode_unknown_view_witness :
  ∃ r w' self',
    call 0%nat (DiagramState.addNode (node_in_view (Some "view-9")))
         example_state_world = Some (r, w') ∧
    objects w' !! r = Some self' ∧
    m_items (model self') =
      m_items (model example_state) ++
      [{| mi_id := next_uuid example_state_world; mi_name := "Cache";
          mi_description := None; mi_icon := Some "cache" |}] ∧
    m_views (model self') = m_views (model example_state) ∧
    ∀ listed, ∃ nodes,
      call r (DiagramState.listNodes listed) w' = Some (nodes, w') ∧
      last nodes =
        Some {| node_id := next_uuid example_state_world; node_name := "Cache";
                node_icon := Some "cache"; node_description := None;
                node_position := None |}.
Proof.
  apply (addNode_unknown_view (node_in_view (Some "view-9")) "view-9"
           example_state_world 0%nat example_state).
  - apply example_state_world_ok.
  - reflexivity.
  - reflexivity.
  - done.
  - repeat constructor; done.
  - repeat constructor; done.
Defined.

(** C8 as stated fails for the empty string: it is the id of no view of the
    example state, and [addNode] given it as [viewId] places the new node in
    the primary view. *)
Lemma addNode_empty_viewId_falls_back :
  Forall (λ view, view_id view ≠ EmptyString) (m_views (model example_state)) ∧
  ∃ r w' self' primary primary',
    call 0%nat (DiagramState.addNode (node_in_view (Some EmptyString)))
         example_state_world = Some (r, w') ∧
    objects w' !! r = Some self' ∧
    m_views (model example_state) !! 0%nat = Some primary ∧
    m_views (model self') !! 0%nat = Some primary' ∧
    view_items primary' =
      view_items primary ++
      [{| vi_id := next_uuid example_state_world;
          vi_tile := {| co_x := 3; co_y := 4 |};
          vi_labelHeight := Some DEFAULT_LABEL_HEIGHT |}].
Proof.
  split; [repeat constructor; done|].
  eexists _, _, _, _, _.
  split; [vm_compute; reflexivity|]. split; [vm_compute; reflexivity|].
  split; [reflexivity|]. split; [reflexivity|]. reflexivity.
Qed.

(** C10: for a [viewId] that is the id of no view, [getView] returns the
    first view, and [listNodes] and [listConnectors] return (they do not
    throw) the nodes joined with their placement in the first view and the
    connectors of the first view, as they do when no [viewId] is given. *)
Theorem reads_fall_back_to_primary
    (viewId : string) (w : World) (this : nat) (self : DiagramState) :
  World_ok w →
  objects w !! this = Some self →
  Forall (λ view, view_id view ≠ viewId) (m_views (model self)) →
  ∃ primary,
    m_views (model self) !! 0%nat = Some primary ∧
    DiagramState.getView (Some viewId) self = Some primary ∧
    call this (DiagramState.listNodes (Some viewId)) w =
      Some (map (node_entry primary) (m_items (model self)), w) ∧
    call this (DiagramState.listConnectors (Some viewId)) w =
      Some (map connector_entry (default [] (view_connectors primary)), w) ∧
    call this (DiagramState.listNodes (Some viewId)) w =
      call this (DiagramState.listNodes None) w ∧
    call this (DiagramState.listConnectors (Some viewId)) w =
      call this (DiagramState.listConnectors None) w.
Proof.
  intros Hok Hthis Hunknown.
  pose proof (World_ok_lookup _ _ _ Hok Hthis) as Hne.
  destruct (primaryView_Some self Hne) as [primary Hprimary].
  pose proof (getView_unknown viewId self Hunknown) as Hget.
  rewrite Hprimary in Hget.
  exists primary. split; [done|]. split; [done|].
  rewrite !(call_run _ this self w Hthis).
  rewrite (listNodes_run (Some viewId) self primary w Hget).
  rewrite (listConnectors_run (Some viewId) self primary w Hget).
  rewrite (listNodes_run None self primary w Hprimary).
  by rewrite (listConnectors_run None self primary w Hprimary).
Qed.

Lemma reads_fall_back_to_primary_witness :
  ∃ primary,
    m_views (model example_state) !! 0%nat = Some primary ∧
    DiagramState.getView (Some "view-9") example_state = Some primary ∧
    call 0%nat (DiagramState.listNodes (Some "view-9")) example_state_world =
      Some (map (node_entry primary) (m_items (model example_state)),
            example_state_world) ∧
    call 0%nat (DiagramState.listConnectors (Some "view-9")) example_state_world =
      Some (map connector_entry (default [] (view_connectors primary)),
            example_state_world) ∧
    call 0%nat (DiagramState.listNodes (Some "view-9")) example_state_world =
      call 0%nat (DiagramState.listNodes None) example_state_world ∧
    call 0%nat (DiagramState.listConnectors (Some "view-9")) example_state_world =
      call 0%nat (DiagramState.listConnectors None) example_state_world.
Proof.
  apply (reads_fall_back_to_primary "view-9" example_state_world 0%nat example_state).
  - apply example_state_world_ok.
  - reflexivity.
  - repeat constructor; done.
Defined.

(** ** The renderer's write rule *)

Section renderer_facts.

Import AsciiRenderer.


Lemma safeWrite_overwrites grid r c current ch :
  cell_at grid r c = Some current →
  overwritable current →
  cell_at (safeWrite grid (Z.of_nat r) (Z.of_nat c) ch) r c = Some ch.
Proof.
  intros Hcell Hover. unfold cell_at in *.
  destruct (grid !! r) as [rowR|] eqn:HrowR; [|done]. simpl in Hcell.
  pose proof (lookup_lt_Some _ _ _ HrowR) as Hr.
  pose proof (lookup_lt_Some _ _ _ Hcell) as Hc.
  unfold safeWrite, cell, row. rewrite !Nat2Z.id, HrowR. simpl.
  rewrite Hcell. simpl.
  replace (_ && _) with true
    by (symmetry; repeat (apply andb_true_iff; split);
        first [apply Z.leb_le | apply Z.ltb_lt]; lia).
  replace (_ || _) with true.
  2:{ symmetry. destruct Hover as [->| [->| ->]]; done. }
  rewrite list_lookup_insert_eq by done. simpl.
  by rewrite list_lookup_insert_eq.
Qed.








End renderer_facts.




(** ** The examples of the specification, replayed *)

(** An empty diagram with title [Test]: [getInfo()] yields the title, zero
    counts and one view. *)
Example getInfo_empty_diagram :
  ∃ w,
    (let* state := DiagramState.createEmptyDiagram (Some "Test") in
     call state DiagramState.getInfo) example_world =
    Some ({| info_title := "Test"; info_description := None;
             info_nodeCount := 0; info_connectorCount := 0;
             info_rectangleCount := 0; info_textBoxCount := 0;
             info_viewCount := 1 |}, w).
Proof. eexists. vm_compute. reflexivity. Qed.

(** [addNode({name: "API Server", x: 5, y: 3})] on an empty diagram: one
    ModelItem of that name, one ViewItem at (5,3) with label height 80. *)
Example addNode_on_empty_diagram :
  ∃ w id,
    (let* state := DiagramState.createEmptyDiagram (Some "Test") in
     let* state :=
       call state
         (DiagramState.addNode
            {| addNode_name := "API Server"; addNode_icon := None;
               addNode_description := None; addNode_x := 5; addNode_y := 3;
               addNode_labelHeight := None; addNode_viewId := None |}) in
     let* self := deref state in
     ret (m_items (model self), view_items <$> m_views (model self)))
      example_world =
    Some (([{| mi_id := id; mi_name := "API Server"; mi_description := None;
               mi_icon := None |}],
           [[{| vi_id := id; vi_tile := {| co_x := 5; co_y := 3 |};
                vi_labelHeight := Some 80 |}]]), w).
Proof. eexists _, _. vm_compute. reflexivity. Qed.

(** The compact payload of the specification normalizes to a model with
    the items [item-0] and [item-1] and one connector from the first to the
    second. *)
Example normalize_compact_payload :
  ∃ w connector,
    (let* m := FormatConverter.normalize
                 (CompactD {| c_t := "T";
                              c_i := [("A", "server", EmptyString);
                                      ("B", "api", EmptyString)];
                              c_v := [([(0, 0, 0); (1, 5, 0)], [(0, 1)])];
                              c_meta := {| meta_f := "compact"; meta_v := "1.0" |} |}) in
     ret (mi_id <$> m_items m, view_connectors <$> m_views m)) example_world =
    Some ((["item-0"; "item-1"], [Some [connector]]), w) ∧
    connector_entry connector =
      {| conn_id := "connector-0-0"; conn_from := "item-0"; conn_to := "item-1";
         conn_style := Some SOLID; conn_label := None |}.
Proof. eexists _, _. split; vm_compute; reflexivity. Qed.

(** [toCompact] of the model with a dangling placement and a dangling
    connector: the placement becomes the triple with index 0, the connector
    is dropped. *)
Example toCompact_ghostModel :
  FormatConverter.toCompact ghostModel =
  Some {| c_t := "T"; c_i := [("A", EmptyString, EmptyString)];
          c_v := [([(0, 4, 7)], [])];
          c_meta := {| meta_f := "compact"; meta_v := "1.0" |} |}.
Proof. vm_compute. reflexivity. Qed.


(** ** The repository's tests, replayed *)

(** [__tests__/diagramState.test.ts], "should remove a node": of two nodes
    added to an empty diagram, removing the first leaves the second. *)
Example test_removeNode_removes_a_node :
  ∃ w id,
    (let* state := DiagramState.createEmptyDiagram (Some "Test") in
     let* state := call state (DiagramState.addNode
                     {| addNode_name := "Node 1"; addNode_icon := None;
                        addNode_description := None; addNode_x := 0; addNode_y := 0;
                        addNode_labelHeight := None; addNode_viewId := None |}) in
     let* state := call state (DiagramState.addNode
                     {| addNode_name := "Node 2"; addNode_icon := None;
                        addNode_description := None; addNode_x := 5; addNode_y := 0;
                        addNode_labelHeight := None; addNode_viewId := None |}) in
     let* self := deref state in
     let* nodeId := lift (mi_id <$> m_items (model self) !! 0%nat) in
     let* newState := call state (DiagramState.removeNode nodeId None) in
     let* self' := deref newState in
     ret (m_items (model self'))) example_world =
    Some ([{| mi_id := id; mi_name := "Node 2"; mi_description := None;
              mi_icon := None |}], w).
Proof. eexists _, _. vm_compute. reflexivity. Qed.

(** "should update node properties" and "should only update specified
    properties". *)
Example test_updateNode :
  ∃ w id,
    (let* state := DiagramState.createEmptyDiagram (Some "Test") in
     let* state := call state (DiagramState.addNode
                     {| addNode_name := "Old Name"; addNode_icon := Some "server";
                        addNode_description := Some "Desc"; addNode_x := 0;
                        addNode_y := 0; addNode_labelHeight := None;
                        addNode_viewId := None |}) in
     let* self := deref state in
     let* nodeId := lift (mi_id <$> m_items (model self) !! 0%nat) in
     let* newState := call state (DiagramState.updateNode
                        {| updNode_nodeId := nodeId; updNode_name := Some "New Name";
                           updNode_icon := None; updNode_description := None;
                           updNode_x := Some 10; updNode_y := Some 5;
                           updNode_labelHeight := None; updNode_viewId := None |}) in
     let* self' := deref newState in
     ret (m_items (model self'),
          (λ view, vi_tile <$> view_items view) <$> m_views (model self')))
      example_world =
    Some (([{| mi_id := id; mi_name := "New Name"; mi_description := Some "Desc";
               mi_icon := Some "server" |}],
           [[{| co_x := 10; co_y := 5 |}]]), w).
Proof. eexists _, _. vm_compute. reflexivity. Qed.

(** "should add a connector between nodes", on the example state. *)
Example test_addConnector :
  ∃ w r self' added,
    call 0%nat (DiagramState.addConnector
                  {| addConn_fromNodeId := "node-1"; addConn_toNodeId := "node-2";
                     addConn_style := Some DASHED; addConn_lineType := None;
                     addConn_color := None; addConn_showArrow := Some true;
                     addConn_label := None; addConn_viewId := None |})
         example_state_world = Some (r, w) ∧
    objects w !! r = Some self' ∧
    (view_connectors <$> m_views (model self') !! 0%nat)
      = Some (Some [example_connector "conn-1" "node-1" "node-2"; added]) ∧
    cn_style added = Some DASHED ∧ cn_showArrow added = Some true ∧
    (λ a, ref_item (an_ref a)) <$> cn_anchors added = [Some "node-1"; Some "node-2"].
Proof.
  eexists _, _, _, _. split; [vm_compute; reflexivity|].
  split; [vm_compute; reflexivity|]. split; [vm_compute; reflexivity|].
  by repeat split.
Qed.

(** "should add a rectangle", "should add a text box" and "should return
    diagram info". *)
Example test_annotations_and_getInfo :
  ∃ w,
    (let* state := DiagramState.createEmptyDiagram (Some "My Diagram") in
     let* state := call state (DiagramState.addNode
                     {| addNode_name := "Node 1"; addNode_icon := None;
                        addNode_description := None; addNode_x := 0; addNode_y := 0;
                        addNode_labelHeight := None; addNode_viewId := None |}) in
     let* state := call state (DiagramState.addNode
                     {| addNode_name := "Node 2"; addNode_icon := None;
                        addNode_description := None; addNode_x := 5; addNode_y := 0;
                        addNode_labelHeight := None; addNode_viewId := None |}) in
     let* self := deref state in
     let* node1Id := lift (mi_id <$> m_items (model self) !! 0%nat) in
     let* node2Id := lift (mi_id <$> m_items (model self) !! 1%nat) in
     let* state := call state (DiagramState.addConnector
                     {| addConn_fromNodeId := node1Id; addConn_toNodeId := node2Id;
                        addConn_style := None; addConn_lineType := None;
                        addConn_color := None; addConn_showArrow := None;
                        addConn_label := None; addConn_viewId := None |}) in
     let* state := call state (DiagramState.addRectangle
                     {| addRect_fromX := 0; addRect_fromY := 0; addRect_toX := 5;
                        addRect_toY := 5; addRect_color := None;
                        addRect_viewId := None |}) in
     let* state := call state (DiagramState.addTextBox
                     {| addText_x := 0; addText_y := -5; addText_content := "Title";
                        addText_orientation := None; addText_fontSize := None;
                        addText_viewId := None |}) in
     call state DiagramState.getInfo) example_world =
    Some ({| info_title := "My Diagram"; info_description := None;
             info_nodeCount := 2; info_connectorCount := 1;
             info_rectangleCount := 1; info_textBoxCount := 1;
             info_viewCount := 1 |}, w).
Proof. eexists. vm_compute. reflexivity. Qed.

(** [formatConverter.test.ts], "should preserve data through compact ->
    full -> compact": here the whole diagram comes back. *)
Example test_roundtrip_validCompact :
  ∃ w,
    (let* full := FormatConverter.toFull validCompact in
     lift (FormatConverter.toCompact full)) example_world = Some (validCompact, w).
Proof. eexists. vm_compute. reflexivity. Qed.

(** "should truncate long strings". *)
Example test_toCompact_truncates :
  ∃ c name descr,
    FormatConverter.toCompact
      {| m_version := None;
         m_title := "AAAAAAAAAAAAAAAAAAAAAAAAAAAAAAAAAAAAAAAAAAAAAAAAAA";
         m_description := None;
         m_items := [{| mi_id := "item-0";
                        mi_name := "BBBBBBBBBBBBBBBBBBBBBBBBBBBBBBBBBBBBBBBB";
                        mi_description := None; mi_icon := None |}];
         m_views := []; m_icons := []; m_colors := [] |} = Some c ∧
    String.length (c_t c) = 40%nat ∧
    c_i c = [(name, EmptyString, descr)] ∧ String.length name = 30%nat ∧
    c_v c = [([], [])].
Proof. eexists _, _, _. split; [vm_compute; reflexivity|]. by repeat split. Qed.

(** [asciiRenderer.test.ts], "should render with arrow indicators": the
    test allows for the target name to have the arrow in it, and it has:
    the arrow is written two cells before the centre of the target, the
    node-box pass does not replace it, and [Target] shows as [T], arrow,
    [rget]. *)
Example test_arrow_inside_target :
  (λ grid, take 6 (drop 117 (AsciiRenderer.row grid 7)))
    <$> AsciiRenderer.renderAscii_grid
          {| m_version := None; m_title := "Arrows"; m_description := None;
             m_items := [example_item "node-1" "Source"; example_item "node-2" "Target"];
             m_views :=
               [{| view_id := "view-1"; view_name := "Main";
                   view_items := [example_viewItem "node-1" 0 0;
                                  example_viewItem "node-2" 5 0];
                   view_connectors :=
                     Some [{| cn_id := "conn-1"; cn_description := None;
                              cn_color := None; cn_style := None;
                              cn_lineType := None; cn_showArrow := Some true;
                              cn_anchors :=
                                [FormatConverter.center_anchor EmptyString "node-1";
                                 FormatConverter.center_anchor EmptyString "node-2"] |}];
                   view_rectangles := Some []; view_textBoxes := Some [] |}];
             m_icons := []; m_colors := [] |}
  = Some (AsciiRenderer.code_units "T" ++ [AsciiRenderer.ARROW_RIGHT]
          ++ AsciiRenderer.code_units "rget").
Proof. vm_compute. reflexivity. Qed.



(** * Further properties *)

(** ** The format converter, continued *)

Section converter_roundtrip_facts.

Import FormatConverter.

Lemma slice0_length n s : (String.length (JS.slice0 n s) ≤ n)%nat.
Proof.
  unfold JS.slice0. revert n. induction s as [|a s IH]; intros [|n];
    simpl; try lia.
  specialize (IH n). lia.
Qed.

Lemma toCompact_meta full c :
  toCompact full = Some c → c_meta c = {| meta_f := "compact"; meta_v := "1.0" |}.
Proof.
  unfold toCompact. destruct (mapM _ (m_views full)) as [vs|]; [|done].
  simpl. by intros [= <-].
Qed.

(** The converse of [validateCompact_valid]. *)
Lemma validateCompact_intro compact :
  (String.length (c_t compact) ≤ 40)%nat →
  Forall (λ '(name, icon, descr),
            (String.length name ≤ 30)%nat ∧ (String.length descr ≤ 100)%nat)
         (c_i compact) →
  meta_f (c_meta compact) = "compact" →
  validateCompact compact = (true, []).
Proof.
  intros Ht Hitems Hmeta. unfold validateCompact.
  assert (validateCompact_title (c_t compact) = []) as ->.
  { unfold validateCompact_title.
    destruct (40 <? String.length (c_t compact))%nat eqn:E; [|done].
    apply Nat.ltb_lt in E. lia. }
  assert (validateCompact_meta (c_meta compact) = []) as ->.
  { unfold validateCompact_meta. by rewrite Hmeta. }
  assert (concat (imap validateCompact_item (c_i compact)) = []) as ->; [|done].
  assert (∀ (f : nat → string * string * string → list string),
            (∀ index item, (λ '(name, icon, descr),
                (String.length name ≤ 30)%nat ∧ (String.length descr ≤ 100)%nat) item →
               f index item = []) →
            concat (imap f (c_i compact)) = []) as Hgen.
  { induction Hitems as [|item items Hitem _ IH]; intros f Hf; [done|].
    simpl. rewrite (Hf 0%nat item Hitem). simpl. apply IH.
    intros index item' Hitem'. by apply Hf. }
  apply Hgen. intros index [[name icon] descr] [Hn Hd].
  unfold validateCompact_item.
  destruct (30 <? String.length name)%nat eqn:En;
    [apply Nat.ltb_lt in En; lia|].
  destruct (100 <? String.length descr)%nat eqn:Ed;
    [apply Nat.ltb_lt in Ed; lia|]. done.
Qed.

Lemma toCompact_position_of (items : list (string * string * string)) pos :
  toCompact_position (set_indices (imap toFull_item items) 0 ∅) (toFull_viewItem pos)
  = clamp_position (length items) pos.
Proof.
  destruct pos as [[itemIndex x] y]. unfold toCompact_position, toFull_viewItem.
  simpl. rewrite toFull_index_lookup. case_decide; simpl; [|done].
  by rewrite Z2Nat.id by lia.
Qed.

Lemma toCompact_view_of_exact (items : list (string * string * string)) viewData view :
  view_of viewData view →
  toCompact_view (set_indices (imap toFull_item items) 0 ∅) view =
  Some (map (clamp_position (length items)) viewData.1,
        filter (in_range (length items)) viewData.2).
Proof.
  intros Hof. destruct (toCompact_view_of items _ _ Hof) as (positions & Hview).
  rewrite Hview. f_equal. f_equal.
  destruct Hof as (Hitems & _). unfold toCompact_view in Hview.
  destruct (mapM _ _) as [mapped|]; [|done]. simpl in Hview.
  injection Hview as <- _. rewrite Hitems, map_map.
  apply map_ext. intros pos. apply toCompact_position_of.
Qed.

Lemma toCompact_views_of (items : list (string * string * string)) viewDatas views :
  Forall2 view_of viewDatas views →
  mapM (toCompact_view (set_indices (imap toFull_item items) 0 ∅)) views =
  Some (map (λ viewData, (map (clamp_position (length items)) viewData.1,
                          filter (in_range (length items)) viewData.2)) viewDatas).
Proof.
  intros Hall. apply mapM_Some_2.
  induction Hall as [|viewData view viewDatas views Hof _ IH]; [constructor|].
  simpl. constructor; [|done]. by apply toCompact_view_of_exact.
Qed.

(** The whole result of the round trip, for a diagram that
    [validateCompact] accepts. *)
Lemma compact_roundtrip_result c w :
  (validateCompact c).1 = true →
  ∃ m w', toFull c w = Some (m, w') ∧
          toCompact m =
          Some {| c_t := c_t c; c_i := c_i c;
                  c_v := roundtrip_views (length (c_i c)) (c_v c);
                  c_meta := {| meta_f := "compact"; meta_v := "1.0" |} |}.
Proof.
  intros Hvalid. apply validateCompact_valid in Hvalid as (Ht & Hitems & _).
  destruct (toFull_run c w) as (m & w' & Hm & _ & Htitle & Hi & Hviews).
  exists m, w'. split; [done|]. unfold toCompact.
  rewrite Hi, (toCompact_views_of _ _ _ Hviews). simpl.
  rewrite Htitle, (slice0_short 40) by done. f_equal.
  assert (map toCompact_item (imap toFull_item (c_i c)) = c_i c) as ->.
  { clear -Hitems. apply list_eq. intros j.
    rewrite list_lookup_fmap, list_lookup_imap.
    destruct (c_i c !! j) as [[[name icon] descr]|] eqn:Hj; [|done].
    rewrite Forall_lookup in Hitems. destruct (Hitems _ _ Hj) as [Hn Hd].
    change (Some (toCompact_item (toFull_item j (name, icon, descr)))
            = Some (name, icon, descr)).
    by rewrite toCompact_toFull_item. }
  unfold roundtrip_views. by rewrite length_map.
Qed.

End converter_roundtrip_facts.

(** X1: whatever the model, [toCompact] returns a compact diagram that
    [validateCompact] accepts, with no error. *)
Theorem toCompact_is_valid (full : Model) :
  ∃ c, FormatConverter.toCompact full = Some c ∧
       FormatConverter.validateCompact c = (true, []).
Proof.
  destruct (toCompact_total full) as [c Hc]. exists c. split; [done|].
  pose proof (toCompact_Some _ _ Hc) as (Ht & Hi & _).
  apply validateCompact_intro.
  - rewrite Ht. apply slice0_length.
  - rewrite Hi. apply Forall_forall. intros [[name icon] descr] Hin.
    apply list_elem_of_fmap in Hin as (item & Heq & _).
    unfold FormatConverter.toCompact_item in Heq. injection Heq as -> _ ->.
    split; apply slice0_length.
  - by rewrite (toCompact_meta _ _ Hc).
Qed.

(** The round trip of a compact diagram all of whose indices are in
    range. *)
Lemma compact_roundtrip_same (c : CompactDiagram) (w : World) :
  (FormatConverter.validateCompact c).1 = true →
  meta_v (c_meta c) = "1.0" →
  c_v c ≠ [] →
  Forall (λ viewData,
            Forall (position_in_range (length (c_i c))) viewData.1 ∧
            Forall (in_range (length (c_i c))) viewData.2) (c_v c) →
  ∃ m w', FormatConverter.toFull c w = Some (m, w') ∧
          FormatConverter.toCompact m = Some c.
Proof.
  intros Hvalid Hversion Hviews Hrange.
  destruct (compact_roundtrip_result c w Hvalid) as (m & w' & Hm & Hr).
  exists m, w'. split; [done|]. rewrite Hr. f_equal.
  apply validateCompact_valid in Hvalid as (_ & _ & Hf).
  destruct c as [t i v [f version]]. simpl in *. subst f version. f_equal.
  unfold roundtrip_views. destruct v as [|viewData v]; [done|]. simpl length.
  simpl Nat.eqb. cbv iota.
  rewrite <- (map_id (viewData :: v)) at 2. apply map_ext_Forall.
  eapply Forall_impl; [exact Hrange|].
  intros [positions connections] [Hpos Hconn]. simpl in *.
  rewrite (filter_all _ _ Hconn). f_equal.
  rewrite <- (map_id positions) at 2. apply map_ext_Forall.
  eapply Forall_impl; [exact Hpos|].
  intros [[itemIndex x] y] Hidx. unfold position_in_range in Hidx. simpl in *.
  by rewrite decide_True.
Qed.


(** X2: a compact diagram that [validateCompact] accepts and that has at
    least one view, version ["1.0"], and only item indices that are
    positions of its item list (in positions and in connections) comes back
    from [toCompact(toFull(c))] exactly as it is. *)
Theorem compact_roundtrip_exact (c : CompactDiagram) (w : World) :
  (FormatConverter.validateCompact c).1 = true →
  meta_v (c_meta c) = "1.0" →
  c_v c ≠ [] →
  Forall (λ viewData,
            Forall (position_in_range (length (c_i c))) viewData.1 ∧
            Forall (in_range (length (c_i c))) viewData.2) (c_v c) →
  ∃ m w', FormatConverter.toFull c w = Some (m, w') ∧
          FormatConverter.toCompact m = Some c.
Proof. apply compact_roundtrip_same. Qed.

Lemma compact_roundtrip_exact_witness :
  ∃ m w', FormatConverter.toFull validCompact example_world = Some (m, w') ∧
          FormatConverter.toCompact m = Some validCompact.
Proof.
  apply (compact_roundtrip_exact validCompact example_world).
  - reflexivity.
  - reflexivity.
  - done.
  - repeat constructor; unfold position_in_range; simpl; lia.
Defined.


Section converter_normal_form_facts.

Import FormatConverter.

(** The view tuples that [toCompact] emits are left as they are by a
    further round trip. *)
Lemma toCompact_view_normal full view tuple :
  toCompact_view (set_indices (m_items full) 0 ∅) view = Some tuple →
  (map (clamp_position (length (m_items full))) tuple.1,
   filter (in_range (length (m_items full))) tuple.2) = tuple.
Proof.
  unfold toCompact_view. intros Hview.
  destruct (mapM _ (JS.or_else (view_connectors view) [])) as [mapped|] eqn:Hm;
    [|done].
  simpl in Hview. injection Hview as <-. simpl. f_equal.
  - rewrite map_map. apply map_ext. intros viewItem.
    unfold toCompact_position, clamp_position.
    destruct (set_indices _ _ _ !! vi_id viewItem) as [i|] eqn:Hi; simpl.
    + apply toCompact_index_Some in Hi as (item & Hitem & _).
      apply lookup_lt_Some in Hitem. rewrite decide_True by lia. done.
    + by case_decide.
  - destruct (toCompact_connections_kept _ _ _ Hm) as (kept & _ & Hall).
    apply filter_all. apply Forall_forall. intros pair Hpair.
    apply list_elem_of_lookup in Hpair as [j Hj].
    destruct (Forall2_lookup_r _ _ _ _ _ Hall Hj) as (connector & _ & Henc).
    destruct Henc as (a1 & a2 & i1 & i2 & item1 & item2 & _ & _ & Hi1 & _ & Hi2 & _ & ->).
    apply lookup_lt_Some in Hi1, Hi2. unfold in_range. simpl. lia.
Qed.

Lemma toCompact_views_normal full c :
  toCompact full = Some c →
  roundtrip_views (length (c_i c)) (c_v c) = c_v c.
Proof.
  intros Hc. pose proof (toCompact_Some _ _ Hc) as (_ & Hi & vs & Hvs & Hv).
  rewrite Hi, length_map, Hv. unfold roundtrip_views.
  destruct vs as [|tuple vs]; [done|].
  cbn [length Nat.eqb]. rewrite <- (map_id (tuple :: vs)) at 2.
  apply map_ext_Forall. rewrite mapM_Some in Hvs.
  apply Forall_forall. intros t Ht.
  apply list_elem_of_lookup in Ht as [j Hj].
  destruct (Forall2_lookup_r _ _ _ _ _ Hvs Hj) as (view & _ & Hview).
  by apply (toCompact_view_normal full view).
Qed.

Lemma toCompact_valid full c :
  toCompact full = Some c → validateCompact c = (true, []).
Proof.
  intros Hc. pose proof (toCompact_Some _ _ Hc) as (Ht & Hi & _).
  apply validateCompact_intro.
  - rewrite Ht. apply slice0_length.
  - rewrite Hi. apply Forall_forall. intros [[name icon] descr] Hin.
    apply list_elem_of_fmap in Hin as (item & Heq & _).
    unfold toCompact_item in Heq. injection Heq as -> _ ->.
    split; apply slice0_length.
  - by rewrite (toCompact_meta _ _ Hc).
Qed.

(** The identifiers and names of the views that [toFull] creates. *)
Lemma imapM_toFull_view_ids viewDatas index w views w' :
  imapM toFull_view index viewDatas w = Some (views, w') →
  ∀ k view, views !! k = Some view →
    view_id view = JS.template "view-" (Z.of_nat (index + k)) ∧
    view_name view = if (index + k =? 0)%nat then "Main View"
                     else JS.template "View " (Z.of_nat (index + k) + 1).
Proof.
  revert index w views w'.
  induction viewDatas as [|viewData viewDatas IH]; intros index w views w' Hrun.
  - injection Hrun as <- _. by intros k view Hk.
  - destruct (toFull_view_run index viewData w) as (view0 & w1 & Hv & _ & _).
    cbn [imapM] in Hrun. rewrite (bind_Some _ _ _ _ _ Hv) in Hrun.
    destruct (imapM toFull_view (S index) viewDatas w1) as [[vs w2]|] eqn:Hvs;
      [|by unfold bind in Hrun; rewrite Hvs in Hrun].
    rewrite (bind_Some _ _ _ _ _ Hvs) in Hrun. injection Hrun as <- _.
    intros [|k] view Hk.
    + injection Hk as <-. rewrite Nat.add_0_r.
      destruct viewData as [positions connections]. unfold toFull_view in Hv.
      destruct (imapM_toFull_connector index connections 0 w)
        as (cs & w3 & Hcs & _ & _).
      rewrite (bind_Some _ _ _ _ _ Hcs) in Hv. by injection Hv as <- _.
    + simpl in Hk. destruct (IH _ _ _ _ Hvs k view Hk) as [Hid Hname].
      by replace (index + S k)%nat with (S index + k)%nat by lia.
Qed.

End converter_normal_form_facts.

(** X3: the compact form is a normal form: converting the result of
    [toCompact] to a full model and back returns the same compact diagram,
    for every model. *)
Theorem toCompact_normal_form (full : Model) (w : World) :
  ∃ c m' w',
    FormatConverter.toCompact full = Some c ∧
    FormatConverter.toFull c w = Some (m', w') ∧
    FormatConverter.toCompact m' = Some c.
Proof.
  destruct (toCompact_total full) as [c Hc].
  assert ((FormatConverter.validateCompact c).1 = true) as Hvalid
    by (by rewrite (toCompact_valid _ _ Hc)).
  destruct (compact_roundtrip_result c w Hvalid) as (m' & w' & Hm' & Hr).
  exists c, m', w'. split; [done|]. split; [done|]. rewrite Hr. f_equal.
  rewrite (toCompact_views_normal _ _ Hc), <- (toCompact_meta _ _ Hc).
  by destruct c.
Qed.

(** X4: [toFull] gives the items the identifiers [item-0], [item-1], ... in
    the order of [c.i] and the views the identifiers [view-0], [view-1], ...
    in the order of [c.v], so no two items and no two views of the result
    share an identifier; the first view is named [Main View]. *)
Theorem toFull_identifiers (c : CompactDiagram) (w : World) :
  ∃ m w',
    FormatConverter.toFull c w = Some (m, w') ∧
    mi_id <$> m_items m
      = (λ k, JS.template "item-" (Z.of_nat k)) <$> seq 0 (length (c_i c)) ∧
    view_id <$> m_views m
      = (λ k, JS.template "view-" (Z.of_nat k)) <$> seq 0 (length (c_v c)) ∧
    NoDup (mi_id <$> m_items m) ∧
    NoDup (view_id <$> m_views m) ∧
    (∀ view, m_views m !! 0%nat = Some view → view_name view = "Main View").
Proof.
  destruct (toFull_run c w) as (m & w' & Hm & _ & _ & Hi & Hviews).
  exists m, w'. split; [done|].
  assert (mi_id <$> m_items m
          = (λ k, JS.template "item-" (Z.of_nat k)) <$> seq 0 (length (c_i c)))
    as Hitems.
  { rewrite Hi. apply list_eq. intros j. rewrite !list_lookup_fmap.
    destruct (decide (j < length (c_i c))%nat) as [Hlt|Hge].
    - rewrite lookup_seq_lt by done. simpl.
      destruct (imap _ _ !! j) as [item|] eqn:Hitem.
      + simpl. by rewrite (toFull_items_lookup _ _ _ Hitem).
      + apply lookup_ge_None in Hitem. rewrite length_imap in Hitem. lia.
    - rewrite lookup_seq_ge by lia.
      rewrite (proj2 (lookup_ge_None _ _)); [done|]. rewrite length_imap. lia. }
  assert (∀ k view, m_views m !! k = Some view →
            view_id view = JS.template "view-" (Z.of_nat k) ∧
            view_name view = if (k =? 0)%nat then "Main View"
                             else JS.template "View " (Z.of_nat k + 1)) as Hids.
  { unfold FormatConverter.toFull in Hm.
    destruct (imapM FormatConverter.toFull_view 0 (c_v c) w) as [[vs w1]|] eqn:Hvs;
      [|by unfold bind in Hm; rewrite Hvs in Hm].
    rewrite (bind_Some _ _ _ _ _ Hvs) in Hm. injection Hm as <- _. simpl.
    intros k view Hk. by apply (imapM_toFull_view_ids _ _ _ _ _ Hvs k view). }
  assert (view_id <$> m_views m
          = (λ k, JS.template "view-" (Z.of_nat k)) <$> seq 0 (length (c_v c)))
    as Hvids.
  { apply list_eq. intros j. rewrite !list_lookup_fmap.
    pose proof (Forall2_length _ _ _ Hviews) as Hlen.
    destruct (m_views m !! j) as [view|] eqn:Hview.
    - destruct (Hids _ _ Hview) as [Hid _]. simpl. rewrite Hid.
      apply lookup_lt_Some in Hview. by rewrite lookup_seq_lt by lia.
    - apply lookup_ge_None in Hview. by rewrite lookup_seq_ge by lia. }
  split; [done|]. split; [done|].
  assert (∀ prefix n, NoDup ((λ k, JS.template prefix (Z.of_nat k)) <$> seq 0 n))
    as Hnodup.
  { intros prefix n. apply NoDup_fmap_2; [|apply NoDup_seq].
    intros a b Hab. apply template_inj in Hab. lia. }
  split; [rewrite Hitems; apply Hnodup|]. split; [rewrite Hvids; apply Hnodup|].
  intros view Hview. by destruct (Hids _ _ Hview) as [_ ->].
Qed.

(** ** Validation of untyped payloads *)

Section payload_facts.

Import Payload.

Lemma concat_imap_nil_iff {A B} (f : nat → A → list B) (l : list A) :
  concat (imap f l) = [] ↔ ∀ index a, l !! index = Some a → f index a = [].
Proof.
  split; [apply concat_imap_nil|].
  revert f. induction l as [|a0 l IH]; intros f Hf; [done|].
  simpl. rewrite (Hf 0%nat a0 eq_refl). simpl. apply IH.
  intros index a Ha. apply (Hf (S index) a Ha).
Qed.

Lemma validateCompact_item_nil index item :
  Payload.validateCompact_item index item = [] ↔ item_shape item.
Proof.
  split.
  - intros H. destruct item as [| | | | |elems|]; try done.
    destruct elems as [|name [|icon [|descr [|]]]]; try done.
    unfold Payload.validateCompact_item in H.
    apply app_eq_nil in H as [Hn H]. apply app_eq_nil in H as [Hi Hd].
    destruct name as [| | | |name| |]; try done.
    destruct icon as [| | | |icon| |]; try done.
    destruct descr as [| | | |descr| |]; try done.
    destruct (30 <? String.length name)%nat eqn:En; [done|].
    destruct (100 <? String.length descr)%nat eqn:Ed; [done|].
    apply Nat.ltb_ge in En, Ed. by exists name, icon, descr.
  - intros (name & icon & descr & -> & Hn & Hd).
    unfold Payload.validateCompact_item.
    apply Nat.ltb_ge in Hn, Hd. by rewrite Hn, Hd.
Qed.

Lemma validateCompact_view_nil viewIndex view :
  Payload.validateCompact_view viewIndex view = [] ↔ view_shape view.
Proof.
  split.
  - intros H. destruct view as [| | | | |elems|]; try done.
    destruct elems as [|positions [|connections [|]]]; try done.
    unfold Payload.validateCompact_view in H.
    apply app_eq_nil in H as [Hp Hc].
    destruct positions as [| | | | |positions|]; try done.
    destruct connections as [| | | | |connections|]; try done.
    by exists positions, connections.
  - by intros (positions & connections & ->).
Qed.

Lemma validate_valid_iff_no_errors (errors : list string) :
  bool_decide (length errors = 0%nat) = true ↔ errors = [].
Proof. rewrite bool_decide_eq_true. apply length_zero_iff_nil. Qed.

Lemma validateCompact_errors_nil v :
  (Payload.validateCompact v).2 = [] ↔ compact_shape v.
Proof.
  split.
  - intros H. destruct v as [| | | | | |fields]; try done.
    unfold Payload.validateCompact in H. cbn [is_object negb snd get from_option id] in H.
    apply app_eq_nil in H as [Ht H]. apply app_eq_nil in H as [Hi H].
    apply app_eq_nil in H as [Hv Hm].
    destruct (fields !! "t") as [[| | | |t| |]|] eqn:Et; try done.
    destruct (fields !! "i") as [[| | | | |items|]|] eqn:Ei; try done.
    destruct (fields !! "v") as [[| | | | |views|]|] eqn:Ev; try done.
    destruct (fields !! "_") as [[| | | | | |meta]|] eqn:Em; try done.
    cbn [from_option id is_object negb get is_str] in *.
    apply app_eq_nil in Hm as [Hf Hver].
    destruct (meta !! "f") as [[| | | |f| |]|] eqn:Ef; try done.
    destruct (meta !! "v") as [[| | | |version| |]|] eqn:Eversion; try done.
    cbn [from_option id is_str] in Hf. case_bool_decide as Hcompact; [|done]. subst f.
    destruct (40 <? String.length t)%nat eqn:Elen; [done|].
    apply Nat.ltb_ge in Elen.
    exists fields, t, items, views, meta, version. repeat split; try done.
    + apply Forall_lookup_2. intros index item Hitem.
      apply (validateCompact_item_nil index).
      by apply (concat_imap_nil _ _ Hi index item).
    + apply Forall_lookup_2. intros index view Hview.
      apply (validateCompact_view_nil index).
      by apply (concat_imap_nil _ _ Hv index view).
  - intros (fields & t & items & views & meta & version & -> & Et & Hlen & Ei
            & Hitems & Ev & Hviews & Em & Ef & Eversion).
    unfold Payload.validateCompact. cbn [is_object negb snd get from_option id].
    rewrite Et, Ei, Ev, Em. cbn [from_option id is_object negb get is_str].
    rewrite Ef, Eversion. cbn [from_option id is_str].
    apply Nat.ltb_ge in Hlen. rewrite Hlen.
    rewrite bool_decide_eq_true_2 by done.
    assert (concat (imap Payload.validateCompact_item items) = []) as ->.
    { apply concat_imap_nil_iff. intros index item Hitem.
      apply validateCompact_item_nil.
      by apply (Forall_lookup_1 _ _ _ _ Hitems Hitem). }
    assert (concat (imap Payload.validateCompact_view views) = []) as ->; [|done].
    apply concat_imap_nil_iff. intros index view Hview.
    apply validateCompact_view_nil.
    by apply (Forall_lookup_1 _ _ _ _ Hviews Hview).
Qed.

Lemma validateCompact_valid_errors v :
  (Payload.validateCompact v).1 = true ↔ (Payload.validateCompact v).2 = [].
Proof.
  unfold Payload.validateCompact. destruct (negb (is_object v)); [done|].
  cbv zeta. cbn [fst snd]. apply validate_valid_iff_no_errors.
Qed.

Lemma validateFull_errors_nil v :
  (Payload.validateFull v).2 = [] ↔ full_shape v.
Proof.
  split.
  - intros H. destruct v as [| | | | | |fields]; try done.
    unfold Payload.validateFull in H. cbn [is_object negb snd get from_option id] in H.
    apply app_eq_nil in H as [Ht H]. apply app_eq_nil in H as [Hi H].
    apply app_eq_nil in H as [Hv H]. apply app_eq_nil in H as [Hic Hco].
    destruct (fields !! "title") as [[| | | |title| |]|] eqn:Et; try done.
    destruct (fields !! "items") as [[| | | | |items|]|] eqn:Ei; try done.
    destruct (fields !! "views") as [[| | | | |views|]|] eqn:Ev; try done.
    destruct (fields !! "icons") as [[| | | | |icons|]|] eqn:Eic; try done.
    destruct (fields !! "colors") as [[| | | | |colors|]|] eqn:Eco; try done.
    by exists fields, title, items, views, icons, colors.
  - intros (fields & title & items & views & icons & colors & -> & Et & Ei & Ev
            & Eic & Eco).
    unfold Payload.validateFull. cbn [is_object negb snd get from_option id].
    by rewrite Et, Ei, Ev, Eic, Eco.
Qed.

Lemma validateFull_valid_errors v :
  (Payload.validateFull v).1 = true ↔ (Payload.validateFull v).2 = [].
Proof.
  unfold Payload.validateFull. destruct (negb (is_object v)); [done|].
  cbv zeta. cbn [fst snd]. apply validate_valid_iff_no_errors.
Qed.

Lemma compact_shape_detected v :
  compact_shape v → Payload.detectFormat v = FormatConverter.compact.
Proof.
  intros (fields & t & items & views & meta & version & -> & Et & Hlen & Ei
          & Hitems & Ev & Hviews & Em & Ef & Eversion).
  unfold Payload.detectFormat. cbn [is_object negb get from_option id].
  rewrite Em. cbn [from_option id is_object get]. rewrite Ef. cbn [from_option id is_str].
  by rewrite bool_decide_eq_true_2.
Qed.

End payload_facts.

Section typed_payload_facts.

Import Payload.

Lemma lookup_set_opt_ne key o (fields : gmap string Value) k :
  key ≠ k → set_opt key o fields !! k = fields !! k.
Proof. intros Hne. destruct o; [|done]. simpl. by rewrite lookup_insert_ne. Qed.

Lemma of_model_get m :
  get "title" (of_model m) = VStr (m_title m)
  ∧ get "items" (of_model m) = VArr (of_item <$> m_items m)
  ∧ get "views" (of_model m) = VArr (of_view <$> m_views m)
  ∧ get "icons" (of_model m) = VArr (of_icon <$> m_icons m)
  ∧ get "colors" (of_model m) = VArr (of_color <$> m_colors m)
  ∧ get "_" (of_model m) = VUndefined
  ∧ has "t" (of_model m) = false
  ∧ has "title" (of_model m) = true
  ∧ has "items" (of_model m) = true
  ∧ has "views" (of_model m) = true.
Proof.
  unfold of_model, get, has. split_and!.
  - by rewrite lookup_insert_eq.
  - rewrite lookup_insert_ne by done. by rewrite lookup_insert_eq.
  - do 2 (rewrite lookup_insert_ne by done). by rewrite lookup_insert_eq.
  - do 3 (rewrite lookup_insert_ne by done). by rewrite lookup_insert_eq.
  - do 4 (rewrite lookup_insert_ne by done). by rewrite lookup_insert_eq.
  - do 5 (rewrite lookup_insert_ne by done).
    do 2 (rewrite lookup_set_opt_ne by done). by rewrite lookup_empty.
  - do 5 (rewrite lookup_insert_ne by done).
    do 2 (rewrite lookup_set_opt_ne by done). rewrite lookup_empty.
    apply bool_decide_eq_false_2. by intros [? ?].
  - rewrite lookup_insert_eq. by apply bool_decide_eq_true_2.
  - rewrite lookup_insert_ne by done. rewrite lookup_insert_eq.
    by apply bool_decide_eq_true_2.
  - do 2 (rewrite lookup_insert_ne by done). rewrite lookup_insert_eq.
    by apply bool_decide_eq_true_2.
Qed.

Lemma of_compact_get c :
  get "t" (of_compact c) = VStr (c_t c)
  ∧ (∃ items, get "i" (of_compact c) = VArr items
       ∧ concat (imap Payload.validateCompact_item items)
         = concat (imap FormatConverter.validateCompact_item (c_i c)))
  ∧ (∃ views, get "v" (of_compact c) = VArr views
       ∧ concat (imap Payload.validateCompact_view views) = [])
  ∧ (∃ meta, get "_" (of_compact c) = VObj meta
       ∧ meta !! "f" = Some (VStr (meta_f (c_meta c)))
       ∧ meta !! "v" = Some (VStr (meta_v (c_meta c))))
  ∧ has "t" (of_compact c) = true
  ∧ has "i" (of_compact c) = true
  ∧ has "v" (of_compact c) = true.
Proof.
  unfold of_compact, get, has. split_and!.
  - by rewrite lookup_insert_eq.
  - eexists. split.
    { rewrite lookup_insert_ne by done. by rewrite lookup_insert_eq. }
    rewrite imap_fmap. f_equal. apply imap_ext.
    intros index [[name icon] description] _. simpl.
    unfold FormatConverter.validateCompact_item.
    by destruct (30 <? String.length name)%nat,
                (100 <? String.length description)%nat.
  - eexists. split.
    { do 2 (rewrite lookup_insert_ne by done). by rewrite lookup_insert_eq. }
    apply concat_imap_nil_iff. intros index view Hview.
    apply list_lookup_fmap_Some in Hview as ([positions connections] & -> & _).
    done.
  - eexists. split; [|split].
    + do 3 (rewrite lookup_insert_ne by done). by rewrite lookup_insert_eq.
    + by rewrite lookup_insert_eq.
    + rewrite lookup_insert_ne by done. by rewrite lookup_insert_eq.
  - rewrite lookup_insert_eq. by apply bool_decide_eq_true_2.
  - rewrite lookup_insert_ne by done. rewrite lookup_insert_eq.
    by apply bool_decide_eq_true_2.
  - do 2 (rewrite lookup_insert_ne by done). rewrite lookup_insert_eq.
    by apply bool_decide_eq_true_2.
Qed.

Lemma of_compact_validateCompact c :
  Payload.validateCompact (of_compact c) = FormatConverter.validateCompact c.
Proof.
  destruct (of_compact_get c)
    as (Ht & (items & Hi & Hitems) & (views & Hv & Hviews)
        & (meta & Hm & Hf & Hver) & _).
  unfold Payload.validateCompact, FormatConverter.validateCompact.
  change (is_object (of_compact c)) with true. cbn [negb].
  rewrite Ht, Hi, Hv, Hm, Hitems, Hviews. cbn [is_object negb get].
  rewrite Hf, Hver. cbn [from_option id is_str].
  unfold FormatConverter.validateCompact_title,
    FormatConverter.validateCompact_meta.
  assert (bool_decide (meta_f (c_meta c) = "compact")
          = String.eqb (meta_f (c_meta c)) "compact") as ->.
  { destruct (String.eqb_spec (meta_f (c_meta c)) "compact") as [Heq|Hne].
    - by apply bool_decide_eq_true_2.
    - by apply bool_decide_eq_false_2. }
  cbn [app]. by rewrite !app_nil_r.
Qed.

Lemma of_compact_detectFormat c :
  Payload.detectFormat (of_compact c) = FormatConverter.compact.
Proof.
  destruct (of_compact_get c)
    as (Ht & (items & Hi & _) & (views & Hv & _) & _ & Hht & Hhi & Hhv).
  unfold Payload.detectFormat.
  change (is_object (of_compact c)) with true. cbn [negb].
  rewrite Hht, Hhi, Hhv, Hi, Hv. cbn [isArray andb].
  by destruct (_ && _).
Qed.

Lemma of_model_detectFormat m :
  Payload.detectFormat (of_model m) = FormatConverter.full.
Proof.
  destruct (of_model_get m)
    as (_ & _ & _ & _ & _ & Hm & Ht & Htitle & Hitems & Hviews).
  unfold Payload.detectFormat.
  change (is_object (of_model m)) with true. cbn [negb].
  by rewrite Hm, Ht, Htitle, Hitems, Hviews.
Qed.

Lemma of_model_validateFull m :
  Payload.validateFull (of_model m) = (true, []).
Proof.
  destruct (of_model_get m) as (Ht & Hi & Hv & Hic & Hco & _).
  unfold Payload.validateFull.
  change (is_object (of_model m)) with true. cbn [negb].
  by rewrite Ht, Hi, Hv, Hic, Hco.
Qed.

End typed_payload_facts.

(** X5: [validateCompact] accepts a payload exactly when it is an object
    whose [t] is a string of at most 40 characters, whose [i] is an array
    of triples of strings with a name of at most 30 and a description of
    at most 100 characters, whose [v] is an array of pairs of arrays, and
    whose [_] is an object with [f === 'compact'] and a string [v].  It
    then reports no error; any other payload is reported invalid with at
    least one error. *)
Theorem validateCompact_accepts_exactly (v : Value) :
  (compact_shape v → Payload.validateCompact v = (true, []))
  ∧ (¬ compact_shape v →
     (Payload.validateCompact v).1 = false ∧ (Payload.validateCompact v).2 ≠ []).
Proof.
  split.
  - intros Hshape. apply validateCompact_errors_nil in Hshape as Herrors.
    apply validateCompact_valid_errors in Herrors as Hvalid.
    destruct (Payload.validateCompact v) as [valid errors].
    simpl in *. by subst.
  - intros Hshape. split.
    + destruct (Payload.validateCompact v).1 eqn:Hvalid; [|done].
      destruct Hshape.
      by apply validateCompact_errors_nil, validateCompact_valid_errors.
    + intros Herrors. by apply Hshape, validateCompact_errors_nil.
Qed.

Lemma validateCompact_accepts_exactly_witness :
  Payload.validateCompact (Payload.of_compact validCompact) = (true, [])
  ∧ (Payload.validateCompact VNull).1 = false.
Proof.
  split.
  - apply (proj1 (validateCompact_accepts_exactly (Payload.of_compact validCompact))).
    apply validateCompact_errors_nil. vm_compute. reflexivity.
  - apply (proj2 (validateCompact_accepts_exactly VNull)).
    intros (fields & t & items & views & meta & version & Heq & _).
    discriminate Heq.
Defined.

(** X6: [validateFull] accepts a payload exactly when it is an object with
    a string [title] and arrays [items], [views], [icons] and [colors]: the
    elements of the arrays are not looked at.  It then reports no error;
    any other payload is reported invalid with at least one error. *)
Theorem validateFull_accepts_exactly (v : Value) :
  (full_shape v → Payload.validateFull v = (true, []))
  ∧ (¬ full_shape v →
     (Payload.validateFull v).1 = false ∧ (Payload.validateFull v).2 ≠ []).
Proof.
  split.
  - intros Hshape. apply validateFull_errors_nil in Hshape as Herrors.
    apply validateFull_valid_errors in Herrors as Hvalid.
    destruct (Payload.validateFull v) as [valid errors].
    simpl in *. by subst.
  - intros Hshape. split.
    + destruct (Payload.validateFull v).1 eqn:Hvalid; [|done].
      destruct Hshape.
      by apply validateFull_errors_nil, validateFull_valid_errors.
    + intros Herrors. by apply Hshape, validateFull_errors_nil.
Qed.

Lemma validateFull_accepts_exactly_witness :
  Payload.validateFull (Payload.of_model example_model) = (true, [])
  ∧ (Payload.validateFull (VStr "diagram")).1 = false.
Proof.
  split.
  - apply (proj1 (validateFull_accepts_exactly (Payload.of_model example_model))).
    apply validateFull_errors_nil. vm_compute. reflexivity.
  - apply (proj2 (validateFull_accepts_exactly (VStr "diagram"))).
    intros (fields & title & items & views & icons & colors & Heq & _).
    discriminate Heq.
Defined.

(** X7: [validate] accepts a payload in two cases only: it has the shape
    that [validateCompact] accepts, and the result names the format
    compact; or it has the shape that [validateFull] accepts and
    [detectFormat] calls it full, and the result names the format full.
    In both cases the error list is empty. *)
Theorem validate_accepts_exactly (v : Value) :
  (compact_shape v → Payload.validate v = (true, "compact", []))
  ∧ (full_shape v → Payload.detectFormat v = FormatConverter.full →
     Payload.validate v = (true, "full", []))
  ∧ ((Payload.validate v).1.1 = true →
     compact_shape v
     ∨ (full_shape v ∧ Payload.detectFormat v = FormatConverter.full)).
Proof.
  split_and!.
  - intros Hshape. unfold Payload.validate.
    rewrite (compact_shape_detected _ Hshape).
    apply validateCompact_errors_nil in Hshape as Herrors.
    apply validateCompact_valid_errors in Herrors as Hvalid.
    cbv zeta. by rewrite Herrors, Hvalid.
  - intros Hshape Hformat. unfold Payload.validate. rewrite Hformat.
    apply validateFull_errors_nil in Hshape as Herrors.
    apply validateFull_valid_errors in Herrors as Hvalid.
    cbv zeta. by rewrite Herrors, Hvalid.
  - unfold Payload.validate.
    destruct (Payload.detectFormat v) eqn:Hformat; cbv zeta; cbn [fst snd];
      intros Hvalid.
    + left. by apply validateCompact_errors_nil, validateCompact_valid_errors.
    + right. split; [|done].
      by apply validateFull_errors_nil, validateFull_valid_errors.
    + done.
Qed.

Lemma validate_accepts_exactly_witness :
  Payload.validate (Payload.of_compact validCompact) = (true, "compact", [])
  ∧ Payload.validate (Payload.of_model example_model) = (true, "full", []).
Proof.
  split.
  - apply (proj1 (validate_accepts_exactly (Payload.of_compact validCompact))).
    apply validateCompact_errors_nil. vm_compute. reflexivity.
  - apply (proj1 (proj2 (validate_accepts_exactly (Payload.of_model example_model)))).
    + apply validateFull_errors_nil. vm_compute. reflexivity.
    + vm_compute. reflexivity.
Defined.

(** X8: a payload that [validateFull] accepts is rejected by [validate]
    when it carries the marker [_: {f: 'compact'}] and has no [t]: the
    marker makes [detectFormat] answer compact, so the payload is checked
    by [validateCompact] alone, which reports the missing title. *)
Theorem validate_rejects_marked_full (fields meta : gmap string Value) :
  full_shape (VObj fields) →
  fields !! "_" = Some (VObj meta) →
  meta !! "f" = Some (VStr "compact") →
  fields !! "t" = None →
  Payload.validateFull (VObj fields) = (true, [])
  ∧ (Payload.validate (VObj fields)).1 = (false, "compact")
  ∧ "Missing or invalid title (t)" ∈ (Payload.validate (VObj fields)).2.
Proof.
  intros Hshape Hmeta Hf Ht.
  assert (Payload.detectFormat (VObj fields) = FormatConverter.compact) as Hformat.
  { unfold Payload.detectFormat. cbn [Payload.is_object negb Payload.get].
    rewrite Hmeta. cbn [from_option id Payload.is_object Payload.get].
    rewrite Hf. cbn [from_option id Payload.is_str].
    by rewrite bool_decide_eq_true_2. }
  assert (¬ compact_shape (VObj fields)) as Hnot.
  { intros (fields' & t & items & views & meta' & version & [= <-] & Et & _).
    congruence. }
  split_and!.
  - apply validateFull_errors_nil in Hshape as Herrors.
    apply validateFull_valid_errors in Herrors as Hvalid.
    destruct (Payload.validateFull (VObj fields)) as [valid errors].
    simpl in *. by subst.
  - unfold Payload.validate. rewrite Hformat. cbv zeta. cbn [fst snd].
    f_equal. destruct (Payload.validateCompact (VObj fields)).1 eqn:Hvalid; [|done].
    destruct Hnot.
    by apply validateCompact_errors_nil, validateCompact_valid_errors.
  - unfold Payload.validate. rewrite Hformat. cbv zeta. cbn [fst snd].
    unfold Payload.validateCompact. cbn [Payload.is_object negb snd Payload.get].
    rewrite Ht. cbn [from_option id]. apply list_elem_of_here.
Qed.

Lemma validate_rejects_marked_full_witness :
  Payload.validateFull (VObj markedFields) = (true, [])
  ∧ (Payload.validate (VObj markedFields)).1 = (false, "compact")
  ∧ "Missing or invalid title (t)" ∈ (Payload.validate (VObj markedFields)).2.
Proof.
  apply (validate_rejects_marked_full markedFields markedMeta).
  - apply validateFull_errors_nil. vm_compute. reflexivity.
  - vm_compute. reflexivity.
  - vm_compute. reflexivity.
  - vm_compute. reflexivity.
Defined.

(** X9: on a payload built from a value of type [CompactDiagram],
    [detectFormat] answers compact whatever the metadata says (the keys
    [t], [i] and [v] with two arrays are enough), and [validateCompact]
    reports exactly the errors that remain possible for such a value: the
    three length limits and the format tag. *)
Theorem typed_compact_payload (c : CompactDiagram) :
  Payload.detectFormat (Payload.of_compact c) = FormatConverter.compact
  ∧ Payload.validateCompact (Payload.of_compact c)
    = FormatConverter.validateCompact c
  ∧ Payload.validate (Payload.of_compact c)
    = ((FormatConverter.validateCompact c).1, "compact",
       (FormatConverter.validateCompact c).2).
Proof.
  split_and!.
  - apply of_compact_detectFormat.
  - apply of_compact_validateCompact.
  - unfold Payload.validate.
    by rewrite of_compact_detectFormat, of_compact_validateCompact.
Qed.

(** X10: a payload built from a value of type [Model] is detected as full
    and passes [validateFull] and [validate] with no error, whatever its
    items and views hold. *)
Theorem typed_model_payload (m : Model) :
  Payload.detectFormat (Payload.of_model m) = FormatConverter.full
  ∧ Payload.validateFull (Payload.of_model m) = (true, [])
  ∧ Payload.validate (Payload.of_model m) = (true, "full", []).
Proof.
  split_and!.
  - apply of_model_detectFormat.
  - apply of_model_validateFull.
  - unfold Payload.validate.
    by rewrite of_model_detectFormat, of_model_validateFull.
Qed.

(** X11: what [convertToFormat] returns always validates: for every model
    and both output formats the conversion succeeds, and [validate]
    accepts the result under the requested format with no error. *)
Theorem convertToFormat_output_validates
    (m : Model) (format : FormatConverter.OutputFormat) :
  ∃ d, FormatConverter.convertToFormat m format = Some d
       ∧ Payload.validate (Payload.of_diagram d) = (true, format_name format, []).
Proof.
  destruct format; unfold FormatConverter.convertToFormat.
  - exists (FullD m). split; [done|]. unfold Payload.validate. cbn [Payload.of_diagram].
    by rewrite of_model_detectFormat, of_model_validateFull.
  - destruct (toCompact_total m) as [c Hc]. exists (CompactD c).
    rewrite Hc. split; [done|]. unfold Payload.validate. cbn [Payload.of_diagram].
    rewrite of_compact_detectFormat, of_compact_validateCompact.
    by rewrite (toCompact_valid _ _ Hc).
Qed.

(** ** What a mutation leaves alone *)

Section mutation_frame_facts.

Import DiagramState.

Lemma with_view_frame viewId body draft :
  m_version (with_view viewId body draft) = m_version draft
  ∧ m_title (with_view viewId body draft) = m_title draft
  ∧ m_description (with_view viewId body draft) = m_description draft
  ∧ m_icons (with_view viewId body draft) = m_icons draft
  ∧ m_colors (with_view viewId body draft) = m_colors draft.
Proof. unfold with_view. by destruct (list_find _ _) as [[k view]|]. Qed.

Lemma insert_view_ids (views : list View) k view view' :
  views !! k = Some view → view_id view' = view_id view →
  view_id <$> <[k := view']> views = view_id <$> views.
Proof.
  intros Hk Hid. rewrite list_fmap_insert. apply list_insert_id.
  by rewrite list_lookup_fmap, Hk, Hid.
Qed.

Lemma with_view_view_ids viewId body draft :
  (∀ view, view_id (body view) = view_id view) →
  view_id <$> m_views (with_view viewId body draft) = view_id <$> m_views draft.
Proof.
  intros Hbody. unfold with_view.
  destruct (list_find _ _) as [[k view]|] eqn:Hfind; [|done].
  apply list_find_Some in Hfind as (Hk & _). simpl.
  by apply (insert_view_ids _ _ view).
Qed.

Lemma with_view_other viewId body draft j :
  (∀ k view, list_find (λ v, view_id v = viewId) (m_views draft) = Some (k, view) →
             j ≠ k) →
  m_views (with_view viewId body draft) !! j = m_views draft !! j.
Proof.
  intros Hother. unfold with_view.
  destruct (list_find _ _) as [[k view]|] eqn:Hfind; [|done].
  simpl. apply list_lookup_insert_ne. intros <-. by apply (Hother k view).
Qed.

(** The model of the instance that a mutation constructs, against the
    model of the instance it is called on. *)
Lemma mutate_effect op self w :
  m_views (model self) ≠ [] →
  ∃ m' w1,
    mutate op self w = Some (length (objects w), constructed m' w1)
    ∧ objects w1 = objects w
    ∧ m_version m' = m_version (model self)
    ∧ m_icons m' = m_icons (model self)
    ∧ m_colors m' = m_colors (model self)
    ∧ ((∀ title, op ≠ SetTitle title) → m_title m' = m_title (model self))
    ∧ ((∀ description, op ≠ SetDescription description) →
       m_description m' = m_description (model self))
    ∧ (¬ node_operation op → m_items m' = m_items (model self))
    ∧ view_id <$> m_views m' = view_id <$> m_views (model self)
    ∧ (∀ j, (∀ k view, resolved_view (mutation_viewId op) self = Some (k, view) →
                       j ≠ k) →
            m_views m' !! j = m_views (model self) !! j).
Proof.
  intros Hne.
  assert (∀ viewId (body : View → View) (draft : Model),
            (∀ view, view_id (body view) = view_id view) →
            set_m_items (m_items draft) (model self) = draft →
            let m' := with_view (resolved_viewId viewId self) body draft in
            m_version m' = m_version (model self)
            ∧ m_icons m' = m_icons (model self)
            ∧ m_colors m' = m_colors (model self)
            ∧ m_title m' = m_title (model self)
            ∧ m_description m' = m_description (model self)
            ∧ m_items m' = m_items draft
            ∧ view_id <$> m_views m' = view_id <$> m_views (model self)
            ∧ (∀ j, (∀ k view, resolved_view viewId self = Some (k, view) → j ≠ k) →
                    m_views m' !! j = m_views (model self) !! j)) as Hwith.
  { intros viewId body draft Hbody Hdraft m'. subst m'.
    destruct (with_view_frame (resolved_viewId viewId self) body draft)
      as (-> & -> & -> & -> & ->).
    rewrite with_view_items, (with_view_view_ids _ _ _ Hbody).
    rewrite <- Hdraft. simpl. split_and!; try done.
    intros j Hj. rewrite with_view_other; [done|]. simpl. apply Hj. }
  assert (∀ m, set_m_items (m_items m) m = m) as Hsame by (by intros []).
  destruct op as [params|params|nodeId viewId|params|params|connectorId viewId
                  |params|rectangleId viewId|params|textBoxId viewId|title
                  |description].
  - eexists _, _. split; [by apply addNode_run|].
    unfold addNode_recipe.
    match goal with
    | |- context [with_view _ ?body ?draft] =>
        destruct (Hwith (addNode_viewId params) body draft)
          as (H2 & H3 & H4 & H5 & H6 & H7 & H8 & H9)
    end; [done|done|].
    by split_and!.
  - eexists _, _. split; [by apply updateNode_run|].
    unfold updateNode_recipe.
    match goal with
    | |- context [with_view _ ?body ?draft] =>
        destruct (Hwith (updNode_viewId params) body draft)
          as (H2 & H3 & H4 & H5 & H6 & H7 & H8 & H9)
    end.
    { intros view. by destruct (list_find _ (view_items view)) as [[? ?]|]. }
    { by destruct (list_find _ (m_items (model self))) as [[? ?]|]. }
    by split_and!.
  - eexists _, _. split; [by apply removeNode_run|].
    unfold removeNode_recipe.
    match goal with
    | |- context [with_view _ ?body ?draft] =>
        destruct (Hwith viewId body draft)
          as (H2 & H3 & H4 & H5 & H6 & H7 & H8 & H9)
    end.
    { intros view. unfold removeNode_view. simpl.
      by destruct (view_connectors view). }
    { done. }
    by split_and!.
  - destruct (resolved_view (addConn_viewId params) self) as [[k view]|] eqn:Hview.
    + destruct (decide (placed (addConn_fromNodeId params) view
                        ∧ placed (addConn_toNodeId params) view)) as [[Hfrom Hto]|Hnot].
      * eexists _, _. split; [by apply (addConnector_success _ _ _ k view)|].
        simpl. split_and!; try done.
        -- unfold resolved_view in Hview.
           apply list_find_Some in Hview as (Hk & _).
           by apply (insert_view_ids _ _ view).
        -- intros j Hj. apply list_lookup_insert_ne. intros <-.
           by apply (Hj k view).
      * eexists _, _. split.
        { apply addConnector_noop; [done|].
          intros k' view' Hsome. rewrite Hview in Hsome.
          injection Hsome as <- <-. apply not_and_l in Hnot. tauto. }
        by split_and!.
    + eexists _, _. split.
      { apply addConnector_noop; [done|]. intros k' view' Hsome. congruence. }
      by split_and!.
  - eexists _, _. split; [by apply updateConnector_run|].
    unfold updateConnector_recipe.
    match goal with
    | |- context [with_view _ ?body ?draft] =>
        destruct (Hwith (updConn_viewId params) body draft)
          as (H2 & H3 & H4 & H5 & H6 & H7 & H8 & H9)
    end.
    { intros view. destruct (view_connectors view) as [connectors|]; [|done].
      by destruct (list_find _ connectors) as [[? ?]|]. }
    { done. }
    by split_and!.
  - eexists _, _. split; [by apply removeConnector_run|].
    unfold removeConnector_recipe.
    match goal with
    | |- context [with_view _ ?body ?draft] =>
        destruct (Hwith viewId body draft)
          as (H2 & H3 & H4 & H5 & H6 & H7 & H8 & H9)
    end.
    { intros view. by destruct (view_connectors view). }
    { done. }
    by split_and!.
  - eexists _, _. split; [by apply addRectangle_run|].
    unfold addRectangle_recipe.
    match goal with
    | |- context [with_view _ ?body ?draft] =>
        destruct (Hwith (addRect_viewId params) body draft)
          as (H2 & H3 & H4 & H5 & H6 & H7 & H8 & H9)
    end; [done|done|].
    by split_and!.
  - eexists _, _. split; [by apply removeRectangle_run|].
    unfold removeRectangle_recipe.
    match goal with
    | |- context [with_view _ ?body ?draft] =>
        destruct (Hwith viewId body draft)
          as (H2 & H3 & H4 & H5 & H6 & H7 & H8 & H9)
    end.
    { intros view. by destruct (view_rectangles view). }
    { done. }
    by split_and!.
  - eexists _, _. split; [by apply addTextBox_run|].
    unfold addTextBox_recipe.
    match goal with
    | |- context [with_view _ ?body ?draft] =>
        destruct (Hwith (addText_viewId params) body draft)
          as (H2 & H3 & H4 & H5 & H6 & H7 & H8 & H9)
    end; [done|done|].
    by split_and!.
  - eexists _, _. split; [by apply removeTextBox_run|].
    unfold removeTextBox_recipe.
    match goal with
    | |- context [with_view _ ?body ?draft] =>
        destruct (Hwith viewId body draft)
          as (H2 & H3 & H4 & H5 & H6 & H7 & H8 & H9)
    end.
    { intros view. by destruct (view_textBoxes view). }
    { done. }
    by split_and!.
  - eexists _, _. split; [by apply setTitle_run|].
    split_and!; try done. intros Hnot. by destruct (Hnot title).
  - eexists _, _. split; [by apply setDescription_run|].
    split_and!; try done. intros Hnot. by destruct (Hnot description).
Qed.

Lemma returned_constructed (method : M nat) w m' w1 :
  method w = Some (length (objects w), constructed m' w1) →
  objects w1 = objects w →
  returned method w = Some {| model := m'; scene := INITIAL_SCENE |}.
Proof.
  intros Hrun Hobj. unfold returned. rewrite Hrun. simpl.
  by rewrite Hobj, lookup_app_r, Nat.sub_diag.
Qed.

End mutation_frame_facts.

(** X12: every mutation returns a new state with a fresh scene in which
    the version, the icons and the colours of the model are those of the
    state it was called on; the title changes only under [setTitle], the
    description only under [setDescription], and the items only under
    [addNode], [updateNode] and [removeNode]. *)
Theorem mutation_frame
    (op : DiagramState.Mutation) (w : World) (this : nat) (self : DiagramState) :
  World_ok w →
  objects w !! this = Some self →
  ∃ self',
    returned (call this (DiagramState.mutate op)) w = Some self'
    ∧ scene self' = INITIAL_SCENE
    ∧ m_version (model self') = m_version (model self)
    ∧ m_icons (model self') = m_icons (model self)
    ∧ m_colors (model self') = m_colors (model self)
    ∧ ((∀ title, op ≠ DiagramState.SetTitle title) →
       m_title (model self') = m_title (model self))
    ∧ ((∀ description, op ≠ DiagramState.SetDescription description) →
       m_description (model self') = m_description (model self))
    ∧ (¬ node_operation op → m_items (model self') = m_items (model self)).
Proof.
  intros Hok Hthis. pose proof (World_ok_lookup _ _ _ Hok Hthis) as Hne.
  destruct (mutate_effect op self w Hne)
    as (m' & w1 & Hrun & Hobj & Hversion & Hicons & Hcolors & Htitle & Hdescr
        & Hitems & _).
  exists {| model := m'; scene := INITIAL_SCENE |}. split; [|done].
  apply (returned_constructed _ _ _ w1); [|done].
  by rewrite (call_run (DiagramState.mutate op) this self w Hthis).
Qed.

Lemma mutation_frame_witness :
  ∃ self',
    returned (call 0%nat (DiagramState.mutate
                            (DiagramState.AddRectangle rectangle_in_view2)))
             example_state_world = Some self'
    ∧ scene self' = INITIAL_SCENE
    ∧ m_version (model self') = m_version (model example_state)
    ∧ m_icons (model self') = m_icons (model example_state)
    ∧ m_colors (model self') = m_colors (model example_state)
    ∧ ((∀ title, DiagramState.AddRectangle rectangle_in_view2
                 ≠ DiagramState.SetTitle title) →
       m_title (model self') = m_title (model example_state))
    ∧ ((∀ description, DiagramState.AddRectangle rectangle_in_view2
                       ≠ DiagramState.SetDescription description) →
       m_description (model self') = m_description (model example_state))
    ∧ (¬ node_operation (DiagramState.AddRectangle rectangle_in_view2) →
       m_items (model self') = m_items (model example_state)).
Proof.
  apply (mutation_frame (DiagramState.AddRectangle rectangle_in_view2)
           example_state_world 0%nat example_state);
    [apply example_state_world_ok | reflexivity].
Defined.

(** X13: a mutation keeps the identifiers of the views, in their order,
    and writes to one view at most: the first view whose identifier is the
    one the call names, or the primary view's when it names none.  Every
    view at another position, also one with the same identifier further
    down the list, is left as it is; no view changes when no view has the
    named identifier. *)
Theorem mutation_view_isolation
    (op : DiagramState.Mutation) (w : World) (this : nat) (self : DiagramState) :
  World_ok w →
  objects w !! this = Some self →
  ∃ self',
    returned (call this (DiagramState.mutate op)) w = Some self'
    ∧ view_id <$> m_views (model self') = view_id <$> m_views (model self)
    ∧ (∀ j, (∀ k view, resolved_view (mutation_viewId op) self = Some (k, view) →
                       j ≠ k) →
            m_views (model self') !! j = m_views (model self) !! j).
Proof.
  intros Hok Hthis. pose proof (World_ok_lookup _ _ _ Hok Hthis) as Hne.
  destruct (mutate_effect op self w Hne)
    as (m' & w1 & Hrun & Hobj & _ & _ & _ & _ & _ & _ & Hids & Hother).
  exists {| model := m'; scene := INITIAL_SCENE |}. split; [|done].
  apply (returned_constructed _ _ _ w1); [|done].
  by rewrite (call_run (DiagramState.mutate op) this self w Hthis).
Qed.

Lemma mutation_view_isolation_witness :
  ∃ self',
    returned (call 0%nat (DiagramState.mutate
                            (DiagramState.AddRectangle rectangle_in_view2)))
             example_state_world = Some self'
    ∧ view_id <$> m_views (model self') = view_id <$> m_views (model example_state)
    ∧ (∀ j, (∀ k view,
               resolved_view
                 (mutation_viewId (DiagramState.AddRectangle rectangle_in_view2))
                 example_state = Some (k, view) → j ≠ k) →
            m_views (model self') !! j = m_views (model example_state) !! j).
Proof.
  apply (mutation_view_isolation (DiagramState.AddRectangle rectangle_in_view2)
           example_state_world 0%nat example_state);
    [apply example_state_world_ok | reflexivity].
Defined.

Section unknown_target_facts.

Import DiagramState.

Lemma with_view_unchanged viewId body draft :
  (∀ k view, list_find (λ v, view_id v = viewId) (m_views draft) = Some (k, view) →
             body view = view) →
  with_view viewId body draft = draft.
Proof.
  intros Hbody. unfold with_view.
  destruct (list_find _ _) as [[k view]|] eqn:Hfind; [|done].
  rewrite (Hbody k view eq_refl).
  apply list_find_Some in Hfind as (Hk & _).
  rewrite (list_insert_id _ _ _ Hk). by destruct draft.
Qed.

Lemma filter_unchanged {A} (P : A → Prop) `{!∀ a, Decision (P a)} (l : list A) :
  Forall P l → filter P l = l.
Proof.
  induction 1 as [|a l Ha _ IH]; [done|].
  rewrite filter_cons_True by done. by rewrite IH.
Qed.

Lemma targets_nothing_recipe op self :
  targets_nothing op self →
  match op with
  | UpdateNode params =>
      updateNode_recipe (resolved_viewId (updNode_viewId params) self) params
        (model self) = model self
  | RemoveNode nodeId viewId =>
      removeNode_recipe nodeId (resolved_viewId viewId self) (model self)
      = model self
  | UpdateConnector params =>
      updateConnector_recipe (resolved_viewId (updConn_viewId params) self) params
        (model self) = model self
  | RemoveConnector connectorId viewId =>
      removeConnector_recipe connectorId (resolved_viewId viewId self) (model self)
      = model self
  | RemoveRectangle rectangleId viewId =>
      removeRectangle_recipe rectangleId (resolved_viewId viewId self) (model self)
      = model self
  | RemoveTextBox textBoxId viewId =>
      removeTextBox_recipe textBoxId (resolved_viewId viewId self) (model self)
      = model self
  | _ => False
  end.
Proof.
  assert (∀ m, set_m_items (m_items m) m = m) as Hsame by (by intros []).
  destruct op as [params|params|nodeId viewId|params|params|connectorId viewId
                  |params|rectangleId viewId|params|textBoxId viewId|title
                  |description]; simpl; try done.
  - intros [Hitems Hview]. unfold updateNode_recipe.
    rewrite (proj2 (list_find_None _ _) Hitems).
    apply with_view_unchanged. intros k view Hfind.
    by rewrite (proj2 (list_find_None _ _) (Hview k view Hfind)).
  - intros [Hitems Hview]. unfold removeNode_recipe.
    rewrite (splice_first_none _ _ Hitems), Hsame.
    apply with_view_unchanged. intros k view Hfind.
    destruct (Hview k view Hfind) as [Hvi Hcs]. unfold removeNode_view.
    rewrite (splice_first_none _ _ Hvi). destruct view as [? ? ? cs ? ?].
    simpl in *. destruct cs as [cs|]; [|done]. simpl in *.
    unfold set_view_connectors. simpl. by rewrite (filter_unchanged _ _ Hcs).
  - intros Hview. unfold updateConnector_recipe.
    apply with_view_unchanged. intros k view Hfind.
    specialize (Hview k view Hfind).
    destruct (view_connectors view) as [cs|]; [|done]. simpl in Hview.
    by rewrite (proj2 (list_find_None _ _) Hview).
  - intros Hview. unfold removeConnector_recipe.
    apply with_view_unchanged. intros k view Hfind.
    specialize (Hview k view Hfind). destruct view as [? ? ? cs ? ?].
    simpl in *. destruct cs as [cs|]; [|done]. simpl in *.
    unfold set_view_connectors. simpl.
    by rewrite (splice_first_none _ _ Hview).
  - intros Hview. unfold removeRectangle_recipe.
    apply with_view_unchanged. intros k view Hfind.
    specialize (Hview k view Hfind). destruct view as [? ? ? ? rs ?].
    simpl in *. destruct rs as [rs|]; [|done]. simpl in *.
    unfold set_view_rectangles. simpl.
    by rewrite (splice_first_none _ _ Hview).
  - intros Hview. unfold removeTextBox_recipe.
    apply with_view_unchanged. intros k view Hfind.
    specialize (Hview k view Hfind). destruct view as [? ? ? ? ? ts].
    simpl in *. destruct ts as [ts|]; [|done]. simpl in *.
    unfold set_view_textBoxes. simpl.
    by rewrite (splice_first_none _ _ Hview).
Qed.

End unknown_target_facts.

(** X14: an update or a removal whose identifier names nothing (no item
    and no entry of the resolved view has it, and for [removeNode] no
    connector of that view is anchored on it) does not throw: it returns a
    new state whose model equals the model of the state it was called
    on. *)
Theorem mutation_unknown_target
    (op : DiagramState.Mutation) (w : World) (this : nat) (self : DiagramState) :
  World_ok w →
  objects w !! this = Some self →
  targets_nothing op self →
  returned (call this (DiagramState.mutate op)) w
  = Some {| model := model self; scene := INITIAL_SCENE |}.
Proof.
  intros Hok Hthis Hnothing. pose proof (World_ok_lookup _ _ _ Hok Hthis) as Hne.
  pose proof (targets_nothing_recipe op self Hnothing) as Hrecipe.
  destruct op as [params|params|nodeId viewId|params|params|connectorId viewId
                  |params|rectangleId viewId|params|textBoxId viewId|title
                  |description]; try done;
    apply (returned_constructed _ _ _ w); try done;
    rewrite (call_run _ this self w Hthis); simpl.
  - rewrite updateNode_run by done. by rewrite Hrecipe.
  - rewrite removeNode_run by done. by rewrite Hrecipe.
  - rewrite updateConnector_run by done. by rewrite Hrecipe.
  - rewrite removeConnector_run by done. by rewrite Hrecipe.
  - rewrite removeRectangle_run by done. by rewrite Hrecipe.
  - rewrite removeTextBox_run by done. by rewrite Hrecipe.
Qed.

Lemma mutation_unknown_target_witness :
  returned (call 0%nat (DiagramState.mutate
                          (DiagramState.RemoveConnector "conn-9" (Some "view-2"))))
           example_state_world
  = Some {| model := model example_state; scene := INITIAL_SCENE |}.
Proof.
  apply (mutation_unknown_target
           (DiagramState.RemoveConnector "conn-9" (Some "view-2"))
           example_state_world 0%nat example_state);
    [apply example_state_world_ok | reflexivity |].
  intros k view Hview. vm_compute in Hview. injection Hview as <- <-.
  repeat constructor. done.
Defined.

(** ** Adding an element and removing it again *)

Section add_remove_facts.

Import DiagramState.

Lemma splice_first_snoc {A} (P : A → Prop) `{!∀ a, Decision (P a)} (l : list A) a :
  Forall (λ a, ¬ P a) l → P a → splice_first P (l ++ [a]) = l.
Proof.
  intros Hl Ha. induction Hl as [|b l Hb _ IH]; simpl.
  - rewrite splice_first_cons. by rewrite decide_True.
  - rewrite splice_first_cons. rewrite decide_False by done. by rewrite IH.
Qed.

(** A view body undone by another one, on the view that [with_view]
    finds. *)
Lemma with_view_roundtrip viewId (add remove : View → View) draft :
  (∀ view, view_id (add view) = view_id view) →
  (∀ k view, list_find (λ v, view_id v = viewId) (m_views draft) = Some (k, view) →
             remove (add view) = view) →
  with_view viewId remove (with_view viewId add draft) = draft.
Proof.
  intros Hid Hundo. unfold with_view at 2.
  destruct (list_find _ (m_views draft)) as [[k view]|] eqn:Hfind.
  - unfold with_view. cbn [m_views set_m_views].
    pose proof Hfind as Hfind'. apply list_find_Some in Hfind' as (Hk & Hview & _).
    rewrite (list_find_insert_same _ _ k view (add view) Hfind)
      by (by rewrite Hid).
    rewrite (Hundo k view eq_refl). unfold set_m_views. cbn.
    rewrite list_insert_insert_eq, (list_insert_id _ _ _ Hk). by destruct draft.
  - unfold with_view. by rewrite Hfind.
Qed.

Lemma with_view_set_m_items viewId body items draft :
  with_view viewId body (set_m_items items draft)
  = set_m_items items (with_view viewId body draft).
Proof.
  unfold with_view. cbn [m_views set_m_items].
  by destruct (list_find _ (m_views draft)) as [[k view]|].
Qed.

Lemma unused_id_view id self k view :
  unused_id id self → m_views (model self) !! k = Some view →
  Forall (λ i, vi_id i ≠ id) (view_items view)
  ∧ Forall (λ c, cn_id c ≠ id ∧ ¬ references id c) (default [] (view_connectors view))
  ∧ Forall (λ r, rect_id r ≠ id) (default [] (view_rectangles view))
  ∧ Forall (λ t, tb_id t ≠ id) (default [] (view_textBoxes view)).
Proof.
  intros [_ Hviews] Hk. rewrite Forall_lookup in Hviews. by apply (Hviews k).
Qed.

Lemma addNode_removeNode_recipe nodeId viewId params self :
  unused_id nodeId self →
  removeNode_recipe nodeId viewId (addNode_recipe nodeId viewId params (model self))
  = model self.
Proof.
  intros Hunused. pose proof Hunused as [Hitems _].
  unfold removeNode_recipe, addNode_recipe.
  rewrite !with_view_set_m_items. cbn [m_items set_m_items].
  rewrite splice_first_snoc by done.
  rewrite with_view_roundtrip; [by destruct (model self)|done|].
  intros k view Hfind. apply list_find_Some in Hfind as (Hk & _).
  destruct (unused_id_view _ _ _ _ Hunused Hk) as (Hvi & Hcs & _).
  unfold removeNode_view. cbn [view_items set_view_items view_connectors].
  rewrite splice_first_snoc by done.
  destruct view as [? ? ? cs ? ?]. cbn in *. destruct cs as [cs|]; [|done].
  cbn in *. unfold set_view_connectors. cbn.
  rewrite filter_unchanged; [done|].
  eapply Forall_impl; [exact Hcs|]. by intros c [_ Hc].
Qed.

(** The identifier of the view that a call resolves depends on the
    identifiers of the views only. *)
Lemma resolved_viewId_view_ids viewId self self' :
  view_id <$> m_views (model self') = view_id <$> m_views (model self) →
  resolved_viewId viewId self' = resolved_viewId viewId self.
Proof.
  intros Hids. unfold resolved_viewId, primaryView. f_equal.
  apply (f_equal (λ l, l !! 0%nat)) in Hids.
  rewrite !list_lookup_fmap in Hids. by rewrite Hids.
Qed.

Lemma with_view_nonempty' viewId body draft :
  m_views draft ≠ [] → m_views (with_view viewId body draft) ≠ [].
Proof. apply with_view_nonempty. Qed.

Lemma deref_constructed m w1 w :
  objects w1 = objects w →
  deref (length (objects w)) (constructed m w1)
  = Some ({| model := m; scene := INITIAL_SCENE |}, constructed m w1).
Proof.
  intros Hobj. unfold deref. simpl.
  by rewrite Hobj, lookup_app_r, Nat.sub_diag.
Qed.

Lemma call_constructed {A} (body : DiagramState → M A) m w1 w :
  objects w1 = objects w →
  call (length (objects w)) body (constructed m w1)
  = body {| model := m; scene := INITIAL_SCENE |} (constructed m w1).
Proof.
  intros Hobj. apply call_run. simpl.
  by rewrite Hobj, lookup_app_r, Nat.sub_diag.
Qed.

Lemma returned_bind {A} (c : M A) (k : A → M nat) w a w' :
  c w = Some (a, w') → returned (bind c k) w = returned (k a) w'.
Proof. intros Hc. unfold returned. by rewrite (bind_Some c k w a w' Hc). Qed.

Lemma returned_call_constructed (body : DiagramState → M nat) m m' w1 w :
  body {| model := m; scene := INITIAL_SCENE |} (constructed m w1)
  = Some (length (objects (constructed m w1)), constructed m' (constructed m w1)) →
  objects w1 = objects w →
  returned (call (length (objects w)) body) (constructed m w1)
  = Some {| model := m'; scene := INITIAL_SCENE |}.
Proof.
  intros Hrun Hobj. unfold returned.
  rewrite (call_constructed _ _ _ _ Hobj), Hrun. simpl.
  by rewrite lookup_app_r, Nat.sub_diag.
Qed.

Lemma addNode_removeNode_run params this self w :
  m_views (model self) ≠ [] →
  objects w !! this = Some self →
  unused_id (next_uuid w) self →
  returned (addNode_then_removeNode params this) w
  = Some {| model := model self; scene := INITIAL_SCENE |}.
Proof.
  intros Hne Hthis Hunused. unfold addNode_then_removeNode.
  set (viewId := resolved_viewId (addNode_viewId params) self).
  set (m1 := addNode_recipe (next_uuid w) viewId params (model self)).
  assert (m_views m1 ≠ []) as Hne1 by (by apply with_view_nonempty).
  assert (view_id <$> m_views m1 = view_id <$> m_views (model self)) as Hids.
  { unfold m1, addNode_recipe. by rewrite with_view_view_ids. }
  rewrite (returned_bind (call this (addNode params)) _ w (length (objects w))
             (constructed m1 (tick w)))
    by (rewrite (call_run _ this self w Hthis); by apply addNode_run).
  rewrite (returned_bind (deref _) _ _ _ _ (deref_constructed m1 (tick w) w eq_refl)).
  assert (last (m_items m1)
          = Some {| mi_id := next_uuid w; mi_name := addNode_name params;
                    mi_icon := addNode_icon params;
                    mi_description := addNode_description params |}) as Hlast.
  { unfold m1, addNode_recipe. rewrite with_view_items. cbn [m_items set_m_items].
    apply last_snoc. }
  cbn [model]. rewrite Hlast.
  erewrite (returned_bind (lift _)); [|reflexivity].
  apply (returned_call_constructed _ m1 _ (tick w) w); [|done].
  rewrite removeNode_run by done. cbn [model].
  rewrite (resolved_viewId_view_ids _ self) by done.
  fold viewId. unfold m1. by rewrite addNode_removeNode_recipe.
Qed.

End add_remove_facts.

(** X15: adding a node and then removing the node that was added (by the
    identifier of the last item, for the same view) returns a state whose
    model is the model before the addition, provided the identifier that
    was generated for the node is carried by nothing in that state. *)
Theorem addNode_removeNode_roundtrip
    (params : AddNodeParams) (w : World) (this : nat) (self : DiagramState) :
  World_ok w →
  objects w !! this = Some self →
  unused_id (next_uuid w) self →
  returned (addNode_then_removeNode params this) w
  = Some {| model := model self; scene := INITIAL_SCENE |}.
Proof.
  intros Hok Hthis Hunused. apply addNode_removeNode_run; [|done|done].
  by apply (World_ok_lookup w this).
Qed.

Lemma addNode_removeNode_roundtrip_witness :
  returned (addNode_then_removeNode (node_in_view None) 0%nat) example_state_world
  = Some {| model := model example_state; scene := INITIAL_SCENE |}.
Proof.
  apply (addNode_removeNode_roundtrip (node_in_view None) example_state_world
           0%nat example_state);
    [apply example_state_world_ok | reflexivity |].
  unfold unused_id. apply (bool_decide_unpack _). vm_compute. exact I.
Defined.

Section add_remove_view_facts.

Import DiagramState.

Lemma with_view_found viewId body draft k view :
  list_find (λ v, view_id v = viewId) (m_views draft) = Some (k, view) →
  with_view viewId body draft
  = set_m_views (<[k := body view]> (m_views draft)) draft.
Proof. intros Hfind. unfold with_view. by rewrite Hfind. Qed.

Lemma getView_resolved viewId self k view :
  resolved_view viewId self = Some (k, view) → getView viewId self = Some view.
Proof.
  unfold resolved_view, resolved_viewId, getView, JS.or_string, primaryView.
  assert (list_find
            (λ v, view_id v
                  = default EmptyString (view_id <$> m_views (model self) !! 0%nat))
            (m_views (model self)) = Some (k, view) →
          m_views (model self) !! 0%nat = Some view) as Hprimary.
  { destruct (m_views (model self)) as [|primary rest]; [done|].
    cbn. rewrite decide_True by done. by intros [= <- <-]. }
  destruct viewId as [viewId|]; [|done].
  destruct (JS.truthy viewId); [|done]. cbn. by intros ->.
Qed.

Lemma resolved_view_after viewId self k view view' :
  resolved_view viewId self = Some (k, view) →
  view_id view' = view_id view →
  resolved_view viewId
    {| model := set_m_views (<[k := view']> (m_views (model self))) (model self);
       scene := INITIAL_SCENE |}
  = Some (k, view').
Proof.
  intros Hview Hid. unfold resolved_view in *.
  pose proof Hview as Hfind. apply list_find_Some in Hfind as (Hk & Hmatch & _).
  rewrite (resolved_viewId_view_ids _ self)
    by (by apply (insert_view_ids _ _ view)).
  cbn [model m_views set_m_views].
  apply (list_find_insert_same _ _ k view view' Hview). by rewrite Hid.
Qed.

Lemma insert_nonempty (views : list View) k view :
  views ≠ [] → <[k := view]> views ≠ [].
Proof.
  intros Hne Hnil. apply (f_equal length) in Hnil.
  rewrite length_insert in Hnil. by destruct views.
Qed.

(** The second half of a round trip: a removal, called on the instance
    that the addition constructed, in which the view [view'] took the
    place of [view]. *)
Lemma remove_after_add_run
    (remove : DiagramState → M nat) (recipe : string → Model → Model)
    (undo : View → View) viewId self k view view' w1 w :
  (∀ self0 w0, m_views (model self0) ≠ [] →
     remove self0 w0
     = Some (length (objects w0),
             constructed (recipe (resolved_viewId viewId self0) (model self0)) w0)) →
  (∀ targetViewId draft, recipe targetViewId draft = with_view targetViewId undo draft) →
  resolved_view viewId self = Some (k, view) →
  view_id view' = view_id view →
  undo view' = view →
  objects w1 = objects w →
  let m1 := set_m_views (<[k := view']> (m_views (model self))) (model self) in
  returned (call (length (objects w)) remove) (constructed m1 w1)
  = Some {| model := model self; scene := INITIAL_SCENE |}.
Proof.
  intros Hrun Hrecipe Hview Hid Hundo Hobj m1.
  assert (m_views (model self) ≠ []) as Hne.
  { unfold resolved_view in Hview. intros Hnil. by rewrite Hnil in Hview. }
  apply (returned_call_constructed _ m1 _ w1 w); [|done].
  rewrite Hrun by (by apply insert_nonempty). cbn [model].
  do 3 f_equal. rewrite Hrecipe.
  pose proof (resolved_view_after viewId self k view view' Hview Hid) as Hview1.
  unfold resolved_view in Hview1. cbn [model] in Hview1. fold m1 in Hview1.
  rewrite (with_view_found _ _ _ k view' Hview1), Hundo. unfold m1.
  cbn [m_views set_m_views]. unfold resolved_view in Hview.
  apply list_find_Some in Hview as (Hk & _).
  rewrite list_insert_insert_eq, (list_insert_id _ _ _ Hk).
  unfold set_m_views. cbn. by destruct (model self).
Qed.

Lemma addConnector_removeConnector_run params this self w k view cs :
  objects w !! this = Some self →
  resolved_view (addConn_viewId params) self = Some (k, view) →
  placed (addConn_fromNodeId params) view →
  placed (addConn_toNodeId params) view →
  view_connectors view = Some cs →
  unused_id (next_uuid w) self →
  returned (addConnector_then_removeConnector params this) w
  = Some {| model := model self; scene := INITIAL_SCENE |}.
Proof.
  intros Hthis Hview Hfrom Hto Hcs Hunused.
  unfold addConnector_then_removeConnector.
  set (connector := addConnector_connector (next_uuid w) (next_uuid (tick w))
                      (next_uuid (tick (tick w))) params).
  set (view' := set_view_connectors (Some (cs ++ [connector])) view).
  set (m1 := set_m_views (<[k := view']> (m_views (model self))) (model self)).
  set (w3 := tick (tick (tick w))).
  rewrite (returned_bind (call this (addConnector params)) _ w (length (objects w))
             (constructed m1 w3)).
  2:{ rewrite (call_run _ this self w Hthis).
      rewrite (addConnector_success params self w k view Hview Hfrom Hto).
      by rewrite Hcs. }
  pose proof (resolved_view_after _ self k view view' Hview eq_refl) as Hview1.
  fold m1 in Hview1.
  rewrite (returned_bind (call _ (listConnectors _)) _ _
             (map connector_entry (cs ++ [connector])) (constructed m1 w3)).
  2:{ rewrite (call_constructed _ m1 w3 w eq_refl).
      by rewrite (listConnectors_run _ _ view' _ (getView_resolved _ _ _ _ Hview1)). }
  rewrite map_app. cbn [map]. rewrite last_snoc.
  erewrite (returned_bind (lift _)); [|reflexivity].
  cbn [connector_entry conn_id connector addConnector_connector cn_id].
  apply (remove_after_add_run _
           (removeConnector_recipe (next_uuid w))
           (λ view,
              match view_connectors view with
              | Some connectors =>
                  set_view_connectors
                    (Some (splice_first (λ c, cn_id c = next_uuid w) connectors)) view
              | None => view
              end)
           (addConn_viewId params) self k view view' w3 w); try done.
  - intros self0 w0 Hne0. by apply removeConnector_run.
  - unfold view'. cbn [view_connectors set_view_connectors].
    unfold resolved_view in Hview. apply list_find_Some in Hview as (Hk & _).
    destruct (unused_id_view _ _ _ _ Hunused Hk) as (_ & Hfresh & _).
    rewrite Hcs in Hfresh. cbn in Hfresh.
    rewrite splice_first_snoc; [|by eapply Forall_impl; [exact Hfresh|intros c []]|done].
    destruct view. cbn in *. by subst.
Qed.

Lemma addRectangle_removeRectangle_run params this self w k view rs :
  objects w !! this = Some self →
  resolved_view (addRect_viewId params) self = Some (k, view) →
  view_rectangles view = Some rs →
  unused_id (next_uuid w) self →
  returned (addRectangle_then_removeRectangle params this) w
  = Some {| model := model self; scene := INITIAL_SCENE |}.
Proof.
  intros Hthis Hview Hrs Hunused.
  assert (m_views (model self) ≠ []) as Hne.
  { unfold resolved_view in Hview. intros Hnil. by rewrite Hnil in Hview. }
  unfold addRectangle_then_removeRectangle.
  set (rectangle :=
         {| rect_id := next_uuid w;
            rect_from := {| co_x := addRect_fromX params; co_y := addRect_fromY params |};
            rect_to := {| co_x := addRect_toX params; co_y := addRect_toY params |};
            rect_color := addRect_color params |}).
  set (view' := set_view_rectangles (Some (rs ++ [rectangle])) view).
  set (m1 := set_m_views (<[k := view']> (m_views (model self))) (model self)).
  rewrite (returned_bind (call this (addRectangle params)) _ w (length (objects w))
             (constructed m1 (tick w))).
  2:{ rewrite (call_run _ this self w Hthis), addRectangle_run by done.
      unfold addRectangle_recipe. unfold resolved_view in Hview.
      rewrite (with_view_found _ _ _ k view Hview). by rewrite Hrs. }
  pose proof (resolved_view_after _ self k view view' Hview eq_refl) as Hview1.
  fold m1 in Hview1.
  rewrite (returned_bind (deref _) _ _ _ _ (deref_constructed m1 (tick w) w eq_refl)).
  rewrite (getView_resolved _ _ _ _ Hview1).
  erewrite (returned_bind (lift _)); [|reflexivity].
  cbn [view' view_rectangles set_view_rectangles JS.or_else from_option id].
  rewrite last_snoc.
  erewrite (returned_bind (lift _)); [|reflexivity].
  cbn [rectangle rect_id].
  apply (remove_after_add_run _
           (removeRectangle_recipe (next_uuid w))
           (λ view,
              match view_rectangles view with
              | Some rectangles =>
                  set_view_rectangles
                    (Some (splice_first (λ r, rect_id r = next_uuid w) rectangles)) view
              | None => view
              end)
           (addRect_viewId params) self k view view' (tick w) w); try done.
  - intros self0 w0 Hne0. by apply removeRectangle_run.
  - unfold view'. cbn [view_rectangles set_view_rectangles].
    unfold resolved_view in Hview. apply list_find_Some in Hview as (Hk & _).
    destruct (unused_id_view _ _ _ _ Hunused Hk) as (_ & _ & Hfresh & _).
    rewrite Hrs in Hfresh. cbn in Hfresh.
    rewrite splice_first_snoc by done.
    destruct view. cbn in *. by subst.
Qed.

Lemma addTextBox_removeTextBox_run params this self w k view ts :
  objects w !! this = Some self →
  resolved_view (addText_viewId params) self = Some (k, view) →
  view_textBoxes view = Some ts →
  unused_id (next_uuid w) self →
  returned (addTextBox_then_removeTextBox params this) w
  = Some {| model := model self; scene := INITIAL_SCENE |}.
Proof.
  intros Hthis Hview Hts Hunused.
  assert (m_views (model self) ≠ []) as Hne.
  { unfold resolved_view in Hview. intros Hnil. by rewrite Hnil in Hview. }
  unfold addTextBox_then_removeTextBox.
  set (textBox :=
         {| tb_id := next_uuid w;
            tb_tile := {| co_x := addText_x params; co_y := addText_y params |};
            tb_content := addText_content params;
            tb_orientation := Some (JS.or_else (addText_orientation params) OrientX);
            tb_fontSize := addText_fontSize params |}).
  set (view' := set_view_textBoxes (Some (ts ++ [textBox])) view).
  set (m1 := set_m_views (<[k := view']> (m_views (model self))) (model self)).
  rewrite (returned_bind (call this (addTextBox params)) _ w (length (objects w))
             (constructed m1 (tick w))).
  2:{ rewrite (call_run _ this self w Hthis), addTextBox_run by done.
      unfold addTextBox_recipe. unfold resolved_view in Hview.
      rewrite (with_view_found _ _ _ k view Hview). by rewrite Hts. }
  pose proof (resolved_view_after _ self k view view' Hview eq_refl) as Hview1.
  fold m1 in Hview1.
  rewrite (returned_bind (deref _) _ _ _ _ (deref_constructed m1 (tick w) w eq_refl)).
  rewrite (getView_resolved _ _ _ _ Hview1).
  erewrite (returned_bind (lift _)); [|reflexivity].
  cbn [view' view_textBoxes set_view_textBoxes JS.or_else from_option id].
  rewrite last_snoc.
  erewrite (returned_bind (lift _)); [|reflexivity].
  cbn [textBox tb_id].
  apply (remove_after_add_run _
           (removeTextBox_recipe (next_uuid w))
           (λ view,
              match view_textBoxes view with
              | Some textBoxes =>
                  set_view_textBoxes
                    (Some (splice_first (λ t, tb_id t = next_uuid w) textBoxes)) view
              | None => view
              end)
           (addText_viewId params) self k view view' (tick w) w); try done.
  - intros self0 w0 Hne0. by apply removeTextBox_run.
  - unfold view'. cbn [view_textBoxes set_view_textBoxes].
    unfold resolved_view in Hview. apply list_find_Some in Hview as (Hk & _).
    destruct (unused_id_view _ _ _ _ Hunused Hk) as (_ & _ & _ & Hfresh).
    rewrite Hts in Hfresh. cbn in Hfresh.
    rewrite splice_first_snoc by done.
    destruct view. cbn in *. by subst.
Qed.

End add_remove_view_facts.

(** X16: adding a connector between two nodes placed in the resolved view
    and then removing the last connector that [listConnectors] lists for
    that view returns a state whose model is the model before the
    addition, provided the view had a [connectors] array and the
    identifier generated for the connector is carried by nothing in the
    state. *)
Theorem addConnector_removeConnector_roundtrip
    (params : AddConnectorParams) (w : World) (this : nat) (self : DiagramState)
    (k : nat) (view : View) (cs : list Connector) :
  objects w !! this = Some self →
  resolved_view (addConn_viewId params) self = Some (k, view) →
  DiagramState.placed (addConn_fromNodeId params) view →
  DiagramState.placed (addConn_toNodeId params) view →
  view_connectors view = Some cs →
  unused_id (next_uuid w) self →
  returned (addConnector_then_removeConnector params this) w
  = Some {| model := model self; scene := INITIAL_SCENE |}.
Proof.
  intros Hthis Hview Hfrom Hto Hcs Hunused.
  by apply (addConnector_removeConnector_run params this self w k view cs).
Qed.

Lemma addConnector_removeConnector_roundtrip_witness :
  returned (addConnector_then_removeConnector connector_between_nodes 0%nat)
           example_state_world
  = Some {| model := model example_state; scene := INITIAL_SCENE |}.
Proof.
  apply (addConnector_removeConnector_roundtrip connector_between_nodes
           example_state_world 0%nat example_state 0%nat example_view1
           [example_connector "conn-1" "node-1" "node-2"]).
  - reflexivity.
  - vm_compute. reflexivity.
  - apply (bool_decide_unpack _). vm_compute. exact I.
  - apply (bool_decide_unpack _). vm_compute. exact I.
  - reflexivity.
  - unfold unused_id. apply (bool_decide_unpack _). vm_compute. exact I.
Defined.

(** X17: adding a rectangle, or a text box, to a view that has the
    corresponding array, and then removing the last element of that array,
    returns a state whose model is the model before the addition,
    provided the identifier generated for the element is carried by
    nothing in the state. *)
Theorem annotation_add_remove_roundtrip
    (w : World) (this : nat) (self : DiagramState) :
  objects w !! this = Some self →
  unused_id (next_uuid w) self →
  (∀ params k view rs,
     resolved_view (addRect_viewId params) self = Some (k, view) →
     view_rectangles view = Some rs →
     returned (addRectangle_then_removeRectangle params this) w
     = Some {| model := model self; scene := INITIAL_SCENE |})
  ∧ (∀ params k view ts,
       resolved_view (addText_viewId params) self = Some (k, view) →
       view_textBoxes view = Some ts →
       returned (addTextBox_then_removeTextBox params this) w
       = Some {| model := model self; scene := INITIAL_SCENE |}).
Proof.
  intros Hthis Hunused. split.
  - intros params k view rs Hview Hrs.
    by apply (addRectangle_removeRectangle_run params this self w k view rs).
  - intros params k view ts Hview Hts.
    by apply (addTextBox_removeTextBox_run params this self w k view ts).
Qed.

Lemma annotation_add_remove_roundtrip_witness :
  returned (addRectangle_then_removeRectangle rectangle_in_view2 0%nat)
           example_state_world
  = Some {| model := model example_state; scene := INITIAL_SCENE |}
  ∧ returned (addTextBox_then_removeTextBox textBox_in_view2 0%nat)
             example_state_world
    = Some {| model := model example_state; scene := INITIAL_SCENE |}.
Proof.
  assert (unused_id (next_uuid example_state_world) example_state) as Hunused.
  { unfold unused_id. apply (bool_decide_unpack _). vm_compute. exact I. }
  split.
  - apply (proj1 (annotation_add_remove_roundtrip example_state_world 0%nat
                    example_state eq_refl Hunused)
             rectangle_in_view2 1%nat example_view2 []).
    + vm_compute. reflexivity.
    + reflexivity.
  - apply (proj2 (annotation_add_remove_roundtrip example_state_world 0%nat
                    example_state eq_refl Hunused)
             textBox_in_view2 1%nat example_view2 []).
    + vm_compute. reflexivity.
    + reflexivity.
Defined.

(** ** Loading and exporting *)

Section load_export_facts.

Import DiagramState.

Lemma new_allocates diagram m w w' :
  FormatConverter.normalize diagram w = Some (m, w') →
  m_views m ≠ [] →
  new (Some diagram) w
  = Some (length (objects w'),
          {| uuid_source := uuid_source w'; uuid_next := uuid_next w';
             objects := objects w' ++ [{| model := m; scene := INITIAL_SCENE |}] |}).
Proof.
  intros Hnormalize Hviews. unfold new.
  rewrite (bind_Some _ _ w m w' Hnormalize).
  destruct (m_views m) eqn:Hm; [done|]. by cbn.
Qed.

Lemma new_default m w :
  m_views m = [] →
  new (Some (FullD m)) w
  = Some (length (objects (tick w)),
          {| uuid_source := uuid_source (tick w); uuid_next := uuid_next (tick w);
             objects := objects (tick w)
                        ++ [{| model := set_m_views [default_view (next_uuid w)] m;
                               scene := INITIAL_SCENE |}] |}).
Proof.
  intros Hviews.
  unfold new, FormatConverter.normalize, bind, ret, createDefaultView, uuidv4, alloc.
  by rewrite Hviews.
Qed.

Lemma toJSON_after_alloc format m (w' : World) :
  fst <$> call (length (objects w')) (toJSON format)
            {| uuid_source := uuid_source w'; uuid_next := uuid_next w';
               objects := objects w' ++ [{| model := m; scene := INITIAL_SCENE |}] |}
  = FormatConverter.convertToFormat m format.
Proof.
  unfold call, bind, deref. cbn [objects].
  rewrite lookup_app_r, Nat.sub_diag by done. cbn.
  unfold toJSON, lift. cbn. by destruct (FormatConverter.convertToFormat m format).
Qed.

End load_export_facts.

(** X18: loading a model and exporting it in the full format returns the
    model itself when it has a view; a model without views comes back with
    exactly one view added, the default view under a newly generated
    identifier.  Neither call throws. *)
Theorem load_export_full (m : Model) (w : World) :
  (m_views m ≠ [] →
   fst <$> load_then_export (FullD m) FormatConverter.OutFull w = Some (FullD m))
  ∧ (m_views m = [] →
     fst <$> load_then_export (FullD m) FormatConverter.OutFull w
     = Some (FullD (set_m_views [default_view (next_uuid w)] m))).
Proof.
  split; intros Hviews; unfold load_then_export, DiagramState.loadDiagram.
  - rewrite (bind_Some _ _ w _ _ (new_allocates (FullD m) m w w eq_refl Hviews)).
    by rewrite toJSON_after_alloc.
  - rewrite (bind_Some _ _ w _ _ (new_default m w Hviews)).
    by rewrite toJSON_after_alloc.
Qed.

Lemma load_export_full_witness :
  fst <$> load_then_export (FullD example_model) FormatConverter.OutFull example_world
  = Some (FullD example_model)
  ∧ fst <$> load_then_export (FullD INITIAL_MODEL) FormatConverter.OutFull example_world
    = Some (FullD (set_m_views [default_view (next_uuid example_world)] INITIAL_MODEL)).
Proof.
  split.
  - by apply (proj1 (load_export_full example_model example_world)).
  - by apply (proj2 (load_export_full INITIAL_MODEL example_world)).
Defined.

(** X19: loading a compact diagram and exporting the state in the compact
    format returns the diagram itself, when [validateCompact] accepts it,
    its version is ["1.0"], it has at least one view, and all its item
    indices are positions of its item list. *)
Theorem load_export_compact (c : CompactDiagram) (w : World) :
  (FormatConverter.validateCompact c).1 = true →
  meta_v (c_meta c) = "1.0" →
  c_v c ≠ [] →
  Forall (λ viewData,
            Forall (position_in_range (length (c_i c))) viewData.1 ∧
            Forall (in_range (length (c_i c))) viewData.2) (c_v c) →
  fst <$> load_then_export (CompactD c) FormatConverter.OutCompact w
  = Some (CompactD c).
Proof.
  intros Hvalid Hversion Hviews Hrange.
  destruct (compact_roundtrip_same c w Hvalid Hversion Hviews Hrange)
    as (m & w' & Hfull & Hcompact).
  assert (m_views m ≠ []) as Hne.
  { destruct (toFull_run c w) as (m0 & w0 & Hrun & _ & _ & _ & Hall).
    rewrite Hfull in Hrun. injection Hrun as <- <-.
    intros Hnil. rewrite Hnil in Hall. apply Forall2_nil_inv_r in Hall. done. }
  unfold load_then_export, DiagramState.loadDiagram.
  rewrite (bind_Some _ _ w _ _ (new_allocates (CompactD c) m w w' Hfull Hne)).
  rewrite toJSON_after_alloc. unfold FormatConverter.convertToFormat.
  by rewrite Hcompact.
Qed.

Lemma load_export_compact_witness :
  fst <$> load_then_export (CompactD validCompact) FormatConverter.OutCompact
            example_world
  = Some (CompactD validCompact).
Proof.
  apply (load_export_compact validCompact example_world).
  - reflexivity.
  - reflexivity.
  - done.
  - repeat constructor; unfold position_in_range; simpl; lia.
Defined.

(** ** Updating a node *)

Section updateNode_facts.

Import DiagramState.

Lemma with_view_idempotent viewId (body : View → View) draft :
  (∀ view, view_id (body view) = view_id view) →
  (∀ view, body (body view) = body view) →
  with_view viewId body (with_view viewId body draft) = with_view viewId body draft.
Proof.
  intros Hid Hidem. unfold with_view at 2 3.
  destruct (list_find _ (m_views draft)) as [[k view]|] eqn:Hfind.
  - unfold with_view. cbn [m_views set_m_views].
    rewrite (list_find_insert_same _ _ k view (body view) Hfind)
      by (apply list_find_Some in Hfind as (_ & <- & _); apply Hid).
    rewrite Hidem. unfold set_m_views. cbn. by rewrite list_insert_insert_eq.
  - unfold with_view. by rewrite Hfind.
Qed.

(** What [updateNode] does to the item list and to the entries of a
    view. *)
Lemma update_first_idempotent {A} (P : A → Prop) `{!∀ a, Decision (P a)}
    (update : A → A) (l : list A) :
  (∀ a, P a → P (update a)) →
  (∀ a, update (update a) = update a) →
  let step := λ l, match list_find P l with
                   | Some (k, a) => <[k := update a]> l
                   | None => l
                   end in
  step (step l) = step l.
Proof.
  intros HP Hidem step. unfold step.
  destruct (list_find P l) as [[k a]|] eqn:Hfind.
  - rewrite (list_find_insert_same P l k a (update a) Hfind)
      by (apply list_find_Some in Hfind as (_ & Ha & _); by apply HP).
    by rewrite Hidem, list_insert_insert_eq.
  - by rewrite Hfind.
Qed.

Lemma updateNode_item_idempotent params item :
  updateNode_item params (updateNode_item params item) = updateNode_item params item.
Proof.
  unfold updateNode_item. cbn.
  by destruct (updNode_name params), (updNode_icon params),
       (updNode_description params).
Qed.

Lemma updateNode_viewItem_idempotent params viewItem :
  updateNode_viewItem params (updateNode_viewItem params viewItem)
  = updateNode_viewItem params viewItem.
Proof.
  unfold updateNode_viewItem. cbn.
  by destruct (updNode_x params), (updNode_y params), (updNode_labelHeight params).
Qed.

Lemma updateNode_recipe_idempotent viewId params m :
  updateNode_recipe viewId params (updateNode_recipe viewId params m)
  = updateNode_recipe viewId params m.
Proof.
  set (body := λ view : View,
         match list_find (λ i, vi_id i = updNode_nodeId params) (view_items view) with
         | Some (k, viewItem) =>
             set_view_items
               (<[k := updateNode_viewItem params viewItem]> (view_items view)) view
         | None => view
         end).
  set (items_step := λ draft : Model,
         match list_find (λ i, mi_id i = updNode_nodeId params) (m_items draft) with
         | Some (k, modelItem) =>
             set_m_items (<[k := updateNode_item params modelItem]> (m_items draft))
               draft
         | None => draft
         end).
  change (updateNode_recipe viewId params) with (λ m, with_view viewId body (items_step m)).
  cbv beta.
  assert (∀ draft, items_step (with_view viewId body draft)
                   = with_view viewId body (items_step draft)) as Hcommute.
  { intros draft. unfold items_step. rewrite with_view_items.
    destruct (list_find _ (m_items draft)) as [[k item]|]; [|done].
    by rewrite with_view_set_m_items. }
  assert (∀ draft, items_step (items_step draft) = items_step draft) as Hitems.
  { intros draft.
    pose proof (update_first_idempotent (λ i, mi_id i = updNode_nodeId params)
                  (updateNode_item params) (m_items draft)
                  (λ a Ha, Ha) (updateNode_item_idempotent params)) as Hstep.
    cbv zeta beta in Hstep. unfold items_step.
    destruct (list_find _ (m_items draft)) as [[k item]|] eqn:Hfind; [|by rewrite Hfind].
    cbn [m_items set_m_items].
    destruct (list_find _ (<[k:=updateNode_item params item]> (m_items draft)))
      as [[k' item']|]; [|done].
    unfold set_m_items. cbn. by rewrite Hstep. }
  assert (∀ view, view_id (body view) = view_id view) as Hid.
  { intros view. unfold body.
    by destruct (list_find _ (view_items view)) as [[? ?]|]. }
  assert (∀ view, body (body view) = body view) as Hbody.
  { intros view.
    pose proof (update_first_idempotent (λ i, vi_id i = updNode_nodeId params)
                  (updateNode_viewItem params) (view_items view)
                  (λ a Ha, Ha) (updateNode_viewItem_idempotent params)) as Hstep.
    cbv zeta beta in Hstep. unfold body.
    destruct (list_find _ (view_items view)) as [[k item]|] eqn:Hfind;
      [|by rewrite Hfind].
    cbn [view_items set_view_items].
    destruct (list_find _ (<[k:=updateNode_viewItem params item]> (view_items view)))
      as [[k' item']|]; [|done].
    unfold set_view_items. cbn. by rewrite Hstep. }
  by rewrite Hcommute, Hitems, with_view_idempotent.
Qed.

Lemma updateNode_recipe_empty viewId nodeId viewId' m :
  updateNode_recipe viewId (empty_update nodeId viewId') m = m.
Proof.
  unfold updateNode_recipe.
  assert (∀ item, updateNode_item (empty_update nodeId viewId') item = item) as Hitem
    by (by intros []).
  assert (∀ viewItem,
            updateNode_viewItem (empty_update nodeId viewId') viewItem = viewItem)
    as HviewItem by (by intros [? [] ?]).
  assert (match list_find (λ i, mi_id i = updNode_nodeId (empty_update nodeId viewId'))
                  (m_items m) with
          | Some (k, modelItem) =>
              set_m_items
                (<[k := updateNode_item (empty_update nodeId viewId') modelItem]>
                   (m_items m)) m
          | None => m
          end = m) as ->.
  { destruct (list_find _ (m_items m)) as [[k item]|] eqn:Hfind; [|done].
    apply list_find_Some in Hfind as (Hk & _).
    rewrite Hitem, (list_insert_id _ _ _ Hk). by destruct m. }
  apply with_view_unchanged. intros k view _.
  destruct (list_find _ (view_items view)) as [[j viewItem]|] eqn:Hfind; [|done].
  apply list_find_Some in Hfind as (Hj & _).
  rewrite HviewItem, (list_insert_id _ _ _ Hj). by destruct view.
Qed.

Lemma updateNode_view_ids viewId params m :
  view_id <$> m_views (updateNode_recipe viewId params m) = view_id <$> m_views m.
Proof.
  unfold updateNode_recipe. rewrite with_view_view_ids.
  - by destruct (list_find _ (m_items m)) as [[? ?]|].
  - intros view. by destruct (list_find _ (view_items view)) as [[? ?]|].
Qed.

End updateNode_facts.

(** X20: [updateNode] is idempotent, and with no field to set it changes
    nothing: calling it a second time with the same parameters on the
    state it returned gives a state with the same model as the first
    call, and a call that sets no field returns a state with the model it
    was called on, whether or not the node exists. *)
Theorem updateNode_idempotent
    (params : UpdateNodeParams) (w : World) (this : nat) (self : DiagramState) :
  World_ok w →
  objects w !! this = Some self →
  (∃ self1,
     returned (call this (DiagramState.updateNode params)) w = Some self1
     ∧ returned (updateNode_twice params this) w = Some self1)
  ∧ (∀ nodeId viewId,
       returned (call this (DiagramState.updateNode (empty_update nodeId viewId))) w
       = Some {| model := model self; scene := INITIAL_SCENE |}).
Proof.
  intros Hok Hthis. pose proof (World_ok_lookup _ _ _ Hok Hthis) as Hne.
  split.
  - set (viewId := resolved_viewId (updNode_viewId params) self).
    set (m1 := DiagramState.updateNode_recipe viewId params (model self)).
    assert (view_id <$> m_views m1 = view_id <$> m_views (model self)) as Hids
      by apply updateNode_view_ids.
    assert (m_views m1 ≠ []) as Hne1.
    { intros Hnil. rewrite Hnil in Hids. by destruct (m_views (model self)). }
    assert (call this (DiagramState.updateNode params) w
            = Some (length (objects w), constructed m1 w)) as Hrun.
    { rewrite (call_run _ this self w Hthis). by apply updateNode_run. }
    exists {| model := m1; scene := INITIAL_SCENE |}. split.
    + by apply (returned_constructed _ _ _ w).
    + unfold updateNode_twice. rewrite (returned_bind _ _ w _ _ Hrun).
      apply (returned_call_constructed _ m1 _ w w); [|done].
      rewrite updateNode_run by done. cbn [model].
      rewrite (resolved_viewId_view_ids _ self) by done.
      fold viewId. unfold m1. by rewrite updateNode_recipe_idempotent.
  - intros nodeId viewId. apply (returned_constructed _ _ _ w); [|done].
    rewrite (call_run _ this self w Hthis), updateNode_run by done.
    by rewrite updateNode_recipe_empty.
Qed.

Lemma updateNode_idempotent_witness :
  (∃ self1,
     returned (call 0%nat (DiagramState.updateNode rename_and_move))
              example_state_world = Some self1
     ∧ returned (updateNode_twice rename_and_move 0%nat) example_state_world
       = Some self1)
  ∧ (∀ nodeId viewId,
       returned (call 0%nat (DiagramState.updateNode (empty_update nodeId viewId)))
                example_state_world
       = Some {| model := model example_state; scene := INITIAL_SCENE |}).
Proof.
  apply (updateNode_idempotent rename_and_move example_state_world 0%nat
           example_state);
    [apply example_state_world_ok | reflexivity].
Defined.

(** ** Listing what was added *)

Section add_list_facts.

Import DiagramState.

Lemma list_find_snoc_ne {A} (P : A → Prop) `{!∀ a, Decision (P a)} (l : list A) a :
  ¬ P a → list_find P (l ++ [a]) = list_find P l.
Proof.
  intros Ha. induction l as [|b l IH]; cbn.
  - by rewrite decide_False.
  - case_decide; [done|]. by rewrite IH.
Qed.

Lemma list_find_snoc_new {A} (P : A → Prop) `{!∀ a, Decision (P a)} (l : list A) a :
  Forall (λ b, ¬ P b) l → P a → list_find P (l ++ [a]) = Some (length l, a).
Proof.
  intros Hl Ha. induction Hl as [|b l Hb _ IH]; cbn.
  - by rewrite decide_True.
  - rewrite decide_False by done. by rewrite IH.
Qed.

Lemma getView_ext viewId self self' :
  m_views (model self) = m_views (model self') →
  getView viewId self = getView viewId self'.
Proof. intros Hviews. unfold getView, primaryView. by rewrite Hviews. Qed.

Lemma getView_after viewId self k view view' items :
  resolved_view viewId self = Some (k, view) →
  view_id view' = view_id view →
  getView viewId
    {| model := set_m_views (<[k := view']> (m_views (model self)))
                  (set_m_items items (model self));
       scene := INITIAL_SCENE |}
  = Some view'.
Proof.
  intros Hview Hid.
  rewrite (getView_ext _ _
             {| model := set_m_views (<[k := view']> (m_views (model self)))
                           (model self);
                scene := INITIAL_SCENE |}) by done.
  apply (getView_resolved _ _ k). by apply (resolved_view_after _ _ _ view).
Qed.

Lemma addNode_listNodes_run params this self w k view :
  objects w !! this = Some self →
  resolved_view (addNode_viewId params) self = Some (k, view) →
  unused_id (next_uuid w) self →
  fst <$> call this (listNodes (addNode_viewId params)) w
  = Some (map (node_entry view) (m_items (model self)))
  ∧ fst <$> addNode_then_listNodes params this w
    = Some (map (node_entry view) (m_items (model self))
            ++ [{| node_id := next_uuid w;
                   node_name := addNode_name params;
                   node_icon := addNode_icon params;
                   node_description := addNode_description params;
                   node_position := Some {| co_x := addNode_x params;
                                            co_y := addNode_y params |} |}]).
Proof.
  intros Hthis Hview Hunused.
  assert (m_views (model self) ≠ []) as Hne.
  { unfold resolved_view in Hview. intros Hnil. by rewrite Hnil in Hview. }
  split.
  { rewrite (call_run _ this self w Hthis).
    by rewrite (listNodes_run _ _ view w (getView_resolved _ _ _ _ Hview)). }
  unfold addNode_then_listNodes.
  set (item := {| mi_id := next_uuid w; mi_name := addNode_name params;
                  mi_icon := addNode_icon params;
                  mi_description := addNode_description params |}).
  set (viewItem := {| vi_id := next_uuid w;
                      vi_tile := {| co_x := addNode_x params;
                                    co_y := addNode_y params |};
                      vi_labelHeight :=
                        Some (JS.or_else (addNode_labelHeight params)
                                DEFAULT_LABEL_HEIGHT) |}).
  set (view' := set_view_items (view_items view ++ [viewItem]) view).
  set (m1 := set_m_views (<[k := view']> (m_views (model self)))
               (set_m_items (m_items (model self) ++ [item]) (model self))).
  rewrite (bind_Some (call this (addNode params)) _ w (length (objects w))
             (constructed m1 (tick w))).
  2:{ rewrite (call_run _ this self w Hthis), addNode_run by done.
      unfold addNode_recipe. unfold resolved_view in Hview.
      by rewrite (with_view_found _ _ (set_m_items _ (model self)) k view Hview). }
  rewrite (call_constructed _ m1 (tick w) w eq_refl). unfold m1 at 1.
  rewrite (listNodes_run _ _ view' _ (getView_after _ self k view view' _ Hview eq_refl)).
  cbn [fmap option_fmap option_map fst model m1 m_items set_m_views set_m_items].
  f_equal. rewrite map_app. cbn [map]. f_equal.
  - apply map_ext_Forall. destruct Hunused as [Hitems _].
    eapply Forall_impl; [exact Hitems|]. intros old Hold.
    unfold node_entry. do 3 f_equal. cbn [view' view_items set_view_items].
    apply list_find_snoc_ne. cbn. congruence.
  - unfold node_entry. cbn [view' view_items set_view_items item mi_id mi_name
                            mi_icon mi_description].
    unfold resolved_view in Hview. apply list_find_Some in Hview as (Hk & _).
    destruct (unused_id_view _ _ _ _ Hunused Hk) as (Hvi & _).
    by rewrite (list_find_snoc_new _ _ viewItem Hvi).
Qed.

Lemma addConnector_listConnectors_run params this self w k view :
  objects w !! this = Some self →
  resolved_view (addConn_viewId params) self = Some (k, view) →
  placed (addConn_fromNodeId params) view →
  placed (addConn_toNodeId params) view →
  fst <$> call this (listConnectors (addConn_viewId params)) w
  = Some (map connector_entry (default [] (view_connectors view)))
  ∧ fst <$> addConnector_then_listConnectors params this w
    = Some (map connector_entry (default [] (view_connectors view))
            ++ [{| conn_id := next_uuid w;
                   conn_from := addConn_fromNodeId params;
                   conn_to := addConn_toNodeId params;
                   conn_style := Some (default SOLID (addConn_style params));
                   conn_label := addConn_label params |}]).
Proof.
  intros Hthis Hview Hfrom Hto. split.
  { rewrite (call_run _ this self w Hthis).
    by rewrite (listConnectors_run _ _ view w (getView_resolved _ _ _ _ Hview)). }
  unfold addConnector_then_listConnectors.
  set (connector := addConnector_connector (next_uuid w) (next_uuid (tick w))
                      (next_uuid (tick (tick w))) params).
  set (view' := set_view_connectors
                  (Some (default [] (view_connectors view) ++ [connector])) view).
  set (m1 := set_m_views (<[k := view']> (m_views (model self))) (model self)).
  rewrite (bind_Some (call this (addConnector params)) _ w (length (objects w))
             (constructed m1 (tick (tick (tick w))))).
  2:{ rewrite (call_run _ this self w Hthis).
      by rewrite (addConnector_success params self w k view Hview Hfrom Hto). }
  rewrite (call_constructed _ m1 (tick (tick (tick w))) w eq_refl).
  pose proof (resolved_view_after _ self k view view' Hview eq_refl) as Hview1.
  rewrite (listConnectors_run _ _ view' _ (getView_resolved _ _ _ _ Hview1)).
  cbn [fmap option_fmap option_map fst view' view_connectors set_view_connectors
       from_option id].
  f_equal. rewrite map_app. cbn [map]. do 2 f_equal.
  unfold connector_entry, connector, addConnector_connector,
    FormatConverter.center_anchor, JS.or_string, JS.or_else.
  cbn. f_equal.
  - by destruct (JS.truthy (addConn_fromNodeId params)) eqn:Htruthy;
      [|unfold JS.truthy in Htruthy; apply negb_false_iff, String.eqb_eq in Htruthy].
  - by destruct (JS.truthy (addConn_toNodeId params)) eqn:Htruthy;
      [|unfold JS.truthy in Htruthy; apply negb_false_iff, String.eqb_eq in Htruthy].
Qed.

End add_list_facts.

(** X21: after [addNode] into an existing view, [listNodes] for that view
    lists the nodes it listed before, unchanged, followed by one entry for
    the new node with the name, icon and description given and the
    position [(x, y)], provided the identifier generated for the node is
    carried by nothing in the state. *)
Theorem addNode_listed_last
    (params : AddNodeParams) (w : World) (this : nat) (self : DiagramState)
    (k : nat) (view : View) :
  objects w !! this = Some self →
  resolved_view (addNode_viewId params) self = Some (k, view) →
  unused_id (next_uuid w) self →
  ∃ nodes,
    fst <$> call this (DiagramState.listNodes (addNode_viewId params)) w = Some nodes
    ∧ fst <$> addNode_then_listNodes params this w
      = Some (nodes
              ++ [{| node_id := next_uuid w;
                     node_name := addNode_name params;
                     node_icon := addNode_icon params;
                     node_description := addNode_description params;
                     node_position := Some {| co_x := addNode_x params;
                                              co_y := addNode_y params |} |}]).
Proof.
  intros Hthis Hview Hunused.
  destruct (addNode_listNodes_run params this self w k view Hthis Hview Hunused)
    as [Hbefore Hafter].
  eexists. split; [exact Hbefore|exact Hafter].
Qed.

Lemma addNode_listed_last_witness :
  ∃ nodes,
    fst <$> call 0%nat (DiagramState.listNodes (addNode_viewId (node_in_view None)))
              example_state_world = Some nodes
    ∧ fst <$> addNode_then_listNodes (node_in_view None) 0%nat example_state_world
      = Some (nodes
              ++ [{| node_id := next_uuid example_state_world;
                     node_name := addNode_name (node_in_view None);
                     node_icon := addNode_icon (node_in_view None);
                     node_description := addNode_description (node_in_view None);
                     node_position :=
                       Some {| co_x := addNode_x (node_in_view None);
                               co_y := addNode_y (node_in_view None) |} |}]).
Proof.
  apply (addNode_listed_last (node_in_view None) example_state_world 0%nat
           example_state 0%nat example_view1).
  - reflexivity.
  - vm_compute. reflexivity.
  - unfold unused_id. apply (bool_decide_unpack _). vm_compute. exact I.
Defined.

(** X22: when both endpoints are placed in the resolved view,
    [addConnector] appends exactly one connector to it: [listConnectors]
    for that view then lists the connectors it listed before, unchanged,
    followed by one entry from [fromNodeId] to [toNodeId] with the label
    given and the style given, SOLID when none is given. *)
Theorem addConnector_listed_last
    (params : AddConnectorParams) (w : World) (this : nat) (self : DiagramState)
    (k : nat) (view : View) :
  objects w !! this = Some self →
  resolved_view (addConn_viewId params) self = Some (k, view) →
  DiagramState.placed (addConn_fromNodeId params) view →
  DiagramState.placed (addConn_toNodeId params) view →
  ∃ connectors,
    fst <$> call this (DiagramState.listConnectors (addConn_viewId params)) w
    = Some connectors
    ∧ fst <$> addConnector_then_listConnectors params this w
      = Some (connectors
              ++ [{| conn_id := next_uuid w;
                     conn_from := addConn_fromNodeId params;
                     conn_to := addConn_toNodeId params;
                     conn_style := Some (default SOLID (addConn_style params));
                     conn_label := addConn_label params |}]).
Proof.
  intros Hthis Hview Hfrom Hto.
  destruct (addConnector_listConnectors_run params this self w k view
              Hthis Hview Hfrom Hto) as [Hbefore Hafter].
  eexists. split; [exact Hbefore|exact Hafter].
Qed.

Lemma addConnector_listed_last_witness :
  ∃ connectors,
    fst <$> call 0%nat (DiagramState.listConnectors
                          (addConn_viewId connector_between_nodes))
              example_state_world
    = Some connectors
    ∧ fst <$> addConnector_then_listConnectors connector_between_nodes 0%nat
                example_state_world
      = Some (connectors
              ++ [{| conn_id := next_uuid example_state_world;
                     conn_from := addConn_fromNodeId connector_between_nodes;
                     conn_to := addConn_toNodeId connector_between_nodes;
                     conn_style :=
                       Some (default SOLID (addConn_style connector_between_nodes));
                     conn_label := addConn_label connector_between_nodes |}]).
Proof.
  apply (addConnector_listed_last connector_between_nodes example_state_world
           0%nat example_state 0%nat example_view1).
  - reflexivity.
  - vm_compute. reflexivity.
  - apply (bool_decide_unpack _). vm_compute. exact I.
  - apply (bool_decide_unpack _). vm_compute. exact I.
Defined.

(** ** The shape of the grid, and where a line is drawn *)

Section renderer_shape_facts.

Import AsciiRenderer.

Lemma for_range_invariant (Q : Grid → Prop) lo hi body grid :
  (∀ k g, lo ≤ k < hi → Q g → Q (body k g)) →
  Q grid → Q (for_range lo hi body grid).
Proof.
  intros Hbody. unfold for_range.
  assert (∀ l : list Z, Forall (λ k, lo ≤ k < hi) l →
            ∀ g, Q g → Q (foldl (λ g k, body k g) g l)) as Hfold.
  { induction 1 as [|k l Hk _ IH]; intros g Hg; [done|].
    simpl. apply IH. by apply Hbody. }
  apply Hfold. apply Forall_forall. intros k Hk.
  apply elem_of_seqZ in Hk. lia.
Qed.

Lemma foldl_invariant {B} (Q : Grid → Prop) (f : Grid → B → Grid) (l : list B) grid :
  (∀ g b, Q g → Q (f g b)) → Q grid → Q (foldl f grid l).
Proof.
  intros Hf. revert grid. induction l as [|b l IH]; intros grid Hgrid; [done|].
  simpl. apply IH. by apply Hf.
Qed.

Lemma safeWrite_shape grid y x ch shape :
  row_lengths grid = shape → row_lengths (safeWrite grid y x ch) = shape.
Proof.
  intros <-. unfold safeWrite, row_lengths.
  destruct (_ && _) eqn:Hbounds; [|done].
  destruct (_ || _); [|done].
  rewrite list_fmap_insert, length_insert. apply list_insert_id.
  rewrite list_lookup_fmap. unfold row.
  destruct (grid !! Z.to_nat y) as [rowY|] eqn:Hrow; [done|].
  apply lookup_ge_None in Hrow.
  repeat (apply andb_true_iff in Hbounds as [Hbounds ?]).
  apply Z.leb_le in Hbounds. lia.
Qed.

Ltac keep_shape :=
  repeat first
    [ assumption
    | apply safeWrite_shape
    | apply for_range_invariant; [intros ? ? _ ?; apply safeWrite_shape; assumption|] ].

Lemma drawNodeBox_shape grid cx cy name icon shape :
  row_lengths grid = shape → row_lengths (drawNodeBox grid cx cy name icon) = shape.
Proof.
  intros Hshape. unfold drawNodeBox. cbv zeta.
  destruct (_ || _); [done|]. keep_shape.
Qed.

Lemma drawLine_shape grid x1 y1 x2 y2 showArrow shape :
  row_lengths grid = shape → row_lengths (drawLine grid x1 y1 x2 y2 showArrow) = shape.
Proof.
  intros Hshape. unfold drawLine. cbv zeta.
  destruct showArrow;
    repeat match goal with
           | |- context [if ?b then _ else _] => destruct b
           end; keep_shape.
Qed.

Lemma drawConnector_shape view gridMinX gridMinY grid connector shape :
  row_lengths grid = shape →
  row_lengths (drawConnector view gridMinX gridMinY grid connector) = shape.
Proof.
  intros Hshape. unfold drawConnector. cbv zeta.
  destruct (_ <? _)%nat; [done|].
  destruct (cn_anchors connector !! 0%nat) as [startAnchor|]; [|done].
  destruct (last (cn_anchors connector)) as [endAnchor|]; [|done].
  destruct (snd <$> list_find _ _) as [startItem|]; [|done].
  destruct (snd <$> list_find _ _) as [endItem|]; [|done].
  destruct (toCharCoords _ _ (vi_tile startItem)) as [sx sy].
  destruct (toCharCoords _ _ (vi_tile endItem)) as [ex ey].
  by apply drawLine_shape.
Qed.

Lemma drawNode_shape itemLookup gridMinX gridMinY grid viewItem shape :
  row_lengths grid = shape →
  row_lengths (drawNode itemLookup gridMinX gridMinY grid viewItem) = shape.
Proof.
  intros Hshape. unfold drawNode.
  destruct (itemLookup !! vi_id viewItem) as [modelItem|]; [|done].
  destruct (toCharCoords _ _ _) as [cx cy]. by apply drawNodeBox_shape.
Qed.

Lemma list_min_le l x : x ∈ l → list_min l ≤ x.
Proof.
  unfold list_min. generalize (default 0 (head l)). intros d Hx.
  induction Hx as [x l|x y l _ IH]; simpl; lia.
Qed.

Lemma list_max_ge l x : x ∈ l → x ≤ list_max l.
Proof.
  unfold list_max. generalize (default 0 (head l)). intros d Hx.
  induction Hx as [x l|x y l _ IH]; simpl; lia.
Qed.

Lemma renderAscii_grid_row_lengths model view grid :
  m_views model !! 0%nat = Some view →
  renderAscii_grid model = Some grid →
  view_items view ≠ []
  ∧ row_lengths grid
    = replicate (Z.to_nat ((list_max (tile_ys view) - list_min (tile_ys view) + 5) * 3))
        (Z.to_nat ((list_max (tile_xs view) - list_min (tile_xs view) + 5) * 16)).
Proof.
  intros Hview. unfold renderAscii_grid. rewrite Hview.
  destruct (length (view_items view) =? 0)%nat eqn:Hlen; [done|].
  apply Nat.eqb_neq in Hlen. cbv zeta. intros [= <-].
  split; [by destruct (view_items view)|].
  apply foldl_invariant; [intros g b; apply drawNode_shape|].
  apply foldl_invariant; [intros g b; apply drawConnector_shape|].
  unfold row_lengths, tile_xs, tile_ys, padding, cellWidth, cellHeight.
  rewrite fmap_replicate, length_replicate. f_equal; f_equal; lia.
Qed.

Lemma safeWrite_other grid y x ch r c :
  Z.of_nat r ≠ y ∨ Z.of_nat c ≠ x →
  cell_at (safeWrite grid y x ch) r c = cell_at grid r c.
Proof.
  intros Hother. unfold safeWrite.
  destruct (_ && _) eqn:Hbounds; [|done].
  destruct (_ || _); [|done].
  repeat (apply andb_true_iff in Hbounds as [Hbounds ?]).
  apply Z.leb_le in Hbounds.
  match goal with H : (0 <=? x) = true |- _ => apply Z.leb_le in H end.
  unfold cell_at.
  destruct (decide (r = Z.to_nat y)) as [->|Hr].
  - destruct (grid !! Z.to_nat y) as [rowY|] eqn:HrowY.
    + rewrite list_lookup_insert_eq by (by eapply lookup_lt_Some).
      unfold row. rewrite HrowY. simpl.
      apply list_lookup_insert_ne. lia.
    + rewrite list_insert_ge; [by rewrite HrowY|].
      by apply lookup_ge_None.
  - by rewrite list_lookup_insert_ne.
Qed.

Lemma drawLine_other grid x1 y1 x2 y2 showArrow r c :
  ¬ (Z.min y1 y2 ≤ Z.of_nat r ≤ Z.max y1 y2
     ∧ Z.min x1 x2 - 1 ≤ Z.of_nat c ≤ Z.max x1 x2 + 1
     ∧ (Z.of_nat r = y1 ∨ Z.of_nat r = y2 ∨ Z.of_nat c = x1 + (x2 - x1) / 2)) →
  cell_at (drawLine grid x1 y1 x2 y2 showArrow) r c = cell_at grid r c.
Proof.
  intros Houtside. unfold drawLine. cbv zeta.
  pose proof (Z.div_mod (x2 - x1) 2 ltac:(lia)) as Hdiv.
  pose proof (Z.mod_pos_bound (x2 - x1) 2 ltac:(lia)) as Hmod.
  set (midX := x1 + (x2 - x1) / 2) in *.
  assert (Z.min x1 x2 ≤ midX ≤ Z.max x1 x2) as Hmid by (unfold midX; lia).
  assert (∀ g y x ch, ¬ (Z.of_nat r = y ∧ Z.of_nat c = x) →
            cell_at g r c = cell_at grid r c →
            cell_at (safeWrite g y x ch) r c = cell_at grid r c) as Hwrite.
  { intros g y x ch Hne <-. apply safeWrite_other. lia. }
  assert (∀ g lo hi (y : Z → Z) (x : Z → Z) ch,
            (∀ k, lo ≤ k < hi → ¬ (Z.of_nat r = y k ∧ Z.of_nat c = x k)) →
            cell_at g r c = cell_at grid r c →
            cell_at (for_range lo hi (λ k g, safeWrite g (y k) (x k) ch) g) r c
            = cell_at grid r c) as Hloop.
  { intros g lo hi y x ch Hne Hg.
    apply (for_range_invariant (λ g, cell_at g r c = cell_at grid r c)); [|done].
    intros k g' Hk Hg'. apply Hwrite; [by apply Hne|done]. }
  assert (cell_at
            (for_range (Z.min midX x2 + 1) (Z.max midX x2)
               (λ x g, safeWrite g y2 x HLINE)
               (for_range (Z.min y1 y2 + 1) (Z.max y1 y2)
                  (λ y g, safeWrite g y midX VLINE)
                  (for_range (Z.min x1 midX + 1) (Z.max x1 midX)
                     (λ x g, safeWrite g y1 x HLINE) grid))) r c
          = cell_at grid r c) as Hsegments.
  { apply (Hloop _ _ _ (λ _, y2) (λ x, x)); [intros k Hk; lia|].
    apply (Hloop _ _ _ (λ y, y) (λ _, midX)); [intros k Hk; lia|].
    apply (Hloop _ _ _ (λ _, y1) (λ x, x)); [intros k Hk; lia|]. done. }
  destruct showArrow;
    repeat match goal with
           | |- context [if ?b then _ else _] => destruct b eqn:?
           end;
    repeat match goal with
           | H : (_ <? _) = true |- _ => apply Z.ltb_lt in H
           | H : (_ <? _) = false |- _ => apply Z.ltb_ge in H
           | H : negb _ = true |- _ => apply negb_true_iff in H
           | H : negb _ = false |- _ => apply negb_false_iff in H
           | H : (_ =? _) = true |- _ => apply Z.eqb_eq in H
           | H : (_ =? _) = false |- _ => apply Z.eqb_neq in H
           | H : _ && _ = true |- _ => apply andb_true_iff in H as [? ?]
           end;
    repeat (apply Hwrite; [lia|]); exact Hsegments.
Qed.

End renderer_shape_facts.

(** X23: when [renderAscii] draws a grid, the grid is a rectangle whose
    size depends on the bounding box of the tiles of the first view only:
    [(maxY - minY + 5) * 3] rows of [(maxX - minX + 5) * 16] cells each,
    so at least 15 rows of 80 cells.  Drawing the connectors and the
    nodes changes neither the number of rows nor the length of a row. *)
Theorem renderAscii_grid_shape (model : Model) (view : View) (grid : Grid) :
  m_views model !! 0%nat = Some view →
  AsciiRenderer.renderAscii_grid model = Some grid →
  row_lengths grid
  = replicate
      (Z.to_nat ((AsciiRenderer.list_max (tile_ys view)
                  - AsciiRenderer.list_min (tile_ys view) + 5) * 3))
      (Z.to_nat ((AsciiRenderer.list_max (tile_xs view)
                  - AsciiRenderer.list_min (tile_xs view) + 5) * 16))
  ∧ (15 ≤ length grid)%nat
  ∧ Forall (λ row, (80 ≤ length row)%nat) grid.
Proof.
  intros Hview Hgrid.
  destruct (renderAscii_grid_row_lengths model view grid Hview Hgrid)
    as [Hitems Hshape].
  destruct (view_items view) as [|viewItem rest] eqn:Hview_items; [done|].
  assert (AsciiRenderer.list_min (tile_ys view) ≤ AsciiRenderer.list_max (tile_ys view))
    as Hys.
  { transitivity (co_y (vi_tile viewItem)).
    - apply list_min_le. unfold tile_ys. rewrite Hview_items. apply list_elem_of_here.
    - apply list_max_ge. unfold tile_ys. rewrite Hview_items. apply list_elem_of_here. }
  assert (AsciiRenderer.list_min (tile_xs view) ≤ AsciiRenderer.list_max (tile_xs view))
    as Hxs.
  { transitivity (co_x (vi_tile viewItem)).
    - apply list_min_le. unfold tile_xs. rewrite Hview_items. apply list_elem_of_here.
    - apply list_max_ge. unfold tile_xs. rewrite Hview_items. apply list_elem_of_here. }
  split; [done|]. split.
  - apply (f_equal length) in Hshape. unfold row_lengths in Hshape.
    rewrite length_fmap, length_replicate in Hshape. lia.
  - apply Forall_fmap with (f := length) (P := λ n, (80 ≤ n)%nat).
    fold (row_lengths grid). rewrite Hshape. apply Forall_replicate. lia.
Qed.

Lemma renderAscii_grid_shape_witness :
  row_lengths cornerGrid
  = replicate
      (Z.to_nat ((AsciiRenderer.list_max (tile_ys (cornerView [cornerConnector]))
                  - AsciiRenderer.list_min (tile_ys (cornerView [cornerConnector])) + 5) * 3))
      (Z.to_nat ((AsciiRenderer.list_max (tile_xs (cornerView [cornerConnector]))
                  - AsciiRenderer.list_min (tile_xs (cornerView [cornerConnector])) + 5) * 16))
  ∧ (15 ≤ length cornerGrid)%nat
  ∧ Forall (λ row, (80 ≤ length row)%nat) cornerGrid.
Proof.
  apply (renderAscii_grid_shape (cornerModel [cornerConnector])
           (cornerView [cornerConnector]) cornerGrid).
  - reflexivity.
  - vm_compute. reflexivity.
Defined.

(** X24: [drawLine] writes inside the bounding box of its two end points
    only, widened by one column on each side, and there only on the row
    of the start point, on the row of the end point and on the column
    half way between them: every other cell of the grid is left as it
    is. *)
Theorem drawLine_stays_in_box
    (grid : Grid) (x1 y1 x2 y2 : Z) (showArrow : bool) (r c : nat) :
  cell_at (AsciiRenderer.drawLine grid x1 y1 x2 y2 showArrow) r c ≠ cell_at grid r c →
  Z.min y1 y2 ≤ Z.of_nat r ≤ Z.max y1 y2
  ∧ Z.min x1 x2 - 1 ≤ Z.of_nat c ≤ Z.max x1 x2 + 1
  ∧ (Z.of_nat r = y1 ∨ Z.of_nat r = y2 ∨ Z.of_nat c = x1 + (x2 - x1) / 2).
Proof.
  intros Hchanged.
  destruct (decide (Z.min y1 y2 ≤ Z.of_nat r ≤ Z.max y1 y2
                    ∧ Z.min x1 x2 - 1 ≤ Z.of_nat c ≤ Z.max x1 x2 + 1
                    ∧ (Z.of_nat r = y1 ∨ Z.of_nat r = y2
                       ∨ Z.of_nat c = x1 + (x2 - x1) / 2))) as [Hin|Hout]; [done|].
  destruct Hchanged. by apply drawLine_other.
Qed.

Lemma drawLine_stays_in_box_witness :
  Z.min 1 1 ≤ Z.of_nat 1 ≤ Z.max 1 1
  ∧ Z.min 0 4 - 1 ≤ Z.of_nat 1 ≤ Z.max 0 4 + 1
  ∧ (Z.of_nat 1 = 1 ∨ Z.of_nat 1 = 1 ∨ Z.of_nat 1 = 0 + (4 - 0) / 2).
Proof.
  apply (drawLine_stays_in_box (blankGrid 3 5) 0 1 4 1 false 1%nat 1%nat).
  vm_compute. discriminate.
Defined.

(** ** The box of a node *)

Section renderer_box_facts.

Import AsciiRenderer.

Lemma cell_at_rectangle grid rows cols r c :
  row_lengths grid = replicate rows cols →
  (r < rows)%nat → (c < cols)%nat → is_Some (cell_at grid r c).
Proof.
  intros Hshape Hr Hc. unfold cell_at, row_lengths in *.
  assert ((length <$> grid) !! r = Some cols) as Hrow
    by (rewrite Hshape; by apply lookup_replicate_2).
  rewrite list_lookup_fmap in Hrow.
  destruct (grid !! r) as [rowR|]; [|done]. simpl in *.
  injection Hrow as Hrow. apply lookup_lt_is_Some. lia.
Qed.

Lemma safeWrite_hit grid y x ch r c ch0 :
  y = Z.of_nat r → x = Z.of_nat c →
  cell_at grid r c = Some ch0 → overwritable ch0 →
  cell_at (safeWrite grid y x ch) r c = Some ch.
Proof. intros -> ->. apply safeWrite_overwrites. Qed.

Lemma for_range_other lo hi (y x : Z → Z) (ch : Z → char) grid r c :
  (∀ k, lo ≤ k < hi → Z.of_nat r ≠ y k ∨ Z.of_nat c ≠ x k) →
  cell_at (for_range lo hi (λ k g, safeWrite g (y k) (x k) (ch k)) grid) r c
  = cell_at grid r c.
Proof.
  intros Hother.
  apply (for_range_invariant (λ g, cell_at g r c = cell_at grid r c)); [|done].
  intros k g Hk <-. apply safeWrite_other. by apply Hother.
Qed.

Lemma for_range_split lo mid hi body grid :
  lo ≤ mid < hi →
  for_range lo hi body grid
  = for_range (mid + 1) hi body (body mid (for_range lo mid body grid)).
Proof.
  intros Hmid. unfold for_range.
  replace (hi - lo) with ((mid - lo) + (1 + (hi - (mid + 1)))) by lia.
  rewrite seqZ_app by lia. rewrite foldl_app.
  replace (lo + (mid - lo)) with mid by lia.
  rewrite seqZ_app by lia. rewrite foldl_app.
  replace (seqZ mid 1) with [mid] by (by rewrite seqZ_cons by lia).
  done.
Qed.

Lemma for_range_hit lo hi (y x : Z → Z) (ch : Z → char) grid r c k0 ch0 :
  lo ≤ k0 < hi →
  y k0 = Z.of_nat r → x k0 = Z.of_nat c →
  (∀ k, lo ≤ k < hi → k ≠ k0 → Z.of_nat r ≠ y k ∨ Z.of_nat c ≠ x k) →
  cell_at grid r c = Some ch0 → overwritable ch0 →
  cell_at (for_range lo hi (λ k g, safeWrite g (y k) (x k) (ch k)) grid) r c
  = Some (ch k0).
Proof.
  intros Hk0 Hy Hx Hother Hcell Hover.
  rewrite (for_range_split lo k0 hi) by done.
  rewrite for_range_other by (intros k Hk; apply Hother; lia).
  apply (safeWrite_hit _ _ _ _ _ _ ch0); [done|done| |done].
  rewrite for_range_other by (intros k Hk; apply Hother; lia). done.
Qed.

Lemma padded_name_text (name icon : list char) :
  padEnd (Z.of_nat (box_width name icon) - 2)
    (padStart ((Z.of_nat (box_width name icon) - 2 + Z.of_nat (length name)) / 2) name)
  = box_text name icon.
Proof.
  unfold padEnd, padStart, box_text. cbv zeta.
  assert (length name + 4 ≤ box_width name icon)%nat as Hwidth
    by (unfold box_width; lia).
  generalize dependent (box_width name icon). intros width Hwidth.
  assert (Z.to_nat ((Z.of_nat width - 2 + Z.of_nat (length name)) / 2
                    - Z.of_nat (length name))
          = ((width - 2 - length name) / 2)%nat) as ->.
  { apply Nat2Z.inj. rewrite Nat2Z.inj_div.
    replace (Z.of_nat width - 2 + Z.of_nat (length name))
      with (Z.of_nat (width - 2 - length name) + Z.of_nat (length name) * 2) by lia.
    rewrite Z.div_add by lia.
    pose proof (Z.div_pos (Z.of_nat (width - 2 - length name)) 2
                  ltac:(lia) ltac:(lia)).
    lia. }
  rewrite length_app, length_replicate. rewrite <- app_assoc.
  do 3 f_equal.
  pose proof (Nat.Div0.div_le_upper_bound (width - 2 - length name) 2
                (width - 2 - length name) ltac:(lia)).
  lia.
Qed.

Lemma box_text_length name icon :
  length (box_text name icon) = (box_width name icon - 2)%nat.
Proof.
  unfold box_text. cbv zeta. rewrite !length_app, !length_replicate.
  assert (length name + 4 ≤ box_width name icon)%nat as Hwidth
    by (unfold box_width; lia).
  pose proof (Nat.Div0.div_le_upper_bound (box_width name icon - 2 - length name) 2
                (box_width name icon - 2 - length name) ltac:(lia)).
  lia.
Qed.

(** [drawNodeBox] on a rectangular grid, for a box that lies within the
    grid: the clamping and the guard do nothing, and the writes are those
    of the three rows of the box. *)
Lemma drawNodeBox_inside grid rows cols (top left : nat) name icon :
  row_lengths grid = replicate rows cols →
  (top + 2 < rows)%nat →
  (left + box_width name icon ≤ cols)%nat →
  let width := Z.of_nat (box_width name icon) in
  let startX := Z.of_nat left in
  let startY := Z.of_nat top in
  drawNodeBox grid (startX + width / 2) (startY + 1) name icon
  = safeWrite
      (for_range 1 (width - 1) (λ i g, safeWrite g (startY + 2) (startX + i) HLINE)
         (safeWrite
            (safeWrite
               (for_range 0 (width - 2)
                  (λ i g, safeWrite g (startY + 1) (startX + 1 + i)
                            (default SPACE (box_text name icon !! Z.to_nat i)))
                  (safeWrite
                     (safeWrite
                        (for_range 1 (width - 1)
                           (λ i g, safeWrite g startY (startX + i) HLINE)
                           (safeWrite grid startY startX CORNER_DR))
                        startY (startX + width - 1) CORNER_DL)
                     (startY + 1) startX VLINE))
               (startY + 1) (startX + width - 1) VLINE)
            (startY + 2) startX CORNER_UR))
      (startY + 2) (startX + width - 1) CORNER_UL.
Proof.
  intros Hshape Hrows Hcols width startX startY. unfold drawNodeBox. cbv zeta.
  assert (Z.max (Z.of_nat (length name)) (Z.of_nat (length icon)) + 4 = width) as ->
    by (unfold width, box_width; lia).
  assert (0 ≤ startX ∧ 0 ≤ startY ∧ startY + 2 < Z.of_nat rows
          ∧ startX + width ≤ Z.of_nat cols ∧ 4 ≤ width) as (? & ? & ? & ? & ?)
    by (unfold startX, startY, width, box_width in *; lia).
  replace (Z.max 0 (startX + width / 2 - width / 2)) with startX by lia.
  replace (Z.max 0 (startY + 1 - 1)) with startY by lia.
  assert (length grid = rows) as Hlength.
  { apply (f_equal length) in Hshape. unfold row_lengths in Hshape.
    by rewrite length_fmap, length_replicate in Hshape. }
  assert (length (row grid 0) = cols) as Hrow0.
  { unfold row. change (Z.to_nat 0) with 0%nat.
    assert ((length <$> grid) !! 0%nat = Some cols) as Hrow
      by (unfold row_lengths in Hshape; rewrite Hshape;
          apply lookup_replicate_2; lia).
    rewrite list_lookup_fmap in Hrow.
    destruct (grid !! 0%nat) as [row0|]; [|done]. by injection Hrow. }
  rewrite Hlength, Hrow0.
  replace (Z.of_nat rows <=? startY) with false by (symmetry; apply Z.leb_gt; lia).
  replace (Z.of_nat cols <=? startX) with false by (symmetry; apply Z.leb_gt; lia).
  cbn [orb]. pose proof (padded_name_text name icon) as Hpad.
  change (Z.of_nat (box_width name icon)) with width in Hpad.
  rewrite Hpad, box_text_length.
  replace (Z.of_nat (box_width name icon - 2)) with (width - 2)
    by (unfold width, box_width; lia).
  done.
Qed.

Ltac skip_writes :=
  repeat first
    [ rewrite safeWrite_other by lia
    | rewrite for_range_other by (intros; lia) ].

Lemma drawNodeBox_cells grid rows cols (top left : nat) name icon :
  row_lengths grid = replicate rows cols →
  (top + 2 < rows)%nat →
  (left + box_width name icon ≤ cols)%nat →
  (∀ r c ch, (top ≤ r ≤ top + 2)%nat →
             (left ≤ c < left + box_width name icon)%nat →
             cell_at grid r c = Some ch → overwritable ch) →
  let width := box_width name icon in
  let grid' := drawNodeBox grid (Z.of_nat left + Z.of_nat width / 2)
                 (Z.of_nat top + 1) name icon in
  cell_at grid' top left = Some CORNER_DR
  ∧ cell_at grid' top (left + width - 1) = Some CORNER_DL
  ∧ cell_at grid' (top + 2) left = Some CORNER_UR
  ∧ cell_at grid' (top + 2) (left + width - 1) = Some CORNER_UL
  ∧ (∀ j, (1 ≤ j < width - 1)%nat →
          cell_at grid' top (left + j) = Some HLINE
          ∧ cell_at grid' (top + 2) (left + j) = Some HLINE)
  ∧ cell_at grid' (top + 1) left = Some VLINE
  ∧ cell_at grid' (top + 1) (left + width - 1) = Some VLINE
  ∧ (∀ j ch, box_text name icon !! j = Some ch →
             cell_at grid' (top + 1) (left + 1 + j) = Some ch)
  ∧ (∀ r c, ¬ ((top ≤ r ≤ top + 2)%nat ∧ (left ≤ c < left + width)%nat) →
            cell_at grid' r c = cell_at grid r c).
Proof.
  intros Hshape Hrows Hcols Hblank width grid'. subst grid' width.
  rewrite (drawNodeBox_inside grid rows cols top left name icon Hshape Hrows Hcols).
  cbv zeta.
  assert (4 ≤ box_width name icon)%nat as Hwidth by (unfold box_width; lia).
  assert (∀ j, j < length (box_text name icon) → j < box_width name icon - 2)%nat
    as Htext by (intros j; rewrite box_text_length; lia).
  set (width := box_width name icon) in *.
  assert (∀ r c, (top ≤ r ≤ top + 2)%nat → (left ≤ c < left + width)%nat →
            ∃ ch0, cell_at grid r c = Some ch0 ∧ overwritable ch0) as Hcell.
  { intros r c Hr Hc.
    destruct (cell_at_rectangle grid rows cols r c Hshape) as [ch0 Hch0]; [lia..|].
    exists ch0. split; [done|]. by apply (Hblank r c). }
  clearbody width. clear Hblank Hshape.
  split_and!.
  - destruct (Hcell top left) as (ch0 & Hch0 & Hover); [lia..|].
    skip_writes. by apply (safeWrite_hit _ _ _ _ _ _ ch0); [lia|lia| |].
  - destruct (Hcell top (left + width - 1)%nat) as (ch0 & Hch0 & Hover); [lia..|].
    skip_writes. apply (safeWrite_hit _ _ _ _ _ _ ch0); [lia|lia| |done].
    by skip_writes.
  - destruct (Hcell (top + 2)%nat left) as (ch0 & Hch0 & Hover); [lia..|].
    skip_writes. apply (safeWrite_hit _ _ _ _ _ _ ch0); [lia|lia| |done].
    by skip_writes.
  - destruct (Hcell (top + 2)%nat (left + width - 1)%nat) as (ch0 & Hch0 & Hover);
      [lia..|].
    skip_writes. apply (safeWrite_hit _ _ _ _ _ _ ch0); [lia|lia| |done].
    by skip_writes.
  - intros j Hj. split.
    + destruct (Hcell top (left + j)%nat) as (ch0 & Hch0 & Hover); [lia..|].
      skip_writes.
      rewrite (for_range_hit 1 (Z.of_nat width - 1) (λ _, Z.of_nat top)
                 (λ i, Z.of_nat left + i) (λ _, HLINE) _ top (left + j)%nat
                 (Z.of_nat j) ch0); [done|lia|lia|lia|intros; lia| |done].
      by skip_writes.
    + destruct (Hcell (top + 2)%nat (left + j)%nat) as (ch0 & Hch0 & Hover); [lia..|].
      skip_writes.
      rewrite (for_range_hit 1 (Z.of_nat width - 1) (λ _, Z.of_nat top + 2)
                 (λ i, Z.of_nat left + i) (λ _, HLINE) _ (top + 2)%nat (left + j)%nat
                 (Z.of_nat j) ch0); [done|lia|lia|lia|intros; lia| |done].
      by skip_writes.
  - destruct (Hcell (top + 1)%nat left) as (ch0 & Hch0 & Hover); [lia..|].
    skip_writes. apply (safeWrite_hit _ _ _ _ _ _ ch0); [lia|lia| |done].
    by skip_writes.
  - destruct (Hcell (top + 1)%nat (left + width - 1)%nat) as (ch0 & Hch0 & Hover);
      [lia..|].
    skip_writes. apply (safeWrite_hit _ _ _ _ _ _ ch0); [lia|lia| |done].
    by skip_writes.
  - intros j ch Hj.
    assert (j < width - 2)%nat as Hlt
      by (apply Htext; by eapply lookup_lt_Some).
    destruct (Hcell (top + 1)%nat (left + 1 + j)%nat) as (ch0 & Hch0 & Hover);
      [lia..|].
    skip_writes.
    rewrite (for_range_hit 0 (Z.of_nat width - 2) (λ _, Z.of_nat top + 1)
               (λ i, Z.of_nat left + 1 + i)
               (λ i, default SPACE (box_text name icon !! Z.to_nat i))
               _ (top + 1)%nat (left + 1 + j)%nat (Z.of_nat j) ch0);
      [by rewrite Nat2Z.id, Hj|lia|lia|lia|intros; lia| |done].
    by skip_writes.
  - intros r c Hout. by skip_writes.
Qed.

Lemma blankGrid_overwritable rows cols r c ch :
  cell_at (blankGrid rows cols) r c = Some ch → overwritable ch.
Proof.
  unfold cell_at, blankGrid. intros Hcell.
  destruct (replicate rows (replicate cols SPACE) !! r) as [rowR|] eqn:Hrow; [|done].
  apply lookup_replicate in Hrow as [-> _]. simpl in Hcell.
  apply lookup_replicate in Hcell as [-> _]. by left.
Qed.

Lemma code_units_length s : length (code_units s) = String.length s.
Proof.
  unfold code_units. rewrite length_map.
  induction s as [|a s IH]; [done|]. simpl. by rewrite IH.
Qed.

(** The box of a view item of the first view lies within the grid that
    [renderAscii] allocates. *)
Lemma node_box_bounds model view grid viewItem (name icon : string) :
  m_views model !! 0%nat = Some view →
  renderAscii_grid model = Some grid →
  viewItem ∈ view_items view →
  let center := toCharCoords (list_min (tile_xs view) - padding)
                  (list_min (tile_ys view) - padding) (vi_tile viewItem) in
  let width := box_width (code_units (JS.slice0 12 name))
                 (code_units (JS.slice0 10 icon)) in
  ∃ top left : nat,
    center.1 = Z.of_nat left + Z.of_nat width / 2
    ∧ center.2 = Z.of_nat top + 1
    ∧ (top + 2 < length grid)%nat
    ∧ Forall (λ row, (left + width ≤ length row)%nat) grid.
Proof.
  intros Hview Hgrid HviewItem center width.
  destruct (renderAscii_grid_row_lengths model view grid Hview Hgrid)
    as [_ Hshape].
  assert (list_min (tile_xs view) ≤ co_x (vi_tile viewItem) ≤ list_max (tile_xs view))
    as Hx.
  { split; [apply list_min_le|apply list_max_ge]; unfold tile_xs;
      apply list_elem_of_fmap; exists (vi_tile viewItem); (split; [done|]);
      apply list_elem_of_fmap; by exists viewItem. }
  assert (list_min (tile_ys view) ≤ co_y (vi_tile viewItem) ≤ list_max (tile_ys view))
    as Hy.
  { split; [apply list_min_le|apply list_max_ge]; unfold tile_ys;
      apply list_elem_of_fmap; exists (vi_tile viewItem); (split; [done|]);
      apply list_elem_of_fmap; by exists viewItem. }
  assert (4 ≤ width ≤ 16)%nat as Hwidth.
  { unfold width, box_width. rewrite !code_units_length.
    pose proof (slice0_length 12 name). pose proof (slice0_length 10 icon). lia. }
  clearbody width.
  subst center. unfold toCharCoords, padding, cellWidth, cellHeight. cbn [fst snd].
  set (minX := list_min (tile_xs view)) in *.
  set (maxX := list_max (tile_xs view)) in *.
  set (minY := list_min (tile_ys view)) in *.
  set (maxY := list_max (tile_ys view)) in *.
  clearbody minX maxX minY maxY.
  change (16 / 2) with 8. change (3 / 2) with 1.
  assert (2 ≤ Z.of_nat width / 2 ≤ 8) as Hhalf
    by (split; [apply Z.div_le_lower_bound|apply Z.div_le_upper_bound]; lia).
  exists (Z.to_nat ((co_y (vi_tile viewItem) - (minY - 2)) * 3)),
         (Z.to_nat ((co_x (vi_tile viewItem) - (minX - 2)) * 16 + 8
                    - Z.of_nat width / 2)).
  split_and!.
  - lia.
  - lia.
  - apply (f_equal length) in Hshape. unfold row_lengths in Hshape.
    rewrite length_fmap, length_replicate in Hshape. lia.
  - apply Forall_fmap with (f := length) (P := λ n, (_ + width ≤ n)%nat).
    fold (row_lengths grid). rewrite Hshape. apply Forall_replicate. lia.
Qed.

End renderer_box_facts.

(** X25: on a rectangular grid, [drawNodeBox] for a box that lies within
    the grid and covers only cells that [safeWrite] may replace draws the
    whole box: the four corners, the two horizontal edges, the two sides,
    and between the sides the name, centred with the odd blank on the
    right.  No cell outside the three rows and [width] columns of the box
    is changed. *)
Theorem drawNodeBox_draws_box
    (grid : Grid) (rows cols top left : nat) (name icon : list char) :
  row_lengths grid = replicate rows cols →
  (top + 2 < rows)%nat →
  (left + box_width name icon ≤ cols)%nat →
  (∀ r c ch, (top ≤ r ≤ top + 2)%nat →
             (left ≤ c < left + box_width name icon)%nat →
             cell_at grid r c = Some ch → overwritable ch) →
  let width := box_width name icon in
  let grid' := AsciiRenderer.drawNodeBox grid (Z.of_nat left + Z.of_nat width / 2)
                 (Z.of_nat top + 1) name icon in
  cell_at grid' top left = Some AsciiRenderer.CORNER_DR
  ∧ cell_at grid' top (left + width - 1) = Some AsciiRenderer.CORNER_DL
  ∧ cell_at grid' (top + 2) left = Some AsciiRenderer.CORNER_UR
  ∧ cell_at grid' (top + 2) (left + width - 1) = Some AsciiRenderer.CORNER_UL
  ∧ (∀ j, (1 ≤ j < width - 1)%nat →
          cell_at grid' top (left + j) = Some AsciiRenderer.HLINE
          ∧ cell_at grid' (top + 2) (left + j) = Some AsciiRenderer.HLINE)
  ∧ cell_at grid' (top + 1) left = Some AsciiRenderer.VLINE
  ∧ cell_at grid' (top + 1) (left + width - 1) = Some AsciiRenderer.VLINE
  ∧ (∀ j ch, box_text name icon !! j = Some ch →
             cell_at grid' (top + 1) (left + 1 + j) = Some ch)
  ∧ (∀ r c, ¬ ((top ≤ r ≤ top + 2)%nat ∧ (left ≤ c < left + width)%nat) →
            cell_at grid' r c = cell_at grid r c).
Proof. apply drawNodeBox_cells. Qed.

Lemma drawNodeBox_draws_box_witness :
  let width := box_width (AsciiRenderer.code_units "API") [] in
  let grid' := AsciiRenderer.drawNodeBox (blankGrid 5 20)
                 (Z.of_nat 2 + Z.of_nat width / 2) (Z.of_nat 1 + 1)
                 (AsciiRenderer.code_units "API") [] in
  cell_at grid' 1 2 = Some AsciiRenderer.CORNER_DR
  ∧ cell_at grid' 1 (2 + width - 1) = Some AsciiRenderer.CORNER_DL
  ∧ cell_at grid' (1 + 2) 2 = Some AsciiRenderer.CORNER_UR
  ∧ cell_at grid' (1 + 2) (2 + width - 1) = Some AsciiRenderer.CORNER_UL
  ∧ (∀ j, (1 ≤ j < width - 1)%nat →
          cell_at grid' 1 (2 + j) = Some AsciiRenderer.HLINE
          ∧ cell_at grid' (1 + 2) (2 + j) = Some AsciiRenderer.HLINE)
  ∧ cell_at grid' (1 + 1) 2 = Some AsciiRenderer.VLINE
  ∧ cell_at grid' (1 + 1) (2 + width - 1) = Some AsciiRenderer.VLINE
  ∧ (∀ j ch, box_text (AsciiRenderer.code_units "API") [] !! j = Some ch →
             cell_at grid' (1 + 1) (2 + 1 + j) = Some ch)
  ∧ (∀ r c, ¬ ((1 ≤ r ≤ 1 + 2)%nat ∧ (2 ≤ c < 2 + width)%nat) →
            cell_at grid' r c = cell_at (blankGrid 5 20) r c).
Proof.
  apply (drawNodeBox_draws_box (blankGrid 5 20) 5 20 1 2
           (AsciiRenderer.code_units "API") []).
  - reflexivity.
  - lia.
  - vm_compute. lia.
  - intros r c ch _ _. apply blankGrid_overwritable.
Defined.

(** X26: in the grid that [renderAscii] allocates, the box of every item
    of the first view lies within the grid, whatever the name and the icon
    of the item: the centre computed by [toCharCoords] is the centre of a
    box whose three rows and [width] columns all exist, so that
    [drawNodeBox] neither clamps the box to the edge nor returns early. *)
Theorem node_box_inside_grid
    (model : Model) (view : View) (grid : Grid) (viewItem : ViewItem)
    (name icon : string) :
  m_views model !! 0%nat = Some view →
  AsciiRenderer.renderAscii_grid model = Some grid →
  viewItem ∈ view_items view →
  let center :=
    AsciiRenderer.toCharCoords
      (AsciiRenderer.list_min (tile_xs view) - AsciiRenderer.padding)
      (AsciiRenderer.list_min (tile_ys view) - AsciiRenderer.padding)
      (vi_tile viewItem) in
  let width := box_width (AsciiRenderer.code_units (JS.slice0 12 name))
                 (AsciiRenderer.code_units (JS.slice0 10 icon)) in
  ∃ top left : nat,
    center.1 = Z.of_nat left + Z.of_nat width / 2
    ∧ center.2 = Z.of_nat top + 1
    ∧ (top + 2 < length grid)%nat
    ∧ Forall (λ row, (left + width ≤ length row)%nat) grid.
Proof. apply node_box_bounds. Qed.

Lemma node_box_inside_grid_witness :
  let center :=
    AsciiRenderer.toCharCoords
      (AsciiRenderer.list_min (tile_xs (cornerView [cornerConnector]))
       - AsciiRenderer.padding)
      (AsciiRenderer.list_min (tile_ys (cornerView [cornerConnector]))
       - AsciiRenderer.padding)
      (vi_tile (example_viewItem "B" 2 1)) in
  let width := box_width (AsciiRenderer.code_units (JS.slice0 12 "B"))
                 (AsciiRenderer.code_units (JS.slice0 10 EmptyString)) in
  ∃ top left : nat,
    center.1 = Z.of_nat left + Z.of_nat width / 2
    ∧ center.2 = Z.of_nat top + 1
    ∧ (top + 2 < length cornerGrid)%nat
    ∧ Forall (λ row, (left + width ≤ length row)%nat) cornerGrid.
Proof.
  apply (node_box_inside_grid (cornerModel [cornerConnector])
           (cornerView [cornerConnector]) cornerGrid (example_viewItem "B" 2 1)
           "B" EmptyString).
  - reflexivity.
  - vm_compute. reflexivity.
  - unfold cornerView. cbn [view_items]. set_solver.
Defined.

(** ** The tools *)

Section tool_facts.

Import DiagramState FormatConverter.

Lemma keeps_source_ret {A} (a : A) : keeps_source (ret a).
Proof. by intros w a' w' [= _ <-]. Qed.

Lemma keeps_source_uuidv4 : keeps_source uuidv4.
Proof. by intros w a w' [= _ <-]. Qed.

Lemma keeps_source_bind {A B} (c : M A) (k : A → M B) :
  keeps_source c → (∀ a, keeps_source (k a)) → keeps_source (bind c k).
Proof.
  intros Hc Hk w b w'. unfold bind.
  destruct (c w) as [[a w1]|] eqn:Hrun; [|done].
  intros Hrun'. rewrite (Hk a w1 b w' Hrun'). by apply (Hc w a).
Qed.

Lemma keeps_source_imapM {A B} (f : nat → A → M B) (l : list A) index :
  (∀ i a, keeps_source (f i a)) → keeps_source (imapM f index l).
Proof.
  intros Hf. revert index. induction l as [|a l IH]; intros index.
  - apply keeps_source_ret.
  - cbn [imapM]. apply keeps_source_bind; [apply Hf|]. intros b.
    apply keeps_source_bind; [apply IH|]. intros bs. apply keeps_source_ret.
Qed.

Lemma keeps_source_toFull c : keeps_source (toFull c).
Proof.
  unfold toFull. apply keeps_source_bind; [|intros; apply keeps_source_ret].
  apply keeps_source_imapM. intros viewIndex [positions connections].
  unfold toFull_view. apply keeps_source_bind; [|intros; apply keeps_source_ret].
  apply keeps_source_imapM. intros connIndex [fromIndex toIndex].
  unfold toFull_connector.
  apply keeps_source_bind; [apply keeps_source_uuidv4|]. intros id1.
  apply keeps_source_bind; [apply keeps_source_uuidv4|]. intros id2.
  apply keeps_source_ret.
Qed.

(** Loading never throws, and the state it constructs has a view and the
    items of the diagram. *)
Lemma loadDiagram_run diagram w :
  ∃ m w1,
    loadDiagram diagram w = Some (length (objects w), constructed m w1)
    ∧ objects w1 = objects w
    ∧ uuid_source w1 = uuid_source w
    ∧ m_views m ≠ []
    ∧ m_items m = match diagram with
                  | FullD fullModel => m_items fullModel
                  | CompactD c => imap toFull_item (c_i c)
                  end
    ∧ match diagram with
      | FullD fullModel => m_views fullModel ≠ [] → m = fullModel ∧ w1 = w
      | CompactD _ => True
      end.
Proof.
  unfold loadDiagram.
  assert (∀ m0 w0, objects w0 = objects w → uuid_source w0 = uuid_source w →
            normalize diagram w = Some (m0, w0) →
            ∃ m w1, new (Some diagram) w
                    = Some (length (objects w), constructed m w1)
                    ∧ objects w1 = objects w
                    ∧ uuid_source w1 = uuid_source w
                    ∧ m_views m ≠ [] ∧ m_items m = m_items m0
                    ∧ (m_views m0 ≠ [] → m = m0 ∧ w1 = w0)) as Hnew.
  { intros m0 w0 Hobj Hsource Hnormalize. unfold new.
    rewrite (bind_Some _ _ w m0 w0 Hnormalize).
    destruct (m_views m0) as [|view views] eqn:Hviews.
    - exists (set_m_views [default_view (next_uuid w0)] m0), (tick w0).
      split_and!; try done.
      unfold bind, createDefaultView, uuidv4, ret, alloc, constructed.
      cbn. by rewrite Hobj.
    - exists m0, w0. split_and!; try done; [|by rewrite Hviews].
      unfold bind, ret, alloc, constructed. cbn. by rewrite Hobj. }
  destruct diagram as [fullModel|c].
  - destruct (Hnew fullModel w eq_refl eq_refl eq_refl)
      as (m & w1 & Hrun & Hobj & Hsource & Hne & Hitems & Hsame).
    by exists m, w1.
  - destruct (toFull_run c w) as (m0 & w0 & Hrun0 & Hobj0 & _ & Hitems0 & _).
    pose proof (keeps_source_toFull c w m0 w0 Hrun0) as Hsource0.
    destruct (Hnew m0 w0 Hobj0 Hsource0 Hrun0)
      as (m & w1 & Hrun & Hobj & Hsource & Hne & Hitems & _).
    exists m, w1. split_and!; try done. by rewrite Hitems.
Qed.

(** Exporting the state that a mutation constructed. *)
Lemma toJSON_constructed format m m' w0 json :
  convertToFormat m' format = Some json →
  call (length (objects (constructed m w0))) (toJSON format)
    (constructed m' (constructed m w0))
  = Some (json, constructed m' (constructed m w0)).
Proof.
  intros Hjson.
  rewrite (call_constructed _ m' (constructed m w0) (constructed m w0) eq_refl).
  unfold toJSON, lift. cbn [model]. by rewrite Hjson.
Qed.

Lemma convertToFormat_total m format : is_Some (convertToFormat m format).
Proof.
  destruct format; unfold convertToFormat; [by eexists|].
  destruct (toCompact_total m) as [c ->]. by eexists.
Qed.

Lemma find_item_compact (items : list (string * string * string)) id :
  list_find (λ i, mi_id i = id) (imap toFull_item items) = None
  ↔ ∀ k, (k < length items)%nat → id ≠ JS.template "item-" (Z.of_nat k).
Proof.
  rewrite list_find_None, Forall_lookup. split.
  - intros Hall k Hk Hid.
    destruct (lookup_lt_is_Some_2 (imap toFull_item items) k) as [item Hitem];
      [by rewrite length_imap|].
    apply (Hall k item Hitem). rewrite Hid.
    by apply (toFull_items_lookup items).
  - intros Hall k item Hitem Hid.
    apply (Hall k).
    + apply lookup_lt_Some in Hitem. by rewrite length_imap in Hitem.
    + rewrite <- Hid. by apply (toFull_items_lookup items).
Qed.

Lemma tool_updateNode_missing diagram params outputFormat w m w1 :
  loadDiagram diagram w = Some (length (objects w), constructed m w1) →
  objects w1 = objects w →
  list_find (λ i, mi_id i = updNode_nodeId params) (m_items m) = None →
  Tools.updateNode diagram params outputFormat w
  = Some (Tools.failure "Failed to update node"
            ("Node with ID " +:+ JS.quoted (updNode_nodeId params) +:+ " not found"),
          constructed m w1).
Proof.
  intros Hload Hobj Hfind. unfold Tools.updateNode.
  rewrite (bind_Some _ _ w _ _ Hload).
  rewrite (bind_Some (deref _) _ _ _ _ (deref_constructed m w1 w Hobj)).
  cbn [model]. by rewrite Hfind.
Qed.

Lemma tool_updateNode_found diagram params outputFormat w m w1 k existingNode :
  loadDiagram diagram w = Some (length (objects w), constructed m w1) →
  objects w1 = objects w →
  m_views m ≠ [] →
  list_find (λ i, mi_id i = updNode_nodeId params) (m_items m)
  = Some (k, existingNode) →
  ∃ json w',
    Tools.updateNode diagram params outputFormat w
    = Some ({| res_success := true; res_diagram := Some json; res_id := None;
               res_message :=
                 "Updated node " +:+ JS.quoted (mi_name existingNode) +:+ ": "
                 +:+ Tools.updates_text params;
               res_error := None; res_removedConnectors := None |}, w').
Proof.
  intros Hload Hobj Hne Hfind. unfold Tools.updateNode.
  rewrite (bind_Some _ _ w _ _ Hload).
  rewrite (bind_Some (deref _) _ _ _ _ (deref_constructed m w1 w Hobj)).
  cbn [model]. rewrite Hfind.
  rewrite (bind_Some (call _ (updateNode _)) _ _ _ _
             (eq_trans (call_constructed _ m w1 w Hobj)
                       (updateNode_run _ {| model := m; scene := INITIAL_SCENE |}
                          (constructed m w1) Hne))).
  destruct (convertToFormat_total
              (updateNode_recipe
                 (resolved_viewId None {| model := m; scene := INITIAL_SCENE |})
                 {| updNode_nodeId := updNode_nodeId params;
                    updNode_name := updNode_name params;
                    updNode_icon := updNode_icon params;
                    updNode_description := updNode_description params;
                    updNode_x := updNode_x params;
                    updNode_y := updNode_y params;
                    updNode_labelHeight := updNode_labelHeight params;
                    updNode_viewId := None |} m)
              (Tools.output_format outputFormat diagram)) as [json Hjson].
  rewrite (bind_Some _ _ _ _ _ (toJSON_constructed _ m _ w1 json Hjson)).
  by eexists _, _.
Qed.

Lemma tool_removeNode_missing diagram nodeId outputFormat w m w1 :
  loadDiagram diagram w = Some (length (objects w), constructed m w1) →
  objects w1 = objects w →
  list_find (λ i, mi_id i = nodeId) (m_items m) = None →
  Tools.removeNode diagram nodeId outputFormat w
  = Some (Tools.failure "Failed to remove node"
            ("Node with ID " +:+ JS.quoted nodeId +:+ " not found"),
          constructed m w1).
Proof.
  intros Hload Hobj Hfind. unfold Tools.removeNode.
  rewrite (bind_Some _ _ w _ _ Hload).
  rewrite (bind_Some (deref _) _ _ _ _ (deref_constructed m w1 w Hobj)).
  cbn [model]. by rewrite Hfind.
Qed.

Lemma resolved_viewId_primary m view :
  m_views m !! 0%nat = Some view →
  resolved_viewId None {| model := m; scene := INITIAL_SCENE |} = view_id view.
Proof.
  intros Hview. unfold resolved_viewId, primaryView, JS.or_string. cbn [model].
  by rewrite Hview.
Qed.

Lemma resolved_view_primary m view :
  m_views m !! 0%nat = Some view →
  resolved_view None {| model := m; scene := INITIAL_SCENE |} = Some (0%nat, view).
Proof.
  intros Hview. unfold resolved_view.
  rewrite (resolved_viewId_primary m view Hview). cbn [model].
  destruct (m_views m) as [|view0 views]; [done|].
  injection Hview as ->. cbn. by rewrite decide_True.
Qed.

Lemma tool_removeNode_found diagram nodeId outputFormat w m w1 k existingNode view :
  loadDiagram diagram w = Some (length (objects w), constructed m w1) →
  objects w1 = objects w →
  m_views m !! 0%nat = Some view →
  list_find (λ i, mi_id i = nodeId) (m_items m) = Some (k, existingNode) →
  ∃ json w',
    convertToFormat (removeNode_recipe nodeId (view_id view) m)
      (Tools.output_format outputFormat diagram) = Some json
    ∧ Tools.removeNode diagram nodeId outputFormat w
      = Some ({| res_success := true; res_diagram := Some json; res_id := None;
                 res_message := "Removed node " +:+ JS.quoted (mi_name existingNode);
                 res_error := None;
                 res_removedConnectors :=
                   Some (length (filter (references nodeId)
                                   (default [] (view_connectors view)))) |}, w').
Proof.
  intros Hload Hobj Hview Hfind.
  assert (m_views m ≠ []) as Hne by (intros Hnil; by rewrite Hnil in Hview).
  unfold Tools.removeNode.
  rewrite (bind_Some _ _ w _ _ Hload).
  rewrite (bind_Some (deref _) _ _ _ _ (deref_constructed m w1 w Hobj)).
  cbn [model]. rewrite Hfind.
  rewrite (bind_Some (lift _) _ (constructed m w1) view (constructed m w1))
    by (unfold lift, primaryView; cbn [model]; by rewrite Hview).
  rewrite (bind_Some (call _ (removeNode _ _)) _ _ _ _
             (eq_trans (call_constructed _ m w1 w Hobj)
                       (removeNode_run _ _ {| model := m; scene := INITIAL_SCENE |}
                          (constructed m w1) Hne))).
  rewrite (resolved_viewId_primary m view Hview). cbn [model].
  destruct (convertToFormat_total (removeNode_recipe nodeId (view_id view) m)
              (Tools.output_format outputFormat diagram)) as [json Hjson].
  rewrite (bind_Some _ _ _ _ _ (toJSON_constructed _ m _ w1 json Hjson)).
  by eexists _, _.
Qed.

Lemma tool_addNode_run diagram params outputFormat w m w1 :
  loadDiagram diagram w = Some (length (objects w), constructed m w1) →
  objects w1 = objects w →
  m_views m ≠ [] →
  ∃ json w',
    convertToFormat
      (addNode_recipe (next_uuid w1)
         (resolved_viewId None {| model := m; scene := INITIAL_SCENE |}) params m)
      (Tools.output_format outputFormat diagram) = Some json
    ∧ Tools.addNode diagram params outputFormat w
      = Some ({| res_success := true; res_diagram := Some json;
                 res_id := Some (next_uuid w1);
                 res_message :=
                   "Added node " +:+ JS.quoted (addNode_name params)
                   +:+ JS.template " at position (" (addNode_x params)
                   +:+ JS.template ", " (addNode_y params) +:+ ")";
                 res_error := None; res_removedConnectors := None |}, w').
Proof.
  intros Hload Hobj Hne. unfold Tools.addNode.
  rewrite (bind_Some _ _ w _ _ Hload).
  rewrite (bind_Some (call _ (addNode _)) _ _ _ _
             (eq_trans (call_constructed _ m w1 w Hobj)
                       (addNode_run _ {| model := m; scene := INITIAL_SCENE |}
                          (constructed m w1) Hne))).
  cbn [model addNode_viewId].
  change (next_uuid (constructed m w1)) with (next_uuid w1).
  set (m' := addNode_recipe (next_uuid w1)
               (resolved_viewId None {| model := m; scene := INITIAL_SCENE |})
               params m).
  change (addNode_recipe (next_uuid w1)
            (resolved_viewId None {| model := m; scene := INITIAL_SCENE |}) _ m)
    with m'.
  rewrite (bind_Some (deref _) _ _ _ _
             (deref_constructed m' (tick (constructed m w1)) (constructed m w1)
                eq_refl)).
  assert (last (m_items m')
          = Some {| mi_id := next_uuid w1; mi_name := addNode_name params;
                    mi_icon := addNode_icon params;
                    mi_description := addNode_description params |}) as Hlast.
  { unfold m', addNode_recipe. rewrite with_view_items. cbn [m_items set_m_items].
    apply last_snoc. }
  cbn [model]. rewrite Hlast.
  destruct (convertToFormat_total m' (Tools.output_format outputFormat diagram))
    as [json Hjson].
  assert (call (length (objects (constructed m w1)))
            (toJSON (Tools.output_format outputFormat diagram))
            (constructed m' (tick (constructed m w1)))
          = Some (json, constructed m' (tick (constructed m w1)))) as Hcall.
  { rewrite (call_constructed _ m' (tick (constructed m w1)) (constructed m w1)
               eq_refl).
    unfold toJSON, lift. cbn [model]. by rewrite Hjson. }
  rewrite (bind_Some _ _ _ _ _ Hcall).
  by eexists _, _.
Qed.

End tool_facts.

Section tool_connector_facts.

Import DiagramState FormatConverter.

Lemma filter_partition_length {A} (P : A → Prop) `{!∀ a, Decision (P a)} (l : list A) :
  length l = (length (filter (λ a, ¬ P a) l) + length (filter P l))%nat.
Proof.
  induction l as [|a l IH]; [done|].
  destruct (decide (P a)) as [Ha|Ha].
  - rewrite (filter_cons_True P) by done.
    rewrite (filter_cons_False (λ a, ¬ P a)) by tauto. simpl. lia.
  - rewrite (filter_cons_False P) by done.
    rewrite (filter_cons_True (λ a, ¬ P a)) by done. simpl. lia.
Qed.

Lemma tool_addConnector_noop diagram params outputFormat w m w1 view i j fromNode toNode :
  loadDiagram diagram w = Some (length (objects w), constructed m w1) →
  objects w1 = objects w →
  m_views m !! 0%nat = Some view →
  list_find (λ item, mi_id item = addConn_fromNodeId params) (m_items m)
  = Some (i, fromNode) →
  list_find (λ item, mi_id item = addConn_toNodeId params) (m_items m)
  = Some (j, toNode) →
  ¬ (placed (addConn_fromNodeId params) view
     ∧ placed (addConn_toNodeId params) view) →
  ∃ json w',
    convertToFormat m (Tools.output_format outputFormat diagram) = Some json
    ∧ Tools.addConnector diagram params outputFormat w
      = Some ({| res_success := true; res_diagram := Some json;
                 res_id := cn_id <$> last (default [] (view_connectors view));
                 res_message :=
                   "Added connector from " +:+ JS.quoted (mi_name fromNode)
                   +:+ " to " +:+ JS.quoted (mi_name toNode);
                 res_error := None; res_removedConnectors := None |}, w').
Proof.
  intros Hload Hobj Hview Hfrom Hto Hnot.
  assert (m_views m ≠ []) as Hne by (intros Hnil; by rewrite Hnil in Hview).
  unfold Tools.addConnector.
  rewrite (bind_Some (loadDiagram _) _ w _ _ Hload).
  rewrite (bind_Some (deref _) _ _ _ _ (deref_constructed m w1 w Hobj)).
  cbn [model]. rewrite Hfrom, Hto.
  set (params' := {| addConn_fromNodeId := addConn_fromNodeId params;
                     addConn_toNodeId := addConn_toNodeId params;
                     addConn_style := addConn_style params;
                     addConn_lineType := addConn_lineType params;
                     addConn_color := addConn_color params;
                     addConn_showArrow := addConn_showArrow params;
                     addConn_label := addConn_label params;
                     addConn_viewId := None |}).
  assert (call (length (objects w)) (addConnector params') (constructed m w1)
          = Some (length (objects (constructed m w1)),
                  constructed m (tick (constructed m w1)))) as Hcall.
  { rewrite (call_constructed _ m w1 w Hobj).
    apply (addConnector_noop params' {| model := m; scene := INITIAL_SCENE |});
      [done|].
    intros k view' Hresolved. cbn [params' addConn_viewId] in Hresolved.
    rewrite (resolved_view_primary m view Hview) in Hresolved.
    injection Hresolved as <- <-. cbn [params' addConn_fromNodeId addConn_toNodeId].
    apply not_and_l in Hnot. tauto. }
  rewrite (bind_Some _ _ _ _ _ Hcall).
  rewrite (bind_Some (deref _) _ _ _ _
             (deref_constructed m (tick (constructed m w1)) (constructed m w1) eq_refl)).
  rewrite (bind_Some (lift _) _ _ view (constructed m (tick (constructed m w1))))
    by (unfold lift, primaryView; cbn [model]; by rewrite Hview).
  destruct (convertToFormat_total m (Tools.output_format outputFormat diagram))
    as [json Hjson].
  assert (call (length (objects (constructed m w1)))
            (toJSON (Tools.output_format outputFormat diagram))
            (constructed m (tick (constructed m w1)))
          = Some (json, constructed m (tick (constructed m w1)))) as Hexport.
  { rewrite (call_constructed _ m (tick (constructed m w1)) (constructed m w1) eq_refl).
    unfold toJSON, lift. cbn [model]. by rewrite Hjson. }
  rewrite (bind_Some _ _ _ _ _ Hexport).
  by eexists _, _.
Qed.

(** The state that [loadDiagram] returns, from its run. *)
Lemma loadDiagram_returned diagram w state :
  returned (loadDiagram diagram) w = Some state →
  ∃ w1,
    loadDiagram diagram w = Some (length (objects w), constructed (model state) w1)
    ∧ objects w1 = objects w
    ∧ m_views (model state) ≠ []
    ∧ match diagram with
      | FullD fullModel => m_views fullModel ≠ [] → model state = fullModel
      | CompactD _ => True
      end.
Proof.
  intros Hreturned.
  destruct (loadDiagram_run diagram w)
    as (m & w1 & Hload & Hobj & _ & Hne & _ & Hsame).
  rewrite (returned_constructed _ w m w1 Hload Hobj) in Hreturned.
  injection Hreturned as <-. cbn [model]. exists w1. split_and!; try done.
  destruct diagram; [|done]. intros Hviews. by destruct (Hsame Hviews).
Qed.

End tool_connector_facts.

(** X27: the tool [addNode] on a compact diagram, with no output format
    given, succeeds and returns a compact diagram with one more item, the
    new node last with its name cut to 30 and its description to 100
    characters, together with the generated identifier as [nodeId].  That
    identifier does not name the node in the diagram returned: the tool
    [updateNode] called on the returned diagram with it fails with the
    not-found error unless it has the form [item-k], and finds the node
    under [item-n], where [n] is the number of items before. *)
Theorem tool_addNode_compact_identifier
    (c : CompactDiagram) (params : AddNodeParams) (w : World) :
  ∃ result c' n w',
    Tools.addNode (CompactD c) params None w = Some (result, w')
    ∧ res_success result = true
    ∧ res_diagram result = Some (CompactD c')
    ∧ res_id result = Some (uuid_source w n)
    ∧ length (c_i c') = S (length (c_i c))
    ∧ last (c_i c')
      = Some (JS.slice0 30 (addNode_name params),
              JS.or_string (addNode_icon params) EmptyString,
              JS.slice0 100 (JS.or_string (addNode_description params) EmptyString))
    ∧ (∀ params' outputFormat w2,
         updNode_nodeId params' = uuid_source w n →
         (∀ k, uuid_source w n ≠ JS.template "item-" (Z.of_nat k)) →
         ∃ w3, Tools.updateNode (CompactD c') params' outputFormat w2
               = Some (Tools.failure "Failed to update node"
                         ("Node with ID " +:+ JS.quoted (uuid_source w n)
                          +:+ " not found"), w3))
    ∧ (∀ params' outputFormat w2,
         updNode_nodeId params' = JS.template "item-" (Z.of_nat (length (c_i c))) →
         ∃ result' w3,
           Tools.updateNode (CompactD c') params' outputFormat w2
           = Some (result', w3)
           ∧ res_success result' = true).
Proof.
  destruct (loadDiagram_run (CompactD c) w)
    as (m & w1 & Hload & Hobj & Hsource & Hne & Hitems & _).
  destruct (tool_addNode_run (CompactD c) params None w m w1 Hload Hobj Hne)
    as (json & w' & Hjson & Hrun).
  cbn [Tools.output_format FormatConverter.detectFormat] in Hjson.
  unfold FormatConverter.convertToFormat in Hjson.
  destruct (FormatConverter.toCompact _) as [c'|] eqn:Hcompact; [|done].
  injection Hjson as <-.
  pose proof (toCompact_Some _ _ Hcompact) as (_ & Hi & _).
  unfold DiagramState.addNode_recipe in Hi.
  rewrite with_view_items in Hi. cbn [m_items set_m_items] in Hi.
  rewrite map_app in Hi. cbn [map] in Hi.
  assert (length (c_i c') = S (length (c_i c))) as Hlength.
  { rewrite Hi, length_app, length_map, Hitems, length_imap. simpl. lia. }
  eexists _, c', (uuid_next w1), w'. split; [exact Hrun|].
  split; [done|]. split; [done|].
  split; [cbn [res_id]; unfold next_uuid; by rewrite Hsource|].
  split; [done|]. split; [by rewrite Hi, last_snoc|]. split.
  - intros params' outputFormat w2 Hid Hfresh.
    destruct (loadDiagram_run (CompactD c') w2)
      as (m2 & w3 & Hload2 & Hobj2 & _ & _ & Hitems2 & _).
    exists (constructed m2 w3). rewrite <- Hid.
    apply (tool_updateNode_missing _ _ _ _ m2 w3 Hload2 Hobj2).
    rewrite Hitems2. apply find_item_compact. intros k _. rewrite Hid. apply Hfresh.
  - intros params' outputFormat w2 Hid.
    destruct (loadDiagram_run (CompactD c') w2)
      as (m2 & w3 & Hload2 & Hobj2 & _ & Hne2 & Hitems2 & _).
    destruct (list_find (λ i, mi_id i = updNode_nodeId params') (m_items m2))
      as [[k existingNode]|] eqn:Hfind.
    + destruct (tool_updateNode_found _ params' outputFormat w2 m2 w3 k existingNode
                  Hload2 Hobj2 Hne2 Hfind) as (json & w4 & Hrun2).
      by eexists _, _.
    + rewrite Hitems2 in Hfind.
      destruct (proj1 (find_item_compact _ _) Hfind (length (c_i c))); [lia|done].
Qed.

(** X28: on a compact diagram the tools [updateNode] and [removeNode]
    never throw, and they find a node exactly under the identifiers
    [item-0], ..., [item-(n-1)] for its [n] items: with such a [nodeId]
    they succeed, and with any other they return the not-found error and
    no diagram. *)
Theorem tool_node_addressing_compact (c : CompactDiagram) (w : World) :
  (∀ params outputFormat,
     ∃ result w',
       Tools.updateNode (CompactD c) params outputFormat w = Some (result, w')
       ∧ (res_success result = true
          ↔ ∃ k, (k < length (c_i c))%nat
                 ∧ updNode_nodeId params = JS.template "item-" (Z.of_nat k))
       ∧ (res_success result = false →
          res_diagram result = None
          ∧ res_error result
            = Some ("Node with ID " +:+ JS.quoted (updNode_nodeId params)
                    +:+ " not found")))
  ∧ (∀ nodeId outputFormat,
       ∃ result w',
         Tools.removeNode (CompactD c) nodeId outputFormat w = Some (result, w')
         ∧ (res_success result = true
            ↔ ∃ k, (k < length (c_i c))%nat
                   ∧ nodeId = JS.template "item-" (Z.of_nat k))
         ∧ (res_success result = false →
            res_diagram result = None
            ∧ res_error result
              = Some ("Node with ID " +:+ JS.quoted nodeId +:+ " not found"))).
Proof.
  destruct (loadDiagram_run (CompactD c) w)
    as (m & w1 & Hload & Hobj & _ & Hne & Hitems & _).
  assert (∀ id k item,
            list_find (λ i, mi_id i = id) (m_items m) = Some (k, item) →
            ∃ k, (k < length (c_i c))%nat ∧ id = JS.template "item-" (Z.of_nat k))
    as Hfound.
  { intros id k item Hfind. rewrite Hitems in Hfind.
    apply list_find_Some in Hfind as (Hk & <- & _). exists k. split.
    - apply lookup_lt_Some in Hk. by rewrite length_imap in Hk.
    - by apply (toFull_items_lookup (c_i c)). }
  assert (∀ id, list_find (λ i, mi_id i = id) (m_items m) = None →
            ¬ ∃ k, (k < length (c_i c))%nat ∧ id = JS.template "item-" (Z.of_nat k))
    as Hmissing.
  { intros id Hfind (k & Hk & Hid). rewrite Hitems in Hfind.
    by apply (proj1 (find_item_compact _ _) Hfind k). }
  split.
  - intros params outputFormat.
    destruct (list_find (λ i, mi_id i = updNode_nodeId params) (m_items m))
      as [[k existingNode]|] eqn:Hfind.
    + destruct (tool_updateNode_found _ params outputFormat w m w1 k existingNode
                  Hload Hobj Hne Hfind) as (json & w' & Hrun).
      eexists _, _. split; [exact Hrun|]. cbn [res_success]. split; [|done].
      split; [intros _; by apply (Hfound _ k existingNode)|done].
    + eexists _, _.
      split; [exact (tool_updateNode_missing _ _ outputFormat _ m w1 Hload Hobj Hfind)|].
      cbn. split; [|done]. split; [done|]. intros Hk. by destruct (Hmissing _ Hfind).
  - intros nodeId outputFormat.
    destruct (list_find (λ i, mi_id i = nodeId) (m_items m))
      as [[k existingNode]|] eqn:Hfind.
    + destruct (m_views m) as [|view views] eqn:Hviews; [done|].
      destruct (tool_removeNode_found (CompactD c) nodeId outputFormat w m w1 k
                  existingNode view Hload Hobj) as (json & w' & _ & Hrun);
        [by rewrite Hviews|done|].
      eexists _, _. split; [exact Hrun|]. cbn [res_success]. split; [|done].
      split; [intros _; by apply (Hfound _ k existingNode)|done].
    + eexists _, _.
      split; [exact (tool_removeNode_missing _ _ outputFormat _ m w1 Hload Hobj Hfind)|].
      cbn. split; [|done]. split; [done|]. intros Hk. by destruct (Hmissing _ Hfind).
Qed.

(** X29: the tool [addConnector] checks its end points against the items
    of the model, the state against the items of the primary view.  For a
    diagram in either format and any output format: when both nodes are
    items of the loaded diagram but one of them is not placed in its
    primary view, the tool reports success although no connector was
    added.  The diagram returned is the loaded model converted to the
    output format, which is the diagram given itself when that is a
    full-format diagram with a view and no output format is asked for, and
    [connectorId] is the identifier of the last connector that was already
    in the primary view (none when there was none). *)
Theorem tool_addConnector_unplaced_endpoint
    (diagram : Diagram) (params : AddConnectorParams)
    (outputFormat : option FormatConverter.OutputFormat) (w : World)
    (state : DiagramState) (view : View) (i j : nat) (fromNode toNode : ModelItem) :
  returned (DiagramState.loadDiagram diagram) w = Some state →
  DiagramState.primaryView state = Some view →
  list_find (λ item, mi_id item = addConn_fromNodeId params) (m_items (model state))
  = Some (i, fromNode) →
  list_find (λ item, mi_id item = addConn_toNodeId params) (m_items (model state))
  = Some (j, toNode) →
  ¬ (DiagramState.placed (addConn_fromNodeId params) view
     ∧ DiagramState.placed (addConn_toNodeId params) view) →
  ∃ json w',
    FormatConverter.convertToFormat (model state)
      (Tools.output_format outputFormat diagram) = Some json
    ∧ Tools.addConnector diagram params outputFormat w
      = Some ({| res_success := true; res_diagram := Some json;
                 res_id := cn_id <$> last (default [] (view_connectors view));
                 res_message :=
                   "Added connector from " +:+ JS.quoted (mi_name fromNode)
                   +:+ " to " +:+ JS.quoted (mi_name toNode);
                 res_error := None; res_removedConnectors := None |}, w')
    ∧ (∀ m, diagram = FullD m → m_views m ≠ [] → outputFormat = None →
            json = FullD m).
Proof.
  intros Hreturned Hview Hfrom Hto Hnot.
  destruct (loadDiagram_returned diagram w state Hreturned)
    as (w1 & Hload & Hobj & _ & Hsame).
  destruct (tool_addConnector_noop diagram params outputFormat w (model state) w1
              view i j fromNode toNode Hload Hobj Hview Hfrom Hto Hnot)
    as (json & w' & Hjson & Hrun).
  exists json, w'. split; [done|]. split; [done|].
  intros m -> Hviews ->. rewrite (Hsame Hviews) in Hjson.
  by injection Hjson as <-.
Qed.

Lemma tool_addConnector_unplaced_endpoint_witness :
  ∃ json w',
    FormatConverter.convertToFormat unplacedModel
      (Tools.output_format None (FullD unplacedModel)) = Some json
    ∧ Tools.addConnector (FullD unplacedModel) connector_between_nodes None example_world
      = Some ({| res_success := true; res_diagram := Some json;
                 res_id := cn_id <$> last (default [] (view_connectors unplacedView));
                 res_message :=
                   "Added connector from "
                   +:+ JS.quoted (mi_name (example_item "node-1" "Node 1"))
                   +:+ " to " +:+ JS.quoted (mi_name (example_item "node-2" "Node 2"));
                 res_error := None; res_removedConnectors := None |}, w')
    ∧ (∀ m, FullD unplacedModel = FullD m → m_views m ≠ [] →
            @None FormatConverter.OutputFormat = None → json = FullD m).
Proof.
  apply (tool_addConnector_unplaced_endpoint (FullD unplacedModel)
           connector_between_nodes None example_world
           {| model := unplacedModel; scene := INITIAL_SCENE |}
           unplacedView 0%nat 1%nat).
  - reflexivity.
  - reflexivity.
  - reflexivity.
  - reflexivity.
  - intros [_ Hplaced]. revert Hplaced.
    apply (bool_decide_unpack _). vm_compute. exact I.
Defined.

(** X30: for a diagram in either format and any output format: when the
    node is an item of the loaded diagram, the tool [removeNode] succeeds,
    and the number it reports as [removedConnectors] is the number of
    connectors of the loaded primary view that have an anchor on the node.
    When the output format is full, the diagram returned is a model whose
    primary view is shorter than the loaded primary view by exactly that
    number of connectors. *)
Theorem tool_removeNode_count
    (diagram : Diagram) (nodeId : string)
    (outputFormat : option FormatConverter.OutputFormat) (w : World)
    (state : DiagramState) (view : View) :
  returned (DiagramState.loadDiagram diagram) w = Some state →
  DiagramState.primaryView state = Some view →
  nodeId ∈ mi_id <$> m_items (model state) →
  ∃ result removed w',
    Tools.removeNode diagram nodeId outputFormat w = Some (result, w')
    ∧ res_success result = true
    ∧ res_removedConnectors result = Some removed
    ∧ removed = length (filter (DiagramState.references nodeId)
                          (default [] (view_connectors view)))
    ∧ (Tools.output_format outputFormat diagram = FormatConverter.OutFull →
       ∃ m' view',
         res_diagram result = Some (FullD m')
         ∧ m_views m' !! 0%nat = Some view'
         ∧ length (default [] (view_connectors view))
           = (length (default [] (view_connectors view')) + removed)%nat).
Proof.
  intros Hreturned Hview Hnode.
  destruct (loadDiagram_returned diagram w state Hreturned)
    as (w1 & Hload & Hobj & _ & _).
  apply list_elem_of_fmap in Hnode as (item & Hid & Hitem).
  destruct (list_find_elem_of (λ i, mi_id i = nodeId) (m_items (model state)) item Hitem)
    as [[k existingNode] Hfind]; [done|].
  destruct (tool_removeNode_found diagram nodeId outputFormat w (model state) w1 k
              existingNode view Hload Hobj Hview Hfind)
    as (json & w' & Hjson & Hrun).
  eexists _, _, w'.
  split; [exact Hrun|]. cbn [res_success res_diagram res_removedConnectors].
  split; [done|]. split; [done|]. split; [done|].
  intros Hformat. rewrite Hformat in Hjson. injection Hjson as <-.
  eexists _, (DiagramState.removeNode_view nodeId view).
  split; [done|]. split.
  - rewrite removeNode_recipe_views.
    pose proof (resolved_view_primary (model state) view Hview) as Hresolved.
    unfold resolved_view in Hresolved.
    rewrite (resolved_viewId_primary (model state) view Hview) in Hresolved.
    cbn [model] in Hresolved. rewrite Hresolved.
    apply list_lookup_insert_eq. by eapply lookup_lt_Some.
  - rewrite removeNode_view_connectors.
    destruct (view_connectors view) as [cs|]; [|done]. cbn.
    apply filter_partition_length.
Qed.

Lemma tool_removeNode_count_witness :
  ∃ result removed w',
    Tools.removeNode (FullD example_model) "node-1" None example_world
    = Some (result, w')
    ∧ res_success result = true
    ∧ res_removedConnectors result = Some removed
    ∧ removed = length (filter (DiagramState.references "node-1")
                          (default [] (view_connectors example_view1)))
    ∧ (Tools.output_format None (FullD example_model) = FormatConverter.OutFull →
       ∃ m' view',
         res_diagram result = Some (FullD m')
         ∧ m_views m' !! 0%nat = Some view'
         ∧ length (default [] (view_connectors example_view1))
           = (length (default [] (view_connectors view')) + removed)%nat).
Proof.
  apply (tool_removeNode_count (FullD example_model) "node-1" None example_world
           {| model := example_model; scene := INITIAL_SCENE |} example_view1).
  - reflexivity.
  - reflexivity.
  - vm_compute. set_solver.
Defined.

(** * Mutations and earlier snapshots, on the object heap *)

(** ** Callbacks on objects and on values

    The callbacks of [find], [findIndex], [some] and [filter] are
    predicates on the element objects; when they hold of an object exactly
    when a predicate on values holds of the value of that object, the
    array methods find the same positions on both sides. *)

Section reflection.

Context {A B : Type} (P : A → Prop) (Q : B → Prop).
Context `{!∀ a, Decision (P a)} `{!∀ b, Decision (Q b)}.

Lemma list_find_reflects (l : list A) (k : list B) :
  Forall2 (λ a b, P a ↔ Q b) l k →
  fst <$> list_find P l = fst <$> list_find Q k.
Proof.
  induction 1 as [|a b l k Hab Hlk IH]; [done|]. simpl.
  destruct (decide (P a)) as [Ha|Ha].
  - rewrite decide_True by tauto. done.
  - rewrite decide_False by tauto.
    destruct (list_find P l) as [[i a']|], (list_find Q k) as [[j b']|];
      simpl in *; congruence.
Qed.

Lemma Exists_reflects (l : list A) (k : list B) :
  Forall2 (λ a b, P a ↔ Q b) l k → Exists P l ↔ Exists Q k.
Proof.
  induction 1 as [|a b l k Hab Hlk IH]; [by rewrite !Exists_nil|].
  rewrite !Exists_cons. tauto.
Qed.

End reflection.

Section heap_and_values.

Import DiagramState.

(** The model of the instance that [addConnector] returns. *)
Lemma addConnector_returned params self w :
  m_views (model self) ≠ [] →
  returned (addConnector params self) w
  = Some {| model := addConnector_result (next_uuid w) (next_uuid (tick w))
                       (next_uuid (tick (tick w)))
                       (resolved_viewId (addConn_viewId params) self) params
                       (model self);
            scene := INITIAL_SCENE |}.
Proof.
  intros Hne. unfold addConnector_result.
  destruct (list_find (λ v, view_id v = resolved_viewId (addConn_viewId params) self)
              (m_views (model self))) as [[k view]|] eqn:Hfind.
  - unfold addConnector_view_result.
    destruct (decide (placed (addConn_fromNodeId params) view)) as [Hfrom|Hfrom];
      [destruct (decide (placed (addConn_toNodeId params) view)) as [Hto|Hto]|].
    + rewrite !bool_decide_eq_true_2 by done. simpl.
      apply (returned_constructed _ w _ (tick (tick (tick w)))); [|done].
      by apply (addConnector_success params self w k view).
    + rewrite (bool_decide_eq_false_2 _ Hto), andb_false_r.
      rewrite list_insert_id, set_m_views_id
        by (by apply list_find_Some in Hfind as (? & _)).
      apply (returned_constructed _ w _ (tick w)); [|done].
      apply addConnector_noop; [done|].
      intros k' view' Hview. unfold resolved_view in Hview.
      rewrite Hfind in Hview. injection Hview as <- <-. by right.
    + rewrite (bool_decide_eq_false_2 _ Hfrom). simpl.
      rewrite list_insert_id, set_m_views_id
        by (by apply list_find_Some in Hfind as (? & _)).
      apply (returned_constructed _ w _ (tick w)); [|done].
      apply addConnector_noop; [done|].
      intros k' view' Hview. unfold resolved_view in Hview.
      rewrite Hfind in Hview. injection Hview as <- <-. by left.
  - apply (returned_constructed _ w _ (tick w)); [|done].
    apply addConnector_noop; [done|].
    intros k' view' Hview. unfold resolved_view in Hview. congruence.
Qed.

(** The model of the instance that a mutation returns has a view. *)
Lemma addConnector_result_nonempty connectorId anchorId1 anchorId2 viewId params m :
  m_views m ≠ [] →
  m_views (addConnector_result connectorId anchorId1 anchorId2 viewId params m) ≠ [].
Proof.
  intros Hne. unfold addConnector_result.
  destruct (list_find _ _) as [[k view]|]; [|done]. simpl.
  intros Hnil. apply (f_equal length) in Hnil. rewrite length_insert in Hnil.
  by destruct (m_views m).
Qed.

End heap_and_values.

(** ** The mutations on the object heap

    The rules of the separation logic for the computations on the store,
    and the specifications of the array methods, of the draft, of the
    recipes and of the methods. *)

Section heap_logic.

Local Set Warnings "-rewrite-rw".

Import iris.bi.bi iris.proofmode.proofmode iris.base_logic.lib.gen_heap.
Import Heap.

Context `{!gen_heapGS loc Object Σ}.
Variable src : nat → string.

Local Notation "l ↦{ dq } o" := (pointsto l dq o)
  (at level 20, format "l  ↦{ dq }  o") : bi_scope.
Local Notation "l ↦ o" := (pointsto l (DfracOwn 1) o) (at level 20) : bi_scope.
Local Notation "l ↦□ o" := (pointsto l DfracDiscarded o) (at level 20) : bi_scope.

Local Abbreviation wp := (wp_from src).

Lemma wp_ret {A} (a : A) n Q : Q a n -∗ wp (ret a) n Q.
Proof.
  iIntros "HQ" (s Hsrc Hn) "Hs". iModIntro. iExists a, s.
  rewrite Hn. by iFrame.
Qed.

Lemma wp_bind {A B} (c : H A) (k : A → H B) n Q :
  wp c n (λ a n', wp (k a) n' Q) -∗ wp (bind c k) n Q.
Proof.
  iIntros "Hc" (s Hsrc Hn) "Hs".
  iMod ("Hc" $! s Hsrc Hn with "Hs") as (a s' Hc Hsrc') "[Hs Hk]".
  iMod ("Hk" $! s' Hsrc' eq_refl with "Hs") as (b s'' Hk Hsrc'') "[Hs HQ]".
  iModIntro. iExists b, s''. iFrame. iPureIntro. split; [|done].
  unfold bind. by rewrite Hc.
Qed.

Lemma wp_wand {A} (c : H A) n Q Q' :
  wp c n Q -∗ (∀ a n', Q a n' -∗ Q' a n') -∗ wp c n Q'.
Proof.
  iIntros "Hc HQ" (s Hsrc Hn) "Hs".
  iMod ("Hc" $! s Hsrc Hn with "Hs") as (a s' Hc Hsrc') "[Hs Ha]".
  iModIntro. iExists a, s'. iFrame. iSplit; [done|]. iSplit; [done|].
  by iApply "HQ".
Qed.

Lemma wp_lift {A} (o : option A) a n Q : o = Some a → Q a n -∗ wp (lift o) n Q.
Proof. intros ->. iApply wp_ret. Qed.

Lemma wp_uuidv4 n Q : Q (src n) (S n) -∗ wp uuidv4 n Q.
Proof.
  iIntros "HQ" (s Hsrc Hn) "Hs". iModIntro.
  iExists _, _. iSplit; [done|]. simpl. rewrite Hsrc Hn. by iFrame.
Qed.

Lemma wp_alloc o n Q : (∀ l, l ↦ o -∗ Q l n) -∗ wp (alloc o) n Q.
Proof.
  iIntros "HQ" (s Hsrc Hn) "Hs". unfold store_interp.
  iMod (gen_heap_alloc _ (length (heap s)) o with "Hs") as "(Hs & Hl & _)".
  { apply lookup_map_seq_None. lia. }
  iModIntro. iExists _, _. iSplit; [done|]. simpl. iSplit; [done|].
  rewrite map_seq_snoc Hn. iFrame. by iApply "HQ".
Qed.

Lemma wp_read l dq o n Q : l ↦{dq} o -∗ (l ↦{dq} o -∗ Q o n) -∗ wp (read l) n Q.
Proof.
  iIntros "Hl HQ" (s Hsrc Hn) "Hs".
  iDestruct (gen_heap_valid with "Hs Hl") as %Hlookup.
  rewrite lookup_map_seq_0 in Hlookup.
  iModIntro. iExists o, s. unfold read. rewrite Hlookup Hn. iFrame.
  iSplit; [done|]. iSplit; [done|]. by iApply "HQ".
Qed.

Lemma wp_write l o o' n Q : l ↦ o -∗ (l ↦ o' -∗ Q tt n) -∗ wp (write l o') n Q.
Proof.
  iIntros "Hl HQ" (s Hsrc Hn) "Hs".
  iDestruct (gen_heap_valid with "Hs Hl") as %Hlookup.
  rewrite lookup_map_seq_0 in Hlookup.
  iMod (gen_heap_update _ _ _ o' with "Hs Hl") as "[Hs Hl]".
  iModIntro. iExists tt, _. unfold write.
  rewrite decide_True; [|by eapply lookup_lt_Some].
  iSplit; [done|]. simpl. iSplit; [done|].
  rewrite insert_map_seq_0; [|by eapply lookup_lt_Some]. rewrite Hn. iFrame.
  by iApply "HQ".
Qed.

Lemma wp_field {A} (f : Object → option A) l dq o a n Q :
  f o = Some a → l ↦{dq} o -∗ (l ↦{dq} o -∗ Q a n) -∗ wp (field f l) n Q.
Proof.
  iIntros (Hf) "Hl HQ". iApply wp_bind. iApply (wp_read with "Hl").
  iIntros "Hl". iApply wp_lift; [done|]. by iApply "HQ".
Qed.

Lemma wp_assign (f : Object → option Object) l o o' n Q :
  f o = Some o' → l ↦ o -∗ (l ↦ o' -∗ Q tt n) -∗ wp (assign f l) n Q.
Proof.
  iIntros (Hf) "Hl HQ". iApply wp_bind. iApply (wp_read with "Hl").
  iIntros "Hl". iApply wp_bind. iApply wp_lift; [done|].
  iApply (wp_write with "Hl"). done.
Qed.

(** *** Object graphs *)

Global Instance is_array_persistent {A} (R : loc → A → iProp Σ) l xs :
  (∀ e x, Persistent (R e x)) → Persistent (is_array R DfracDiscarded l xs).
Proof. intros. unfold is_array. apply _. Qed.

Global Instance is_optional_persistent {A} (R : loc → A → iProp Σ) l x :
  (∀ e x, Persistent (R e x)) → Persistent (is_optional R l x).
Proof. intros. destruct l, x; apply _. Qed.

Global Instance is_viewItem_persistent l viewItem :
  Persistent (is_viewItem DfracDiscarded l viewItem).
Proof. unfold is_viewItem, is_coords. apply _. Qed.

Global Instance is_view_persistent l view : Persistent (is_view DfracDiscarded l view).
Proof.
  unfold is_view, is_connector, is_rectangle, is_textBox. apply _.
Qed.

Global Instance is_model_persistent l m : Persistent (is_model DfracDiscarded l m).
Proof. unfold is_model, is_item. apply _. Qed.

Lemma frozen_lookup h l o : h !! l = Some o → frozen h -∗ l ↦□ o.
Proof.
  iIntros (Hl) "#Hh". iApply (big_sepM_lookup with "Hh").
  by rewrite lookup_map_seq_0.
Qed.

(** A snapshot that is defined describes an object graph of frozen
    objects. *)
Lemma frozen_array {A} (f : loc → option A) (R : loc → A → iProp Σ) h l xs :
  (∀ e x, f e = Some x → frozen h -∗ R e x) →
  snapshot_array f h l = Some xs →
  frozen h -∗ is_array R DfracDiscarded l xs.
Proof.
  iIntros (Helement Hsnapshot) "#Hh". unfold snapshot_array in Hsnapshot.
  destruct (h !! l) as [[]|] eqn:Hl; try done.
  iExists elements. iSplit; [by iApply (frozen_lookup with "Hh")|].
  apply mapM_Some in Hsnapshot. clear Hl.
  iInduction Hsnapshot as [|e x es xs' He Hes] "IH"; [done|].
  simpl. iSplitR; [by iApply Helement|]. iApply "IH".
Qed.

Lemma frozen_optional {A} (f : loc → option A) (R : loc → A → iProp Σ) h l x :
  (∀ e x, f e = Some x → frozen h -∗ R e x) →
  snapshot_optional f l = Some x →
  frozen h -∗ is_optional R l x.
Proof.
  iIntros (Helement Hsnapshot) "#Hh". destruct l as [l|]; simpl in Hsnapshot.
  - destruct (f l) as [x'|] eqn:Hf; [|done]. injection Hsnapshot as <-.
    simpl. by iApply Helement.
  - by injection Hsnapshot as <-.
Qed.

Lemma frozen_viewItem h l viewItem :
  snapshot_viewItem h l = Some viewItem →
  frozen h -∗ is_viewItem DfracDiscarded l viewItem.
Proof.
  iIntros (Hsnapshot) "#Hh". unfold snapshot_viewItem, snapshot_coords in Hsnapshot.
  destruct (h !! l) as [[]|] eqn:Hl; try done.
  destruct (h !! tile) as [[]|] eqn:Htile; try done.
  injection Hsnapshot as <-. iExists tile. simpl.
  iSplit; by iApply (frozen_lookup with "Hh").
Qed.

Lemma frozen_item h l item :
  snapshot_item h l = Some item → frozen h -∗ is_item DfracDiscarded l item.
Proof.
  iIntros (Hsnapshot) "#Hh". unfold snapshot_item in Hsnapshot.
  destruct (h !! l) as [[]|] eqn:Hl; try done.
  injection Hsnapshot as <-. by iApply (frozen_lookup with "Hh").
Qed.

Lemma frozen_connector h l connector :
  snapshot_connector h l = Some connector → frozen h -∗ is_connector DfracDiscarded l connector.
Proof.
  iIntros (Hsnapshot) "#Hh". unfold snapshot_connector in Hsnapshot.
  destruct (h !! l) as [[]|] eqn:Hl; try done.
  injection Hsnapshot as <-. by iApply (frozen_lookup with "Hh").
Qed.

Lemma frozen_rectangle h l rectangle :
  snapshot_rectangle h l = Some rectangle → frozen h -∗ is_rectangle DfracDiscarded l rectangle.
Proof.
  iIntros (Hsnapshot) "#Hh". unfold snapshot_rectangle in Hsnapshot.
  destruct (h !! l) as [[]|] eqn:Hl; try done.
  injection Hsnapshot as <-. by iApply (frozen_lookup with "Hh").
Qed.

Lemma frozen_textBox h l textBox :
  snapshot_textBox h l = Some textBox → frozen h -∗ is_textBox DfracDiscarded l textBox.
Proof.
  iIntros (Hsnapshot) "#Hh". unfold snapshot_textBox in Hsnapshot.
  destruct (h !! l) as [[]|] eqn:Hl; try done.
  injection Hsnapshot as <-. by iApply (frozen_lookup with "Hh").
Qed.

Lemma frozen_view h l view :
  snapshot_view h l = Some view → frozen h -∗ is_view DfracDiscarded l view.
Proof.
  iIntros (Hsnapshot) "#Hh". unfold snapshot_view in Hsnapshot.
  destruct (h !! l) as [[]|] eqn:Hl; try done.
  destruct (snapshot_array (snapshot_viewItem h) h items) as [its|] eqn:Hitems;
    [|done].
  destruct (snapshot_optional _ connectors) as [cs|] eqn:Hconnectors; [|done].
  destruct (snapshot_optional _ rectangles) as [rs|] eqn:Hrectangles; [|done].
  destruct (snapshot_optional _ textBoxes) as [ts|] eqn:HtextBoxes; [|done].
  injection Hsnapshot as <-. iExists items, connectors, rectangles, textBoxes.
  simpl. iSplit; [by iApply (frozen_lookup with "Hh")|].
  iSplit; [iApply (frozen_array with "Hh"); [|done]; apply frozen_viewItem|].
  iSplit; [|iSplit].
  - iApply (frozen_optional with "Hh"); [|done]. intros e x.
    apply frozen_array, frozen_connector.
  - iApply (frozen_optional with "Hh"); [|done]. intros e x.
    apply frozen_array, frozen_rectangle.
  - iApply (frozen_optional with "Hh"); [|done]. intros e x.
    apply frozen_array, frozen_textBox.
Qed.

Lemma frozen_model h l m :
  snapshot h l = Some m → frozen h -∗ is_model DfracDiscarded l m.
Proof.
  iIntros (Hsnapshot) "#Hh". unfold snapshot in Hsnapshot.
  destruct (h !! l) as [[]|] eqn:Hl; try done.
  destruct (snapshot_array (snapshot_item h) h items) as [its|] eqn:Hitems; [|done].
  destruct (snapshot_array (snapshot_view h) h views) as [vs|] eqn:Hviews; [|done].
  injection Hsnapshot as <-. iExists items, views. simpl.
  iSplit; [by iApply (frozen_lookup with "Hh")|].
  iSplit.
  - iApply (frozen_array with "Hh"); [|done]. apply frozen_item.
  - iApply (frozen_array with "Hh"); [|done]. apply frozen_view.
Qed.

(** An object graph that is described is the snapshot of its store. *)
Lemma cell_lookup s l dq o : l ↦{dq} o -∗ store_interp s -∗ ⌜heap s !! l = Some o⌝.
Proof.
  iIntros "Hl Hs". iDestruct (gen_heap_valid with "Hs Hl") as %Hlookup.
  by rewrite lookup_map_seq_0 in Hlookup.
Qed.

Lemma elements_snapshot {A} (f : loc → option A) (R : loc → A → iProp Σ) s es xs :
  (∀ e x, R e x -∗ store_interp s -∗ ⌜f e = Some x⌝) →
  ([∗ list] e;x ∈ es;xs, R e x) -∗ store_interp s -∗
  ⌜Forall2 (λ e x, f e = Some x) es xs⌝.
Proof.
  iIntros (Helement) "Hes Hs".
  iInduction es as [|e es] "IH" forall (xs); destruct xs as [|x xs]; simpl;
    try done.
  iDestruct "Hes" as "[He Hes]".
  iDestruct (Helement with "He Hs") as %He.
  iDestruct ("IH" with "Hes Hs") as %Hes.
  iPureIntro. by constructor.
Qed.

Lemma array_snapshot {A} (f : loc → option A) (R : loc → A → iProp Σ) s dq l xs :
  (∀ e x, R e x -∗ store_interp s -∗ ⌜f e = Some x⌝) →
  is_array R dq l xs -∗ store_interp s -∗ ⌜snapshot_array f (heap s) l = Some xs⌝.
Proof.
  iIntros (Helement) "Hl Hs". iDestruct "Hl" as (elements) "[Hl Hes]".
  iDestruct (cell_lookup with "Hl Hs") as %Hl.
  iDestruct (elements_snapshot f with "Hes Hs") as %Hes; [done|].
  iPureIntro. unfold snapshot_array. rewrite Hl. by apply mapM_Some.
Qed.

Lemma optional_snapshot {A} (f : loc → option A) (R : loc → A → iProp Σ) s l x :
  (∀ e x, R e x -∗ store_interp s -∗ ⌜f e = Some x⌝) →
  is_optional R l x -∗ store_interp s -∗ ⌜snapshot_optional f l = Some x⌝.
Proof.
  iIntros (Helement) "Hl Hs". destruct l as [l|], x as [x|]; simpl; try done.
  iDestruct (Helement with "Hl Hs") as %->. done.
Qed.

Lemma viewItem_snapshot s dq l viewItem :
  is_viewItem dq l viewItem -∗ store_interp s -∗
  ⌜snapshot_viewItem (heap s) l = Some viewItem⌝.
Proof.
  iIntros "Hl Hs". iDestruct "Hl" as (tile) "[Hl Htile]".
  iDestruct (cell_lookup with "Hl Hs") as %Hl.
  iDestruct (cell_lookup with "Htile Hs") as %Htile.
  iPureIntro. unfold snapshot_viewItem, snapshot_coords. rewrite Hl Htile.
  by destruct viewItem.
Qed.

Lemma item_snapshot s dq l item :
  is_item dq l item -∗ store_interp s -∗ ⌜snapshot_item (heap s) l = Some item⌝.
Proof.
  iIntros "Hl Hs". iDestruct (cell_lookup with "Hl Hs") as %Hl.
  iPureIntro. unfold snapshot_item. by rewrite Hl.
Qed.

Lemma connector_snapshot s dq l connector :
  is_connector dq l connector -∗ store_interp s -∗
  ⌜snapshot_connector (heap s) l = Some connector⌝.
Proof.
  iIntros "Hl Hs". iDestruct (cell_lookup with "Hl Hs") as %Hl.
  iPureIntro. unfold snapshot_connector. by rewrite Hl.
Qed.

Lemma rectangle_snapshot s dq l rectangle :
  is_rectangle dq l rectangle -∗ store_interp s -∗
  ⌜snapshot_rectangle (heap s) l = Some rectangle⌝.
Proof.
  iIntros "Hl Hs". iDestruct (cell_lookup with "Hl Hs") as %Hl.
  iPureIntro. unfold snapshot_rectangle. by rewrite Hl.
Qed.

Lemma textBox_snapshot s dq l textBox :
  is_textBox dq l textBox -∗ store_interp s -∗
  ⌜snapshot_textBox (heap s) l = Some textBox⌝.
Proof.
  iIntros "Hl Hs". iDestruct (cell_lookup with "Hl Hs") as %Hl.
  iPureIntro. unfold snapshot_textBox. by rewrite Hl.
Qed.

Lemma view_snapshot s dq l view :
  is_view dq l view -∗ store_interp s -∗ ⌜snapshot_view (heap s) l = Some view⌝.
Proof.
  iIntros "Hl Hs".
  iDestruct "Hl" as (items connectors rectangles textBoxes)
    "(Hl & Hitems & Hconnectors & Hrectangles & HtextBoxes)".
  iDestruct (cell_lookup with "Hl Hs") as %Hl.
  iDestruct (array_snapshot (snapshot_viewItem (heap s)) with "Hitems Hs")
    as %Hitems; [apply viewItem_snapshot|].
  iDestruct (optional_snapshot
               (snapshot_array (snapshot_connector (heap s)) (heap s))
             with "Hconnectors Hs") as %Hconnectors.
  { intros e x. apply array_snapshot, connector_snapshot. }
  iDestruct (optional_snapshot
               (snapshot_array (snapshot_rectangle (heap s)) (heap s))
             with "Hrectangles Hs") as %Hrectangles.
  { intros e x. apply array_snapshot, rectangle_snapshot. }
  iDestruct (optional_snapshot
               (snapshot_array (snapshot_textBox (heap s)) (heap s))
             with "HtextBoxes Hs") as %HtextBoxes.
  { intros e x. apply array_snapshot, textBox_snapshot. }
  iPureIntro. unfold snapshot_view.
  rewrite Hl Hitems /= Hconnectors /= Hrectangles /= HtextBoxes /=.
  by destruct view.
Qed.

Lemma model_snapshot s dq l m :
  is_model dq l m -∗ store_interp s -∗ ⌜snapshot (heap s) l = Some m⌝.
Proof.
  iIntros "Hl Hs". iDestruct "Hl" as (items views) "(Hl & Hitems & Hviews)".
  iDestruct (cell_lookup with "Hl Hs") as %Hl.
  iDestruct (array_snapshot (snapshot_item (heap s)) with "Hitems Hs") as %Hitems;
    [apply item_snapshot|].
  iDestruct (array_snapshot (snapshot_view (heap s)) with "Hviews Hs") as %Hviews;
    [apply view_snapshot|].
  iPureIntro. unfold snapshot. rewrite Hl Hitems /= Hviews /=. by destruct m.
Qed.

(** *** Arrays *)

Lemma wp_read_elements {A} (R : loc → A → iProp Σ) P Pv es xs n Q :
  reflects R P Pv →
  ([∗ list] e;x ∈ es;xs, R e x) -∗
  (∀ os, ⌜Forall2 (λ o x, P o ↔ Pv x) os xs⌝ -∗
         ([∗ list] e;x ∈ es;xs, R e x) -∗ Q os n) -∗
  wp (traverse read es) n Q.
Proof.
  iIntros (HR) "Hes HQ".
  iInduction es as [|e es] "IH" forall (xs Q); destruct xs as [|x xs]; simpl;
    try done.
  - iApply wp_ret. iApply ("HQ" with "[] [//]"). iPureIntro. constructor.
  - iDestruct "Hes" as "[He Hes]".
    iDestruct (HR with "He") as (o) "(He & %Ho & Hclose)".
    iApply wp_bind. iApply (wp_read with "He"). iIntros "He".
    iApply wp_bind. iApply ("IH" with "Hes"). iIntros (os Hos) "Hes".
    iApply wp_ret. iApply ("HQ" with "[] [-]"); [iPureIntro; by constructor|].
    iFrame. by iApply "Hclose".
Qed.

Section array_methods.

Context {A : Type} (R : loc → A → iProp Σ).
Context (P : Object → Prop) (Pv : A → Prop).
Context `{!∀ o, Decision (P o)} `{!∀ x, Decision (Pv x)}.
Hypothesis HR : reflects R P Pv.

Lemma wp_findIndex array es xs n Q :
  array ↦ ArrayObject es -∗
  ([∗ list] e;x ∈ es;xs, R e x) -∗
  (array ↦ ArrayObject es -∗ ([∗ list] e;x ∈ es;xs, R e x) -∗
   Q (fst <$> list_find Pv xs) n) -∗
  wp (array_findIndex P array) n Q.
Proof.
  iIntros "Harray Hes HQ". unfold array_findIndex.
  iApply wp_bind. iApply (wp_field with "Harray"); [done|]. iIntros "Harray".
  iApply wp_bind. iApply (wp_read_elements with "Hes"); [done|].
  iIntros (os Hos) "Hes". iApply wp_ret.
  rewrite (list_find_reflects P Pv os xs Hos). iApply ("HQ" with "Harray Hes").
Qed.

(** [array.find(p)], with the element that it found taken out of the
    array. *)
Lemma wp_find array xs n Q :
  is_array R (DfracOwn 1) array xs -∗
  match list_find Pv xs with
  | Some (k, x) =>
      ∀ e, R e x -∗
           (∀ x', R e x' -∗ is_array R (DfracOwn 1) array (<[k := x']> xs)) -∗
           Q (Some e) n
  | None => is_array R (DfracOwn 1) array xs -∗ Q None n
  end -∗
  wp (array_find P array) n Q.
Proof.
  iIntros "Harray HQ". iDestruct "Harray" as (es) "[Harray Hes]".
  unfold array_find.
  iApply wp_bind. iApply (wp_field with "Harray"); [done|]. iIntros "Harray".
  iApply wp_bind. iApply (wp_findIndex with "Harray Hes").
  iIntros "Harray Hes". iApply wp_ret.
  destruct (list_find Pv xs) as [[k x]|] eqn:Hfind; simpl.
  - apply list_find_Some in Hfind as (Hk & _ & _).
    iDestruct (big_sepL2_length with "Hes") as %Hlength.
    destruct (lookup_lt_is_Some_2 es k) as [e He].
    { rewrite Hlength. by eapply lookup_lt_Some. }
    rewrite He. simpl.
    iDestruct (big_sepL2_insert_acc with "Hes") as "[He Hes]"; [done..|].
    iApply ("HQ" with "He"). iIntros (x') "He".
    iSpecialize ("Hes" with "He"). rewrite (list_insert_id es k e); [|done].
    iExists es. iFrame.
  - iApply "HQ". iExists es. iFrame.
Qed.

Lemma wp_some array xs n Q :
  is_array R (DfracOwn 1) array xs -∗
  (is_array R (DfracOwn 1) array xs -∗ Q (bool_decide (Exists Pv xs)) n) -∗
  wp (array_some P array) n Q.
Proof.
  iIntros "Harray HQ". iDestruct "Harray" as (es) "[Harray Hes]".
  unfold array_some.
  iApply wp_bind. iApply (wp_field with "Harray"); [done|]. iIntros "Harray".
  iApply wp_bind. iApply (wp_read_elements with "Hes"); [done|].
  iIntros (os Hos) "Hes". iApply wp_ret.
  rewrite (bool_decide_ext _ _ (Exists_reflects P Pv os xs Hos)).
  iApply "HQ". iExists es. iFrame.
Qed.

Lemma elements_delete es xs k :
  ([∗ list] e;x ∈ es;xs, R e x) -∗
  [∗ list] e;x ∈ delete k es;delete k xs, R e x.
Proof.
  iIntros "Hes".
  iInduction es as [|e es] "IH" forall (xs k); destruct xs as [|x xs]; simpl;
    try done.
  iDestruct "Hes" as "[He Hes]". destruct k as [|k]; simpl; [done|].
  iFrame. by iApply "IH".
Qed.

Lemma wp_splice_first array xs n Q :
  is_array R (DfracOwn 1) array xs -∗
  (is_array R (DfracOwn 1) array (DiagramState.splice_first Pv xs) -∗ Q tt n) -∗
  wp (splice_first P array) n Q.
Proof.
  iIntros "Harray HQ". iDestruct "Harray" as (es) "[Harray Hes]".
  unfold splice_first, DiagramState.splice_first.
  iApply wp_bind. iApply (wp_findIndex with "Harray Hes").
  iIntros "Harray Hes".
  destruct (list_find Pv xs) as [[k x]|] eqn:Hfind; simpl.
  - unfold array_splice.
    iApply wp_bind. iApply (wp_field with "Harray"); [done|]. iIntros "Harray".
    iApply (wp_assign with "Harray"); [done|]. iIntros "Harray".
    iApply "HQ". iExists (delete k es). iFrame. by iApply elements_delete.
  - iApply wp_ret. iApply "HQ". iExists es. iFrame.
Qed.

Lemma wp_select es xs n Q :
  ([∗ list] e;x ∈ es;xs, R e x) -∗
  (∀ kept, ([∗ list] e;x ∈ kept;filter Pv xs, R e x) -∗ Q kept n) -∗
  wp (select P es) n Q.
Proof.
  iIntros "Hes HQ".
  iInduction es as [|e es] "IH" forall (xs Q); destruct xs as [|x xs]; simpl;
    try done.
  - iApply wp_ret. by iApply "HQ".
  - iDestruct "Hes" as "[He Hes]".
    iDestruct (HR with "He") as (o) "(He & %Ho & Hclose)".
    iApply wp_bind. iApply (wp_read with "He"). iIntros "He".
    iApply wp_bind. iApply ("IH" with "Hes"). iIntros (kept) "Hkept".
    iApply wp_ret. iApply "HQ". iSpecialize ("Hclose" with "He").
    destruct (decide (P o)) as [HP|HP].
    + rewrite filter_cons_True; [|tauto]. simpl. iFrame.
    + rewrite filter_cons_False; [|tauto]. done.
Qed.

Lemma wp_filter array xs n Q :
  is_array R (DfracOwn 1) array xs -∗
  (∀ kept, is_array R (DfracOwn 1) kept (filter Pv xs) -∗ Q kept n) -∗
  wp (array_filter P array) n Q.
Proof.
  iIntros "Harray HQ". iDestruct "Harray" as (es) "[Harray Hes]".
  unfold array_filter.
  iApply wp_bind. iApply (wp_field with "Harray"); [done|]. iIntros "Harray".
  iApply wp_bind. iApply (wp_select with "Hes"). iIntros (kept) "Hkept".
  iApply wp_alloc. iIntros (l) "Hl". iApply "HQ". iExists kept. iFrame.
Qed.

End array_methods.

Lemma wp_push {A} (R : loc → A → iProp Σ) array e xs x n Q :
  is_array R (DfracOwn 1) array xs -∗
  R e x -∗
  (is_array R (DfracOwn 1) array (xs ++ [x]) -∗ Q tt n) -∗
  wp (array_push array e) n Q.
Proof.
  iIntros "Harray He HQ". iDestruct "Harray" as (es) "[Harray Hes]".
  unfold array_push.
  iApply wp_bind. iApply (wp_field with "Harray"); [done|]. iIntros "Harray".
  iApply (wp_assign with "Harray"); [done|]. iIntros "Harray".
  iApply "HQ". iExists (es ++ [e]). iFrame "Harray".
  iApply (big_sepL2_app with "Hes"). simpl. by iFrame.
Qed.

Lemma wp_assign_defined {B} (v : option B) (f : B → Object → option Object)
    l o n Q :
  (∀ b, is_Some (f b o)) →
  l ↦ o -∗
  (l ↦ from_option (λ b, default o (f b o)) o v -∗ Q tt n) -∗
  wp (assign_defined v f l) n Q.
Proof.
  iIntros (Hf) "Hl HQ". destruct v as [b|]; simpl.
  - destruct (Hf b) as [o' Ho']. rewrite Ho'. simpl.
    iApply (wp_assign with "Hl"); [done|]. done.
  - iApply wp_ret. by iApply "HQ".
Qed.

(** The callbacks that the methods use. *)
Lemma reflects_item id :
  reflects (is_item (DfracOwn 1)) (has_id id) (λ i, mi_id i = id).
Proof.
  iIntros (e x) "He". iExists _. iFrame "He". iSplit; [|by iIntros "He"].
  iPureIntro. unfold has_id. simpl. naive_solver.
Qed.

Lemma reflects_connector id :
  reflects (is_connector (DfracOwn 1)) (has_id id) (λ c, cn_id c = id).
Proof.
  iIntros (e x) "He". iExists _. iFrame "He". iSplit; [|by iIntros "He"].
  iPureIntro. unfold has_id. simpl. naive_solver.
Qed.

Lemma reflects_rectangle id :
  reflects (is_rectangle (DfracOwn 1)) (has_id id) (λ r, rect_id r = id).
Proof.
  iIntros (e x) "He". iExists _. iFrame "He". iSplit; [|by iIntros "He"].
  iPureIntro. unfold has_id. simpl. naive_solver.
Qed.

Lemma reflects_textBox id :
  reflects (is_textBox (DfracOwn 1)) (has_id id) (λ t, tb_id t = id).
Proof.
  iIntros (e x) "He". iExists _. iFrame "He". iSplit; [|by iIntros "He"].
  iPureIntro. unfold has_id. simpl. naive_solver.
Qed.

Lemma reflects_viewItem id :
  reflects (is_viewItem (DfracOwn 1)) (has_id id) (λ i, vi_id i = id).
Proof.
  iIntros (e x) "He". iDestruct "He" as (tile) "[He Htile]".
  iExists _. iFrame "He". iSplit.
  - iPureIntro. unfold has_id. simpl. naive_solver.
  - iIntros "He". iExists tile. iFrame.
Qed.

Lemma reflects_view id :
  reflects (is_view (DfracOwn 1)) (has_id id) (λ v, view_id v = id).
Proof.
  iIntros (e x) "He".
  iDestruct "He" as (items connectors rectangles textBoxes) "[He Hrest]".
  iExists _. iFrame "He". iSplit.
  - iPureIntro. unfold has_id. simpl. naive_solver.
  - iIntros "He". iExists items, connectors, rectangles, textBoxes. iFrame.
Qed.

Lemma reflects_anchored nodeId :
  reflects (is_connector (DfracOwn 1)) (λ o, ¬ anchored nodeId o)
    (λ c, ¬ DiagramState.references nodeId c).
Proof.
  iIntros (e x) "He". iExists _. iFrame "He". iSplit; [|by iIntros "He"]. done.
Qed.

(** *** The draft *)

Lemma wp_copy_object l o n Q :
  l ↦□ o -∗ (∀ l', l' ↦ o -∗ Q l' n) -∗ wp (copy_object l) n Q.
Proof.
  iIntros "Hl HQ". unfold copy_object.
  iApply wp_bind. iApply (wp_read with "Hl"). iIntros "_". by iApply wp_alloc.
Qed.

Section copies.

Context {A : Type} (R0 R1 : loc → A → iProp Σ) (copy : loc → H loc).
Hypothesis Hcopy :
  ∀ e x n Q, R0 e x -∗ (∀ e', R1 e' x -∗ Q e' n) -∗ wp (copy e) n Q.

Lemma wp_copy_elements es xs n Q :
  ([∗ list] e;x ∈ es;xs, R0 e x) -∗
  (∀ es', ([∗ list] e;x ∈ es';xs, R1 e x) -∗ Q es' n) -∗
  wp (traverse copy es) n Q.
Proof.
  iIntros "Hes HQ".
  iInduction es as [|e es] "IH" forall (xs Q); destruct xs as [|x xs]; simpl;
    try done.
  - iApply wp_ret. by iApply "HQ".
  - iDestruct "Hes" as "[He Hes]".
    iApply wp_bind. iApply (Hcopy with "He"). iIntros (e') "He".
    iApply wp_bind. iApply ("IH" with "Hes"). iIntros (es') "Hes".
    iApply wp_ret. iApply "HQ". simpl. iFrame.
Qed.

Lemma wp_copy_array array xs n Q :
  is_array R0 DfracDiscarded array xs -∗
  (∀ array', is_array R1 (DfracOwn 1) array' xs -∗ Q array' n) -∗
  wp (copy_array copy array) n Q.
Proof.
  iIntros "Harray HQ". iDestruct "Harray" as (es) "[Harray Hes]".
  unfold copy_array.
  iApply wp_bind. iApply (wp_field with "Harray"); [done|]. iIntros "_".
  iApply wp_bind. iApply (wp_copy_elements with "Hes"). iIntros (es') "Hes".
  iApply wp_alloc. iIntros (array') "Harray". iApply "HQ". iExists es'. iFrame.
Qed.

Lemma wp_copy_optional l x n Q :
  is_optional R0 l x -∗
  (∀ l', is_optional R1 l' x -∗ Q l' n) -∗
  wp (copy_optional copy l) n Q.
Proof.
  iIntros "Hl HQ". destruct l as [l|], x as [x|]; simpl; try done.
  - iApply wp_bind. iApply (Hcopy with "Hl"). iIntros (l') "Hl".
    iApply wp_ret. by iApply ("HQ" $! (Some l')).
  - iApply wp_ret. by iApply ("HQ" $! None).
Qed.

End copies.

Lemma wp_copy_viewItem l viewItem n Q :
  is_viewItem DfracDiscarded l viewItem -∗
  (∀ l', is_viewItem (DfracOwn 1) l' viewItem -∗ Q l' n) -∗
  wp (copy_viewItem l) n Q.
Proof.
  iIntros "Hl HQ". iDestruct "Hl" as (tile) "[Hl Htile]". unfold copy_viewItem.
  iApply wp_bind. iApply (wp_read with "Hl"). iIntros "_".
  iApply wp_bind. iApply (wp_copy_object with "Htile"). iIntros (tile') "Htile".
  iApply wp_alloc. iIntros (l') "Hl". iApply "HQ". iExists tile'. iFrame.
Qed.

Lemma wp_copy_leaves {A} (C : A → Object) array xs n Q :
  is_array (λ l x, l ↦□ C x)%I DfracDiscarded array xs -∗
  (∀ array', is_array (λ l x, l ↦ C x)%I (DfracOwn 1) array' xs -∗ Q array' n) -∗
  wp (copy_array copy_object array) n Q.
Proof.
  apply (wp_copy_array (λ l x, l ↦□ C x)%I (λ l x, l ↦ C x)%I).
  iIntros (e x n' Q') "He HQ". iApply (wp_copy_object with "He"). done.
Qed.

Lemma wp_copy_view l view n Q :
  is_view DfracDiscarded l view -∗
  (∀ l', is_view (DfracOwn 1) l' view -∗ Q l' n) -∗
  wp (copy_view l) n Q.
Proof.
  iIntros "Hl HQ".
  iDestruct "Hl" as (items connectors rectangles textBoxes)
    "(Hl & Hitems & Hconnectors & Hrectangles & HtextBoxes)".
  unfold copy_view.
  iApply wp_bind. iApply (wp_read with "Hl"). iIntros "_".
  iApply wp_bind.
  iApply (wp_copy_array (is_viewItem DfracDiscarded) (is_viewItem (DfracOwn 1))
          with "Hitems"); [apply wp_copy_viewItem|].
  iIntros (items') "Hitems".
  iApply wp_bind.
  iApply (wp_copy_optional (is_array (is_connector DfracDiscarded) DfracDiscarded)
            (is_array (is_connector (DfracOwn 1)) (DfracOwn 1)) with "Hconnectors").
  { iIntros (e x n' Q'). iApply (wp_copy_leaves ConnectorObject). }
  iIntros (connectors') "Hconnectors".
  iApply wp_bind.
  iApply (wp_copy_optional (is_array (is_rectangle DfracDiscarded) DfracDiscarded)
            (is_array (is_rectangle (DfracOwn 1)) (DfracOwn 1)) with "Hrectangles").
  { iIntros (e x n' Q'). iApply (wp_copy_leaves RectangleObject). }
  iIntros (rectangles') "Hrectangles".
  iApply wp_bind.
  iApply (wp_copy_optional (is_array (is_textBox DfracDiscarded) DfracDiscarded)
            (is_array (is_textBox (DfracOwn 1)) (DfracOwn 1)) with "HtextBoxes").
  { iIntros (e x n' Q'). iApply (wp_copy_leaves TextBoxObject). }
  iIntros (textBoxes') "HtextBoxes".
  iApply wp_alloc. iIntros (l') "Hl". iApply "HQ".
  iExists items', connectors', rectangles', textBoxes'. iFrame.
Qed.

Lemma wp_copy_model l m n Q :
  is_model DfracDiscarded l m -∗
  (∀ l', is_model (DfracOwn 1) l' m -∗ Q l' n) -∗
  wp (copy_model l) n Q.
Proof.
  iIntros "Hl HQ". iDestruct "Hl" as (items views) "(Hl & Hitems & Hviews)".
  unfold copy_model.
  iApply wp_bind. iApply (wp_read with "Hl"). iIntros "_".
  iApply wp_bind. iApply (wp_copy_leaves ModelItemObject with "Hitems").
  iIntros (items') "Hitems".
  iApply wp_bind.
  iApply (wp_copy_array (is_view DfracDiscarded) (is_view (DfracOwn 1))
          with "Hviews"); [apply wp_copy_view|].
  iIntros (views') "Hviews".
  iApply wp_alloc. iIntros (l') "Hl". iApply "HQ". iExists items', views'. iFrame.
Qed.

Lemma wp_produce base m recipe n Q :
  is_model DfracDiscarded base m -∗
  (∀ draft, is_model (DfracOwn 1) draft m -∗
            wp (recipe draft) n (λ _ n', Q draft n')) -∗
  wp (produce base recipe) n Q.
Proof.
  iIntros "Hbase Hrecipe". unfold produce.
  iApply wp_bind. iApply (wp_copy_model with "Hbase"). iIntros (draft) "Hdraft".
  iApply wp_bind. iApply (wp_wand with "[Hrecipe Hdraft]").
  { iApply ("Hrecipe" with "Hdraft"). }
  iIntros (_ n') "HQ". by iApply wp_ret.
Qed.

(** *** The class *)

Lemma wp_new l m n Q :
  m_views m ≠ [] →
  is_model (DfracOwn 1) l m -∗
  (∀ this, this ↦ StateObject l -∗ is_model (DfracOwn 1) l m -∗ Q this n) -∗
  wp (new l) n Q.
Proof.
  iIntros (Hviews) "Hl HQ". iDestruct "Hl" as (items views) "(Hl & Hitems & Hviews)".
  iDestruct "Hviews" as (es) "[Hviews Hes]".
  iDestruct (big_sepL2_length with "Hes") as %Hlength.
  unfold new.
  iApply wp_bind. iApply (wp_field with "Hl"); [done|]. iIntros "Hl".
  iApply wp_bind. iApply (wp_field with "Hviews"); [done|]. iIntros "Hviews".
  iApply wp_bind.
  destruct (length es =? 0)%nat eqn:Hes.
  { apply Nat.eqb_eq in Hes. rewrite Hes in Hlength. by destruct (m_views m). }
  iApply wp_ret. iApply wp_alloc. iIntros (this) "Hthis".
  iApply ("HQ" with "Hthis"). iExists items, views. iFrame.
Qed.

Lemma wp_viewId_or_primary viewId this base m n Q :
  m_views m ≠ [] →
  this ↦□ StateObject base -∗
  is_model DfracDiscarded base m -∗
  Q (resolved_viewId viewId {| model := m; scene := INITIAL_SCENE |}) n -∗
  wp (viewId_or_primary viewId this) n Q.
Proof.
  iIntros (Hviews) "#Hthis #Hbase HQ".
  iDestruct "Hbase" as (items views) "(Hl & Hitems & Hviews)".
  iDestruct "Hviews" as (es) "[Hviews Hes]".
  destruct (m_views m) as [|view0 views0] eqn:Hm; [done|].
  destruct es as [|e0 es]; [done|]. simpl.
  iDestruct "Hes" as "[He0 _]".
  iDestruct "He0" as (vitems connectors rectangles textBoxes) "[He0 _]".
  iAssert (∀ Q', Q' (view_id view0) n -∗
                 wp (let* view := primaryView this in
                     match view with
                     | Some view => field id_of view
                     | None => throw
                     end)%heap n Q')%I as "Hprimary".
  { iIntros (Q') "HQ'". unfold primaryView.
    iApply wp_bind. iApply wp_bind.
    iApply (wp_field with "Hthis"); [done|]. iIntros "_".
    iApply wp_bind. iApply (wp_field with "Hl"); [done|]. iIntros "_".
    iApply wp_bind. iApply (wp_field with "Hviews"); [done|]. iIntros "_".
    iApply wp_ret. simpl. iApply (wp_field with "He0"); [done|]. by iIntros "_". }
  unfold viewId_or_primary, resolved_viewId, JS.or_string, DiagramState.primaryView.
  simpl. rewrite Hm. simpl.
  destruct viewId as [viewId|]; [destruct (JS.truthy viewId)|].
  - by iApply wp_ret.
  - by iApply "Hprimary".
  - by iApply "Hprimary".
Qed.

Lemma wp_with_view viewId body draft m n Q :
  is_model (DfracOwn 1) draft m -∗
  match list_find (λ v, view_id v = viewId) (m_views m) with
  | Some (k, v) =>
      ∀ view, is_view (DfracOwn 1) view v -∗
              wp (body view) n (λ _ n',
                ∃ v', is_view (DfracOwn 1) view v' ∗
                      (is_model (DfracOwn 1) draft
                         (set_m_views (<[k := v']> (m_views m)) m) -∗ Q tt n'))
  | None => is_model (DfracOwn 1) draft m -∗ Q tt n
  end -∗
  wp (with_view viewId body draft) n Q.
Proof.
  iIntros "Hdraft HQ". iDestruct "Hdraft" as (items views) "(Hl & Hitems & Hviews)".
  unfold with_view.
  iApply wp_bind. iApply (wp_field with "Hl"); [done|]. iIntros "Hl".
  iApply wp_bind.
  iApply (wp_find (is_view (DfracOwn 1)) (has_id viewId) (λ v, view_id v = viewId)
          with "Hviews"); [apply reflects_view|].
  destruct (list_find (λ v, view_id v = viewId) (m_views m)) as [[k v]|].
  - iIntros (view) "Hview Hviews".
    iApply (wp_wand with "[HQ Hview]"); [iApply ("HQ" with "Hview")|].
    iIntros ([] n') "HQ". iDestruct "HQ" as (v') "[Hview HQ]".
    iApply "HQ". iExists items, views. simpl. iFrame. by iApply "Hviews".
  - iIntros "Hviews". iApply wp_ret. iApply "HQ". iExists items, views. iFrame.
Qed.

Lemma wp_with_view_pure viewId body (f : View → View) draft m n Q :
  (∀ view v n' Q', is_view (DfracOwn 1) view v -∗
                   (is_view (DfracOwn 1) view (f v) -∗ Q' tt n') -∗
                   wp (body view) n' Q') →
  is_model (DfracOwn 1) draft m -∗
  (is_model (DfracOwn 1) draft (DiagramState.with_view viewId f m) -∗ Q tt n) -∗
  wp (with_view viewId body draft) n Q.
Proof.
  iIntros (Hbody) "Hdraft HQ". iApply (wp_with_view with "Hdraft").
  unfold DiagramState.with_view.
  destruct (list_find (λ v, view_id v = viewId) (m_views m)) as [[k v]|]; [|done].
  iIntros (view) "Hview". iApply (Hbody with "Hview"). iIntros "Hview".
  iExists (f v). iFrame.
Qed.

(** *** The recipes

    Each recipe, run on a draft that holds the model [m], leaves the draft
    holding the model that the recipe of the embedding over values gives
    for [m]. *)

Ltac open_view :=
  iDestruct "Hview" as (items connectors rectangles textBoxes)
    "(Hl & Hitems & Hconnectors & Hrectangles & HtextBoxes)".

Lemma wp_push_connector view v e c n Q :
  is_view (DfracOwn 1) view v -∗
  is_connector (DfracOwn 1) e c -∗
  (is_view (DfracOwn 1) view
     (set_view_connectors (Some (JS.or_else (view_connectors v) [] ++ [c])) v) -∗
   Q tt n) -∗
  wp (push_optional connectors_of set_connectors view e) n Q.
Proof.
  iIntros "Hview He HQ". open_view. unfold push_optional, JS.or_else.
  iApply wp_bind. iApply (wp_field with "Hl"); [done|]. iIntros "Hl".
  iApply wp_bind.
  destruct connectors as [array|], (view_connectors v) as [xs|] eqn:Hv; simpl;
    try done.
  - iApply wp_ret. iApply (wp_push with "Hconnectors He"). iIntros "Harray".
    iApply "HQ". iExists items, (Some array), rectangles, textBoxes. simpl. iFrame.
  - iApply wp_bind. iApply wp_alloc. iIntros (array) "Harray".
    iApply wp_bind. iApply (wp_assign with "Hl"); [done|]. iIntros "Hl".
    iApply wp_ret.
    iApply (wp_push (is_connector (DfracOwn 1)) array e [] with "[Harray] He").
    { iExists []. by iFrame. }
    iIntros "Harray".
    iApply "HQ". iExists items, (Some array), rectangles, textBoxes. simpl. iFrame.
Qed.

Lemma wp_push_rectangle view v e r n Q :
  is_view (DfracOwn 1) view v -∗
  is_rectangle (DfracOwn 1) e r -∗
  (is_view (DfracOwn 1) view
     (set_view_rectangles (Some (JS.or_else (view_rectangles v) [] ++ [r])) v) -∗
   Q tt n) -∗
  wp (push_optional rectangles_of set_rectangles view e) n Q.
Proof.
  iIntros "Hview He HQ". open_view. unfold push_optional, JS.or_else.
  iApply wp_bind. iApply (wp_field with "Hl"); [done|]. iIntros "Hl".
  iApply wp_bind.
  destruct rectangles as [array|], (view_rectangles v) as [xs|] eqn:Hv; simpl;
    try done.
  - iApply wp_ret. iApply (wp_push with "Hrectangles He"). iIntros "Harray".
    iApply "HQ". iExists items, connectors, (Some array), textBoxes. simpl. iFrame.
  - iApply wp_bind. iApply wp_alloc. iIntros (array) "Harray".
    iApply wp_bind. iApply (wp_assign with "Hl"); [done|]. iIntros "Hl".
    iApply wp_ret.
    iApply (wp_push (is_rectangle (DfracOwn 1)) array e [] with "[Harray] He").
    { iExists []. by iFrame. }
    iIntros "Harray".
    iApply "HQ". iExists items, connectors, (Some array), textBoxes. simpl. iFrame.
Qed.

Lemma wp_push_textBox view v e t n Q :
  is_view (DfracOwn 1) view v -∗
  is_textBox (DfracOwn 1) e t -∗
  (is_view (DfracOwn 1) view
     (set_view_textBoxes (Some (JS.or_else (view_textBoxes v) [] ++ [t])) v) -∗
   Q tt n) -∗
  wp (push_optional textBoxes_of set_textBoxes view e) n Q.
Proof.
  iIntros "Hview He HQ". open_view. unfold push_optional, JS.or_else.
  iApply wp_bind. iApply (wp_field with "Hl"); [done|]. iIntros "Hl".
  iApply wp_bind.
  destruct textBoxes as [array|], (view_textBoxes v) as [xs|] eqn:Hv; simpl;
    try done.
  - iApply wp_ret. iApply (wp_push with "HtextBoxes He"). iIntros "Harray".
    iApply "HQ". iExists items, connectors, rectangles, (Some array). simpl. iFrame.
  - iApply wp_bind. iApply wp_alloc. iIntros (array) "Harray".
    iApply wp_bind. iApply (wp_assign with "Hl"); [done|]. iIntros "Hl".
    iApply wp_ret.
    iApply (wp_push (is_textBox (DfracOwn 1)) array e [] with "[Harray] He").
    { iExists []. by iFrame. }
    iIntros "Harray".
    iApply "HQ". iExists items, connectors, rectangles, (Some array). simpl. iFrame.
Qed.

Lemma wp_splice_connector id view v n Q :
  is_view (DfracOwn 1) view v -∗
  (is_view (DfracOwn 1) view
     match view_connectors v with
     | None => v
     | Some connectors =>
         set_view_connectors
           (Some (DiagramState.splice_first (λ c, cn_id c = id) connectors)) v
     end -∗
   Q tt n) -∗
  wp (splice_optional connectors_of id view) n Q.
Proof.
  iIntros "Hview HQ". open_view. unfold splice_optional.
  iApply wp_bind. iApply (wp_field with "Hl"); [done|]. iIntros "Hl".
  destruct connectors as [array|], (view_connectors v) as [xs|] eqn:Hv; simpl;
    try done.
  - iApply (wp_splice_first (is_connector (DfracOwn 1)) (has_id id)
              (λ c, cn_id c = id) with "Hconnectors");
      [apply reflects_connector|].
    iIntros "Harray".
    iApply "HQ". iExists items, (Some array), rectangles, textBoxes. simpl. iFrame.
  - iApply wp_ret. iApply "HQ". iExists items, None, rectangles, textBoxes.
    rewrite Hv. iFrame.
Qed.

Lemma wp_splice_rectangle id view v n Q :
  is_view (DfracOwn 1) view v -∗
  (is_view (DfracOwn 1) view
     match view_rectangles v with
     | None => v
     | Some rectangles =>
         set_view_rectangles
           (Some (DiagramState.splice_first (λ r, rect_id r = id) rectangles)) v
     end -∗
   Q tt n) -∗
  wp (splice_optional rectangles_of id view) n Q.
Proof.
  iIntros "Hview HQ". open_view. unfold splice_optional.
  iApply wp_bind. iApply (wp_field with "Hl"); [done|]. iIntros "Hl".
  destruct rectangles as [array|], (view_rectangles v) as [xs|] eqn:Hv; simpl;
    try done.
  - iApply (wp_splice_first (is_rectangle (DfracOwn 1)) (has_id id)
              (λ r, rect_id r = id) with "Hrectangles");
      [apply reflects_rectangle|].
    iIntros "Harray".
    iApply "HQ". iExists items, connectors, (Some array), textBoxes. simpl. iFrame.
  - iApply wp_ret. iApply "HQ". iExists items, connectors, None, textBoxes.
    rewrite Hv. iFrame.
Qed.

Lemma wp_splice_textBox id view v n Q :
  is_view (DfracOwn 1) view v -∗
  (is_view (DfracOwn 1) view
     match view_textBoxes v with
     | None => v
     | Some textBoxes =>
         set_view_textBoxes
           (Some (DiagramState.splice_first (λ t, tb_id t = id) textBoxes)) v
     end -∗
   Q tt n) -∗
  wp (splice_optional textBoxes_of id view) n Q.
Proof.
  iIntros "Hview HQ". open_view. unfold splice_optional.
  iApply wp_bind. iApply (wp_field with "Hl"); [done|]. iIntros "Hl".
  destruct textBoxes as [array|], (view_textBoxes v) as [xs|] eqn:Hv; simpl;
    try done.
  - iApply (wp_splice_first (is_textBox (DfracOwn 1)) (has_id id)
              (λ t, tb_id t = id) with "HtextBoxes");
      [apply reflects_textBox|].
    iIntros "Harray".
    iApply "HQ". iExists items, connectors, rectangles, (Some array). simpl. iFrame.
  - iApply wp_ret. iApply "HQ". iExists items, connectors, rectangles, None.
    rewrite Hv. iFrame.
Qed.

Lemma wp_removeConnector_recipe connectorId viewId draft m n Q :
  is_model (DfracOwn 1) draft m -∗
  (is_model (DfracOwn 1) draft
     (DiagramState.removeConnector_recipe connectorId viewId m) -∗ Q tt n) -∗
  wp (removeConnector_recipe connectorId viewId draft) n Q.
Proof.
  iIntros "Hdraft HQ". unfold DiagramState.removeConnector_recipe.
  iApply (wp_with_view_pure with "Hdraft HQ").
  iIntros (view v n' Q') "Hview HQ". iApply (wp_splice_connector with "Hview HQ").
Qed.

Lemma wp_removeRectangle_recipe rectangleId viewId draft m n Q :
  is_model (DfracOwn 1) draft m -∗
  (is_model (DfracOwn 1) draft
     (DiagramState.removeRectangle_recipe rectangleId viewId m) -∗ Q tt n) -∗
  wp (removeRectangle_recipe rectangleId viewId draft) n Q.
Proof.
  iIntros "Hdraft HQ". unfold DiagramState.removeRectangle_recipe.
  iApply (wp_with_view_pure with "Hdraft HQ").
  iIntros (view v n' Q') "Hview HQ". iApply (wp_splice_rectangle with "Hview HQ").
Qed.

Lemma wp_removeTextBox_recipe textBoxId viewId draft m n Q :
  is_model (DfracOwn 1) draft m -∗
  (is_model (DfracOwn 1) draft
     (DiagramState.removeTextBox_recipe textBoxId viewId m) -∗ Q tt n) -∗
  wp (removeTextBox_recipe textBoxId viewId draft) n Q.
Proof.
  iIntros "Hdraft HQ". unfold DiagramState.removeTextBox_recipe.
  iApply (wp_with_view_pure with "Hdraft HQ").
  iIntros (view v n' Q') "Hview HQ". iApply (wp_splice_textBox with "Hview HQ").
Qed.

Lemma wp_addRectangle_recipe rectId viewId params draft m n Q :
  is_model (DfracOwn 1) draft m -∗
  (is_model (DfracOwn 1) draft
     (DiagramState.addRectangle_recipe rectId viewId params m) -∗ Q tt n) -∗
  wp (addRectangle_recipe rectId viewId params draft) n Q.
Proof.
  iIntros "Hdraft HQ". unfold DiagramState.addRectangle_recipe.
  iApply (wp_with_view_pure with "Hdraft HQ").
  iIntros (view v n' Q') "Hview HQ".
  iApply wp_bind. iApply wp_alloc. iIntros (rectangle) "Hrectangle".
  iApply (wp_push_rectangle with "Hview Hrectangle HQ").
Qed.

Lemma wp_addTextBox_recipe textBoxId viewId params draft m n Q :
  is_model (DfracOwn 1) draft m -∗
  (is_model (DfracOwn 1) draft
     (DiagramState.addTextBox_recipe textBoxId viewId params m) -∗ Q tt n) -∗
  wp (addTextBox_recipe textBoxId viewId params draft) n Q.
Proof.
  iIntros "Hdraft HQ". unfold DiagramState.addTextBox_recipe.
  iApply (wp_with_view_pure with "Hdraft HQ").
  iIntros (view v n' Q') "Hview HQ".
  iApply wp_bind. iApply wp_alloc. iIntros (textBox) "HtextBox".
  iApply (wp_push_textBox with "Hview HtextBox HQ").
Qed.

Lemma wp_setTitle_recipe title draft m n Q :
  is_model (DfracOwn 1) draft m -∗
  (is_model (DfracOwn 1) draft (set_m_title title m) -∗ Q tt n) -∗
  wp (assign (set_title title) draft) n Q.
Proof.
  iIntros "Hdraft HQ". iDestruct "Hdraft" as (items views) "(Hl & Hitems & Hviews)".
  iApply (wp_assign with "Hl"); [done|]. iIntros "Hl".
  iApply "HQ". iExists items, views. simpl. iFrame.
Qed.

Lemma wp_setDescription_recipe description draft m n Q :
  is_model (DfracOwn 1) draft m -∗
  (is_model (DfracOwn 1) draft (set_m_description (Some description) m) -∗
   Q tt n) -∗
  wp (assign (set_description (Some description)) draft) n Q.
Proof.
  iIntros "Hdraft HQ". iDestruct "Hdraft" as (items views) "(Hl & Hitems & Hviews)".
  iApply (wp_assign with "Hl"); [done|]. iIntros "Hl".
  iApply "HQ". iExists items, views. simpl. iFrame.
Qed.

Lemma wp_addNode_view nodeId params view v n Q :
  is_view (DfracOwn 1) view v -∗
  (is_view (DfracOwn 1) view
     (set_view_items
        (view_items v ++
         [{| vi_id := nodeId;
             vi_tile := {| co_x := addNode_x params; co_y := addNode_y params |};
             vi_labelHeight :=
               Some (JS.or_else (addNode_labelHeight params)
                                DEFAULT_LABEL_HEIGHT) |}]) v) -∗
   Q tt n) -∗
  wp (addNode_view nodeId params view) n Q.
Proof.
  iIntros "Hview HQ". unfold addNode_view.
  iApply wp_bind. iApply wp_alloc. iIntros (tile) "Htile".
  iApply wp_bind. iApply wp_alloc. iIntros (viewItem) "HviewItem".
  open_view.
  iApply wp_bind. iApply (wp_field with "Hl"); [done|]. iIntros "Hl".
  iApply (wp_push (is_viewItem (DfracOwn 1)) _ viewItem _
            {| vi_id := nodeId;
               vi_tile := {| co_x := addNode_x params; co_y := addNode_y params |};
               vi_labelHeight :=
                 Some (JS.or_else (addNode_labelHeight params)
                                  DEFAULT_LABEL_HEIGHT) |}
          with "Hitems [Htile HviewItem]").
  { iExists tile. iFrame. }
  iIntros "Hitems". iApply "HQ".
  iExists items, connectors, rectangles, textBoxes. simpl. iFrame.
Qed.

Lemma wp_addNode_recipe nodeId viewId params draft m n Q :
  is_model (DfracOwn 1) draft m -∗
  (is_model (DfracOwn 1) draft
     (DiagramState.addNode_recipe nodeId viewId params m) -∗ Q tt n) -∗
  wp (addNode_recipe nodeId viewId params draft) n Q.
Proof.
  iIntros "Hdraft HQ". unfold addNode_recipe, DiagramState.addNode_recipe.
  cbv zeta.
  iApply wp_bind. iApply wp_alloc. iIntros (modelItem) "HmodelItem".
  iDestruct "Hdraft" as (items views) "(Hl & Hitems & Hviews)".
  iApply wp_bind. iApply (wp_field with "Hl"); [done|]. iIntros "Hl".
  iApply wp_bind.
  iApply (wp_push (is_item (DfracOwn 1)) with "Hitems HmodelItem").
  iIntros "Hitems".
  iAssert (is_model (DfracOwn 1) draft
             (set_m_items
                (m_items m ++
                 [{| mi_id := nodeId; mi_name := addNode_name params;
                     mi_description := addNode_description params;
                     mi_icon := addNode_icon params |}]) m))
    with "[Hl Hitems Hviews]" as "Hdraft".
  { iExists items, views. simpl. iFrame. }
  iApply (wp_with_view_pure with "Hdraft HQ").
  iIntros (view v n' Q') "Hview HQ". iApply (wp_addNode_view with "Hview HQ").
Qed.

Lemma wp_updateNode_item params e item n Q :
  is_item (DfracOwn 1) e item -∗
  (is_item (DfracOwn 1) e (DiagramState.updateNode_item params item) -∗ Q tt n) -∗
  wp (updateNode_item params e) n Q.
Proof.
  iIntros "He HQ". unfold updateNode_item, is_item.
  iApply wp_bind. iApply (wp_assign_defined with "He"); [by eexists|].
  iIntros "He".
  iApply wp_bind.
  iApply (wp_assign_defined with "He");
    [by intros; destruct (updNode_name params); eexists|].
  iIntros "He".
  iApply (wp_assign_defined with "He");
    [by intros; destruct (updNode_name params), (updNode_icon params); eexists|].
  iIntros "He". iApply "HQ".
  unfold DiagramState.updateNode_item, JS.or_else.
  by destruct (updNode_name params), (updNode_icon params),
    (updNode_description params), item.
Qed.

Lemma wp_updateNode_viewItem params e viewItem n Q :
  is_viewItem (DfracOwn 1) e viewItem -∗
  (is_viewItem (DfracOwn 1) e (DiagramState.updateNode_viewItem params viewItem) -∗
   Q tt n) -∗
  wp (updateNode_viewItem params e) n Q.
Proof.
  iIntros "He HQ". iDestruct "He" as (tile) "[He Htile]".
  unfold updateNode_viewItem, is_coords.
  iApply wp_bind.
  iAssert (∀ Q', (e ↦ ViewItemObject (vi_id viewItem) tile (vi_labelHeight viewItem) -∗
                  tile ↦ CoordsObject
                    {| co_x := JS.or_else (updNode_x params) (co_x (vi_tile viewItem));
                       co_y := co_y (vi_tile viewItem) |} -∗ Q' tt n) -∗
                 wp match updNode_x params with
                    | Some x => (let* tile := field tile_of e in assign (set_x x) tile)%heap
                    | None => ret tt
                    end n Q')%I with "[He Htile]" as "Hx".
  { iIntros (Q') "HQ'". destruct (updNode_x params) as [x|]; simpl.
    - iApply wp_bind. iApply (wp_field with "He"); [done|]. iIntros "He".
      iApply (wp_assign with "Htile"); [done|]. iIntros "Htile".
      iApply ("HQ'" with "He Htile").
    - iApply wp_ret. iApply ("HQ'" with "He [Htile]"). by destruct (vi_tile viewItem). }
  iApply "Hx". iIntros "He Htile".
  iApply wp_bind.
  iAssert (∀ Q', (e ↦ ViewItemObject (vi_id viewItem) tile (vi_labelHeight viewItem) -∗
                  tile ↦ CoordsObject
                    {| co_x := JS.or_else (updNode_x params) (co_x (vi_tile viewItem));
                       co_y := JS.or_else (updNode_y params) (co_y (vi_tile viewItem)) |}
                  -∗ Q' tt n) -∗
                 wp match updNode_y params with
                    | Some y => (let* tile := field tile_of e in assign (set_y y) tile)%heap
                    | None => ret tt
                    end n Q')%I with "[He Htile]" as "Hy".
  { iIntros (Q') "HQ'". destruct (updNode_y params) as [y|]; simpl.
    - iApply wp_bind. iApply (wp_field with "He"); [done|]. iIntros "He".
      iApply (wp_assign with "Htile"); [done|]. iIntros "Htile".
      iApply ("HQ'" with "He Htile").
    - iApply wp_ret. iApply ("HQ'" with "He Htile"). }
  iApply "Hy". iIntros "He Htile".
  iApply (wp_assign_defined with "He"); [by eexists|]. iIntros "He".
  iApply "HQ". iExists tile. unfold DiagramState.updateNode_viewItem. simpl.
  iFrame "Htile". by destruct (updNode_labelHeight params).
Qed.

Lemma wp_updateNode_view params view v n Q :
  is_view (DfracOwn 1) view v -∗
  (is_view (DfracOwn 1) view
     match list_find (λ i, vi_id i = updNode_nodeId params) (view_items v) with
     | Some (k, viewItem) =>
         set_view_items
           (<[k := DiagramState.updateNode_viewItem params viewItem]> (view_items v)) v
     | None => v
     end -∗
   Q tt n) -∗
  wp (updateNode_view params view) n Q.
Proof.
  iIntros "Hview HQ". open_view. unfold updateNode_view.
  iApply wp_bind. iApply (wp_field with "Hl"); [done|]. iIntros "Hl".
  iApply wp_bind.
  iApply (wp_find (is_viewItem (DfracOwn 1)) (has_id (updNode_nodeId params))
            (λ i, vi_id i = updNode_nodeId params) with "Hitems");
    [apply reflects_viewItem|].
  destruct (list_find (λ i, vi_id i = updNode_nodeId params) (view_items v))
    as [[k viewItem]|].
  - iIntros (e) "He Hitems". iApply (wp_updateNode_viewItem with "He").
    iIntros "He". iApply "HQ".
    iExists items, connectors, rectangles, textBoxes. simpl. iFrame.
    by iApply "Hitems".
  - iIntros "Hitems". iApply wp_ret. iApply "HQ".
    iExists items, connectors, rectangles, textBoxes. iFrame.
Qed.

Lemma wp_updateNode_recipe viewId params draft m n Q :
  is_model (DfracOwn 1) draft m -∗
  (is_model (DfracOwn 1) draft (DiagramState.updateNode_recipe viewId params m) -∗
   Q tt n) -∗
  wp (updateNode_recipe viewId params draft) n Q.
Proof.
  iIntros "Hdraft HQ". unfold updateNode_recipe, DiagramState.updateNode_recipe.
  cbv zeta.
  iDestruct "Hdraft" as (items views) "(Hl & Hitems & Hviews)".
  iApply wp_bind. iApply (wp_field with "Hl"); [done|]. iIntros "Hl".
  iApply wp_bind.
  iApply (wp_find (is_item (DfracOwn 1)) (has_id (updNode_nodeId params))
            (λ i, mi_id i = updNode_nodeId params) with "Hitems");
    [apply reflects_item|].
  destruct (list_find (λ i, mi_id i = updNode_nodeId params) (m_items m))
    as [[k item]|].
  - iIntros (e) "He Hitems". iApply wp_bind.
    iApply (wp_updateNode_item with "He"). iIntros "He".
    iSpecialize ("Hitems" with "He").
    iAssert (is_model (DfracOwn 1) draft
               (set_m_items
                  (<[k := DiagramState.updateNode_item params item]> (m_items m)) m))
      with "[Hl Hitems Hviews]" as "Hdraft".
    { iExists items, views. simpl. iFrame. }
    iApply (wp_with_view_pure with "Hdraft HQ").
    iIntros (view v n' Q') "Hview HQ". iApply (wp_updateNode_view with "Hview HQ").
  - iIntros "Hitems". iApply wp_bind. iApply wp_ret.
    iAssert (is_model (DfracOwn 1) draft m) with "[Hl Hitems Hviews]" as "Hdraft".
    { iExists items, views. iFrame. }
    iApply (wp_with_view_pure with "Hdraft HQ").
    iIntros (view v n' Q') "Hview HQ". iApply (wp_updateNode_view with "Hview HQ").
Qed.

Lemma wp_removeNode_view nodeId view v n Q :
  is_view (DfracOwn 1) view v -∗
  (is_view (DfracOwn 1) view (DiagramState.removeNode_view nodeId v) -∗ Q tt n) -∗
  wp (removeNode_view nodeId view) n Q.
Proof.
  iIntros "Hview HQ". open_view.
  unfold removeNode_view, DiagramState.removeNode_view. cbv zeta.
  iApply wp_bind. iApply (wp_field with "Hl"); [done|]. iIntros "Hl".
  iApply wp_bind.
  iApply (wp_splice_first (is_viewItem (DfracOwn 1)) (has_id nodeId)
            (λ i, vi_id i = nodeId) with "Hitems"); [apply reflects_viewItem|].
  iIntros "Hitems".
  iApply wp_bind. iApply (wp_field with "Hl"); [done|]. iIntros "Hl". simpl.
  destruct connectors as [array|], (view_connectors v) as [xs|] eqn:Hv; simpl;
    try done.
  - iApply wp_bind.
    iApply (wp_filter (is_connector (DfracOwn 1)) (λ o, ¬ anchored nodeId o)
              (λ c, ¬ DiagramState.references nodeId c) with "Hconnectors");
      [apply reflects_anchored|].
    iIntros (kept) "Hkept".
    iApply (wp_assign with "Hl"); [done|]. iIntros "Hl". iApply "HQ".
    iExists items, (Some kept), rectangles, textBoxes. simpl. iFrame.
  - iApply wp_ret. iApply "HQ". iExists items, None, rectangles, textBoxes.
    simpl. rewrite Hv. iFrame.
Qed.

Lemma wp_removeNode_recipe nodeId viewId draft m n Q :
  is_model (DfracOwn 1) draft m -∗
  (is_model (DfracOwn 1) draft (DiagramState.removeNode_recipe nodeId viewId m) -∗
   Q tt n) -∗
  wp (removeNode_recipe nodeId viewId draft) n Q.
Proof.
  iIntros "Hdraft HQ". unfold removeNode_recipe, DiagramState.removeNode_recipe.
  cbv zeta.
  iDestruct "Hdraft" as (items views) "(Hl & Hitems & Hviews)".
  iApply wp_bind. iApply (wp_field with "Hl"); [done|]. iIntros "Hl".
  iApply wp_bind.
  iApply (wp_splice_first (is_item (DfracOwn 1)) (has_id nodeId)
            (λ i, mi_id i = nodeId) with "Hitems"); [apply reflects_item|].
  iIntros "Hitems".
  iAssert (is_model (DfracOwn 1) draft
             (set_m_items
                (DiagramState.splice_first (λ i, mi_id i = nodeId) (m_items m)) m))
    with "[Hl Hitems Hviews]" as "Hdraft".
  { iExists items, views. simpl. iFrame. }
  iApply (wp_with_view_pure with "Hdraft HQ").
  iIntros (view v n' Q') "Hview HQ". iApply (wp_removeNode_view with "Hview HQ").
Qed.

Lemma wp_updateConnector_connector params e connector n Q :
  is_connector (DfracOwn 1) e connector -∗
  (is_connector (DfracOwn 1) e
     (DiagramState.updateConnector_connector params connector) -∗ Q tt n) -∗
  wp (updateConnector_connector params e) n Q.
Proof.
  iIntros "He HQ". unfold updateConnector_connector, is_connector.
  iApply wp_bind. iApply (wp_assign_defined with "He"); [by eexists|].
  iIntros "He".
  iApply wp_bind.
  iApply (wp_assign_defined with "He");
    [by intros; destruct (updConn_style params); eexists|].
  iIntros "He".
  iApply wp_bind.
  iApply (wp_assign_defined with "He");
    [by intros; destruct (updConn_style params), (updConn_lineType params);
        eexists|].
  iIntros "He".
  iApply wp_bind.
  iApply (wp_assign_defined with "He");
    [by intros; destruct (updConn_style params), (updConn_lineType params),
          (updConn_color params); eexists|].
  iIntros "He".
  iApply (wp_assign_defined with "He");
    [by intros; destruct (updConn_style params), (updConn_lineType params),
          (updConn_color params), (updConn_showArrow params); eexists|].
  iIntros "He". iApply "HQ".
  unfold DiagramState.updateConnector_connector.
  by destruct (updConn_style params), (updConn_lineType params),
    (updConn_color params), (updConn_showArrow params), (updConn_label params),
    connector.
Qed.

Lemma wp_updateConnector_view params view v n Q :
  is_view (DfracOwn 1) view v -∗
  (is_view (DfracOwn 1) view
     match view_connectors v with
     | None => v
     | Some connectors =>
         match list_find (λ c, cn_id c = updConn_connectorId params) connectors with
         | None => v
         | Some (k, connector) =>
             set_view_connectors
               (Some (<[k := DiagramState.updateConnector_connector params connector]>
                        connectors)) v
         end
     end -∗
   Q tt n) -∗
  wp (updateConnector_view params view) n Q.
Proof.
  iIntros "Hview HQ". open_view. unfold updateConnector_view.
  iApply wp_bind. iApply (wp_field with "Hl"); [done|]. iIntros "Hl".
  destruct connectors as [array|], (view_connectors v) as [xs|] eqn:Hv; simpl;
    try done.
  - iApply wp_bind.
    iApply (wp_find (is_connector (DfracOwn 1)) (has_id (updConn_connectorId params))
              (λ c, cn_id c = updConn_connectorId params) with "Hconnectors");
      [apply reflects_connector|].
    destruct (list_find (λ c, cn_id c = updConn_connectorId params) xs)
      as [[k connector]|].
    + iIntros (e) "He Harray". iApply (wp_updateConnector_connector with "He").
      iIntros "He". iApply "HQ".
      iExists items, (Some array), rectangles, textBoxes. simpl. iFrame.
      by iApply "Harray".
    + iIntros "Harray". iApply wp_ret. iApply "HQ".
      iExists items, (Some array), rectangles, textBoxes. rewrite Hv. iFrame.
  - iApply wp_ret. iApply "HQ". iExists items, None, rectangles, textBoxes.
    rewrite Hv. iFrame.
Qed.

Lemma wp_updateConnector_recipe viewId params draft m n Q :
  is_model (DfracOwn 1) draft m -∗
  (is_model (DfracOwn 1) draft
     (DiagramState.updateConnector_recipe viewId params m) -∗ Q tt n) -∗
  wp (updateConnector_recipe viewId params draft) n Q.
Proof.
  iIntros "Hdraft HQ". unfold DiagramState.updateConnector_recipe.
  iApply (wp_with_view_pure with "Hdraft HQ").
  iIntros (view v n' Q') "Hview HQ". iApply (wp_updateConnector_view with "Hview HQ").
Qed.

Lemma wp_addConnector_view connectorId params view v n Q :
  is_view (DfracOwn 1) view v -∗
  (∀ n', is_view (DfracOwn 1) view
           (addConnector_view_result connectorId (src n) (src (S n)) params v) -∗
         Q tt n') -∗
  wp (addConnector_view connectorId params view) n Q.
Proof.
  iIntros "Hview HQ". open_view.
  unfold addConnector_view, addConnector_view_result, DiagramState.placed.
  iApply wp_bind. iApply (wp_field with "Hl"); [done|]. iIntros "Hl".
  iApply wp_bind.
  iApply (wp_some (is_viewItem (DfracOwn 1)) (has_id (addConn_fromNodeId params))
            (λ i, vi_id i = addConn_fromNodeId params) with "Hitems");
    [apply reflects_viewItem|].
  iIntros "Hitems". iApply wp_bind.
  iApply (wp_some (is_viewItem (DfracOwn 1)) (has_id (addConn_toNodeId params))
            (λ i, vi_id i = addConn_toNodeId params) with "Hitems");
    [apply reflects_viewItem|].
  iIntros "Hitems".
  iAssert (is_view (DfracOwn 1) view v)
    with "[Hl Hitems Hconnectors Hrectangles HtextBoxes]" as "Hview".
  { iExists items, connectors, rectangles, textBoxes. iFrame. }
  destruct (decide (Exists (λ i, vi_id i = addConn_fromNodeId params) (view_items v)))
    as [Hfrom|Hfrom];
    [destruct (decide (Exists (λ i, vi_id i = addConn_toNodeId params)
                         (view_items v))) as [Hto|Hto]|].
  - rewrite !bool_decide_eq_true_2 //. simpl.
    iApply wp_bind. iApply wp_uuidv4. iApply wp_bind. iApply wp_uuidv4.
    iApply wp_bind. iApply wp_alloc. iIntros (connector) "Hconnector".
    iApply (wp_push_connector with "Hview Hconnector"). iApply "HQ".
  - rewrite (bool_decide_eq_true_2 _ Hfrom) !(bool_decide_eq_false_2 _ Hto) /=.
    iApply wp_ret. by iApply "HQ".
  - rewrite !(bool_decide_eq_false_2 _ Hfrom) /=.
    iApply wp_ret. by iApply "HQ".
Qed.

Lemma wp_addConnector_recipe connectorId viewId params draft m n Q :
  is_model (DfracOwn 1) draft m -∗
  (∀ n', is_model (DfracOwn 1) draft
           (addConnector_result connectorId (src n) (src (S n)) viewId params m) -∗
         Q tt n') -∗
  wp (addConnector_recipe connectorId viewId params draft) n Q.
Proof.
  iIntros "Hdraft HQ". unfold addConnector_recipe, addConnector_result.
  iApply (wp_with_view with "Hdraft").
  destruct (list_find (λ v, view_id v = viewId) (m_views m)) as [[k v]|].
  - iIntros (view) "Hview". iApply (wp_addConnector_view with "Hview").
    iIntros (n') "Hview". iExists _. iFrame "Hview". iApply "HQ".
  - iApply "HQ".
Qed.

(** *** The methods *)

(** The end of every method:
    [new DiagramState(produce(this.model, recipe))]. *)
Lemma wp_produce_new recipe (m' : Model) this base m n Q :
  (∀ draft, is_model (DfracOwn 1) draft m -∗
            wp (recipe draft) n (λ _ n', is_model (DfracOwn 1) draft m' ∗
                                         (∀ this', this' ↦ StateObject draft -∗
                                                   is_model (DfracOwn 1) draft m' -∗
                                                   Q this' n'))) -∗
  ⌜m_views m' ≠ []⌝ -∗
  this ↦□ StateObject base -∗
  is_model DfracDiscarded base m -∗
  wp (let* model := field model_of this in
      let* newModel := produce model recipe in
      new newModel)%heap n Q.
Proof.
  iIntros "Hrecipe %Hviews #Hthis #Hbase".
  iApply wp_bind. iApply (wp_field with "Hthis"); [done|]. iIntros "_".
  iApply wp_bind. iApply (wp_produce with "Hbase"). iIntros (draft) "Hdraft".
  iApply (wp_wand with "[Hrecipe Hdraft]"); [iApply ("Hrecipe" with "Hdraft")|].
  iIntros (_ n') "[Hdraft HQ]".
  iApply (wp_new with "Hdraft"); [done|]. iIntros (this') "Hthis' Hdraft".
  iApply ("HQ" with "Hthis' Hdraft").
Qed.

Lemma wp_mutate op this base m n w Q :
  uuid_source w = src →
  uuid_next w = n →
  m_views m ≠ [] →
  this ↦□ StateObject base -∗
  is_model DfracDiscarded base m -∗
  (∀ this' base' m' n',
     ⌜returned (DiagramState.mutate op {| model := m; scene := INITIAL_SCENE |}) w
      = Some {| model := m'; scene := INITIAL_SCENE |}⌝ -∗
     this' ↦ StateObject base' -∗
     is_model (DfracOwn 1) base' m' -∗
     Q this' n') -∗
  wp (mutate op this) n Q.
Proof.
  iIntros (Hsrc Hn Hviews) "#Hthis #Hbase HQ".
  set (self := {| model := m; scene := INITIAL_SCENE |}).
  assert (next_uuid w = src n) as Hnext by (unfold next_uuid; by rewrite Hsrc Hn).
  destruct op; simpl.
  - unfold addNode. iApply wp_bind. iApply wp_uuidv4.
    iApply wp_bind. iApply (wp_viewId_or_primary with "Hthis Hbase"); [done|].
    iApply (wp_produce_new with "[HQ] [] Hthis Hbase").
    + iIntros (draft) "Hdraft". iApply (wp_addNode_recipe with "Hdraft").
      iIntros "Hdraft". iFrame "Hdraft". iIntros (this') "Hthis' Hdraft".
      iApply ("HQ" with "[] Hthis' Hdraft"). iPureIntro. rewrite -Hnext.
      apply (returned_constructed _ w _ (tick w)); [|done].
      by apply (addNode_run params self w).
    + iPureIntro. unfold DiagramState.addNode_recipe.
      by apply with_view_nonempty.
  - unfold updateNode.
    iApply wp_bind. iApply (wp_viewId_or_primary with "Hthis Hbase"); [done|].
    iApply (wp_produce_new with "[HQ] [] Hthis Hbase").
    + iIntros (draft) "Hdraft". iApply (wp_updateNode_recipe with "Hdraft").
      iIntros "Hdraft". iFrame "Hdraft". iIntros (this') "Hthis' Hdraft".
      iApply ("HQ" with "[] Hthis' Hdraft"). iPureIntro.
      apply (returned_constructed _ w _ w); [|done].
      by apply (updateNode_run params self w).
    + iPureIntro. unfold DiagramState.updateNode_recipe.
      apply with_view_nonempty.
      by destruct (list_find _ (m_items m)) as [[k item]|].
  - unfold removeNode.
    iApply wp_bind. iApply (wp_viewId_or_primary with "Hthis Hbase"); [done|].
    iApply (wp_produce_new with "[HQ] [] Hthis Hbase").
    + iIntros (draft) "Hdraft". iApply (wp_removeNode_recipe with "Hdraft").
      iIntros "Hdraft". iFrame "Hdraft". iIntros (this') "Hthis' Hdraft".
      iApply ("HQ" with "[] Hthis' Hdraft"). iPureIntro.
      apply (returned_constructed _ w _ w); [|done].
      by apply (removeNode_run nodeId viewId self w).
    + iPureIntro. unfold DiagramState.removeNode_recipe.
      by apply with_view_nonempty.
  - unfold addConnector. iApply wp_bind. iApply wp_uuidv4.
    iApply wp_bind. iApply (wp_viewId_or_primary with "Hthis Hbase"); [done|].
    iApply (wp_produce_new with "[HQ] [] Hthis Hbase").
    + iIntros (draft) "Hdraft". iApply (wp_addConnector_recipe with "Hdraft").
      iIntros (n') "Hdraft". iFrame "Hdraft". iIntros (this') "Hthis' Hdraft".
      iApply ("HQ" with "[] Hthis' Hdraft"). iPureIntro.
      rewrite (addConnector_returned params self w Hviews).
      unfold next_uuid, tick. simpl. by rewrite Hsrc Hn.
    + iPureIntro. by apply addConnector_result_nonempty.
  - unfold updateConnector.
    iApply wp_bind. iApply (wp_viewId_or_primary with "Hthis Hbase"); [done|].
    iApply (wp_produce_new with "[HQ] [] Hthis Hbase").
    + iIntros (draft) "Hdraft". iApply (wp_updateConnector_recipe with "Hdraft").
      iIntros "Hdraft". iFrame "Hdraft". iIntros (this') "Hthis' Hdraft".
      iApply ("HQ" with "[] Hthis' Hdraft"). iPureIntro.
      apply (returned_constructed _ w _ w); [|done].
      by apply (updateConnector_run params self w).
    + iPureIntro. by apply with_view_nonempty.
  - unfold removeConnector.
    iApply wp_bind. iApply (wp_viewId_or_primary with "Hthis Hbase"); [done|].
    iApply (wp_produce_new with "[HQ] [] Hthis Hbase").
    + iIntros (draft) "Hdraft". iApply (wp_removeConnector_recipe with "Hdraft").
      iIntros "Hdraft". iFrame "Hdraft". iIntros (this') "Hthis' Hdraft".
      iApply ("HQ" with "[] Hthis' Hdraft"). iPureIntro.
      apply (returned_constructed _ w _ w); [|done].
      by apply (removeConnector_run connectorId viewId self w).
    + iPureIntro. by apply with_view_nonempty.
  - unfold addRectangle. iApply wp_bind. iApply wp_uuidv4.
    iApply wp_bind. iApply (wp_viewId_or_primary with "Hthis Hbase"); [done|].
    iApply (wp_produce_new with "[HQ] [] Hthis Hbase").
    + iIntros (draft) "Hdraft". iApply (wp_addRectangle_recipe with "Hdraft").
      iIntros "Hdraft". iFrame "Hdraft". iIntros (this') "Hthis' Hdraft".
      iApply ("HQ" with "[] Hthis' Hdraft"). iPureIntro. rewrite -Hnext.
      apply (returned_constructed _ w _ (tick w)); [|done].
      by apply (addRectangle_run params self w).
    + iPureIntro. by apply with_view_nonempty.
  - unfold removeRectangle.
    iApply wp_bind. iApply (wp_viewId_or_primary with "Hthis Hbase"); [done|].
    iApply (wp_produce_new with "[HQ] [] Hthis Hbase").
    + iIntros (draft) "Hdraft". iApply (wp_removeRectangle_recipe with "Hdraft").
      iIntros "Hdraft". iFrame "Hdraft". iIntros (this') "Hthis' Hdraft".
      iApply ("HQ" with "[] Hthis' Hdraft"). iPureIntro.
      apply (returned_constructed _ w _ w); [|done].
      by apply (removeRectangle_run rectangleId viewId self w).
    + iPureIntro. by apply with_view_nonempty.
  - unfold addTextBox. iApply wp_bind. iApply wp_uuidv4.
    iApply wp_bind. iApply (wp_viewId_or_primary with "Hthis Hbase"); [done|].
    iApply (wp_produce_new with "[HQ] [] Hthis Hbase").
    + iIntros (draft) "Hdraft". iApply (wp_addTextBox_recipe with "Hdraft").
      iIntros "Hdraft". iFrame "Hdraft". iIntros (this') "Hthis' Hdraft".
      iApply ("HQ" with "[] Hthis' Hdraft"). iPureIntro. rewrite -Hnext.
      apply (returned_constructed _ w _ (tick w)); [|done].
      by apply (addTextBox_run params self w).
    + iPureIntro. by apply with_view_nonempty.
  - unfold removeTextBox.
    iApply wp_bind. iApply (wp_viewId_or_primary with "Hthis Hbase"); [done|].
    iApply (wp_produce_new with "[HQ] [] Hthis Hbase").
    + iIntros (draft) "Hdraft". iApply (wp_removeTextBox_recipe with "Hdraft").
      iIntros "Hdraft". iFrame "Hdraft". iIntros (this') "Hthis' Hdraft".
      iApply ("HQ" with "[] Hthis' Hdraft"). iPureIntro.
      apply (returned_constructed _ w _ w); [|done].
      by apply (removeTextBox_run textBoxId viewId self w).
    + iPureIntro. by apply with_view_nonempty.
  - unfold setTitle.
    iApply (wp_produce_new with "[HQ] [] Hthis Hbase").
    + iIntros (draft) "Hdraft". iApply (wp_setTitle_recipe with "Hdraft").
      iIntros "Hdraft". iFrame "Hdraft". iIntros (this') "Hthis' Hdraft".
      iApply ("HQ" with "[] Hthis' Hdraft"). iPureIntro.
      apply (returned_constructed _ w _ w); [|done].
      by apply (setTitle_run title self w).
    + done.
  - unfold setDescription.
    iApply (wp_produce_new with "[HQ] [] Hthis Hbase").
    + iIntros (draft) "Hdraft". iApply (wp_setDescription_recipe with "Hdraft").
      iIntros "Hdraft". iFrame "Hdraft". iIntros (this') "Hthis' Hdraft".
      iApply ("HQ" with "[] Hthis' Hdraft"). iPureIntro.
      apply (returned_constructed _ w _ w); [|done].
      by apply (setDescription_run description self w).
    + done.
Qed.

(** *** Object graphs of given models *)

Lemma wp_store_array {A} (R : loc → A → iProp Σ) store xs n Q :
  (∀ x n Q, (∀ e, R e x -∗ Q e n) -∗ wp (store x) n Q) →
  (∀ l, is_array R (DfracOwn 1) l xs -∗ Q l n) -∗
  wp (store_array store xs) n Q.
Proof.
  iIntros (Hstore) "HQ". unfold store_array. iApply wp_bind.
  iAssert (∀ Q', (∀ es, ([∗ list] e;x ∈ es;xs, R e x) -∗ Q' es n) -∗
                 wp (traverse store xs) n Q')%I as "Helements".
  { iInduction xs as [|x xs] "IH"; iIntros (Q') "HQ'"; simpl.
    - iApply wp_ret. by iApply "HQ'".
    - iApply wp_bind. iApply Hstore. iIntros (e) "He".
      iApply wp_bind. iApply "IH". iIntros (es) "Hes".
      iApply wp_ret. iApply "HQ'". simpl. iFrame. }
  iApply "Helements". iIntros (es) "Hes".
  iApply wp_alloc. iIntros (l) "Hl". iApply "HQ". iExists es. iFrame.
Qed.

Lemma wp_store_optional {A} (R : loc → A → iProp Σ) store x n Q :
  (∀ x n Q, (∀ e, R e x -∗ Q e n) -∗ wp (store x) n Q) →
  (∀ l, is_optional R l x -∗ Q l n) -∗
  wp (store_optional store x) n Q.
Proof.
  iIntros (Hstore) "HQ". destruct x as [x|]; simpl.
  - iApply wp_bind. iApply Hstore. iIntros (e) "He".
    iApply wp_ret. by iApply ("HQ" $! (Some e)).
  - iApply wp_ret. by iApply ("HQ" $! None).
Qed.

Lemma wp_store_viewItem viewItem n Q :
  (∀ l, is_viewItem (DfracOwn 1) l viewItem -∗ Q l n) -∗
  wp (store_viewItem viewItem) n Q.
Proof.
  iIntros "HQ". unfold store_viewItem.
  iApply wp_bind. iApply wp_alloc. iIntros (tile) "Htile".
  iApply wp_alloc. iIntros (l) "Hl". iApply "HQ". iExists tile. iFrame.
Qed.

Lemma wp_store_view view n Q :
  (∀ l, is_view (DfracOwn 1) l view -∗ Q l n) -∗ wp (store_view view) n Q.
Proof.
  iIntros "HQ". unfold store_view.
  iApply wp_bind.
  iApply (wp_store_array (is_viewItem (DfracOwn 1))); [apply wp_store_viewItem|].
  iIntros (items) "Hitems". iApply wp_bind.
  iApply (wp_store_optional (is_array (is_connector (DfracOwn 1)) (DfracOwn 1))).
  { iIntros (xs n' Q') "HQ'". iApply (wp_store_array (is_connector (DfracOwn 1))); [|done].
    iIntros (x n'' Q'') "HQ''". by iApply wp_alloc. }
  iIntros (connectors) "Hconnectors". iApply wp_bind.
  iApply (wp_store_optional (is_array (is_rectangle (DfracOwn 1)) (DfracOwn 1))).
  { iIntros (xs n' Q') "HQ'". iApply (wp_store_array (is_rectangle (DfracOwn 1))); [|done].
    iIntros (x n'' Q'') "HQ''". by iApply wp_alloc. }
  iIntros (rectangles) "Hrectangles". iApply wp_bind.
  iApply (wp_store_optional (is_array (is_textBox (DfracOwn 1)) (DfracOwn 1))).
  { iIntros (xs n' Q') "HQ'". iApply (wp_store_array (is_textBox (DfracOwn 1))); [|done].
    iIntros (x n'' Q'') "HQ''". by iApply wp_alloc. }
  iIntros (textBoxes) "HtextBoxes".
  iApply wp_alloc. iIntros (l) "Hl". iApply "HQ".
  iExists items, connectors, rectangles, textBoxes. iFrame.
Qed.

Lemma wp_store_model m n Q :
  (∀ l, is_model (DfracOwn 1) l m -∗ Q l n) -∗ wp (store_model m) n Q.
Proof.
  iIntros "HQ". unfold store_model.
  iApply wp_bind. iApply (wp_store_array (is_item (DfracOwn 1))).
  { iIntros (x n' Q') "HQ'". by iApply wp_alloc. }
  iIntros (items) "Hitems". iApply wp_bind.
  iApply (wp_store_array (is_view (DfracOwn 1))); [apply wp_store_view|].
  iIntros (views) "Hviews".
  iApply wp_alloc. iIntros (l) "Hl". iApply "HQ". iExists items, views. iFrame.
Qed.

End heap_logic.

Section heap_soundness.

Local Set Warnings "-rewrite-rw".

Import iris.bi.bi iris.proofmode.proofmode iris.base_logic.lib.gen_heap.
Import iris.base_logic.base_logic.

(** Every model has an object graph: [store_state] builds one in any
    store, writes no object that exists, and the instance it returns holds
    the model it was given. *)
Lemma store_state_snapshot (m : Model) (s : Store) :
  ∃ this base s',
    store_state m s = Some (this, s')
    ∧ heap s !! this = None
    ∧ heap s' !! this = Some (StateObject base)
    ∧ snapshot (heap s') base = Some m
    ∧ (∀ l o, heap s !! l = Some o → heap s' !! l = Some o).
Proof.
  set (Σ := #[gen_heapΣ loc Object]).
  apply (pure_soundness (PROP := iPropI Σ)).
  apply (uPred.bupd_soundness _).
  iMod (gen_heap_init (map_seq 0 (heap s))) as (Hheap) "(Hs & Hcells & _)".
  iAssert (|==> frozen (heap s))%I with "[Hcells]" as ">#Hfrozen".
  { iApply big_sepM_bupd. iApply (big_sepM_impl with "Hcells").
    iIntros "!>" (l o _) "Hl". by iApply pointsto_persist. }
  iAssert (wp_from (st_uuid_source s) (store_state m) (st_uuid_next s)
             (λ this _, ∃ base, pointsto this (DfracOwn 1) (StateObject base) ∗
                                is_model (DfracOwn 1) base m))%I as "Hrun".
  { unfold store_state. iApply wp_bind. iApply wp_store_model.
    iIntros (base) "Hbase". iApply wp_alloc. iIntros (this) "Hthis".
    iExists base. iFrame. }
  iMod ("Hrun" $! s eq_refl eq_refl with "Hs") as (this s' Hrun Hsrc) "(Hs & Hpost)".
  iDestruct "Hpost" as (base) "[Hthis Hbase]".
  iDestruct (cell_lookup with "Hthis Hs") as %Hthis.
  iDestruct (model_snapshot with "Hbase Hs") as %Hbase.
  iAssert (⌜∀ l o, heap s !! l = Some o → heap s' !! l = Some o⌝)%I as %Hframe.
  { iIntros (l o Hl). iDestruct (frozen_lookup with "Hfrozen") as "Hl"; [exact Hl|].
    iApply (cell_lookup with "Hl Hs"). }
  iAssert (⌜heap s !! this = None⌝)%I as %Hnew.
  { destruct (heap s !! this) as [o|] eqn:Hold; [|done].
    iDestruct (frozen_lookup with "Hfrozen") as "Hold"; [exact Hold|].
    by iDestruct (pointsto_ne with "Hthis Hold") as %?. }
  iModIntro. iPureIntro. by exists this, base, s'.
Qed.

(** The draft protects the base from the assignments that go to the draft
    and to nothing else: a recipe that assigns to the base itself, here to
    its title, changes the model that the base holds.  That the earlier
    model stays as it is, is therefore a property of the recipes. *)
Lemma produce_protects_only_the_draft :
  ∃ draft s',
    Heap.produce example_instance_model
      (λ _, Heap.assign (Heap.set_title "Changed") example_instance_model)
      example_store = Some (draft, s')
    ∧ snapshot (heap s') example_instance_model
      = Some (set_m_title "Changed" example_model)
    ∧ snapshot (heap s') draft = Some example_model.
Proof. eexists _, _. split; [vm_compute; reflexivity|]. split; reflexivity. Qed.

(** C2: every mutation operation, called on an instance [this] whose
    model is the object graph of a model [m] with a view (the class
    invariant), returns: it does not throw, and its result is a reference
    to an instance that did not exist before.  No object that existed
    before the call is written: each of them is afterwards the object it
    was, so that the model held by [this] is still [m], field by field.
    The new instance holds a model that has a view again, and that is the
    model which the embedding over values computes for the operation. *)
Theorem mutation_preserves_prior_state
    (op : DiagramState.Mutation) (s : Store) (this base : loc) (m : Model) :
  heap s !! this = Some (StateObject base) →
  snapshot (heap s) base = Some m →
  m_views m ≠ [] →
  ∃ this' base' m' s',
    Heap.mutate op this s = Some (this', s')
    ∧ heap s !! this' = None
    ∧ heap s' !! this' = Some (StateObject base')
    ∧ snapshot (heap s') base' = Some m'
    ∧ returned (DiagramState.mutate op {| model := m; scene := INITIAL_SCENE |})
        (world_of s)
      = Some {| model := m'; scene := INITIAL_SCENE |}
    ∧ m_views m' ≠ []
    ∧ (∀ l o, heap s !! l = Some o → heap s' !! l = Some o)
    ∧ snapshot (heap s') base = Some m.
Proof.
  intros Hthis Hbase Hviews.
  set (Σ := #[gen_heapΣ loc Object]).
  apply (pure_soundness (PROP := iPropI Σ)).
  apply (uPred.bupd_soundness _).
  iMod (gen_heap_init (map_seq 0 (heap s))) as (Hheap) "(Hs & Hcells & _)".
  iAssert (|==> frozen (heap s))%I with "[Hcells]" as ">#Hfrozen".
  { iApply big_sepM_bupd. iApply (big_sepM_impl with "Hcells").
    iIntros "!>" (l o _) "Hl". by iApply pointsto_persist. }
  iDestruct (frozen_lookup with "Hfrozen") as "Hthis"; [exact Hthis|].
  iDestruct (frozen_model with "Hfrozen") as "Hbase"; [exact Hbase|].
  iPoseProof (wp_mutate (st_uuid_source s) op this base m (st_uuid_next s)
                (world_of s)
                (λ this' _, ∃ base' m',
                   ⌜returned
                      (DiagramState.mutate op {| model := m; scene := INITIAL_SCENE |})
                      (world_of s)
                    = Some {| model := m'; scene := INITIAL_SCENE |}⌝ ∗
                   pointsto this' (DfracOwn 1) (StateObject base') ∗
                   is_model (DfracOwn 1) base' m')%I
              with "Hthis Hbase []") as "Hrun"; [done..| |].
  { iIntros (this' base' m' n' Hreturned) "Hthis' Hbase'".
    iExists base', m'. by iFrame. }
  iMod ("Hrun" $! s eq_refl eq_refl with "Hs")
    as (this' s' Hrun Hsrc) "(Hs & Hpost)".
  iDestruct "Hpost" as (base' m' Hreturned) "[Hthis' Hbase']".
  iDestruct (cell_lookup with "Hthis' Hs") as %Hthis'.
  iDestruct (model_snapshot with "Hbase' Hs") as %Hbase'.
  iDestruct (model_snapshot with "Hbase Hs") as %Hbase_after.
  iAssert (⌜∀ l o, heap s !! l = Some o → heap s' !! l = Some o⌝)%I as %Hframe.
  { iIntros (l o Hl). iDestruct (frozen_lookup with "Hfrozen") as "Hl"; [exact Hl|].
    iApply (cell_lookup with "Hl Hs"). }
  iAssert (⌜heap s !! this' = None⌝)%I as %Hnew.
  { destruct (heap s !! this') as [o|] eqn:Hold; [|done].
    iDestruct (frozen_lookup with "Hfrozen") as "Hold"; [exact Hold|].
    by iDestruct (pointsto_ne with "Hthis' Hold") as %?. }
  iModIntro. iPureIntro. exists this', base', m', s'. split_and!; try done.
  destruct (mutate_run op {| model := m; scene := INITIAL_SCENE |} (world_of s)
              Hviews) as (m'' & w1 & Hvalues & Hobjects & Hviews').
  rewrite (returned_constructed _ _ _ _ Hvalues Hobjects) in Hreturned.
  by injection Hreturned as <-.
Qed.

Lemma mutation_preserves_prior_state_witness :
  ∃ this' base' m' s',
    Heap.mutate (DiagramState.RemoveNode "node-1" None) example_instance
      example_store = Some (this', s')
    ∧ heap example_store !! this' = None
    ∧ heap s' !! this' = Some (StateObject base')
    ∧ snapshot (heap s') base' = Some m'
    ∧ returned (DiagramState.mutate (DiagramState.RemoveNode "node-1" None)
                  {| model := example_model; scene := INITIAL_SCENE |})
        (world_of example_store)
      = Some {| model := m'; scene := INITIAL_SCENE |}
    ∧ m_views m' ≠ []
    ∧ (∀ l o, heap example_store !! l = Some o → heap s' !! l = Some o)
    ∧ snapshot (heap s') example_instance_model = Some example_model.
Proof.
  apply (mutation_preserves_prior_state (DiagramState.RemoveNode "node-1" None)
           example_store example_instance example_instance_model example_model).
  - reflexivity.
  - reflexivity.
  - discriminate.
Defined.

End heap_soundness.
